(** * A shallow embedding of the segregated-list allocator [mm.c]

    The allocator manages one contiguous, growable heap.  Every block starts
    with an 8-byte header whose first 32-bit word packs the allocated flag
    (bit 0) and the 31-bit block size (bits 1..31); the footer repeats the
    header in the last 8 bytes of the block.  Free blocks keep two 8-byte
    links ([next] at offset 8, [prev] at offset 16) of a doubly linked list,
    one list per size class; the list heads live in an array at the start
    of the heap.

    The memory is byte addressed and little endian, as on the x86-64
    machines the allocator is written for.  Addresses are mathematical
    integers (pointer arithmetic that would overflow is undefined in C and
    is not wrapped here); the contents of a 32- or 64-bit object wrap as the
    C types do. *)

From Stdlib Require Import ZArith Lia Bool String Ascii.
From stdpp Require Import base numbers option list gmap.

Local Open Scope Z_scope.

(** ** Byte-addressed memory *)

Notation mem := (gmap Z Z).

Definition load8 (m : mem) (a : Z) : Z := default 0 (m !! a) mod 256.

Definition store8 (a v : Z) (m : mem) : mem := <[a := v mod 256]> m.

(** Little-endian objects of [n] bytes. *)
Fixpoint load_le (n : nat) (m : mem) (a : Z) : Z :=
  match n with
  | O => 0
  | S k => load8 m a + 256 * load_le k m (a + 1)
  end.

Fixpoint store_le (n : nat) (a v : Z) (m : mem) : mem :=
  match n with
  | O => m
  | S k => store_le k (a + 1) (v / 256) (store8 a v m)
  end.

Definition load32 : mem -> Z -> Z := load_le 4.
Definition load64 : mem -> Z -> Z := load_le 8.
Definition store32 : Z -> Z -> mem -> mem := store_le 4.
Definition store64 : Z -> Z -> mem -> mem := store_le 8.

(** [memcpy]: a forward byte loop (the C function is undefined on
    overlapping regions; the allocator never calls it on such). *)
Fixpoint memcpy_bytes (n : nat) (dst src : Z) (m : mem) : mem :=
  match n with
  | O => m
  | S k => memcpy_bytes k (dst + 1) (src + 1) (store8 dst (load8 m src) m)
  end.

Definition memcpy (dst src n : Z) (m : mem) : mem :=
  memcpy_bytes (Z.to_nat n) dst src m.

(** ** C integer conversions *)

Definition to_uint31 (x : Z) : Z := x mod 2 ^ 31.
Definition to_uint32 (x : Z) : Z := x mod 2 ^ 32.
Definition to_size_t (x : Z) : Z := x mod 2 ^ 64.
Definition to_int (x : Z) : Z := (x + 2 ^ 31) mod 2 ^ 32 - 2 ^ 31.

(** ** Constants of the source *)

Definition NULL : Z := 0.
Definition FREE : Z := 0.
Definition ALLOC : Z := 1.
Definition sizeof_header : Z := 8.
Definition sizeof_pointer : Z := 8.
Definition CHUNKSIZE : Z := Z.shiftl 1 16.
Definition OVERHEAD : Z := sizeof_header + sizeof_header.
Definition MIN_BLOCK_SIZE : Z := 32.
Definition TOTALNUMLIST : Z := 11.

(** The value [(void * )-1] that the heap extender returns on failure. *)
Definition SBRK_FAILED : Z := -1.

(** ** Block fields

    [header_t] and the head of [block_t] are the bit-fields
    [allocated : 1] and [block_size : 31] of one 32-bit word, followed by 32
    bits of padding that no code touches. *)

Definition get_allocated (m : mem) (b : Z) : Z := load32 m b mod 2.
Definition get_block_size (m : mem) (b : Z) : Z := load32 m b / 2.

Definition put_allocated (b v : Z) (m : mem) : mem :=
  store32 b (2 * (load32 m b / 2) + v mod 2) m.

Definition put_block_size (b s : Z) (m : mem) : mem :=
  store32 b (2 * to_uint31 s + load32 m b mod 2) m.

Definition get_next (m : mem) (b : Z) : Z := load64 m (b + 8).
Definition get_prev (m : mem) (b : Z) : Z := load64 m (b + 16).
Definition put_next (b p : Z) (m : mem) : mem := store64 (b + 8) p m.
Definition put_prev (b p : Z) (m : mem) : mem := store64 (b + 16) p m.

(** [block->body.payload] *)
Definition payload (b : Z) : Z := b + sizeof_header.

(** ** Size classes *)

(** [__builtin_clz] on a 32-bit unsigned value.  The builtin is undefined
    at 0; the model answers 32 there, which is what the [lzcnt]
    instruction gives. *)
Definition builtin_clz (x : Z) : Z :=
  if x =? 0 then 32 else 31 - Z.log2 x.

Definition logBaseTwo (input : Z) : Z := 31 - builtin_clz (to_uint32 input).

Definition segListIndex (input : Z) : Z :=
  let index := logBaseTwo input - 5 in
  if index <? TOTALNUMLIST - 1 then index else TOTALNUMLIST - 1.

(** ** The heap extender

    Modelled from the spec: the heap extender [mem_sbrk] of memlib is an
    external collaborator whose code is not part of the sources.  Section 6
    of the specification gives its interface: it grows the managed region by
    exactly the requested number of bytes and returns the base of the new
    region, contiguous with the previous one, or signals failure.  This
    instance keeps the break and the end of the arena and refuses a request
    that is negative or does not fit. *)
Record memlib := mkMemlib { mem_brk : Z; mem_max_addr : Z }.

Definition memlib_sbrk (incr : Z) (e : memlib) : Z * memlib :=
  if (incr <? 0) || (mem_max_addr e <? mem_brk e + incr)
  then (SBRK_FAILED, e)
  else (mem_brk e, mkMemlib (mem_brk e + incr) (mem_max_addr e)).

(** What a call of [mm_realloc] ends in: a returned payload, or the end of
    the process through [exit], after the text written by [printf]. *)
Inductive outcome (S : Type) : Type :=
| Returned (p : Z) (st : S)
| Exited (code : Z) (printed : string).

Arguments Returned {S} p st.
Arguments Exited {S} code printed.

Definition newline : string := String (ascii_of_nat 10) EmptyString.

Section Allocator.

(** The allocator is written against any extender: [mem_sbrk incr e]
    returns the pointer handed back and the extender's next state. *)
Context {E : Type}.
Variable mem_sbrk : Z -> E -> Z * E.

(** The process state: the heap bytes, the two globals of [mm.c] and the
    state of the extender. *)
Record state : Type := mkState {
  heap : mem;
  segListHead : Z;
  prologue : Z;
  extender : E
}.

Definition on_heap (f : mem -> mem) (st : state) : state :=
  mkState (f (heap st)) (segListHead st) (prologue st) (extender st).

Definition allocated (st : state) (b : Z) : Z := get_allocated (heap st) b.
Definition block_size (st : state) (b : Z) : Z := get_block_size (heap st) b.
Definition next (st : state) (b : Z) : Z := get_next (heap st) b.
Definition prev (st : state) (b : Z) : Z := get_prev (heap st) b.

Definition set_allocated (b v : Z) : state -> state := on_heap (put_allocated b v).
Definition set_block_size (b s : Z) : state -> state := on_heap (put_block_size b s).
Definition set_next (b p : Z) : state -> state := on_heap (put_next b p).
Definition set_prev (b p : Z) : state -> state := on_heap (put_prev b p).

(** [segListHead[index]] *)
Definition head_addr (st : state) (index : Z) : Z :=
  segListHead st + sizeof_pointer * index.
Definition head (st : state) (index : Z) : Z := load64 (heap st) (head_addr st index).
Definition set_head (index p : Z) (st : state) : state :=
  on_heap (store64 (head_addr st index) p) st.

Definition get_footer (st : state) (block : Z) : Z :=
  block + block_size st block - sizeof_header.

(** *** Free lists *)

Definition list_push (newblock index : Z) (st : state) : state :=
  if head st index =? NULL then
    let st := set_head index newblock st in
    let st := set_prev newblock NULL st in
    set_next newblock NULL st
  else
    let st := set_next newblock (head st index) st in
    let st := set_prev newblock NULL st in
    let st := set_prev (head st index) newblock st in
    set_head index newblock st.

Definition list_pop (removeblock index : Z) (st : state) : state :=
  if (prev st removeblock =? NULL) && (next st removeblock =? NULL) then
    set_head index NULL st
  else if head st index =? removeblock then
    let st := set_head index (next st removeblock) st in
    set_prev (next st removeblock) NULL st
  else if next st removeblock =? NULL then
    set_next (prev st removeblock) NULL st
  else
    let st := set_prev (next st removeblock) (prev st removeblock) st in
    set_next (prev st removeblock) (next st removeblock) st.

(** *** coalesce *)

Definition coalesce (block : Z) (st : state) : Z * state :=
  let prev_footer := block - sizeof_header in
  let next_header := block + block_size st block in
  let prev_alloc := negb (allocated st prev_footer =? 0) in
  let next_alloc := negb (allocated st next_header =? 0) in
  let next_block := next_header in
  let prev_block := prev_footer - block_size st prev_footer + sizeof_header in
  if prev_alloc && next_alloc then
    (block, st)
  else if prev_alloc && negb next_alloc then
    let st := list_pop block (segListIndex (block_size st block)) st in
    let st := list_pop next_block (segListIndex (block_size st next_block)) st in
    let st := set_block_size block
                (block_size st block + block_size st next_header) st in
    let next_footer := get_footer st block in
    let st := set_block_size next_footer (block_size st block) st in
    let st := list_push block (segListIndex (block_size st block)) st in
    (block, st)
  else if negb prev_alloc && next_alloc then
    let st := list_pop block (segListIndex (block_size st block)) st in
    let st := list_pop prev_block (segListIndex (block_size st prev_block)) st in
    let st := set_block_size prev_block
                (block_size st prev_block + block_size st block) st in
    let footer := get_footer st prev_block in
    let st := set_block_size footer (block_size st prev_block) st in
    let block := prev_block in
    let st := list_push block (segListIndex (block_size st block)) st in
    (block, st)
  else
    let st := list_pop prev_block (segListIndex (block_size st prev_block)) st in
    let st := list_pop block (segListIndex (block_size st block)) st in
    let st := list_pop next_block (segListIndex (block_size st next_block)) st in
    let prev_block := prev_footer - block_size st prev_footer + sizeof_header in
    let st := set_block_size prev_block
                (block_size st prev_block
                 + (block_size st block + block_size st next_header)) st in
    let next_footer := get_footer st prev_block in
    let st := set_block_size next_footer (block_size st prev_block) st in
    let block := prev_block in
    let st := list_push block (segListIndex (block_size st block)) st in
    (block, st).

(** *** extend_heap *)

Definition extend_heap (words : Z) (willCoalesce : bool) (st : state) : Z * state :=
  let size := to_uint32 (Z.shiftl words 3) in
  if size =? 0 then (NULL, st)
  else
    let '(block, e) := mem_sbrk size (extender st) in
    let st := mkState (heap st) (segListHead st) (prologue st) e in
    if block =? SBRK_FAILED then (NULL, st)
    else
      let block := block - sizeof_header in
      let st := set_allocated block FREE st in
      let st := set_block_size block size st in
      let block_footer := get_footer st block in
      let st := set_allocated block_footer FREE st in
      let st := set_block_size block_footer (block_size st block) st in
      let new_epilogue := block_footer + sizeof_header in
      let st := set_allocated new_epilogue ALLOC st in
      let st := set_block_size new_epilogue 0 st in
      let blockIndex := segListIndex (block_size st block) in
      let st := list_push block blockIndex st in
      if willCoalesce then coalesce block st else (block, st).

(** *** place *)

Definition place (block asize : Z) (st : state) : state :=
  let split_size := to_size_t (block_size st block - asize) in
  if MIN_BLOCK_SIZE <=? split_size then
    let indexNum := segListIndex (block_size st block) in
    let st := list_pop block indexNum st in
    let st := set_block_size block asize st in
    let st := set_allocated block ALLOC st in
    let footer := get_footer st block in
    let st := set_block_size footer asize st in
    let st := set_allocated footer ALLOC st in
    let new_block := block + block_size st block in
    let st := set_block_size new_block split_size st in
    let st := set_allocated new_block FREE st in
    let new_footer := get_footer st new_block in
    let st := set_block_size new_footer split_size st in
    let st := set_allocated new_footer FREE st in
    let indexNum := segListIndex (block_size st new_block) in
    list_push new_block indexNum st
  else
    let indexNum := segListIndex (block_size st block) in
    let st := list_pop block indexNum st in
    let st := set_allocated block ALLOC st in
    let footer := get_footer st block in
    set_allocated footer ALLOC st.

(** *** find_fit

    The inner loop follows [next] links for as long as they are not
    [NULL]; on a list that is cyclic it does not end.  [scan_list] takes
    the number of nodes it may visit and answers [None] when that is
    used up, [Some NULL] at the end of the list and [Some b] at the first
    block that fits. *)

Fixpoint scan_list (fuel : nat) (st : state) (asize b : Z) : option Z :=
  match fuel with
  | O => None
  | S fuel' =>
      if b =? NULL then Some NULL
      else if (allocated st b =? 0) && (asize <=? block_size st b) then Some b
      else scan_list fuel' st asize (next st b)
  end.

Fixpoint scan_lists (lists : nat) (fuel : nat) (st : state) (asize i : Z) : option Z :=
  match lists with
  | O => Some NULL
  | S lists' =>
      match scan_list fuel st asize (head st i) with
      | None => None
      | Some b =>
          if b =? NULL then scan_lists lists' fuel st asize (i + 1) else Some b
      end
  end.

Definition find_fit (fuel : nat) (asize : Z) (st : state) : option Z :=
  let sizeIndex := segListIndex (to_int asize) in
  scan_lists (Z.to_nat (TOTALNUMLIST - sizeIndex)) fuel st asize sizeIndex.

(** *** The public operations *)

Fixpoint clear_heads (n : nat) (i : Z) (st : state) : state :=
  match n with
  | O => st
  | S n' => clear_heads n' (i + 1) (set_head i NULL st)
  end.

Definition mm_init (st : state) : Z * state :=
  let '(p, e) := mem_sbrk (sizeof_pointer * TOTALNUMLIST) (extender st) in
  let st := mkState (heap st) p (prologue st) e in
  let st := clear_heads (Z.to_nat TOTALNUMLIST) 0 st in
  let '(p, e) := mem_sbrk CHUNKSIZE (extender st) in
  let st := mkState (heap st) (segListHead st) p e in
  if prologue st =? SBRK_FAILED then (-1, st)
  else
    let st := set_allocated (prologue st) ALLOC st in
    let st := set_block_size (prologue st) sizeof_header st in
    let init_block := prologue st + sizeof_header in
    let st := set_allocated init_block FREE st in
    let st := set_block_size init_block (CHUNKSIZE - OVERHEAD) st in
    let st := set_next init_block NULL st in
    let st := set_prev init_block NULL st in
    let init_footer := get_footer st init_block in
    let st := set_allocated init_footer FREE st in
    let st := set_block_size init_footer (block_size st init_block) st in
    let st := set_head (TOTALNUMLIST - 1) init_block st in
    let epilogue := init_block + block_size st init_block in
    let st := set_allocated epilogue ALLOC st in
    let st := set_block_size epilogue 0 st in
    (0, st).

(** The adjusted block size computed at the top of [mm_malloc]: [size] is
    a [size_t], [asize] a [uint32_t]. *)
Definition adjust_size (size : Z) : Z :=
  let size := to_size_t (size + OVERHEAD) in
  let asize := to_uint32 (Z.shiftl (Z.shiftr (to_size_t (size + 7)) 3) 3) in
  if asize <? MIN_BLOCK_SIZE then MIN_BLOCK_SIZE else asize.

(** The statements of [mm_malloc] that follow the fast path: the search of
    the free lists and, when nothing fits, the growth of the heap. *)
Definition mm_malloc_search (fuel : nat) (asize : Z) (st : state)
  : option (Z * state) :=
  match find_fit fuel asize st with
  | None => None
  | Some block =>
      if negb (block =? NULL) then
        Some (payload block, place block asize st)
      else
        let extendsize := if CHUNKSIZE <? asize then asize else CHUNKSIZE in
        let extendwords := Z.shiftr extendsize 3 in
        let '(block, st) := extend_heap extendwords true st in
        if negb (block =? NULL) then
          Some (payload block, place block asize st)
        else Some (NULL, st)
  end.

Definition mm_malloc (fuel : nat) (size : Z) (st : state) : option (Z * state) :=
  if size =? 0 then Some (NULL, st)
  else
    let asize := adjust_size size in
    if asize <=? 96 then
      let extendsize := asize in
      let extendwords := Z.shiftr extendsize 3 in
      let '(block, st) := extend_heap extendwords false st in
      if negb (block =? NULL) then
        Some (payload block, place block asize st)
      else mm_malloc_search fuel asize st
    else mm_malloc_search fuel asize st.

Definition mm_free (payload_ptr : Z) (st : state) : state :=
  let block := payload_ptr - sizeof_header in
  let st := set_allocated block FREE st in
  let footer := get_footer st block in
  let st := set_allocated footer FREE st in
  let freeIndex := segListIndex (block_size st block) in
  let st := list_push block freeIndex st in
  snd (coalesce block st).

Definition mm_realloc (fuel : nat) (ptr size : Z) (st : state)
  : option (outcome state) :=
  match mm_malloc fuel size st with
  | None => None
  | Some (newp, st) =>
      if newp =? NULL then
        Some (Exited 1 (String.append "ERROR: mm_malloc failed in mm_realloc" newline))
      else
        let block := ptr - sizeof_header in
        let copySize := block_size st block in
        let copySize := if size <? copySize then size else copySize in
        let st := on_heap (memcpy newp ptr copySize) st in
        let st := mm_free ptr st in
        Some (Returned newp st)
  end.

End Allocator.

Arguments state : clear implicits.
Arguments mkState {E} heap segListHead prologue extender.

(** * The specification's vocabulary *)

(** [align8 x]: [x] rounded up to a multiple of 8. *)
Definition align8 (x : Z) : Z := 8 * ((x + 7) / 8).

(** Size adjustment of section 4.4: [align8 (u + OVERHEAD)], raised to at
    least [MIN_BLOCK_SIZE]. *)
Definition required_size (u : Z) : Z := Z.max MIN_BLOCK_SIZE (align8 (u + OVERHEAD)).

(** The size class as the data model words it:
    [min (C - 1) (floor (log2 s) - 5)], clamped at 0 below. *)
Definition size_class_clamped (s : Z) : Z :=
  Z.max 0 (Z.min (TOTALNUMLIST - 1) (Z.log2 s - 5)).

Section Claimed.

Context {E : Type}.
Variable mem_sbrk : Z -> E -> Z * E.

(** Allocation read as a two-way choice on [asize <= 96]: the small
    request is served by the extension alone and yields null when the
    extender fails; only larger requests search the lists. *)
Definition alloc_two_way (fuel : nat) (u : Z) (st : state E) : option (Z * state E) :=
  if u =? 0 then Some (NULL, st)
  else
    let asize := required_size u in
    if asize <=? 96 then
      let '(b, st) := extend_heap mem_sbrk (asize / 8) false st in
      if b =? NULL then Some (NULL, st)
      else Some (payload b, place b asize st)
    else
      match find_fit fuel asize st with
      | None => None
      | Some b =>
          if negb (b =? NULL) then Some (payload b, place b asize st)
          else
            let '(b, st) :=
              extend_heap mem_sbrk (Z.max asize CHUNKSIZE / 8) true st in
            if b =? NULL then Some (NULL, st)
            else Some (payload b, place b asize st)
      end.

(** Allocation as a sequence of attempts: the extension of the fast path
    when [asize <= 96], then the first-fit search, then the extension by
    [max asize CHUNKSIZE]; each attempt that fails hands over to the
    next, and null is the answer when the last one fails. *)
Definition alloc_in_order (fuel : nat) (u : Z) (st : state E) : option (Z * state E) :=
  if u =? 0 then Some (NULL, st)
  else
    let asize := required_size u in
    let '(b, st) :=
      if asize <=? 96 then extend_heap mem_sbrk (asize / 8) false st
      else (NULL, st) in
    if negb (b =? NULL) then Some (payload b, place b asize st)
    else
      match find_fit fuel asize st with
      | None => None
      | Some b =>
          if negb (b =? NULL) then Some (payload b, place b asize st)
          else
            let '(b, st) :=
              extend_heap mem_sbrk (Z.max asize CHUNKSIZE / 8) true st in
            if negb (b =? NULL) then Some (payload b, place b asize st)
            else Some (NULL, st)
      end.

End Claimed.

(** The blocks that a walk of the heap meets, as [mm_checkheap] walks it:
    from [b], by [address + size] steps, up to the block of size 0. *)
Fixpoint heap_blocks (fuel : nat) (m : mem) (b : Z) : list Z :=
  match fuel with
  | O => []
  | S k =>
      if get_block_size m b =? 0 then []
      else b :: heap_blocks k m (b + get_block_size m b)
  end.

(** The nodes of a free list, as [find_fit] walks it. *)
Fixpoint list_nodes (fuel : nat) (m : mem) (p : Z) : list Z :=
  match fuel with
  | O => []
  | S k => if p =? NULL then [] else p :: list_nodes k m (get_next m p)
  end.

(** A well-formed doubly linked list in memory: [l] are its nodes in order
    from [p], and [prv] is what the first node's [prev] link holds. *)
Fixpoint dll (m : mem) (prv p : Z) (l : list Z) : Prop :=
  match l with
  | [] => p = NULL
  | x :: l' => p = x /\ x <> NULL /\ get_prev m x = prv /\ dll m x (get_next m x) l'
  end.

(** Every class list ends, within [fuel] nodes. *)
Definition lists_end {E} (fuel : nat) (st : state E) : Prop :=
  forall i, 0 <= i < TOTALNUMLIST ->
    exists l, dll (heap st) NULL (head st i) l /\ (length l < fuel)%nat.

(** ** Concrete heaps

    A fresh process: empty memory, the break at 4096 and [cap] bytes of
    arena; and the heap [mm_init] makes of it. *)
Definition fresh (cap : Z) : state memlib :=
  mkState ∅ 0 0 (mkMemlib 4096 (4096 + cap)).

Definition after_init (cap : Z) : state memlib :=
  snd (mm_init memlib_sbrk (fresh cap)).

(** An arena of 20 MB, as in the lab's driver, and one that [mm_init]
    uses up to the last byte. *)
Definition roomy : Z := 20 * 2 ^ 20.
Definition exact_fit : Z := sizeof_pointer * TOTALNUMLIST + CHUNKSIZE.

(** * The abstract heap

    The heap as the data model of the specification sees it: the blocks in
    address order, each with its size and allocated flag, and the nodes of
    every class list in list order. *)

Record blk : Type := mkBlk { b_addr : Z; b_size : Z; b_alloc : bool }.

Record aheap : Type := mkHeap { blocks : list blk; flist : Z -> list Z }.

Definition flag (a : bool) : Z := if a then ALLOC else FREE.

(** Header and footer of [B] hold its size and its flag. *)
Definition tagged (m : mem) (B : blk) : Prop :=
  get_block_size m (b_addr B) = b_size B
  /\ get_allocated m (b_addr B) = flag (b_alloc B)
  /\ get_block_size m (b_addr B + b_size B - 8) = b_size B
  /\ get_allocated m (b_addr B + b_size B - 8) = flag (b_alloc B).

(** The blocks lie one after the other from [a] on. *)
Fixpoint contig (a : Z) (bs : list blk) : Prop :=
  match bs with
  | [] => True
  | B :: bs' => b_addr B = a /\ contig (a + b_size B) bs'
  end.

Fixpoint total_size (bs : list blk) : Z :=
  match bs with
  | [] => 0
  | B :: bs' => b_size B + total_size bs'
  end.

(** Sizes of the data model: a multiple of 8 that holds header and footer,
    and, for a free block, the two links as well. *)
Definition size_ok (B : blk) : Prop :=
  8 <= b_size B /\ b_size B mod 8 = 0
  /\ (b_alloc B = false -> MIN_BLOCK_SIZE <= b_size B).

(** [x] is the address of a block that has room for the two links. *)
Definition block_node (bs : list blk) (x : Z) : Prop :=
  exists B, B ∈ bs /\ b_addr B = x /\ MIN_BLOCK_SIZE <= b_size B.

(** [x] is the address of a free block of class [k]. *)
Definition free_of_class (bs : list blk) (k x : Z) : Prop :=
  exists B, B ∈ bs /\ b_addr B = x /\ b_alloc B = false
            /\ segListIndex (b_size B) = k.

(** Updates of the class lists. *)
Definition fl_remove (x k : Z) (fl : Z -> list Z) : Z -> list Z :=
  fun i => if i =? k then filter (fun y => y <> x) (fl i) else fl i.

Definition fl_push (x k : Z) (fl : Z -> list Z) : Z -> list Z :=
  fun i => if i =? k then x :: fl i else fl i.

Section Representation.

Context {E : Type}.
Implicit Types (st : state E) (H : aheap).

(** The class lists in memory: list [k] is a well-formed doubly linked
    list of the nodes [fl k], and no node is on two lists or twice on
    one. *)
Record lists_ok (st : state E) (fl : Z -> list Z) : Prop := {
  lo_dll : forall k, 0 <= k < TOTALNUMLIST ->
             dll (heap st) NULL (head st k) (fl k);
  lo_nodup : forall k, 0 <= k < TOTALNUMLIST -> NoDup (fl k);
  lo_disj : forall j k x, 0 <= j < TOTALNUMLIST -> 0 <= k < TOTALNUMLIST ->
              x ∈ fl j -> x ∈ fl k -> j = k
}.

(** The addresses [N] at which list nodes can be: above the head array,
    within 64 bits, and far enough from each other for their links not to
    overlap. *)
Record node_space (st : state E) (N : Z -> Prop) : Prop := {
  ns_heads : 0 < segListHead st;
  ns_above : forall x, N x -> segListHead st + sizeof_pointer * TOTALNUMLIST <= x;
  ns_fits : forall x, N x -> x + 24 <= 2 ^ 64;
  ns_apart : forall x y, N x -> N y -> x <> y -> x + 24 <= y \/ y + 24 <= x
}.

Definition nodes_in (N : Z -> Prop) (fl : Z -> list Z) : Prop :=
  forall k x, 0 <= k < TOTALNUMLIST -> x ∈ fl k -> N x.

(** The blocks in memory: the head array lies below the prologue, the
    blocks tile the heap from the prologue to the epilogue, and all of it
    fits 31-bit sizes and 64-bit addresses. *)
Record blocks_ok (st : state E) (bs : list blk) : Prop := {
  bo_heads : 0 < segListHead st
             /\ segListHead st + sizeof_pointer * TOTALNUMLIST <= prologue st;
  bo_prologue : get_block_size (heap st) (prologue st) = sizeof_header
                /\ get_allocated (heap st) (prologue st) = ALLOC;
  bo_contig : contig (prologue st + sizeof_header) bs;
  bo_epilogue :
    let epi := prologue st + sizeof_header + total_size bs in
    get_block_size (heap st) epi = 0 /\ get_allocated (heap st) epi = ALLOC;
  bo_bound : sizeof_header + total_size bs + sizeof_header < 2 ^ 31
             /\ prologue st + sizeof_header + total_size bs + sizeof_header <= 2 ^ 64;
  bo_sizes : forall B, B ∈ bs -> size_ok B;
  bo_tagged : forall B, B ∈ bs -> tagged (heap st) B
}.

(** Every node is a free block of the class of its list. *)
Definition nodes_free (bs : list blk) (fl : Z -> list Z) : Prop :=
  forall k x, 0 <= k < TOTALNUMLIST -> x ∈ fl k -> free_of_class bs k x.

(** Every free block is a node of the list of its class. *)
Definition free_listed (bs : list blk) (fl : Z -> list Z) : Prop :=
  forall B, B ∈ bs -> b_alloc B = false ->
    b_addr B ∈ fl (segListIndex (b_size B)).

(** The heap between two steps of an operation: blocks and lists are
    well formed and every node is a free block, but a free block may be
    off its list for the moment. *)
Record Pre (H : aheap) (st : state E) : Prop := {
  pre_blocks : blocks_ok st (blocks H);
  pre_lists : lists_ok st (flist H);
  pre_nodes : nodes_free (blocks H) (flist H)
}.

(** [H] is what the state [st] holds. *)
Record Rep (H : aheap) (st : state E) : Prop := {
  rep_pre : Pre H st;
  rep_free : free_listed (blocks H) (flist H)
}.

(** The bytes of the tags: of the prologue, of the epilogue, and of the
    header and the footer of every block. *)
Definition tag_byte st (bs : list blk) (i : Z) : Prop :=
  prologue st <= i < prologue st + 4
  \/ prologue st + 8 + total_size bs <= i < prologue st + 8 + total_size bs + 4
  \/ exists B, B ∈ bs
       /\ (b_addr B <= i < b_addr B + 4
           \/ b_addr B + b_size B - 8 <= i < b_addr B + b_size B - 4).

End Representation.

(** The neighbours of a block [B] of the row [l1 ++ B :: l2]: the block
    before it is the last of [l1] and the block after it the first of
    [l2]; where there is none, the neighbour is the prologue or the
    epilogue, which are allocated. *)
Definition alloc_before (l1 : list blk) : Prop :=
  forall l1' P, l1 = l1' ++ [P] -> b_alloc P = true.

Definition alloc_after (l2 : list blk) : Prop :=
  forall N l2', l2 = N :: l2' -> b_alloc N = true.

(** No two neighbours are both free. *)
Fixpoint no_adjacent_free (bs : list blk) : Prop :=
  match bs with
  | [] => True
  | B :: bs' =>
      match bs' with
      | [] => True
      | B' :: _ => (b_alloc B = false -> b_alloc B' = true)
      end /\ no_adjacent_free bs'
  end.

(** * The allocator under a client

    The heap over the memlib extender, with the payloads [live] that the
    client holds: the abstract heap [H] is what the state holds, every
    block has room for the links, the break is the end of the epilogue,
    the arena ends within 31 bits of the prologue (block sizes are 31-bit
    fields) and within 64-bit addresses, and every live payload is the
    payload of an allocated block. *)
Record heap_ok (H : aheap) (live : list Z) (st : state memlib) : Prop := {
  ok_rep : Rep H st;
  ok_min : forall B, B ∈ blocks H -> MIN_BLOCK_SIZE <= b_size B;
  ok_brk : mem_brk (extender st) = prologue st + 8 + total_size (blocks H) + 8;
  ok_max : mem_max_addr (extender st) < prologue st + 2 ^ 31
           /\ mem_max_addr (extender st) <= 2 ^ 64;
  ok_live : forall p, p ∈ live ->
              exists B, B ∈ blocks H /\ payload (b_addr B) = p /\ b_alloc B = true
}.

(** The heap at a quiescent point. *)
Definition quiescent (H : aheap) (live : list Z) (st : state memlib) : Prop :=
  heap_ok H live st /\ no_adjacent_free (blocks H).

(** The states that a client reaches, with the payloads it holds: it calls
    [mm_init] on a fresh heap whose arena has room for the first chunk and
    is no larger than 2 GB, then [mm_malloc], [mm_free] on a payload it
    holds, and [mm_realloc] on a payload it holds with a size that
    [mm_malloc] does not truncate; between the calls it writes bytes into
    the payloads it holds. *)
Inductive reachable : state memlib -> list Z -> Prop :=
| reach_init cap :
    exact_fit <= cap <= 2 ^ 31 ->
    reachable (after_init cap) []
| reach_malloc st live fuel u p st' :
    reachable st live -> 0 <= u < 2 ^ 64 ->
    mm_malloc memlib_sbrk fuel u st = Some (p, st') ->
    reachable st' (if p =? NULL then live else p :: live)
| reach_free st live p :
    reachable st live -> p ∈ live ->
    reachable (mm_free p st) (filter (fun q => q <> p) live)
| reach_realloc st live fuel p u q st' :
    reachable st live -> p ∈ live -> 0 <= u <= 2 ^ 32 - 24 ->
    mm_realloc memlib_sbrk fuel p u st = Some (Returned q st') ->
    reachable st' (q :: filter (fun r => r <> p) live)
| reach_write st live p i v :
    reachable st live -> p ∈ live ->
    p <= i < p + (block_size st (p - sizeof_header) - OVERHEAD) ->
    reachable (on_heap (store8 i v) st) live.

(** What [mm_malloc] leaves when it answers [p] to a request of adjusted
    size [asize] on the heap [H]: a quiescent heap in which [p], unless
    null, is the payload of an allocated block of at least [asize] bytes
    and joins the payloads the client holds, and in which every block that
    was allocated is still there, at another address than [p]'s. *)
Definition malloc_post (H : aheap) (live : list Z) (asize p : Z)
    (st' : state memlib) : Prop :=
  exists H', quiescent H' (if p =? NULL then live else p :: live) st'
    /\ (p <> NULL ->
          exists B, B ∈ blocks H' /\ payload (b_addr B) = p /\ b_alloc B = true
                    /\ asize <= b_size B)
    /\ (forall B, B ∈ blocks H -> b_alloc B = true ->
          B ∈ blocks H' /\ payload (b_addr B) <> p).

(** ** A run

    On the heap that [mm_init] makes of a fresh arena of 20 MB:
    [mm_malloc 100] answers 4200 and [mm_malloc 200] answers 4320, and the
    first block is freed again.  [freed_unmerged] is the state inside
    [mm_free 4200], right after [mm_malloc 100], when the block is marked
    free and pushed on its list and [coalesce] is about to be called. *)
Definition run_malloc (fuel : nat) (u : Z) (st : state memlib) : Z * state memlib :=
  match mm_malloc memlib_sbrk fuel u st with
  | Some r => r
  | None => (NULL, st)
  end.

Definition run_first : state memlib := snd (run_malloc 4 100 (after_init roomy)).

Definition run_second : state memlib := snd (run_malloc 4 200 run_first).

Definition run_end : state memlib := mm_free 4200 run_second.

Definition init_lists : Z -> list Z := fl_push 4192 10 (fun _ => []).

Definition placed_lists : Z -> list Z :=
  fl_push 4312 (segListIndex 65400) (fl_remove 4192 (segListIndex 65520) init_lists).

Definition freed_unmerged : state memlib :=
  let st := place 4192 120 (after_init roomy) in
  let st1 := set_allocated 4192 FREE st in
  let st2 := set_allocated (get_footer st1 4192) FREE st1 in
  list_push 4192 (segListIndex (block_size st2 4192)) st2.

(** * The consistency checker

    [mm_checkheap], [checkblock] and [printblock] only read the heap and
    write to the standard output.  What they write is kept as the list of
    the calls of [printf], each with its format and its arguments (a
    pointer as its address, a character as its code). *)
Inductive printf_call : Type :=
| Printf (format : string) (args : list Z).

Section Checker.

Context {E : Type}.
Implicit Types (st : state E).

(** [(x ? 'a' : 'f')] *)
Definition flag_char (x : Z) : Z := if x =? 0 then 102 else 97.

Definition printblock st (block : Z) : list printf_call :=
  let hsize := block_size st block in
  let halloc := allocated st block in
  let footer := get_footer st block in
  let fsize := block_size st footer in
  let falloc := allocated st footer in
  if hsize =? 0 then
    [Printf (String.append "%p: EOL" newline) [block]]
  else
    [Printf (String.append "%p: header: [%d:%c] footer: [%d:%c]" newline)
       [block; hsize; flag_char halloc; fsize; flag_char falloc]].

Definition checkblock st (block : Z) : list printf_call :=
  (if to_size_t (payload block) mod 8 =? 0 then []
   else [Printf (String.append "Error: payload for block at %p is not aligned" newline)
           [block]])
  ++
  (let footer := get_footer st block in
   if block_size st block =? block_size st footer then []
   else [Printf (String.append "Error: header does not match footer" newline) []]).

(** The loop of [mm_checkheap] from [block] on: what it prints and the
    block it stops at, the first of size 0.  [fuel] bounds the number of
    blocks; on a heap whose sizes never lead to a block of size 0 the
    loop does not end. *)
Fixpoint check_blocks (fuel : nat) (verbose : Z) st (block : Z)
  : option (list printf_call * Z) :=
  match fuel with
  | O => None
  | S k =>
      if 0 <? block_size st block then
        match check_blocks k verbose st (block + block_size st block) with
        | None => None
        | Some (out, last) =>
            Some ((if verbose =? 0 then [] else printblock st block)
                  ++ checkblock st block ++ out, last)
        end
      else Some ([], block)
  end.

Definition mm_checkheap (fuel : nat) (verbose : Z) st : option (list printf_call) :=
  let block := prologue st in
  let out1 :=
    if verbose =? 0 then []
    else [Printf (String.append "Heap (%p):" newline) [prologue st]] in
  let out2 :=
    if negb (block_size st block =? sizeof_header) || (allocated st block =? 0)
    then [Printf (String.append "Bad prologue header" newline) []]
    else [] in
  let out3 := checkblock st (prologue st) in
  match check_blocks fuel verbose st (prologue st + block_size st (prologue st)) with
  | None => None
  | Some (out4, block) =>
      let out5 := if verbose =? 0 then [] else printblock st block in
      let out6 :=
        if negb (block_size st block =? 0) || (allocated st block =? 0)
        then [Printf (String.append "Bad epilogue header" newline) []]
        else [] in
      Some (out1 ++ out2 ++ out3 ++ out4 ++ out5 ++ out6)
  end.

End Checker.

(** The line that [printblock] writes for a block of the row. *)
Definition block_line (B : blk) : printf_call :=
  Printf (String.append "%p: header: [%d:%c] footer: [%d:%c]" newline)
    [b_addr B; b_size B; flag_char (flag (b_alloc B)); b_size B;
     flag_char (flag (b_alloc B))].

(** The payloads of the allocated blocks of the row [bs] hold in [m'] what
    they hold in [m]. *)
Definition payloads_kept (bs : list blk) (m m' : mem) : Prop :=
  forall B i, B ∈ bs -> b_alloc B = true ->
    b_addr B + 8 <= i < b_addr B + b_size B - 8 ->
    load8 m' i = load8 m i.

(** ** The run goes on

    The client writes a byte into its first payload and has the payload
    moved to 300 bytes. *)
Definition run_written : state memlib := on_heap (store8 4200 65) run_second.

Definition run_moved : Z * state memlib :=
  match mm_realloc memlib_sbrk 4 4200 300 run_written with
  | Some (Returned q st) => (q, st)
  | _ => (NULL, run_written)
  end.

(** * The allocator with one explicit free list

    [malloclab-handout/mm.c]: the same blocks and boundary tags, with one
    doubly linked list of all free blocks behind the global [head], no fast
    path in [mm_malloc], and an [extend_heap] that always coalesces. *)
Module Handout.

Section Allocator.

Context {E : Type}.
Variable mem_sbrk : Z -> E -> Z * E.

(** The process state: the heap bytes, the globals [head] and
    [prologue], and the state of the extender. *)
Record state : Type := mkState {
  heap : mem;
  head : Z;
  prologue : Z;
  extender : E
}.

Definition on_heap (f : mem -> mem) (st : state) : state :=
  mkState (f (heap st)) (head st) (prologue st) (extender st).

Definition set_head (p : Z) (st : state) : state :=
  mkState (heap st) p (prologue st) (extender st).

Definition allocated (st : state) (b : Z) : Z := get_allocated (heap st) b.
Definition block_size (st : state) (b : Z) : Z := get_block_size (heap st) b.
Definition next (st : state) (b : Z) : Z := get_next (heap st) b.
Definition prev (st : state) (b : Z) : Z := get_prev (heap st) b.

Definition set_allocated (b v : Z) : state -> state := on_heap (put_allocated b v).
Definition set_block_size (b s : Z) : state -> state := on_heap (put_block_size b s).
Definition set_next (b p : Z) : state -> state := on_heap (put_next b p).
Definition set_prev (b p : Z) : state -> state := on_heap (put_prev b p).

Definition get_footer (st : state) (block : Z) : Z :=
  block + block_size st block - sizeof_header.

(** *** The free list *)

Definition list_push (newblock : Z) (st : state) : state :=
  if head st =? NULL then
    let st := set_head newblock st in
    let st := set_prev newblock NULL st in
    set_next newblock NULL st
  else
    let st := set_next newblock (head st) st in
    let st := set_prev newblock NULL st in
    let st := set_prev (head st) newblock st in
    set_head newblock st.

Definition list_pop (removeblock : Z) (st : state) : state :=
  if (prev st removeblock =? NULL) && (next st removeblock =? NULL) then
    let st := set_head NULL st in
    let st := set_next removeblock NULL st in
    set_prev removeblock NULL st
  else if head st =? removeblock then
    let st := set_head (next st removeblock) st in
    let st := set_prev (next st removeblock) NULL st in
    set_prev removeblock NULL st
  else if next st removeblock =? NULL then
    let st := set_next (prev st removeblock) NULL st in
    set_prev removeblock NULL st
  else
    let st := set_prev (next st removeblock) (prev st removeblock) st in
    let st := set_next (prev st removeblock) (next st removeblock) st in
    let st := set_next removeblock NULL st in
    set_prev removeblock NULL st.

(** *** coalesce *)

Definition coalesce (block : Z) (st : state) : Z * state :=
  let prev_footer := block - sizeof_header in
  let next_header := block + block_size st block in
  let prev_alloc := negb (allocated st prev_footer =? 0) in
  let next_alloc := negb (allocated st next_header =? 0) in
  let next_block := next_header in
  let prev_block := prev_footer - block_size st prev_footer + sizeof_header in
  if prev_alloc && next_alloc then
    (block, st)
  else
    let '(block, st) :=
      if prev_alloc && negb next_alloc then
        let st := list_pop block st in
        let st := list_pop next_block st in
        let st := set_block_size block
                    (block_size st block + block_size st next_header) st in
        let next_footer := get_footer st block in
        let st := set_block_size next_footer (block_size st block) st in
        (block, st)
      else if negb prev_alloc && next_alloc then
        let st := list_pop block st in
        let st := list_pop prev_block st in
        let st := set_block_size prev_block
                    (block_size st prev_block + block_size st block) st in
        let footer := get_footer st prev_block in
        let st := set_block_size footer (block_size st prev_block) st in
        (prev_block, st)
      else
        let st := list_pop prev_block st in
        let st := list_pop block st in
        let st := list_pop next_block st in
        let prev_block := prev_footer - block_size st prev_footer + sizeof_header in
        let st := set_block_size prev_block
                    (block_size st prev_block
                     + (block_size st block + block_size st next_header)) st in
        let next_footer := get_footer st prev_block in
        let st := set_block_size next_footer (block_size st prev_block) st in
        (prev_block, st) in
    let st := list_push block st in
    (block, st).

(** *** extend_heap *)

Definition extend_heap (words : Z) (st : state) : Z * state :=
  let size := to_uint32 (Z.shiftl words 3) in
  if size =? 0 then (NULL, st)
  else
    let '(block, e) := mem_sbrk size (extender st) in
    let st := mkState (heap st) (head st) (prologue st) e in
    if block =? SBRK_FAILED then (NULL, st)
    else
      let block := block - sizeof_header in
      let st := set_allocated block FREE st in
      let st := set_block_size block size st in
      let block_footer := get_footer st block in
      let st := set_allocated block_footer FREE st in
      let st := set_block_size block_footer (block_size st block) st in
      let new_epilogue := block_footer + sizeof_header in
      let st := set_allocated new_epilogue ALLOC st in
      let st := set_block_size new_epilogue 0 st in
      let st := list_push block st in
      coalesce block st.

(** *** place *)

Definition place (block asize : Z) (st : state) : state :=
  let split_size := to_size_t (block_size st block - asize) in
  if MIN_BLOCK_SIZE <=? split_size then
    let st := list_pop block st in
    let st := set_block_size block asize st in
    let st := set_allocated block ALLOC st in
    let footer := get_footer st block in
    let st := set_block_size footer asize st in
    let st := set_allocated footer ALLOC st in
    let new_block := block + block_size st block in
    let st := set_block_size new_block split_size st in
    let st := set_allocated new_block FREE st in
    let new_footer := get_footer st new_block in
    let st := set_block_size new_footer split_size st in
    let st := set_allocated new_footer FREE st in
    list_push new_block st
  else
    let st := list_pop block st in
    let st := set_allocated block ALLOC st in
    let footer := get_footer st block in
    set_allocated footer ALLOC st.

(** *** find_fit

    The loop follows [next] links for as long as they are not [NULL];
    [scan_list] takes the number of nodes it may visit and answers [None]
    when that is used up. *)

Fixpoint scan_list (fuel : nat) (st : state) (asize b : Z) : option Z :=
  match fuel with
  | O => None
  | S fuel' =>
      if b =? NULL then Some NULL
      else if (allocated st b =? 0) && (asize <=? block_size st b) then Some b
      else scan_list fuel' st asize (next st b)
  end.

Definition find_fit (fuel : nat) (asize : Z) (st : state) : option Z :=
  if head st =? NULL then Some NULL
  else scan_list fuel st asize (head st).

(** *** The public operations *)

Definition mm_init (st : state) : Z * state :=
  let '(p, e) := mem_sbrk CHUNKSIZE (extender st) in
  let st := mkState (heap st) (head st) p e in
  if prologue st =? SBRK_FAILED then (-1, st)
  else
    let st := set_allocated (prologue st) ALLOC st in
    let st := set_block_size (prologue st) sizeof_header st in
    let init_block := prologue st + sizeof_header in
    let st := set_allocated init_block FREE st in
    let st := set_block_size init_block (CHUNKSIZE - OVERHEAD) st in
    let st := set_next init_block NULL st in
    let st := set_prev init_block NULL st in
    let init_footer := get_footer st init_block in
    let st := set_allocated init_footer FREE st in
    let st := set_block_size init_footer (block_size st init_block) st in
    let st := set_head init_block st in
    let epilogue := init_block + block_size st init_block in
    let st := set_allocated epilogue ALLOC st in
    let st := set_block_size epilogue 0 st in
    (0, st).

(** The adjusted block size computed at the top of [mm_malloc]: [size] is
    a [size_t], [asize] a [uint32_t]. *)
Definition adjust_size (size : Z) : Z :=
  let size := to_size_t (size + OVERHEAD) in
  let asize := to_uint32 (Z.shiftl (Z.shiftr (to_size_t (size + 7)) 3) 3) in
  if asize <? MIN_BLOCK_SIZE then MIN_BLOCK_SIZE else asize.

Definition mm_malloc (fuel : nat) (size : Z) (st : state) : option (Z * state) :=
  if size =? 0 then Some (NULL, st)
  else
    let asize := adjust_size size in
    match find_fit fuel asize st with
    | None => None
    | Some block =>
        if negb (block =? NULL) then
          Some (payload block, place block asize st)
        else
          let extendsize := if CHUNKSIZE <? asize then asize else CHUNKSIZE in
          let extendwords := Z.shiftr extendsize 3 in
          let '(block, st) := extend_heap extendwords st in
          if negb (block =? NULL) then
            Some (payload block, place block asize st)
          else Some (NULL, st)
    end.

Definition mm_free (payload_ptr : Z) (st : state) : state :=
  let block := payload_ptr - sizeof_header in
  let st := set_allocated block FREE st in
  let footer := get_footer st block in
  let st := set_allocated footer FREE st in
  let st := list_push block st in
  snd (coalesce block st).

Definition mm_realloc (fuel : nat) (ptr size : Z) (st : state)
  : option (outcome state) :=
  match mm_malloc fuel size st with
  | None => None
  | Some (newp, st) =>
      if newp =? NULL then
        Some (Exited 1 (String.append "ERROR: mm_malloc failed in mm_realloc" newline))
      else
        let block := ptr - sizeof_header in
        let copySize := block_size st block in
        let copySize := if size <? copySize then size else copySize in
        let st := on_heap (memcpy newp ptr copySize) st in
        let st := mm_free ptr st in
        Some (Returned newp st)
  end.

End Allocator.

Arguments state : clear implicits.
Arguments mkState {E} heap head prologue extender.

(** ** The abstract heap

    The blocks in address order and the nodes of the free list in list
    order. *)
Record aheap : Type := mkHeap { blocks : list blk; flist : list Z }.

(** [x] is the address of a free block. *)
Definition free_block (bs : list blk) (x : Z) : Prop :=
  exists B, B ∈ bs /\ b_addr B = x /\ b_alloc B = false.

Section Representation.

Context {E : Type}.
Implicit Types (st : state E) (H : aheap).

(** The list in memory: a well-formed doubly linked list of the nodes
    [l] from [head], and no node is on it twice. *)
Record list_ok (st : state E) (l : list Z) : Prop := {
  lo_dll : dll (heap st) NULL (head st) l;
  lo_nodup : NoDup l
}.

(** The addresses [N] at which list nodes can be: not null, within 64
    bits, and far enough from each other for their links not to
    overlap. *)
Record node_space (N : Z -> Prop) : Prop := {
  ns_pos : forall x, N x -> 0 < x;
  ns_fits : forall x, N x -> x + 24 <= 2 ^ 64;
  ns_apart : forall x y, N x -> N y -> x <> y -> x + 24 <= y \/ y + 24 <= x
}.

(** The blocks in memory: they tile the heap from the prologue to the
    epilogue, and all of it fits 31-bit sizes and 64-bit addresses. *)
Record blocks_ok (st : state E) (bs : list blk) : Prop := {
  bo_base : 0 < prologue st;
  bo_prologue : get_block_size (heap st) (prologue st) = sizeof_header
                /\ get_allocated (heap st) (prologue st) = ALLOC;
  bo_contig : contig (prologue st + sizeof_header) bs;
  bo_epilogue :
    let epi := prologue st + sizeof_header + total_size bs in
    get_block_size (heap st) epi = 0 /\ get_allocated (heap st) epi = ALLOC;
  bo_bound : sizeof_header + total_size bs + sizeof_header < 2 ^ 31
             /\ prologue st + sizeof_header + total_size bs + sizeof_header <= 2 ^ 64;
  bo_sizes : forall B, B ∈ bs -> size_ok B;
  bo_tagged : forall B, B ∈ bs -> tagged (heap st) B
}.

(** The bytes of the tags: of the prologue, of the epilogue, and of the
    header and the footer of every block. *)
Definition tag_byte st (bs : list blk) (i : Z) : Prop :=
  prologue st <= i < prologue st + 4
  \/ prologue st + 8 + total_size bs <= i < prologue st + 8 + total_size bs + 4
  \/ exists B, B ∈ bs
       /\ (b_addr B <= i < b_addr B + 4
           \/ b_addr B + b_size B - 8 <= i < b_addr B + b_size B - 4).

(** Every node is a free block. *)
Definition nodes_free (bs : list blk) (l : list Z) : Prop :=
  forall x, x ∈ l -> free_block bs x.

(** Every free block is a node of the list. *)
Definition free_listed (bs : list blk) (l : list Z) : Prop :=
  forall B, B ∈ bs -> b_alloc B = false -> b_addr B ∈ l.

(** The heap between two steps of an operation: a free block may be off
    the list for the moment. *)
Record Pre (H : aheap) (st : state E) : Prop := {
  pre_blocks : blocks_ok st (blocks H);
  pre_list : list_ok st (flist H);
  pre_nodes : nodes_free (blocks H) (flist H)
}.

(** [H] is what the state [st] holds. *)
Record Rep (H : aheap) (st : state E) : Prop := {
  rep_pre : Pre H st;
  rep_free : free_listed (blocks H) (flist H)
}.

End Representation.

(** ** The allocator under a client *)

(** A fresh process: empty memory, the break at 4096 and [cap] bytes of
    arena; and the heap [mm_init] makes of it. *)
Definition fresh (cap : Z) : state memlib :=
  mkState ∅ 0 0 (mkMemlib 4096 (4096 + cap)).

Definition after_init (cap : Z) : state memlib :=
  snd (mm_init memlib_sbrk (fresh cap)).

Record heap_ok (H : aheap) (live : list Z) (st : state memlib) : Prop := {
  ok_rep : Rep H st;
  ok_min : forall B, B ∈ blocks H -> MIN_BLOCK_SIZE <= b_size B;
  ok_brk : mem_brk (extender st) = prologue st + 8 + total_size (blocks H) + 8;
  ok_max : mem_max_addr (extender st) < prologue st + 2 ^ 31
           /\ mem_max_addr (extender st) <= 2 ^ 64;
  ok_live : forall p, p ∈ live ->
              exists B, B ∈ blocks H /\ payload (b_addr B) = p /\ b_alloc B = true
}.

(** The heap at a quiescent point. *)
Definition quiescent (H : aheap) (live : list Z) (st : state memlib) : Prop :=
  heap_ok H live st /\ no_adjacent_free (blocks H).

(** The states that a client reaches, with the payloads it holds: it calls
    [mm_init] on a fresh heap whose arena has room for the first chunk and
    is smaller than 2 GB, then [mm_malloc], [mm_free] on a payload it
    holds, and [mm_realloc] on a payload it holds with a size that
    [mm_malloc] does not truncate; between the calls it writes bytes into
    the payloads it holds. *)
Inductive reachable : state memlib -> list Z -> Prop :=
| reach_init cap :
    CHUNKSIZE <= cap < 2 ^ 31 ->
    reachable (after_init cap) []
| reach_malloc st live fuel u p st' :
    reachable st live -> 0 <= u < 2 ^ 64 ->
    mm_malloc memlib_sbrk fuel u st = Some (p, st') ->
    reachable st' (if p =? NULL then live else p :: live)
| reach_free st live p :
    reachable st live -> p ∈ live ->
    reachable (mm_free p st) (filter (fun q => q <> p) live)
| reach_realloc st live fuel p u q st' :
    reachable st live -> p ∈ live -> 0 <= u <= 2 ^ 32 - 24 ->
    mm_realloc memlib_sbrk fuel p u st = Some (Returned q st') ->
    reachable st' (q :: filter (fun r => r <> p) live)
| reach_write st live p i v :
    reachable st live -> p ∈ live ->
    p <= i < p + (block_size st (p - sizeof_header) - OVERHEAD) ->
    reachable (on_heap (store8 i v) st) live.

(** What [mm_malloc] leaves when it answers [p] to a request of adjusted
    size [asize] on the heap [H] in the state [st]: a quiescent heap in
    which [p], unless null, is the payload of an allocated block of at
    least [asize] bytes and joins the payloads the client holds, in which
    every block that was allocated is still there, at another address than
    [p]'s, and holds in its payload what it held. *)
Definition malloc_post (H : aheap) (live : list Z) (asize p : Z)
    (st st' : state memlib) : Prop :=
  (exists H', quiescent H' (if p =? NULL then live else p :: live) st'
     /\ (p <> NULL ->
           exists B, B ∈ blocks H' /\ payload (b_addr B) = p /\ b_alloc B = true
                     /\ asize <= b_size B)
     /\ (forall B, B ∈ blocks H -> b_alloc B = true ->
           B ∈ blocks H' /\ payload (b_addr B) <> p))
  /\ payloads_kept (blocks H) (heap st) (heap st').

(** ** A run

    On the heap that [mm_init] makes of a fresh arena of 20 MB:
    [mm_malloc 100], [mm_malloc 200], the first block is freed, and 50
    bytes are asked for. *)
Definition run_malloc (fuel : nat) (u : Z) (st : state memlib) : Z * state memlib :=
  match mm_malloc memlib_sbrk fuel u st with
  | Some r => r
  | None => (NULL, st)
  end.

Definition run_first : state memlib := snd (run_malloc 4 100 (after_init roomy)).

Definition run_second : state memlib := snd (run_malloc 4 200 run_first).

Definition run_end : state memlib := mm_free 4112 run_second.

(** The state inside [mm_free 4112], right after [mm_malloc 100], when the
    block is marked free and pushed on the list and [coalesce] is about to
    be called. *)
Definition freed_unmerged : state memlib :=
  let st := place 4104 120 (after_init roomy) in
  let st1 := set_allocated 4104 FREE st in
  let st2 := set_allocated (get_footer st1 4104) FREE st1 in
  list_push 4104 st2.

(** The client writes a byte into its first payload and has the payload
    moved to 300 bytes. *)
Definition run_written : state memlib := on_heap (store8 4112 65) run_second.

Definition run_moved : Z * state memlib :=
  match mm_realloc memlib_sbrk 4 4112 300 run_written with
  | Some (Returned q st) => (q, st)
  | _ => (NULL, run_written)
  end.

End Handout.

(** * Memory lemmas *)

Lemma load8_range m a : 0 <= load8 m a < 256.
Proof. unfold load8. apply Z.mod_pos_bound. lia. Qed.

Lemma load8_store8 a v m x :
  load8 (store8 a v m) x = if decide (x = a) then v mod 256 else load8 m x.
Proof.
  unfold load8, store8. destruct (decide (x = a)) as [->|Hne].
  - rewrite lookup_insert_eq. simpl. apply Z.mod_mod. lia.
  - rewrite lookup_insert_ne by congruence. reflexivity.
Qed.

Lemma load8_store8_eq a v m : load8 (store8 a v m) a = v mod 256.
Proof. rewrite load8_store8. destruct (decide (a = a)); congruence. Qed.

Lemma load8_store8_ne a v m x : x <> a -> load8 (store8 a v m) x = load8 m x.
Proof. intros H. rewrite load8_store8. destruct (decide (x = a)); congruence. Qed.

Lemma load8_store_le n : forall a v m x,
  x < a \/ a + Z.of_nat n <= x -> load8 (store_le n a v m) x = load8 m x.
Proof.
  induction n as [|n IH]; intros a v m x H; simpl; [reflexivity|].
  rewrite IH by lia. apply load8_store8_ne. lia.
Qed.

Lemma load_le_ext n : forall m m' a,
  (forall x, a <= x < a + Z.of_nat n -> load8 m' x = load8 m x) ->
  load_le n m' a = load_le n m a.
Proof.
  induction n as [|n IH]; intros m m' a H; simpl; [reflexivity|].
  rewrite (H a) by lia. rewrite (IH m m' (a + 1)); [reflexivity|].
  intros x Hx. apply H. lia.
Qed.

Lemma load_le_range n : forall m a, 0 <= load_le n m a < 256 ^ Z.of_nat n.
Proof.
  induction n as [|n IH]; intros m a.
  - simpl. lia.
  - cbn [load_le]. rewrite Nat2Z.inj_succ, Z.pow_succ_r by lia.
    pose proof (load8_range m a). pose proof (IH m (a + 1)). lia.
Qed.

Lemma load_le_store_le_disj n n' a a' v m :
  a + Z.of_nat n <= a' \/ a' + Z.of_nat n' <= a ->
  load_le n' (store_le n a v m) a' = load_le n' m a'.
Proof.
  intros H. apply load_le_ext. intros x Hx. apply load8_store_le. lia.
Qed.

Lemma load_le_store_le_same n : forall a v m,
  load_le n (store_le n a v m) a = v mod 256 ^ Z.of_nat n.
Proof.
  induction n as [|n IH]; intros a v m.
  - simpl. symmetry. apply Z.mod_1_r.
  - cbn [load_le store_le]. rewrite IH.
    rewrite load8_store_le by lia. rewrite load8_store8_eq.
    rewrite Nat2Z.inj_succ, Z.pow_succ_r by lia.
    rewrite Z.rem_mul_r by lia. reflexivity.
Qed.

Lemma load32_range m a : 0 <= load32 m a < 2 ^ 32.
Proof. apply (load_le_range 4). Qed.

Lemma load64_range m a : 0 <= load64 m a < 2 ^ 64.
Proof. apply (load_le_range 8). Qed.

Lemma load32_store32_same a v m : load32 (store32 a v m) a = v mod 2 ^ 32.
Proof. apply (load_le_store_le_same 4). Qed.

Lemma load64_store64_same a v m : load64 (store64 a v m) a = v mod 2 ^ 64.
Proof. apply (load_le_store_le_same 8). Qed.

Lemma load32_store32_disj a a' v m :
  a + 4 <= a' \/ a' + 4 <= a -> load32 (store32 a v m) a' = load32 m a'.
Proof. intros H. apply (load_le_store_le_disj 4 4). lia. Qed.

Lemma load32_store64_disj a a' v m :
  a + 8 <= a' \/ a' + 4 <= a -> load32 (store64 a v m) a' = load32 m a'.
Proof. intros H. apply (load_le_store_le_disj 8 4). lia. Qed.

Lemma load64_store32_disj a a' v m :
  a + 4 <= a' \/ a' + 8 <= a -> load64 (store32 a v m) a' = load64 m a'.
Proof. intros H. apply (load_le_store_le_disj 4 8). lia. Qed.

Lemma load64_store64_disj a a' v m :
  a + 8 <= a' \/ a' + 8 <= a -> load64 (store64 a v m) a' = load64 m a'.
Proof. intros H. apply (load_le_store_le_disj 8 8). lia. Qed.

Lemma load8_store32 a v m x :
  x < a \/ a + 4 <= x -> load8 (store32 a v m) x = load8 m x.
Proof. intros H. apply (load8_store_le 4). lia. Qed.

Lemma load8_store64 a v m x :
  x < a \/ a + 8 <= x -> load8 (store64 a v m) x = load8 m x.
Proof. intros H. apply (load8_store_le 8). lia. Qed.

Lemma load32_ext m m' a :
  (forall x, a <= x < a + 4 -> load8 m' x = load8 m x) -> load32 m' a = load32 m a.
Proof. intros H. apply (load_le_ext 4). intros x Hx. apply H. lia. Qed.

Lemma load64_ext m m' a :
  (forall x, a <= x < a + 8 -> load8 m' x = load8 m x) -> load64 m' a = load64 m a.
Proof. intros H. apply (load_le_ext 8). intros x Hx. apply H. lia. Qed.

(** ** Bit-fields *)

Lemma get_allocated_range m b : 0 <= get_allocated m b < 2.
Proof. unfold get_allocated. apply Z.mod_pos_bound. lia. Qed.

Lemma get_block_size_range m b : 0 <= get_block_size m b < 2 ^ 31.
Proof.
  unfold get_block_size. pose proof (load32_range m b).
  split; [apply Z.div_pos; lia|]. apply Z.div_lt_upper_bound; lia.
Qed.

Lemma field_word_range s f : 0 <= 2 * to_uint31 s + f mod 2 < 2 ^ 32.
Proof.
  unfold to_uint31. pose proof (Z.mod_pos_bound s (2 ^ 31) ltac:(lia)).
  pose proof (Z.mod_pos_bound f 2 ltac:(lia)). lia.
Qed.

Lemma get_allocated_put_allocated b v m :
  get_allocated (put_allocated b v m) b = v mod 2.
Proof.
  unfold get_allocated, put_allocated. rewrite load32_store32_same.
  pose proof (load32_range m b).
  assert (0 <= load32 m b / 2 < 2 ^ 31).
  { split; [apply Z.div_pos; lia|]. apply Z.div_lt_upper_bound; lia. }
  pose proof (Z.mod_pos_bound v 2 ltac:(lia)).
  rewrite (Z.mod_small (_ + _)) by lia.
  rewrite Z.add_comm, Z.mul_comm, Z.mod_add by lia. apply Z.mod_mod. lia.
Qed.

Lemma get_block_size_put_allocated b v m :
  get_block_size (put_allocated b v m) b = get_block_size m b.
Proof.
  unfold get_block_size, put_allocated. rewrite load32_store32_same.
  pose proof (load32_range m b).
  assert (0 <= load32 m b / 2 < 2 ^ 31).
  { split; [apply Z.div_pos; lia|]. apply Z.div_lt_upper_bound; lia. }
  pose proof (Z.mod_pos_bound v 2 ltac:(lia)).
  rewrite (Z.mod_small (_ + _)) by lia.
  rewrite Z.add_comm, Z.mul_comm, Z.div_add by lia.
  rewrite Z.div_small by lia. lia.
Qed.

Lemma get_block_size_put_block_size b s m :
  get_block_size (put_block_size b s m) b = to_uint31 s.
Proof.
  unfold get_block_size, put_block_size. rewrite load32_store32_same.
  pose proof (field_word_range s (load32 m b)).
  rewrite (Z.mod_small (_ + _)) by lia.
  pose proof (Z.mod_pos_bound (load32 m b) 2 ltac:(lia)).
  rewrite Z.add_comm, Z.mul_comm, Z.div_add by lia.
  rewrite Z.div_small by lia. lia.
Qed.

Lemma get_allocated_put_block_size b s m :
  get_allocated (put_block_size b s m) b = get_allocated m b.
Proof.
  unfold get_allocated, put_block_size. rewrite load32_store32_same.
  pose proof (field_word_range s (load32 m b)).
  rewrite (Z.mod_small (_ + _)) by lia.
  rewrite Z.add_comm, Z.mul_comm, Z.mod_add by lia. apply Z.mod_mod. lia.
Qed.

(** ** Reading a field after a write elsewhere *)

Lemma load32_put_allocated b v m a :
  b + 4 <= a \/ a + 4 <= b -> load32 (put_allocated b v m) a = load32 m a.
Proof. apply load32_store32_disj. Qed.

Lemma load32_put_block_size b s m a :
  b + 4 <= a \/ a + 4 <= b -> load32 (put_block_size b s m) a = load32 m a.
Proof. apply load32_store32_disj. Qed.

Lemma get_allocated_put_allocated_disj b v m a :
  b + 4 <= a \/ a + 4 <= b ->
  get_allocated (put_allocated b v m) a = get_allocated m a.
Proof. intros H. unfold get_allocated. now rewrite load32_put_allocated. Qed.

Lemma get_allocated_put_block_size_disj b s m a :
  b + 4 <= a \/ a + 4 <= b ->
  get_allocated (put_block_size b s m) a = get_allocated m a.
Proof. intros H. unfold get_allocated. now rewrite load32_put_block_size. Qed.

Lemma get_block_size_put_allocated_disj b v m a :
  b + 4 <= a \/ a + 4 <= b ->
  get_block_size (put_allocated b v m) a = get_block_size m a.
Proof. intros H. unfold get_block_size. now rewrite load32_put_allocated. Qed.

Lemma get_block_size_put_block_size_disj b s m a :
  b + 4 <= a \/ a + 4 <= b ->
  get_block_size (put_block_size b s m) a = get_block_size m a.
Proof. intros H. unfold get_block_size. now rewrite load32_put_block_size. Qed.

Lemma get_allocated_store64 b p m a :
  b + 8 <= a \/ a + 4 <= b -> get_allocated (store64 b p m) a = get_allocated m a.
Proof. intros H. unfold get_allocated. now rewrite load32_store64_disj. Qed.

Lemma get_block_size_store64 b p m a :
  b + 8 <= a \/ a + 4 <= b -> get_block_size (store64 b p m) a = get_block_size m a.
Proof. intros H. unfold get_block_size. now rewrite load32_store64_disj. Qed.

Lemma load64_put_allocated b v m a :
  b + 4 <= a \/ a + 8 <= b -> load64 (put_allocated b v m) a = load64 m a.
Proof. apply load64_store32_disj. Qed.

Lemma load64_put_block_size b s m a :
  b + 4 <= a \/ a + 8 <= b -> load64 (put_block_size b s m) a = load64 m a.
Proof. apply load64_store32_disj. Qed.

Lemma load8_put_allocated b v m x :
  x < b \/ b + 4 <= x -> load8 (put_allocated b v m) x = load8 m x.
Proof. apply load8_store32. Qed.

Lemma load8_put_block_size b s m x :
  x < b \/ b + 4 <= x -> load8 (put_block_size b s m) x = load8 m x.
Proof. apply load8_store32. Qed.

Lemma get_allocated_ext m m' b :
  (forall x, b <= x < b + 4 -> load8 m' x = load8 m x) ->
  get_allocated m' b = get_allocated m b.
Proof. intros H. unfold get_allocated. now rewrite (load32_ext m m'). Qed.

Lemma get_block_size_ext m m' b :
  (forall x, b <= x < b + 4 -> load8 m' x = load8 m x) ->
  get_block_size m' b = get_block_size m b.
Proof. intros H. unfold get_block_size. now rewrite (load32_ext m m'). Qed.

Lemma get_allocated_put_allocated_at b b' v m :
  b' = b -> get_allocated (put_allocated b v m) b' = v mod 2.
Proof. intros ->. apply get_allocated_put_allocated. Qed.

Lemma get_block_size_put_allocated_at b b' v m :
  b' = b -> get_block_size (put_allocated b v m) b' = get_block_size m b'.
Proof. intros ->. apply get_block_size_put_allocated. Qed.

Lemma get_block_size_put_block_size_at b b' s m :
  b' = b -> get_block_size (put_block_size b s m) b' = to_uint31 s.
Proof. intros ->. apply get_block_size_put_block_size. Qed.

Lemma get_allocated_put_block_size_at b b' s m :
  b' = b -> get_allocated (put_block_size b s m) b' = get_allocated m b'.
Proof. intros ->. apply get_allocated_put_block_size. Qed.

Lemma load64_store64_at a a' v m :
  a' = a -> load64 (store64 a v m) a' = v mod 2 ^ 64.
Proof. intros ->. apply load64_store64_same. Qed.

(** One step of reading through a write: the field just written, or a field
    that the write does not reach. *)
Ltac mem_step :=
  first
    [ rewrite get_allocated_put_allocated_at by lia
    | rewrite get_allocated_put_allocated_disj by lia
    | rewrite get_allocated_put_block_size_at by lia
    | rewrite get_allocated_put_block_size_disj by lia
    | rewrite get_block_size_put_allocated_at by lia
    | rewrite get_block_size_put_allocated_disj by lia
    | rewrite get_block_size_put_block_size_at by lia
    | rewrite get_block_size_put_block_size_disj by lia
    | rewrite get_allocated_store64 by lia
    | rewrite get_block_size_store64 by lia
    | rewrite load64_store64_at by lia
    | rewrite load64_store64_disj by lia
    | rewrite load64_put_allocated by lia
    | rewrite load64_put_block_size by lia ].

Ltac mem_simpl := repeat mem_step.

(** * Size classes *)

Lemma logBaseTwo_pos s : 1 <= s < 2 ^ 32 -> logBaseTwo s = Z.log2 s.
Proof.
  intros Hs. unfold logBaseTwo, builtin_clz, to_uint32.
  rewrite Z.mod_small by lia.
  destruct (Z.eqb_spec s 0); lia.
Qed.

Lemma segListIndex_pos s :
  1 <= s < 2 ^ 32 -> segListIndex s = Z.min (TOTALNUMLIST - 1) (Z.log2 s - 5).
Proof.
  intros Hs. unfold segListIndex. rewrite logBaseTwo_pos by lia.
  unfold TOTALNUMLIST. destruct (Z.ltb_spec (Z.log2 s - 5) (11 - 1)); lia.
Qed.

Lemma segListIndex_le s : segListIndex s <= TOTALNUMLIST - 1.
Proof.
  unfold segListIndex.
  destruct (Z.ltb_spec (logBaseTwo s - 5) (TOTALNUMLIST - 1)); lia.
Qed.

(** C6, as amended: [segListIndex] has no clamp below. *)
Theorem segListIndex_spec s :
  1 <= s < 2 ^ 31 ->
  segListIndex s = Z.min (TOTALNUMLIST - 1) (Z.log2 s - 5)
  /\ (MIN_BLOCK_SIZE <= s -> 0 <= segListIndex s <= TOTALNUMLIST - 1)
  /\ (s < MIN_BLOCK_SIZE -> -5 <= segListIndex s <= -1).
Proof.
  intros Hs. rewrite segListIndex_pos by lia.
  unfold TOTALNUMLIST, MIN_BLOCK_SIZE.
  split; [reflexivity|]. split; intros H.
  - assert (5 <= Z.log2 s) by (apply (Z.log2_le_mono 32 s); lia). lia.
  - assert (Z.log2 s < 5) by (apply Z.log2_lt_pow2; lia).
    pose proof (Z.log2_nonneg s). lia.
Qed.

Lemma segListIndex_spec_witness :
  segListIndex 4016 = Z.min (TOTALNUMLIST - 1) (Z.log2 4016 - 5)
  /\ (MIN_BLOCK_SIZE <= 4016 -> 0 <= segListIndex 4016 <= TOTALNUMLIST - 1)
  /\ (4016 < MIN_BLOCK_SIZE -> -5 <= segListIndex 4016 <= -1).
Proof. apply (segListIndex_spec 4016). lia. Defined.

Lemma segListIndex_not_clamped :
  segListIndex 16 = -1
  /\ segListIndex 16 <> size_class_clamped 16
  /\ ~ (0 <= segListIndex 16 <= TOTALNUMLIST - 1).
Proof. vm_compute. repeat split; try discriminate. intros [H _]. apply H. reflexivity. Qed.

(** ** Projections of an updated state

    Reads of a state are turned into reads of its heap by rewriting with
    these equations. *)

Section Projections.

Context {E : Type}.
Implicit Types (st : state E) (f : mem -> mem).

Lemma heap_on_heap f st : heap (on_heap f st) = f (heap st).
Proof. reflexivity. Qed.
Lemma segListHead_on_heap f st : segListHead (on_heap f st) = segListHead st.
Proof. reflexivity. Qed.
Lemma prologue_on_heap f st : prologue (on_heap f st) = prologue st.
Proof. reflexivity. Qed.
Lemma extender_on_heap f st : extender (on_heap f st) = extender st.
Proof. reflexivity. Qed.

Lemma heap_mkState m s p (e : E) : heap (mkState m s p e) = m.
Proof. reflexivity. Qed.
Lemma segListHead_mkState m s p (e : E) : segListHead (mkState m s p e) = s.
Proof. reflexivity. Qed.
Lemma prologue_mkState m s p (e : E) : prologue (mkState m s p e) = p.
Proof. reflexivity. Qed.
Lemma extender_mkState m s p (e : E) : extender (mkState m s p e) = e.
Proof. reflexivity. Qed.

Lemma set_allocated_eq b v st : set_allocated b v st = on_heap (put_allocated b v) st.
Proof. reflexivity. Qed.
Lemma set_block_size_eq b s st : set_block_size b s st = on_heap (put_block_size b s) st.
Proof. reflexivity. Qed.
Lemma set_next_eq b p st : set_next b p st = on_heap (store64 (b + 8) p) st.
Proof. reflexivity. Qed.
Lemma set_prev_eq b p st : set_prev b p st = on_heap (store64 (b + 16) p) st.
Proof. reflexivity. Qed.
Lemma set_head_eq i p st :
  set_head i p st = on_heap (store64 (segListHead st + 8 * i) p) st.
Proof. reflexivity. Qed.

Lemma allocated_eq st b : allocated st b = get_allocated (heap st) b.
Proof. reflexivity. Qed.
Lemma block_size_eq st b : block_size st b = get_block_size (heap st) b.
Proof. reflexivity. Qed.
Lemma next_eq st b : next st b = load64 (heap st) (b + 8).
Proof. reflexivity. Qed.
Lemma prev_eq st b : prev st b = load64 (heap st) (b + 16).
Proof. reflexivity. Qed.
Lemma head_eq st i : head st i = load64 (heap st) (segListHead st + 8 * i).
Proof. reflexivity. Qed.
Lemma get_footer_eq st b : get_footer st b = b + get_block_size (heap st) b - 8.
Proof. reflexivity. Qed.
Lemma get_next_eq m b : get_next m b = load64 m (b + 8).
Proof. reflexivity. Qed.
Lemma get_prev_eq m b : get_prev m b = load64 m (b + 16).
Proof. reflexivity. Qed.

End Projections.

Lemma sizeof_header_eq : sizeof_header = 8.
Proof. reflexivity. Qed.
Lemma sizeof_pointer_eq : sizeof_pointer = 8.
Proof. reflexivity. Qed.
Lemma TOTALNUMLIST_eq : TOTALNUMLIST = 11.
Proof. reflexivity. Qed.
Lemma CHUNKSIZE_eq : CHUNKSIZE = 65536.
Proof. reflexivity. Qed.
Lemma OVERHEAD_eq : OVERHEAD = 16.
Proof. reflexivity. Qed.
Lemma MIN_BLOCK_SIZE_eq : MIN_BLOCK_SIZE = 32.
Proof. reflexivity. Qed.
Lemma NULL_eq : NULL = 0.
Proof. reflexivity. Qed.
Lemma FREE_eq : FREE = 0.
Proof. reflexivity. Qed.
Lemma ALLOC_eq : ALLOC = 1.
Proof. reflexivity. Qed.

Ltac consts :=
  rewrite ?sizeof_header_eq, ?sizeof_pointer_eq, ?TOTALNUMLIST_eq, ?CHUNKSIZE_eq,
    ?OVERHEAD_eq, ?MIN_BLOCK_SIZE_eq, ?NULL_eq, ?FREE_eq, ?ALLOC_eq.

Ltac consts_in H :=
  rewrite ?sizeof_header_eq, ?sizeof_pointer_eq, ?TOTALNUMLIST_eq, ?CHUNKSIZE_eq,
    ?OVERHEAD_eq, ?MIN_BLOCK_SIZE_eq, ?NULL_eq, ?FREE_eq, ?ALLOC_eq in H.

Ltac st_unfold :=
  repeat progress
    rewrite ?set_allocated_eq, ?set_block_size_eq, ?set_next_eq, ?set_prev_eq,
      ?set_head_eq, ?allocated_eq, ?block_size_eq, ?next_eq, ?prev_eq, ?head_eq,
      ?get_footer_eq, ?heap_on_heap, ?segListHead_on_heap, ?prologue_on_heap,
      ?extender_on_heap, ?heap_mkState, ?segListHead_mkState, ?prologue_mkState,
      ?extender_mkState, ?get_next_eq, ?get_prev_eq.

Ltac st_unfold_in H :=
  repeat progress
    rewrite ?set_allocated_eq, ?set_block_size_eq, ?set_next_eq, ?set_prev_eq,
      ?set_head_eq, ?allocated_eq, ?block_size_eq, ?next_eq, ?prev_eq, ?head_eq,
      ?get_footer_eq, ?heap_on_heap, ?segListHead_on_heap, ?prologue_on_heap,
      ?extender_on_heap, ?heap_mkState, ?segListHead_mkState, ?prologue_mkState,
      ?extender_mkState, ?get_next_eq, ?get_prev_eq in H.

(** Symbolic execution of one [let]: the bound value gets the name [name]
    and the body goes on with it. *)
Ltac exec_let H name :=
  lazymatch type of H with
  | (let x := ?v in @?f x) = ?R =>
      pose (name := v);
      let body := eval cbv beta in (f name) in
      change (body = R) in H
  end.

(** Replace, in the goal, every named intermediate state by its
    definition. *)
Ltac subst_states :=
  repeat match goal with
         | s := _ : state _ |- _ => progress unfold s
         | s := _ : Z |- _ => progress unfold s
         end.

Lemma to_uint31_small x : 0 <= x < 2 ^ 31 -> to_uint31 x = x.
Proof. apply Z.mod_small. Qed.

Lemma to_uint32_small x : 0 <= x < 2 ^ 32 -> to_uint32 x = x.
Proof. apply Z.mod_small. Qed.

Lemma to_size_t_small x : 0 <= x < 2 ^ 64 -> to_size_t x = x.
Proof. apply Z.mod_small. Qed.

Ltac uint_simpl :=
  repeat first [ rewrite to_uint31_small by lia
               | rewrite to_uint32_small by lia
               | rewrite to_size_t_small by lia
               | rewrite (Z.mod_small _ (2 ^ 64)) by lia ].

(** Read a field of a state that is a known sequence of writes. *)
Ltac rd :=
  subst_states; st_unfold; consts;
  mem_simpl; uint_simpl; first [reflexivity | lia].

Lemma heap_blocks_eq fuel m b :
  heap_blocks (S fuel) m b =
  if get_block_size m b =? 0 then []
  else b :: heap_blocks fuel m (b + get_block_size m b).
Proof. reflexivity. Qed.

Lemma list_nodes_eq fuel m p :
  list_nodes (S fuel) m p =
  if p =? NULL then [] else p :: list_nodes fuel m (get_next m p).
Proof. reflexivity. Qed.

Section Init.

Context {E : Type}.
Variable mem_sbrk : Z -> E -> Z * E.
Notation state := (state E).

Lemma clear_heads_fields n : forall i (st : state),
  segListHead (clear_heads n i st) = segListHead st
  /\ prologue (clear_heads n i st) = prologue st
  /\ extender (clear_heads n i st) = extender st.
Proof.
  induction n as [|n IH]; intros i st; simpl; [auto|].
  destruct (IH (i + 1) (set_head i NULL st)) as (-> & -> & ->). auto.
Qed.

Lemma clear_heads_outside n : forall i (st : state) x,
  x < segListHead st + 8 * i \/ segListHead st + 8 * (i + Z.of_nat n) <= x ->
  load8 (heap (clear_heads n i st)) x = load8 (heap st) x.
Proof.
  induction n as [|n IH]; intros i st x Hx; cbn [clear_heads]; [reflexivity|].
  rewrite Nat2Z.inj_succ in Hx.
  rewrite IH by (st_unfold; lia).
  st_unfold. apply load8_store64. lia.
Qed.

Lemma clear_heads_inside n : forall i (st : state) j,
  i <= j < i + Z.of_nat n ->
  load64 (heap (clear_heads n i st)) (segListHead st + 8 * j) = NULL.
Proof.
  induction n as [|n IH]; intros i st j Hj; cbn [clear_heads]; [simpl in Hj; lia|].
  rewrite Nat2Z.inj_succ in Hj.
  destruct (Z.eq_dec j i) as [->|Hne].
  - rewrite (load64_ext (heap (set_head i NULL st))).
    + st_unfold. now rewrite load64_store64_same.
    + intros x Hx. apply clear_heads_outside.
      st_unfold. lia.
  - replace (segListHead st) with (segListHead (set_head i NULL st))
      by (now st_unfold).
    apply IH. lia.
Qed.


(** The fields of the state after a successful [mm_init]. *)
Lemma mm_init_fields (st : state) (S0 : Z) (e1 e2 : E) :
  mem_sbrk (sizeof_pointer * TOTALNUMLIST) (extender st) = (S0, e1) ->
  0 <= S0 ->
  S0 + sizeof_pointer * TOTALNUMLIST + CHUNKSIZE <= 2 ^ 64 ->
  mem_sbrk CHUNKSIZE e1 = (S0 + sizeof_pointer * TOTALNUMLIST, e2) ->
  let st' := snd (mm_init mem_sbrk st) in
  let P := S0 + 88 in
  let b := P + 8 in
  fst (mm_init mem_sbrk st) = 0
  /\ (segListHead st' = S0 /\ prologue st' = P /\ extender st' = e2)
  /\ (allocated st' P = ALLOC /\ block_size st' P = 8)
  /\ (allocated st' b = FREE /\ block_size st' b = 65520)
  /\ (allocated st' (b + 65512) = FREE /\ block_size st' (b + 65512) = 65520)
  /\ (allocated st' (P + 65528) = ALLOC /\ block_size st' (P + 65528) = 0)
  /\ (head st' 10 = b /\ next st' b = NULL /\ prev st' b = NULL)
  /\ (forall i, 0 <= i < 10 -> head st' i = NULL).
Proof.
  intros H1 HS Hmax H2 st' P0 b0.
  pose (P := S0 + sizeof_pointer * TOTALNUMLIST). pose (b := P + sizeof_header).
  pose (epilogue := b + (CHUNKSIZE - OVERHEAD)).
  assert (HP0 : P0 = P) by reflexivity. assert (Hb0 : b0 = b) by reflexivity.
  clearbody P0 b0. subst P0 b0.
  destruct (mm_init mem_sbrk st) as [r st1] eqn:Hinit. subst st'. cbn [fst snd].
  cbv beta delta [mm_init] in Hinit. rewrite H1 in Hinit. cbv beta iota in Hinit.
  exec_let Hinit sa.
  exec_let Hinit sb.
  destruct (clear_heads_fields (Z.to_nat TOTALNUMLIST) 0 sa) as (HS' & HP' & HE').
  pose proof (fun j => clear_heads_inside (Z.to_nat TOTALNUMLIST) 0 sa j) as Hin.
  pose proof (fun x => clear_heads_outside (Z.to_nat TOTALNUMLIST) 0 sa x) as Hout.
  fold sb in HS', HP', HE', Hin, Hout.
  clearbody sb. cbn beta iota delta [segListHead prologue extender heap sa] in *.
  rewrite HE', H2 in Hinit. cbv beta iota in Hinit.
  rewrite HS' in Hinit. fold P in Hinit.
  assert (HP : 88 <= P) by (unfold P, sizeof_pointer, TOTALNUMLIST; lia).
  assert (HPS : P = S0 + 88) by (unfold P, sizeof_pointer, TOTALNUMLIST; lia).
  assert (HPmax : P + 65536 <= 2 ^ 64) by (unfold P; exact Hmax).
  clearbody P. clear H1 H2 sa HP' HE' HS'.
  exec_let Hinit s0. replace (prologue s0) with P in Hinit by reflexivity.
  destruct (Z.eqb_spec P SBRK_FAILED) as [Heq|_]; [unfold SBRK_FAILED in Heq; lia|].
  exec_let Hinit s1. replace (prologue s1) with P in Hinit by reflexivity.
  exec_let Hinit s2. replace (prologue s2) with P in Hinit by reflexivity.
  exec_let Hinit init_block. fold b in init_block.
  exec_let Hinit s3. exec_let Hinit s4. exec_let Hinit s5. exec_let Hinit s6.
  assert (Hsz : CHUNKSIZE - OVERHEAD = 65520) by reflexivity.
  assert (R1 : get_footer s6 init_block = b + 65512).
  { clear Hinit. rewrite get_footer_eq, <- block_size_eq. cut (block_size s6 init_block = 65520); [lia|]. rd. }
  rewrite R1 in Hinit.
  exec_let Hinit init_footer. exec_let Hinit s7.
  assert (R2 : block_size s7 init_block = 65520).
  { clear Hinit. rd. }
  rewrite R2 in Hinit.
  exec_let Hinit s8. exec_let Hinit s9.
  assert (R3 : block_size s9 init_block = 65520).
  { clear Hinit. rd. }
  rewrite R3 in Hinit.
  exec_let Hinit epi. exec_let Hinit s10. exec_let Hinit s11.
  injection Hinit as <- <-.
  assert (Hb : b = P + 8) by reflexivity.
  assert (He : epilogue = P + 65528) by (unfold epilogue; rewrite Hsz; lia).
  clearbody b epilogue. clear R1 R2 R3.
  assert (F1 : allocated s11 P = ALLOC /\ block_size s11 P = 8) by (split; rd).
  assert (F2 : allocated s11 b = FREE /\ block_size s11 b = 65520) by (split; rd).
  assert (F3 : allocated s11 (b + 65512) = FREE /\ block_size s11 (b + 65512) = 65520)
    by (split; rd).
  assert (F4 : allocated s11 epilogue = ALLOC /\ block_size s11 epilogue = 0)
    by (split; rd).
  assert (F5 : head s11 10 = b) by rd.
  assert (F6 : next s11 b = NULL /\ prev s11 b = NULL) by (split; rd).
  assert (F7 : forall i, 0 <= i < 10 -> head s11 i = NULL).
  { intros i Hi. rewrite <- (Hin i) by (unfold TOTALNUMLIST; lia). rd. }
  destruct F1 as [F1a F1b], F2 as [F2a F2b], F3 as [F3a F3b], F4 as [F4a F4b],
    F6 as [F6a F6b].
  assert (G1 : segListHead s11 = S0) by (subst_states; now st_unfold).
  assert (G2 : prologue s11 = P) by (subst_states; now st_unfold).
  assert (G3 : extender s11 = e2) by (subst_states; now st_unfold).
  clearbody s11. clear s10 s9 s8 s7 s6 s5 s4 s3 s2 s1 s0 epi init_footer init_block.
  replace (P + 65528) with epilogue by lia.
  repeat split; assumption.
Qed.

(** C8: the heap that a successful [mm_init] lays out on a fresh heap. *)
Theorem mm_init_layout (st : state) (S0 : Z) (e1 e2 : E) :
  mem_sbrk (sizeof_pointer * TOTALNUMLIST) (extender st) = (S0, e1) ->
  0 <= S0 ->
  S0 + sizeof_pointer * TOTALNUMLIST + CHUNKSIZE <= 2 ^ 64 ->
  mem_sbrk CHUNKSIZE e1 = (S0 + sizeof_pointer * TOTALNUMLIST, e2) ->
  let st' := snd (mm_init mem_sbrk st) in
  let P := S0 + sizeof_pointer * TOTALNUMLIST in
  let b := P + sizeof_header in
  let epilogue := b + (CHUNKSIZE - OVERHEAD) in
  fst (mm_init mem_sbrk st) = 0
  /\ segListHead st' = S0 /\ prologue st' = P /\ extender st' = e2
  /\ (allocated st' P = ALLOC /\ block_size st' P = sizeof_header)
  /\ (allocated st' b = FREE /\ block_size st' b = CHUNKSIZE - OVERHEAD
      /\ allocated st' (get_footer st' b) = FREE
      /\ block_size st' (get_footer st' b) = CHUNKSIZE - OVERHEAD
      /\ CHUNKSIZE - OVERHEAD = 65520)
  /\ (allocated st' epilogue = ALLOC /\ block_size st' epilogue = 0
      /\ epilogue + sizeof_header = P + CHUNKSIZE)
  /\ (forall fuel, heap_blocks (S (S fuel)) (heap st') (P + block_size st' P) = [b])
  /\ (head st' (TOTALNUMLIST - 1) = b /\ next st' b = NULL /\ prev st' b = NULL
      /\ forall fuel, list_nodes (S (S fuel)) (heap st') (head st' (TOTALNUMLIST - 1)) = [b])
  /\ (forall i fuel, 0 <= i < TOTALNUMLIST - 1 ->
        head st' i = NULL /\ list_nodes fuel (heap st') (head st' i) = []).
Proof.
  intros H1 HS Hmax H2 st' P b epilogue.
  destruct (mm_init_fields st S0 e1 e2 H1 HS Hmax H2)
    as (F0 & (G1 & G2 & G3) & (F1a & F1b) & (F2a & F2b) & (F3a & F3b) & (F4a & F4b)
        & (F5 & F6a & F6b) & F7).
  cbv zeta in F0, G1, G2, G3, F1a, F1b, F2a, F2b, F3a, F3b, F4a, F4b, F5, F6a, F6b, F7.
  fold st' in F0, G1, G2, G3, F1a, F1b, F2a, F2b, F3a, F3b, F4a, F4b, F5, F6a, F6b, F7.
  assert (HPS : P = S0 + 88) by (unfold P, sizeof_pointer, TOTALNUMLIST; lia).
  assert (Hb : b = P + 8) by reflexivity.
  assert (Hsz : CHUNKSIZE - OVERHEAD = 65520) by reflexivity.
  assert (He : epilogue = P + 65528) by (unfold epilogue; rewrite Hsz; lia).
  clearbody P b epilogue st'.
  rewrite <- HPS in *. rewrite <- Hb in *. rewrite <- He in *.
  assert (Hft : get_footer st' b = b + 65512)
    by (rewrite get_footer_eq, <- block_size_eq, F2b; lia).
  replace (TOTALNUMLIST - 1) with 10 by reflexivity.
  rewrite Hft, F5, F1b, Hsz.
  replace sizeof_header with 8 by reflexivity.
  repeat split; try assumption; try lia.
  - replace CHUNKSIZE with 65536 by reflexivity. lia.
  - intros fuel. rewrite !heap_blocks_eq.
    replace (P + 8) with b by lia.
    rewrite <- !block_size_eq, F2b.
    replace (65520 =? 0) with false by reflexivity.
    replace (b + 65520) with epilogue by lia.
    rewrite F4b, Z.eqb_refl. reflexivity.
  - intros fuel. rewrite !list_nodes_eq.
    rewrite get_next_eq, <- next_eq, F6a.
    destruct (Z.eqb_spec b NULL) as [Hz|_]; [unfold NULL in Hz; lia|].
    rewrite Z.eqb_refl. reflexivity.
  - apply F7. assumption.
  - rewrite F7 by assumption. destruct fuel; [reflexivity|].
    rewrite list_nodes_eq, Z.eqb_refl. reflexivity.
Qed.

End Init.

(** * Allocation *)

Lemma adjust_size_required u :
  0 < u <= 2 ^ 32 - 24 -> adjust_size u = required_size u.
Proof.
  intros Hu. unfold adjust_size, required_size, align8, OVERHEAD, sizeof_header,
    MIN_BLOCK_SIZE.
  rewrite (to_size_t_small (u + (8 + 8))) by lia.
  rewrite to_size_t_small by lia.
  rewrite Z.shiftr_div_pow2, Z.shiftl_mul_pow2 by lia.
  change (2 ^ 3) with 8.
  assert (0 <= (u + (8 + 8) + 7) / 8 < 2 ^ 29).
  { split; [apply Z.div_pos; lia|]. apply Z.div_lt_upper_bound; lia. }
  rewrite to_uint32_small by lia.
  destruct (Z.ltb_spec ((u + (8 + 8) + 7) / 8 * 8) 32); lia.
Qed.

Lemma required_size_bounds u :
  0 < u <= 2 ^ 32 - 24 ->
  MIN_BLOCK_SIZE <= required_size u < 2 ^ 32
  /\ required_size u mod 8 = 0
  /\ u + OVERHEAD <= required_size u.
Proof.
  intros Hu. unfold required_size, align8, OVERHEAD, sizeof_header, MIN_BLOCK_SIZE.
  pose proof (Z.div_mod (u + (8 + 8) + 7) 8 ltac:(lia)).
  pose proof (Z.mod_pos_bound (u + (8 + 8) + 7) 8 ltac:(lia)).
  assert (Hm : (8 * ((u + (8 + 8) + 7) / 8)) mod 8 = 0)
    by (rewrite Z.mul_comm; apply Z.mod_mul; lia).
  repeat split; try lia.
  destruct (Z.max_spec 32 (8 * ((u + (8 + 8) + 7) / 8))) as [[_ ->]|[_ ->]];
    [exact Hm | reflexivity].
Qed.

Lemma sbrk_request n :
  0 <= n < 2 ^ 32 -> n mod 8 = 0 -> to_uint32 (Z.shiftl (n / 8) 3) = n.
Proof.
  intros Hn Hm. rewrite Z.shiftl_mul_pow2 by lia. change (2 ^ 3) with 8.
  pose proof (Z.div_mod n 8 ltac:(lia)).
  rewrite to_uint32_small by lia. lia.
Qed.

Lemma adjust_size_mod8 u : adjust_size u mod 8 = 0.
Proof.
  unfold adjust_size, MIN_BLOCK_SIZE.
  match goal with |- context [to_uint32 (Z.shiftl ?x 3)] => generalize x end.
  intros x. unfold to_uint32. rewrite Z.shiftl_mul_pow2 by lia. change (2 ^ 3) with 8.
  assert (H : ((x * 8) mod 2 ^ 32) mod 8 = 0).
  { change (2 ^ 32) with (8 * 2 ^ 29).
    rewrite Z.rem_mul_r by lia. rewrite Z.mod_mul by lia.
    rewrite Z.add_0_l, Z.mul_comm. apply Z.mod_mul. lia. }
  destruct (Z.ltb_spec ((x * 8) mod 2 ^ 32) 32); [reflexivity|exact H].
Qed.

Section Malloc.

Context {E : Type}.
Variable mem_sbrk : Z -> E -> Z * E.
Notation state := (state E).

(** The search does not write: it ends on every heap whose class lists
    end. *)
Lemma scan_list_total asize (st : state) : forall l fuel prv p,
  dll (heap st) prv p l -> (length l < fuel)%nat ->
  exists b, scan_list fuel st asize p = Some b.
Proof.
  induction l as [|x l IH]; intros fuel prv p Hl Hf.
  - simpl in Hl. subst p. destruct fuel; [simpl in Hf; lia|]. simpl. eauto.
  - destruct Hl as (-> & Hx & _ & Hl).
    destruct fuel as [|fuel]; [simpl in Hf; lia|]. cbn [scan_list].
    destruct (Z.eqb_spec x NULL); [contradiction|].
    destruct (_ && _); [eauto|].
    apply (IH fuel x). { exact Hl. } simpl in Hf. lia.
Qed.

Lemma scan_lists_total asize fuel (st : state) :
  lists_end fuel st ->
  forall n i, 0 <= i -> i + Z.of_nat n <= TOTALNUMLIST ->
  exists b, scan_lists n fuel st asize i = Some b.
Proof.
  intros Hend. induction n as [|n IH]; intros i Hi Hn; cbn [scan_lists]; [eauto|].
  destruct (Hend i) as (l & Hl & Hlen); [lia|].
  destruct (scan_list_total asize st l fuel NULL _ Hl Hlen) as (b & ->).
  destruct (b =? NULL); [|eauto]. apply IH; lia.
Qed.

Lemma segListIndex_ge_0 a : MIN_BLOCK_SIZE <= a < 2 ^ 32 -> 0 <= segListIndex (to_int a).
Proof.
  intros Ha. unfold MIN_BLOCK_SIZE in Ha.
  unfold segListIndex, logBaseTwo, builtin_clz, to_int, to_uint32, TOTALNUMLIST.
  assert (Hu : ((a + 2 ^ 31) mod 2 ^ 32 - 2 ^ 31) mod 2 ^ 32 = a).
  { destruct (Z_lt_le_dec a (2 ^ 31)).
    - rewrite (Z.mod_small (a + 2 ^ 31)) by lia. rewrite Z.mod_small; lia.
    - replace (a + 2 ^ 31) with (a - 2 ^ 31 + 1 * 2 ^ 32) by lia.
      rewrite Z.mod_add by lia. rewrite (Z.mod_small (a - 2 ^ 31)) by lia.
      replace (a - 2 ^ 31 - 2 ^ 31) with (a + (-1) * 2 ^ 32) by lia.
      rewrite Z.mod_add by lia. rewrite Z.mod_small; lia. }
  rewrite Hu. destruct (Z.eqb_spec a 0); [lia|].
  assert (5 <= Z.log2 a) by (apply (Z.log2_le_mono 32 a); lia).
  destruct (Z.ltb_spec (31 - (31 - Z.log2 a) - 5) (11 - 1)); lia.
Qed.

Lemma find_fit_total fuel asize (st : state) :
  lists_end fuel st -> MIN_BLOCK_SIZE <= asize < 2 ^ 32 ->
  exists b, find_fit fuel asize st = Some b.
Proof.
  intros Hend Ha. unfold find_fit.
  pose proof (segListIndex_ge_0 asize Ha).
  pose proof (segListIndex_le (to_int asize)).
  apply scan_lists_total; [assumption|lia|].
  rewrite Z2Nat.id by lia. lia.
Qed.

Lemma adjust_size_range u : MIN_BLOCK_SIZE <= adjust_size u < 2 ^ 32.
Proof.
  unfold adjust_size, MIN_BLOCK_SIZE.
  match goal with |- context [to_uint32 ?x] =>
    pose proof (Z.mod_pos_bound x (2 ^ 32) ltac:(lia)); fold (to_uint32 x) in *;
    generalize dependent (to_uint32 x) end.
  intros a Ha. destruct (Z.ltb_spec a 32); lia.
Qed.

(** An extension without coalescing that answers null has not written to
    the heap, unless the extender handed out the address [sizeof_header]
    itself. *)
Lemma extend_heap_null_heap words (st st' : state) :
  extend_heap mem_sbrk words false st = (NULL, st') ->
  fst (mem_sbrk (to_uint32 (Z.shiftl words 3)) (extender st)) <> sizeof_header ->
  heap st' = heap st /\ segListHead st' = segListHead st.
Proof.
  intros H Hne. unfold extend_heap in H.
  destruct (to_uint32 (Z.shiftl words 3) =? 0).
  - injection H as <-. auto.
  - destruct (mem_sbrk _ _) as [blk e]. cbn [fst] in Hne.
    destruct (blk =? SBRK_FAILED).
    + injection H as <-. auto.
    + injection H as Hb _. unfold NULL in Hb. lia.
Qed.

Lemma lists_end_same fuel (st st' : state) :
  heap st' = heap st -> segListHead st' = segListHead st ->
  lists_end fuel st -> lists_end fuel st'.
Proof.
  intros Hh Hs H i Hi. destruct (H i Hi) as (l & Hl & Hlen).
  exists l. split; [|exact Hlen].
  rewrite head_eq, Hh, Hs, <- head_eq. exact Hl.
Qed.

Lemma mm_malloc_search_total fuel asize (st : state) :
  lists_end fuel st -> MIN_BLOCK_SIZE <= asize < 2 ^ 32 ->
  is_Some (mm_malloc_search mem_sbrk fuel asize st).
Proof.
  intros Hend Ha. unfold mm_malloc_search.
  destruct (find_fit_total fuel asize st Hend Ha) as (b & ->).
  destruct (negb (b =? NULL)); [eauto|].
  destruct (extend_heap _ _ _ _) as [b2 st2].
  destruct (negb (b2 =? NULL)); eauto.
Qed.

(** With class lists that end and fuel to walk them, [mm_malloc] returns. *)
Lemma mm_malloc_total fuel u (st : state) :
  lists_end fuel st ->
  fst (mem_sbrk (adjust_size u) (extender st)) <> sizeof_header ->
  is_Some (mm_malloc mem_sbrk fuel u st).
Proof.
  intros Hend Hne. unfold mm_malloc.
  destruct (u =? 0); [eauto|].
  pose proof (adjust_size_range u) as Ha.
  destruct (Z.leb_spec (adjust_size u) 96) as [Hs|Hs].
  - destruct (extend_heap mem_sbrk (Z.shiftr (adjust_size u) 3) false st)
      as [b st1] eqn:Hext.
    destruct (Z.eqb_spec b NULL) as [->|]; [|cbn [negb]; eauto]. cbn [negb].
    apply mm_malloc_search_total; [|exact Ha].
    destruct (extend_heap_null_heap _ _ _ Hext) as [Hh HS].
    + replace (to_uint32 (Z.shiftl (Z.shiftr (adjust_size u) 3) 3))
        with (adjust_size u); [exact Hne|].
      symmetry. rewrite Z.shiftr_div_pow2 by lia. change (2 ^ 3) with 8.
      unfold MIN_BLOCK_SIZE in Ha. apply sbrk_request; [lia|].
      apply adjust_size_mod8.
    + eapply lists_end_same; eauto.
  - apply mm_malloc_search_total; assumption.
Qed.

(** C9: a small request whose extension fails goes on to the search of the
    lists and to the extension by [max asize CHUNKSIZE]; null comes back
    only from the failure of that last extension. *)
Theorem mm_malloc_fast_path_failure fuel u (st st1 : state) :
  u <> 0 ->
  adjust_size u <= 96 ->
  extend_heap mem_sbrk (Z.shiftr (adjust_size u) 3) false st = (NULL, st1) ->
  let asize := adjust_size u in
  mm_malloc mem_sbrk fuel u st =
    match find_fit fuel asize st1 with
    | None => None
    | Some b =>
        if negb (b =? NULL) then Some (payload b, place b asize st1)
        else
          let '(b2, st2) :=
            extend_heap mem_sbrk (Z.shiftr (Z.max asize CHUNKSIZE) 3) true st1 in
          if negb (b2 =? NULL) then Some (payload b2, place b2 asize st2)
          else Some (NULL, st2)
    end
  /\ (lists_end fuel st1 -> is_Some (mm_malloc mem_sbrk fuel u st)).
Proof.
  intros Hu Ha Hext asize.
  assert (Heq : mm_malloc mem_sbrk fuel u st = mm_malloc_search mem_sbrk fuel asize st1).
  { unfold mm_malloc.
    destruct (Z.eqb_spec u 0) as [|_]; [contradiction|].
    fold asize in Ha |- *.
    destruct (Z.leb_spec asize 96) as [_|]; [|lia].
    fold asize in Hext. rewrite Hext. rewrite Z.eqb_refl. reflexivity. }
  split.
  - rewrite Heq. unfold mm_malloc_search.
    destruct (find_fit fuel asize st1) as [b|]; [|reflexivity].
    destruct (negb (b =? NULL)); [reflexivity|].
    replace (if CHUNKSIZE <? asize then asize else CHUNKSIZE)
      with (Z.max asize CHUNKSIZE); [reflexivity|].
    destruct (Z.ltb_spec CHUNKSIZE asize); lia.
  - intros Hend. rewrite Heq. apply mm_malloc_search_total; [exact Hend|].
    apply adjust_size_range.
Qed.

(** C1, as amended: for requests whose adjusted size fits 32 bits,
    [mm_malloc] is the sequence of attempts [alloc_in_order]. *)
Theorem mm_malloc_in_order fuel u (st : state) :
  0 <= u <= 2 ^ 32 - 24 ->
  (u = 0 -> mm_malloc mem_sbrk fuel u st = Some (NULL, st))
  /\ (0 < u -> adjust_size u = required_size u)
  /\ (0 < u -> to_uint32 (Z.shiftl (required_size u / 8) 3) = required_size u
              /\ to_uint32 (Z.shiftl (Z.max (required_size u) CHUNKSIZE / 8) 3)
                 = Z.max (required_size u) CHUNKSIZE)
  /\ mm_malloc mem_sbrk fuel u st = alloc_in_order mem_sbrk fuel u st
  /\ (lists_end fuel st ->
      fst (mem_sbrk (adjust_size u) (extender st)) <> sizeof_header ->
      is_Some (mm_malloc mem_sbrk fuel u st)).
Proof.
  intros Hu. split; [intros ->; reflexivity|].
  split; [intros H; apply adjust_size_required; lia|].
  split.
  { intros H. destruct (required_size_bounds u ltac:(lia)) as (Hr & Hm & _).
    unfold MIN_BLOCK_SIZE in Hr. split; [apply sbrk_request; lia|].
    rewrite CHUNKSIZE_eq.
    destruct (Z.max_spec (required_size u) 65536) as [[_ ->]|[_ ->]];
      apply sbrk_request; try lia; reflexivity. }
  split; [|apply mm_malloc_total].
  unfold mm_malloc, alloc_in_order.
  destruct (Z.eqb_spec u 0) as [|Hne]; [reflexivity|].
  rewrite adjust_size_required by lia.
  destruct (required_size_bounds u ltac:(lia)) as (Hr & Hm & _).
  unfold MIN_BLOCK_SIZE in Hr.
  set (asize := required_size u) in *.
  rewrite Z.shiftr_div_pow2 by lia. change (2 ^ 3) with 8.
  assert (Hs : forall s : state,
    mm_malloc_search mem_sbrk fuel asize s =
    match find_fit fuel asize s with
    | Some b =>
        if negb (b =? NULL) then Some (payload b, place b asize s)
        else
          let '(b0, st0) := extend_heap mem_sbrk (Z.max asize CHUNKSIZE / 8) true s in
          if negb (b0 =? NULL) then Some (payload b0, place b0 asize st0)
          else Some (NULL, st0)
    | None => None
    end).
  { intros s. unfold mm_malloc_search.
    destruct (find_fit fuel asize s) as [b|]; [|reflexivity].
    destruct (negb (b =? NULL)); [reflexivity|].
    rewrite Z.shiftr_div_pow2 by lia. change (2 ^ 3) with 8.
    replace (if CHUNKSIZE <? asize then asize else CHUNKSIZE)
      with (Z.max asize CHUNKSIZE); [reflexivity|].
    destruct (Z.ltb_spec CHUNKSIZE asize); lia. }
  destruct (asize <=? 96).
  - destruct (extend_heap mem_sbrk (asize / 8) false st) as [b st1].
    destruct (negb (b =? NULL)); [reflexivity|]. apply Hs.
  - rewrite Z.eqb_refl. cbn [negb]. apply Hs.
Qed.


End Malloc.

(** * Doubly linked lists in memory *)

Lemma dll_frame m m' : forall l prv p,
  dll m prv p l ->
  (forall y, y ∈ l -> get_next m' y = get_next m y /\ get_prev m' y = get_prev m y) ->
  dll m' prv p l.
Proof.
  induction l as [|x l IH]; intros prv p Hl Hf; [exact Hl|].
  destruct Hl as (-> & Hx & Hp & Hl).
  destruct (Hf x) as [Hn Hpv]; [left|].
  cbn [dll]. rewrite Hn, Hpv. repeat split; try assumption.
  apply IH; [exact Hl|]. intros y Hy. apply Hf. now right.
Qed.

Lemma dll_nonnull m : forall l prv p, dll m prv p l -> forall x, x ∈ l -> x <> NULL.
Proof.
  induction l as [|y l IH]; intros prv p Hl x Hx.
  - inversion Hx.
  - destruct Hl as (-> & Hy & _ & Hl).
    apply elem_of_cons in Hx as [->|Hx]; [exact Hy|]. eapply IH; eauto.
Qed.

Lemma dll_hd m l prv p : dll m prv p l -> p = hd NULL l.
Proof. destruct l; [trivial|]. intros (-> & _). reflexivity. Qed.

Lemma last_cons_cons (x y : Z) l d : List.last (x :: y :: l) d = List.last (y :: l) d.
Proof. reflexivity. Qed.

Lemma last_default (l : list Z) d d' : l <> [] -> List.last l d = List.last l d'.
Proof.
  induction l as [|x l IH]; [congruence|]. intros _.
  destruct l as [|y l]; [reflexivity|]. apply IH. congruence.
Qed.

Lemma dll_app_links m b l2 : forall l1 prv p,
  dll m prv p (l1 ++ b :: l2) ->
  get_prev m b = List.last l1 prv /\ get_next m b = hd NULL l2.
Proof.
  induction l1 as [|x l1 IH]; intros prv p Hl.
  - destruct Hl as (-> & _ & Hp & Hl). split; [exact Hp|]. eapply dll_hd; eauto.
  - destruct Hl as (-> & _ & _ & Hl). destruct (IH _ _ Hl) as [Hp Hn].
    split; [|exact Hn]. rewrite Hp. destruct l1 as [|z l1]; [reflexivity|].
    rewrite last_cons_cons. apply last_default. congruence.
Qed.

Lemma last_in (l : list Z) d : l <> [] -> List.last l d ∈ l.
Proof.
  induction l as [|x l IH]; [congruence|]. intros _.
  destruct l as [|y l]; [left|]. right. apply IH. congruence.
Qed.

(** Unlinking a node that is not the first: its predecessor's [next] and
    its successor's [prev] are redirected, nothing else changes. *)
Lemma dll_unlink m m' b l2 : forall l1 prv p,
  dll m prv p (l1 ++ b :: l2) ->
  NoDup (l1 ++ b :: l2) ->
  l1 <> [] ->
  (forall y, y ∈ l1 ++ l2 ->
     get_next m' y = if decide (y = List.last l1 NULL) then hd NULL l2
                     else get_next m y) ->
  (forall y, y ∈ l1 ++ l2 ->
     get_prev m' y = if decide (y = hd NULL l2) then List.last l1 NULL
                     else get_prev m y) ->
  dll m' prv p (l1 ++ l2).
Proof.
  induction l1 as [|x l1 IH]; intros prv p Hl Hnd Hne Hn Hp; [congruence|].
  clear Hne. pose proof (dll_nonnull _ _ _ _ Hl) as Hnn.
  destruct Hl as (-> & Hx & Hpx & Hl).
  apply NoDup_cons in Hnd as [Hxn Hnd].
  assert (Hxl2 : x <> hd NULL l2).
  { destruct l2 as [|n l2]; [exact Hx|]. cbn [hd]. intros ->.
    apply Hxn. apply elem_of_app. right. right. left. }
  destruct l1 as [|x2 l1].
  - (* the predecessor is [x] *)
    clear IH. cbn [app List.last] in *. destruct Hl as (Hb & Hbn & Hpb & Hl).
    cbn [dll]. split; [reflexivity|]. split; [exact Hx|].
    rewrite (Hp x) by left. rewrite (Hn x) by left. cbn [List.last].
    destruct (decide (x = hd NULL l2)) as [|_]; [contradiction|].
    destruct (decide (x = x)) as [_|]; [|congruence].
    split; [exact Hpx|].
    destruct l2 as [|n l2]; [reflexivity|]. cbn [hd dll] in *.
    destruct Hl as (Hnb & Hn0 & Hpn & Hl).
    apply NoDup_cons in Hnd as [Hbl Hnd]. apply NoDup_cons in Hnd as [Hnl Hnd].
    split; [reflexivity|]. split; [exact Hn0|].
    rewrite (Hp n) by (right; left). rewrite (Hn n) by (right; left).
    destruct (decide (n = n)) as [_|]; [|congruence].
    destruct (decide (n = x)) as [|_]; [congruence|].
    split; [reflexivity|].
    apply (dll_frame m); [exact Hl|]. intros y Hy.
    rewrite (Hn y), (Hp y) by (right; right; exact Hy).
    destruct (decide (y = x)) as [->|_].
    { exfalso. apply Hxn. right. right. exact Hy. }
    destruct (decide (y = n)) as [->|_]; [contradiction|]. auto.
  - (* the predecessor is further down *)
    assert (Hxlast : x <> List.last (x2 :: l1) NULL).
    { intros Heq. change (x ∉ (x2 :: l1) ++ b :: l2) in Hxn.
      apply Hxn. apply elem_of_app. left. rewrite Heq.
      apply last_in. congruence. }
    cbn [app dll]. split; [reflexivity|]. split; [exact Hx|].
    rewrite (Hp x) by left. rewrite (Hn x) by left.
    rewrite last_cons_cons.
    destruct (decide (x = hd NULL l2)) as [|_]; [contradiction|].
    destruct (decide (x = List.last (x2 :: l1) NULL)) as [|_]; [contradiction|].
    split; [exact Hpx|].
    apply IH; try assumption; try congruence.
    + intros y Hy. rewrite (Hn y) by (right; exact Hy). reflexivity.
    + intros y Hy. rewrite (Hp y) by (right; exact Hy). reflexivity.
Qed.

(** Dropping the first node: the second one becomes the first. *)
Lemma dll_behead m m' prv prv' b n l :
  dll m prv b (b :: n :: l) ->
  NoDup (b :: n :: l) ->
  get_prev m' n = prv' ->
  get_next m' n = get_next m n ->
  (forall y, y ∈ l -> get_next m' y = get_next m y /\ get_prev m' y = get_prev m y) ->
  dll m' prv' n (n :: l).
Proof.
  intros (_ & _ & _ & Hnb & Hn0 & _ & Hl) Hnd Hp Hn Hf.
  cbn [dll]. rewrite Hn, Hp. repeat split; try assumption.
  eapply dll_frame; eauto.
Qed.

(** Linking a new first node in front of the list. *)
Lemma dll_cons m m' b p l :
  dll m NULL p l ->
  NoDup l ->
  b <> NULL ->
  get_prev m' b = NULL ->
  get_next m' b = p ->
  (forall y, y ∈ l ->
     get_next m' y = get_next m y
     /\ get_prev m' y = if decide (y = p) then b else get_prev m y) ->
  dll m' NULL b (b :: l).
Proof.
  intros Hl Hnd Hb Hpb Hnb Hf. cbn [dll]. rewrite Hpb, Hnb.
  split; [reflexivity|]. split; [exact Hb|]. split; [reflexivity|].
  destruct l as [|h l]; [exact Hl|].
  destruct Hl as (-> & Hh & Hph & Hl). apply NoDup_cons in Hnd as [Hhl Hnd].
  cbn [dll]. destruct (Hf h) as [Hn Hp]; [left|].
  rewrite Hn, Hp. destruct (decide (h = h)); [|congruence].
  repeat split; try assumption.
  apply (dll_frame m); [exact Hl|]. intros y Hy.
  destruct (Hf y) as [Hn' Hp']; [right; exact Hy|].
  rewrite Hn', Hp'. destruct (decide (y = h)) as [->|]; [contradiction|]. auto.
Qed.

Lemma filter_ne_split (b : Z) (l1 l2 : list Z) :
  NoDup (l1 ++ b :: l2) -> filter (fun y => y <> b) (l1 ++ b :: l2) = l1 ++ l2.
Proof.
  intros Hnd. apply NoDup_app in Hnd as (Hn1 & Hd & Hnd2).
  apply NoDup_cons in Hnd2 as [Hb2 Hn2].
  assert (Hid : forall l : list Z, b ∉ l -> filter (fun y => y <> b) l = l).
  { induction l as [|y l IH]; intros Hb; [reflexivity|].
    rewrite filter_cons. apply not_elem_of_cons in Hb as [Hyb Hb].
    destruct (decide (y <> b)) as [_|Hc]; [|exfalso; apply Hc; congruence].
    now rewrite IH. }
  rewrite filter_app, filter_cons.
  destruct (decide (b <> b)); [congruence|].
  rewrite !Hid; [reflexivity|exact Hb2|].
  intros Hin. apply (Hd b Hin). left.
Qed.

(** * The list operations on a represented heap *)

Lemma load64_frame m m' a :
  (forall i, a <= i < a + 8 -> load8 m' i = load8 m i) -> load64 m' a = load64 m a.
Proof. apply load64_ext. Qed.

Lemma get_next_frame m m' y :
  (forall i, y + 8 <= i < y + 16 -> load8 m' i = load8 m i) ->
  get_next m' y = get_next m y.
Proof. intros H. rewrite !get_next_eq. apply load64_ext. intros; apply H; lia. Qed.

Lemma get_prev_frame m m' y :
  (forall i, y + 16 <= i < y + 24 -> load8 m' i = load8 m i) ->
  get_prev m' y = get_prev m y.
Proof. intros H. rewrite !get_prev_eq. apply load64_ext. intros; apply H; lia. Qed.

Section ListOps.

Context {E : Type}.
Implicit Types (st : state E) (fl : Z -> list Z) (N : Z -> Prop).

(** A list that no write reaches is still the same list. *)
Lemma dll_untouched st st' l k :
  segListHead st' = segListHead st ->
  dll (heap st) NULL (head st k) l ->
  (forall i, segListHead st + 8 * k <= i < segListHead st + 8 * k + 8 ->
             load8 (heap st') i = load8 (heap st) i) ->
  (forall y i, y ∈ l -> y + 8 <= i < y + 24 ->
               load8 (heap st') i = load8 (heap st) i) ->
  dll (heap st') NULL (head st' k) l.
Proof.
  intros HS Hd Hh Hl.
  replace (head st' k) with (head st k).
  - apply (dll_frame (heap st)); [exact Hd|]. intros y Hy. split.
    + apply get_next_frame. intros i Hi. apply (Hl y); [exact Hy|lia].
    + apply get_prev_frame. intros i Hi. apply (Hl y); [exact Hy|lia].
  - rewrite !head_eq, HS. symmetry. apply load64_ext. exact Hh.
Qed.

Lemma fl_remove_same x k fl : fl_remove x k fl k = filter (fun y => y <> x) (fl k).
Proof. unfold fl_remove. now rewrite Z.eqb_refl. Qed.

Lemma fl_remove_other x k fl j : j <> k -> fl_remove x k fl j = fl j.
Proof. intros H. unfold fl_remove. destruct (Z.eqb_spec j k); congruence. Qed.

Lemma fl_push_same x k fl : fl_push x k fl k = x :: fl k.
Proof. unfold fl_push. now rewrite Z.eqb_refl. Qed.

Lemma fl_push_other x k fl j : j <> k -> fl_push x k fl j = fl j.
Proof. intros H. unfold fl_push. destruct (Z.eqb_spec j k); congruence. Qed.

Lemma elem_of_fl_remove x k fl j y :
  y ∈ fl_remove x k fl j <-> y ∈ fl j /\ (j = k -> y <> x).
Proof.
  unfold fl_remove. destruct (Z.eqb_spec j k) as [->|Hne].
  - rewrite list_elem_of_filter. tauto.
  - tauto.
Qed.

(** What [list_pop] leaves of the lists, given the lists and a new heap
    that differs from the old one as the unlinking of [b] requires. *)
Lemma lists_ok_remove st st' fl N b k :
  node_space st N -> nodes_in N fl -> lists_ok st fl ->
  0 <= k < TOTALNUMLIST -> b ∈ fl k ->
  segListHead st' = segListHead st ->
  dll (heap st') NULL (head st' k) (filter (fun y => y <> b) (fl k)) ->
  (forall i, (i < segListHead st \/ segListHead st + 88 <= i) ->
             (forall x, x ∈ fl k -> x <> b -> i < x + 8 \/ x + 24 <= i) ->
             load8 (heap st') i = load8 (heap st) i) ->
  (forall j i, 0 <= j < TOTALNUMLIST -> j <> k ->
             segListHead st + 8 * j <= i < segListHead st + 8 * j + 8 ->
             load8 (heap st') i = load8 (heap st) i) ->
  lists_ok st' (fl_remove b k fl).
Proof.
  intros [Hpos Habove Hfits Hapart] HN [Hdll Hnd Hdisj] Hk Hb HS Hnew Hfr Hhd.
  rewrite sizeof_pointer_eq, TOTALNUMLIST_eq in Habove.
  split.
  - intros j Hj. destruct (Z.eq_dec j k) as [->|Hne].
    + rewrite fl_remove_same. exact Hnew.
    + rewrite fl_remove_other by exact Hne.
      apply (dll_untouched st); [exact HS|apply Hdll; exact Hj| |].
      * intros i Hi. apply (Hhd j); assumption.
      * intros y i Hy Hi. apply Hfr.
        -- right. pose proof (Habove y (HN j y Hj Hy)). lia.
        -- intros x Hx Hxb.
           assert (y <> x) by (intros ->; apply Hne; eapply Hdisj; eauto).
           pose proof (Hapart y x (HN j y Hj Hy) (HN k x Hk Hx)). lia.
  - intros j Hj. destruct (Z.eq_dec j k) as [->|Hne].
    + rewrite fl_remove_same. apply NoDup_filter. auto.
    + rewrite fl_remove_other by exact Hne. auto.
  - intros i j x Hi Hj Hxi Hxj.
    apply elem_of_fl_remove in Hxi as [Hxi _]. apply elem_of_fl_remove in Hxj as [Hxj _].
    eauto.
Qed.

Lemma list_pop_fields b k st :
  segListHead (list_pop b k st) = segListHead st
  /\ prologue (list_pop b k st) = prologue st
  /\ extender (list_pop b k st) = extender st.
Proof.
  unfold list_pop.
  destruct (_ && _); [|destruct (_ =? _); [|destruct (_ =? _)]];
    cbv zeta; st_unfold; auto.
Qed.

Lemma list_pop_cases b k st :
  list_pop b k st =
    if (prev st b =? NULL) && (next st b =? NULL) then set_head k NULL st
    else if head st k =? b then
      set_prev (next (set_head k (next st b) st) b) NULL (set_head k (next st b) st)
    else if next st b =? NULL then set_next (prev st b) NULL st
    else
      set_next (prev (set_prev (next st b) (prev st b) st) b)
        (next (set_prev (next st b) (prev st b) st) b)
        (set_prev (next st b) (prev st b) st).
Proof. reflexivity. Qed.

Lemma prev_get st b : prev st b = get_prev (heap st) b.
Proof. reflexivity. Qed.
Lemma next_get st b : next st b = get_next (heap st) b.
Proof. reflexivity. Qed.

Lemma list_pop_ok st fl N b k :
  node_space st N -> nodes_in N fl -> lists_ok st fl ->
  0 <= k < TOTALNUMLIST -> b ∈ fl k ->
  lists_ok (list_pop b k st) (fl_remove b k fl)
  /\ (forall i, (i < segListHead st \/ segListHead st + 88 <= i) ->
                (forall x, x ∈ fl k -> x <> b -> i < x + 8 \/ x + 24 <= i) ->
                load8 (heap (list_pop b k st)) i = load8 (heap st) i).
Proof.
  intros HNS HN Hok Hk Hb.
  destruct (list_pop_fields b k st) as (HS & _ & _).
  pose proof HNS as [Hpos Habove Hfits Hapart].
  pose proof Hok as [Hdll Hnd Hdisj].
  rewrite sizeof_pointer_eq, TOTALNUMLIST_eq in Habove.
  destruct (list_elem_of_split _ _ Hb) as (l1 & l2 & Hfl).
  pose proof (Hdll k Hk) as Hd. pose proof (Hnd k Hk) as Hndk.
  rewrite Hfl in Hd, Hndk.
  destruct (dll_app_links _ _ _ _ _ _ Hd) as [Hprev Hnext].
  pose proof (dll_nonnull _ _ _ _ Hd) as Hnn.
  pose proof (dll_hd _ _ _ _ Hd) as Hhd.
  assert (HNk : forall x, x ∈ l1 ++ b :: l2 -> N x).
  { intros x Hx. apply (HN k); [exact Hk|]. rewrite Hfl. exact Hx. }
  rewrite <- prev_get in Hprev. rewrite <- next_get in Hnext.
  assert (HNb : N b) by (apply HNk, elem_of_app; right; left).
  pose proof (Habove b HNb) as Hba. pose proof (Hfits b HNb) as Hbf.
  pose proof Hk as Hk11. rewrite TOTALNUMLIST_eq in Hk11.
  (* the frame and the list, from an explicit description of the new heap *)
  cut (dll (heap (list_pop b k st)) NULL (head (list_pop b k st) k) (l1 ++ l2)
       /\ (forall i, (i < segListHead st \/ segListHead st + 88 <= i) ->
                    (forall x, x ∈ fl k -> x <> b -> i < x + 8 \/ x + 24 <= i) ->
                    load8 (heap (list_pop b k st)) i = load8 (heap st) i)
       /\ (forall j i, 0 <= j < TOTALNUMLIST -> j <> k ->
                    segListHead st + 8 * j <= i < segListHead st + 8 * j + 8 ->
                    load8 (heap (list_pop b k st)) i = load8 (heap st) i)).
  { intros (Hnew & Hfr & Hhds). split; [|exact Hfr].
    apply (lists_ok_remove st _ fl N b k); try assumption.
    rewrite Hfl, filter_ne_split by exact Hndk. exact Hnew. }
  rewrite list_pop_cases, Hprev, Hnext, Hhd.
  rewrite next_eq in Hnext. rewrite prev_eq in Hprev. clear HS.
  destruct l1 as [|x l1]; destruct l2 as [|n l2].
  - (* the only node *)
    cbn [List.last hd app]. rewrite !Z.eqb_refl. cbn [andb].
    split; [|split].
    + cbn [dll]. st_unfold. now rewrite load64_store64_same.
    + intros i Hi _. st_unfold. apply load8_store64. lia.
    + intros j i Hj Hjk Hi. rewrite TOTALNUMLIST_eq in Hj. st_unfold.
      apply load8_store64. lia.
  - (* the first node *)
    cbn [List.last hd app] in *. rewrite !Z.eqb_refl.
    assert (Hn : n <> NULL) by (apply Hnn; right; left).
    destruct (Z.eqb_spec n NULL) as [|_]; [contradiction|]. cbn [andb].
    assert (HNn : N n) by (apply HNk; right; left).
    pose proof (Habove n HNn). pose proof (Hfits n HNn).
    apply NoDup_cons in Hndk as Hnd'. destruct Hnd' as [Hbn Hnd'].
    assert (Hbn' : b <> n) by (intros ->; apply Hbn; left).
    pose proof (Hapart b n HNb HNn Hbn').
    assert (R : next (set_head k n st) b = n).
    { st_unfold. mem_simpl. exact Hnext. }
    rewrite R. clear R.
    split; [|split].
    + replace (head (set_prev n NULL (set_head k n st)) k) with n
        by (st_unfold; mem_simpl; uint_simpl; reflexivity).
      rewrite Hhd in Hd.
      apply (dll_behead (heap st) _ NULL NULL b); [exact Hd|exact Hndk| | |].
      * rewrite get_prev_eq. st_unfold. mem_simpl. reflexivity.
      * rewrite !get_next_eq. st_unfold. mem_simpl. reflexivity.
      * intros y Hy.
        assert (HNy : N y) by (apply HNk; right; right; exact Hy).
        pose proof (Habove y HNy).
        apply NoDup_cons in Hnd' as [Hnl _].
        assert (y <> n) by (intros ->; contradiction).
        pose proof (Hapart y n HNy HNn ltac:(assumption)).
        rewrite !get_next_eq, !get_prev_eq. st_unfold. mem_simpl. auto.
    + intros i Hi Hx. st_unfold.
      assert (i < n + 8 \/ n + 24 <= i).
      { apply Hx; [rewrite Hfl; right; left|congruence]. }
      rewrite !load8_store64 by lia. reflexivity.
    + intros j i Hj Hjk Hi. rewrite TOTALNUMLIST_eq in Hj. st_unfold.
      rewrite !load8_store64 by lia. reflexivity.
  - (* the last node *)
    set (pb := List.last (x :: l1) NULL) in *.
    assert (Hpl : pb ∈ x :: l1) by (apply last_in; congruence).
    assert (Hpb : pb <> NULL) by (apply Hnn, elem_of_app; left; exact Hpl).
    assert (HNp : N pb) by (apply HNk, elem_of_app; left; exact Hpl).
    pose proof (Habove pb HNp). pose proof (Hfits pb HNp).
    assert (Hxb : x <> b).
    { intros ->. apply NoDup_cons in Hndk as [Hc _]. apply Hc, elem_of_app.
      right. left. }
    cbn [hd] in *. rewrite Z.eqb_refl.
    replace (hd NULL ((x :: l1) ++ [b])) with x by reflexivity.
    destruct (Z.eqb_spec pb NULL) as [|_]; [contradiction|]. cbn [andb].
    destruct (Z.eqb_spec x b) as [|_]; [contradiction|].
    rewrite app_nil_r.
    split; [|split].
    + replace (head (set_next pb NULL st) k) with (head st k)
        by (st_unfold; mem_simpl; reflexivity).
      replace (x :: l1) with ((x :: l1) ++ []) by apply app_nil_r.
      apply (dll_unlink (heap st) _ b [] (x :: l1)); try assumption;
        try congruence.
      * intros y Hy. rewrite app_nil_r in Hy. cbn [hd]. fold pb.
        assert (HNy : N y) by (apply HNk, elem_of_app; left; exact Hy).
        pose proof (Habove y HNy). pose proof (Hfits y HNy).
        rewrite !get_next_eq. st_unfold.
        destruct (decide (y = pb)) as [->|Hne].
        -- mem_simpl. reflexivity.
        -- pose proof (Hapart y pb HNy HNp Hne). mem_simpl. reflexivity.
      * intros y Hy. rewrite app_nil_r in Hy. cbn [hd]. fold pb.
        assert (HNy : N y) by (apply HNk, elem_of_app; left; exact Hy).
        assert (y <> NULL) by (apply Hnn, elem_of_app; left; exact Hy).
        destruct (decide (y = NULL)) as [|_]; [contradiction|].
        rewrite !get_prev_eq. st_unfold.
        destruct (decide (y = pb)) as [->|Hne].
        -- mem_simpl. reflexivity.
        -- pose proof (Hapart y pb HNy HNp Hne). mem_simpl. reflexivity.
    + intros i Hi Hx. st_unfold.
      assert (i < pb + 8 \/ pb + 24 <= i).
      { apply Hx; [rewrite Hfl; apply elem_of_app; left; exact Hpl|].
        intros ->. apply NoDup_app in Hndk as (_ & Hc & _).
        apply (Hc b Hpl). left. }
      rewrite !load8_store64 by lia. reflexivity.
    + intros j i Hj Hjk Hi. rewrite TOTALNUMLIST_eq in Hj. st_unfold.
      rewrite !load8_store64 by lia. reflexivity.
  - (* a node between two others *)
    set (pb := List.last (x :: l1) NULL) in *.
    assert (Hpl : pb ∈ x :: l1) by (apply last_in; congruence).
    assert (Hpb : pb <> NULL) by (apply Hnn, elem_of_app; left; exact Hpl).
    assert (HNp : N pb) by (apply HNk, elem_of_app; left; exact Hpl).
    pose proof (Habove pb HNp). pose proof (Hfits pb HNp).
    assert (Hxb : x <> b).
    { intros ->. apply NoDup_cons in Hndk as [Hc _]. apply Hc, elem_of_app.
      right. left. }
    assert (Hn : n <> NULL) by (apply Hnn, elem_of_app; right; right; left).
    assert (HNn : N n) by (apply HNk, elem_of_app; right; right; left).
    pose proof (Habove n HNn). pose proof (Hfits n HNn).
    pose proof Hndk as Hnd3. apply NoDup_app in Hnd3 as (Hnd1 & Hc & Hnd2).
    apply NoDup_cons in Hnd2 as [Hbl2 Hnd2].
    assert (Hbn : b <> n) by (intros ->; apply Hbl2; left).
    assert (Hpbb : pb <> b) by (intros ->; apply (Hc b Hpl); left).
    assert (Hpn : pb <> n) by (intros ->; apply (Hc n Hpl); right; left).
    pose proof (Hapart b n HNb HNn Hbn).
    pose proof (Hapart pb b HNp HNb Hpbb).
    pose proof (Hapart pb n HNp HNn Hpn).
    cbn [hd] in *.
    replace (hd NULL ((x :: l1) ++ b :: n :: l2)) with x by reflexivity.
    destruct (Z.eqb_spec pb NULL) as [|_]; [contradiction|]. cbn [andb].
    destruct (Z.eqb_spec x b) as [|_]; [contradiction|].
    destruct (Z.eqb_spec n NULL) as [|_]; [contradiction|].
    assert (R1 : prev (set_prev n pb st) b = pb).
    { st_unfold. mem_simpl. exact Hprev. }
    assert (R2 : next (set_prev n pb st) b = n).
    { st_unfold. mem_simpl. exact Hnext. }
    rewrite R1, R2. clear R1 R2.
    split; [|split].
    + replace (head (set_next pb n (set_prev n pb st)) k) with (head st k)
        by (st_unfold; mem_simpl; reflexivity).
      apply (dll_unlink (heap st) _ b (n :: l2) (x :: l1)); try assumption;
        try congruence.
      * intros y Hy. cbn [hd]. fold pb.
        assert (HNy : N y).
        { apply HNk. apply elem_of_app in Hy as [Hy|Hy]; apply elem_of_app;
            [left|right; right]; exact Hy. }
        pose proof (Habove y HNy). pose proof (Hfits y HNy).
        rewrite !get_next_eq. st_unfold.
        destruct (decide (y = pb)) as [->|Hne].
        -- mem_simpl. uint_simpl. reflexivity.
        -- pose proof (Hapart y pb HNy HNp Hne).
           destruct (decide (y = n)) as [->|Hne2].
           ++ mem_simpl. reflexivity.
           ++ pose proof (Hapart y n HNy HNn Hne2). mem_simpl. reflexivity.
      * intros y Hy. cbn [hd]. fold pb.
        assert (HNy : N y).
        { apply HNk. apply elem_of_app in Hy as [Hy|Hy]; apply elem_of_app;
            [left|right; right]; exact Hy. }
        pose proof (Habove y HNy). pose proof (Hfits y HNy).
        rewrite !get_prev_eq. st_unfold.
        destruct (decide (y = n)) as [->|Hne].
        -- mem_simpl. uint_simpl. reflexivity.
        -- pose proof (Hapart y n HNy HNn Hne).
           destruct (decide (y = pb)) as [->|Hne2].
           ++ mem_simpl. reflexivity.
           ++ pose proof (Hapart y pb HNy HNp Hne2). mem_simpl. reflexivity.
    + intros i Hi Hx. st_unfold.
      assert (i < pb + 8 \/ pb + 24 <= i).
      { apply Hx; [rewrite Hfl; apply elem_of_app; left; exact Hpl|exact Hpbb]. }
      assert (i < n + 8 \/ n + 24 <= i).
      { apply Hx; [rewrite Hfl; apply elem_of_app; right; right; left|congruence]. }
      rewrite !load8_store64 by lia. reflexivity.
    + intros j i Hj Hjk Hi. rewrite TOTALNUMLIST_eq in Hj. st_unfold.
      rewrite !load8_store64 by lia. reflexivity.
Qed.

Lemma list_push_cases b k st :
  list_push b k st =
    if head st k =? NULL then
      set_next b NULL (set_prev b NULL (set_head k b st))
    else
      set_head k b
        (set_prev (head (set_prev b NULL (set_next b (head st k) st)) k) b
           (set_prev b NULL (set_next b (head st k) st))).
Proof. reflexivity. Qed.

Lemma list_push_fields b k st :
  segListHead (list_push b k st) = segListHead st
  /\ prologue (list_push b k st) = prologue st
  /\ extender (list_push b k st) = extender st.
Proof.
  rewrite list_push_cases. destruct (_ =? _); st_unfold; auto.
Qed.

Lemma elem_of_fl_push x k fl j y :
  y ∈ fl_push x k fl j <-> (j = k /\ y = x) \/ y ∈ fl j.
Proof.
  unfold fl_push. destruct (Z.eqb_spec j k) as [->|Hne].
  - rewrite elem_of_cons. tauto.
  - tauto.
Qed.

Lemma list_push_ok st fl N b k :
  node_space st N -> nodes_in N fl -> lists_ok st fl ->
  0 <= k < TOTALNUMLIST -> N b ->
  (forall j, 0 <= j < TOTALNUMLIST -> b ∉ fl j) ->
  lists_ok (list_push b k st) (fl_push b k fl)
  /\ (forall i, (i < segListHead st \/ segListHead st + 88 <= i) ->
                (i < b + 8 \/ b + 24 <= i) ->
                (forall x, x ∈ fl k -> i < x + 8 \/ x + 24 <= i) ->
                load8 (heap (list_push b k st)) i = load8 (heap st) i).
Proof.
  intros HNS HN Hok Hk HNb Hfresh.
  destruct (list_push_fields b k st) as (HS & _ & _).
  pose proof HNS as [Hpos Habove Hfits Hapart].
  pose proof Hok as [Hdll Hnd Hdisj].
  rewrite sizeof_pointer_eq, TOTALNUMLIST_eq in Habove.
  pose proof (Hdll k Hk) as Hd. pose proof (Hnd k Hk) as Hndk.
  pose proof (dll_nonnull _ _ _ _ Hd) as Hnn.
  pose proof (dll_hd _ _ _ _ Hd) as Hhd.
  pose proof (Habove b HNb) as Hba. pose proof (Hfits b HNb) as Hbf.
  pose proof Hk as Hk11. rewrite TOTALNUMLIST_eq in Hk11.
  assert (HNk : forall x, x ∈ fl k -> N x) by (intros x; apply HN; exact Hk).
  assert (Hb0 : b <> NULL) by (rewrite NULL_eq; lia).
  cut (dll (heap (list_push b k st)) NULL (head (list_push b k st) k) (b :: fl k)
       /\ (forall i, (i < segListHead st \/ segListHead st + 88 <= i) ->
                (i < b + 8 \/ b + 24 <= i) ->
                (forall x, x ∈ fl k -> i < x + 8 \/ x + 24 <= i) ->
                load8 (heap (list_push b k st)) i = load8 (heap st) i)
       /\ (forall j i, 0 <= j < TOTALNUMLIST -> j <> k ->
                segListHead st + 8 * j <= i < segListHead st + 8 * j + 8 ->
                load8 (heap (list_push b k st)) i = load8 (heap st) i)).
  { intros (Hnew & Hfr & Hhds). split; [|exact Hfr]. split.
    - intros j Hj. destruct (Z.eq_dec j k) as [->|Hne].
      + rewrite fl_push_same. exact Hnew.
      + rewrite fl_push_other by exact Hne.
        apply (dll_untouched st); [exact HS|apply Hdll; exact Hj| |].
        * intros i Hi. apply (Hhds j); assumption.
        * intros y i Hy Hi.
          assert (HNy : N y) by (apply (HN j); assumption).
          assert (Hyb : y <> b) by (intros ->; apply (Hfresh j Hj Hy)).
          pose proof (Habove y HNy). pose proof (Hapart y b HNy HNb Hyb).
          apply Hfr; [lia|lia|].
          intros x Hx.
          assert (y <> x) by (intros ->; apply Hne; eapply Hdisj; eauto).
          pose proof (Hapart y x HNy (HNk x Hx)). lia.
    - intros j Hj. destruct (Z.eq_dec j k) as [->|Hne].
      + rewrite fl_push_same. apply NoDup_cons. split; [apply Hfresh|]; auto.
      + rewrite fl_push_other by exact Hne. auto.
    - intros i j x Hi Hj Hxi Hxj.
      apply elem_of_fl_push in Hxi as [[-> ->]|Hxi];
        apply elem_of_fl_push in Hxj as [[-> Hx]|Hxj]; try reflexivity.
      + exfalso. apply (Hfresh j Hj Hxj).
      + subst x. exfalso. apply (Hfresh i Hi Hxi).
      + eauto. }
  rewrite list_push_cases. clear HS.
  destruct (Z.eqb_spec (head st k) NULL) as [Hnull|Hnonnull].
  - (* the list was empty *)
    assert (Hl : fl k = []).
    { destruct (fl k) as [|h l]; [reflexivity|]. exfalso.
      apply (Hnn h); [left|]. cbn [hd] in Hhd. congruence. }
    rewrite Hl in *.
    split; [|split].
    + replace (head (set_next b NULL (set_prev b NULL (set_head k b st))) k) with b
        by (st_unfold; mem_simpl; uint_simpl; reflexivity).
      apply (dll_cons (heap st) _ b NULL []); try assumption.
      * reflexivity.
      * rewrite get_prev_eq. st_unfold. mem_simpl. reflexivity.
      * rewrite get_next_eq. st_unfold. mem_simpl. reflexivity.
      * intros y Hy. inversion Hy.
    + intros i Hi Hib _. st_unfold. rewrite !load8_store64 by lia. reflexivity.
    + intros j i Hj Hjk Hi. rewrite TOTALNUMLIST_eq in Hj. st_unfold.
      rewrite !load8_store64 by lia. reflexivity.
  - (* in front of the old first node *)
    set (h := head st k) in *.
    assert (Hhl : h ∈ fl k).
    { destruct (fl k) as [|h' l]; cbn [hd] in Hhd; [congruence|].
      rewrite Hhd. left. }
    assert (HNh : N h) by (apply HNk; exact Hhl).
    pose proof (Habove h HNh). pose proof (Hfits h HNh).
    assert (Hhb : h <> b) by (intros ->; apply (Hfresh k Hk Hhl)).
    pose proof (Hapart h b HNh HNb Hhb).
    assert (R : head (set_prev b NULL (set_next b h st)) k = h).
    { st_unfold. mem_simpl. rewrite <- head_eq. reflexivity. }
    rewrite R. clear R.
    split; [|split].
    + replace (head (set_head k b (set_prev h b (set_prev b NULL (set_next b h st)))) k)
        with b by (st_unfold; mem_simpl; uint_simpl; reflexivity).
      apply (dll_cons (heap st) _ b h (fl k)); try assumption.
      * rewrite get_prev_eq. st_unfold. mem_simpl. reflexivity.
      * rewrite get_next_eq. st_unfold. mem_simpl. uint_simpl. reflexivity.
      * intros y Hy.
        assert (HNy : N y) by (apply HNk; exact Hy).
        pose proof (Habove y HNy).
        assert (Hyb : y <> b) by (intros ->; apply (Hfresh k Hk Hy)).
        pose proof (Hapart y b HNy HNb Hyb).
        rewrite !get_next_eq, !get_prev_eq. st_unfold.
        destruct (decide (y = h)) as [->|Hne].
        -- mem_simpl. uint_simpl. auto.
        -- pose proof (Hapart y h HNy HNh Hne). mem_simpl. auto.
    + intros i Hi Hib Hx. st_unfold.
      pose proof (Hx h Hhl).
      rewrite !load8_store64 by lia. reflexivity.
    + intros j i Hj Hjk Hi. rewrite TOTALNUMLIST_eq in Hj. st_unfold.
      rewrite !load8_store64 by lia. reflexivity.
Qed.

End ListOps.

(** * Blocks in a row *)

Lemma total_size_app l1 l2 : total_size (l1 ++ l2) = total_size l1 + total_size l2.
Proof. induction l1 as [|B l1 IH]; cbn [app total_size]; lia. Qed.

Lemma contig_app l1 : forall a l2,
  contig a (l1 ++ l2) <-> contig a l1 /\ contig (a + total_size l1) l2.
Proof.
  induction l1 as [|B l1 IH]; intros a l2; cbn [app contig total_size].
  - rewrite Z.add_0_r. tauto.
  - rewrite IH. rewrite Z.add_assoc. tauto.
Qed.

Lemma total_size_nonneg bs : (forall B, B ∈ bs -> 0 < b_size B) -> 0 <= total_size bs.
Proof.
  induction bs as [|B bs IH]; intros H; cbn [total_size]; [lia|].
  pose proof (H B ltac:(left)). assert (0 <= total_size bs); [|lia].
  apply IH. intros B' HB'. apply H. now right.
Qed.

(** Where a block of the row lies. *)
Lemma contig_split a l1 B l2 :
  contig a (l1 ++ B :: l2) ->
  b_addr B = a + total_size l1
  /\ contig a l1 /\ contig (b_addr B + b_size B) l2.
Proof.
  intros H. apply contig_app in H as [H1 H2]. cbn [contig] in H2.
  destruct H2 as [HB H2]. rewrite HB. auto.
Qed.

Lemma contig_below a bs : forall B,
  (forall B', B' ∈ bs -> 0 < b_size B') ->
  contig a bs -> B ∈ bs ->
  a <= b_addr B /\ b_addr B + b_size B <= a + total_size bs.
Proof.
  intros B Hpos Hc HB. destruct (list_elem_of_split _ _ HB) as (l1 & l2 & ->).
  destruct (contig_split _ _ _ _ Hc) as (Ha & _ & _).
  rewrite total_size_app. cbn [total_size].
  assert (0 <= total_size l1).
  { apply total_size_nonneg. intros B' H'. apply Hpos, elem_of_app. now left. }
  assert (0 <= total_size l2).
  { apply total_size_nonneg. intros B' H'. apply Hpos, elem_of_app. right. now right. }
  lia.
Qed.

(** Two blocks of the row are the same block or do not overlap. *)
Lemma contig_disjoint a bs B B' :
  (forall B0, B0 ∈ bs -> 0 < b_size B0) ->
  contig a bs -> B ∈ bs -> B' ∈ bs ->
  B = B' \/ b_addr B + b_size B <= b_addr B' \/ b_addr B' + b_size B' <= b_addr B.
Proof.
  intros Hpos Hc HB HB'.
  destruct (list_elem_of_split _ _ HB) as (l1 & l2 & ->).
  destruct (contig_split _ _ _ _ Hc) as (Ha & Hc1 & Hc2).
  assert (Hp1 : forall B0, B0 ∈ l1 -> 0 < b_size B0).
  { intros B0 H0. apply Hpos, elem_of_app. now left. }
  assert (Hp2 : forall B0, B0 ∈ l2 -> 0 < b_size B0).
  { intros B0 H0. apply Hpos, elem_of_app. right. now right. }
  apply elem_of_app in HB' as [H1|H2].
  - right. right. pose proof (contig_below _ _ _ Hp1 Hc1 H1). lia.
  - apply elem_of_cons in H2 as [->|H2]; [now left|].
    right. left. pose proof (contig_below _ _ _ Hp2 Hc2 H2). lia.
Qed.

Lemma contig_addr_inj a bs B B' :
  (forall B0, B0 ∈ bs -> 0 < b_size B0) ->
  contig a bs -> B ∈ bs -> B' ∈ bs -> b_addr B = b_addr B' -> B = B'.
Proof.
  intros Hpos Hc HB HB' Heq.
  destruct (contig_disjoint a bs B B' Hpos Hc HB HB') as [?|[?|?]]; [assumption| |].
  - pose proof (Hpos B HB). lia.
  - pose proof (Hpos B' HB'). lia.
Qed.

Section Blocks.

Context {E : Type}.
Implicit Types (st : state E) (bs : list blk) (fl : Z -> list Z).

Lemma blocks_ok_pos st bs : blocks_ok st bs -> forall B, B ∈ bs -> 0 < b_size B.
Proof. intros H B HB. destruct (bo_sizes _ _ H B HB) as (? & _). lia. Qed.

(** Where the blocks lie with respect to the heap. *)
Lemma blocks_ok_range st bs B :
  blocks_ok st bs -> B ∈ bs ->
  prologue st + 8 <= b_addr B
  /\ b_addr B + b_size B <= prologue st + 8 + total_size bs.
Proof.
  intros H HB.
  pose proof (contig_below _ _ B (blocks_ok_pos _ _ H) (bo_contig _ _ H) HB) as Hr.
  rewrite sizeof_header_eq in Hr. exact Hr.
Qed.

Lemma blocks_node_space st bs : blocks_ok st bs -> node_space st (block_node bs).
Proof.
  intros H. pose proof (bo_heads _ _ H) as [Hpos Hab].
  pose proof (bo_bound _ _ H) as [_ Hfit].
  rewrite sizeof_pointer_eq, TOTALNUMLIST_eq in Hab.
  rewrite sizeof_header_eq in Hfit.
  split.
  - exact Hpos.
  - intros x (B & HB & <- & _). rewrite sizeof_pointer_eq, TOTALNUMLIST_eq.
    pose proof (blocks_ok_range _ _ _ H HB). lia.
  - intros x (B & HB & <- & Hs). rewrite MIN_BLOCK_SIZE_eq in Hs.
    pose proof (blocks_ok_range _ _ _ H HB). lia.
  - intros x y (B & HB & <- & Hs) (B' & HB' & <- & Hs') Hne.
    rewrite MIN_BLOCK_SIZE_eq in Hs, Hs'.
    destruct (contig_disjoint _ _ B B' (blocks_ok_pos _ _ H) (bo_contig _ _ H) HB HB')
      as [->|[?|?]]; [congruence|lia|lia].
Qed.

Lemma nodes_free_in bs fl st :
  blocks_ok st bs -> nodes_free bs fl -> nodes_in (block_node bs) fl.
Proof.
  intros H Hn k x Hk Hx. destruct (Hn k x Hk Hx) as (B & HB & Ha & Hf & _).
  exists B. repeat split; try assumption.
  destruct (bo_sizes _ _ H B HB) as (_ & _ & Hfree). auto.
Qed.

(** A tag is neither in the head array nor in the links of a node. *)
Lemma tag_byte_apart st bs i :
  blocks_ok st bs -> tag_byte st bs i ->
  segListHead st + 88 <= i
  /\ forall x, block_node bs x -> i < x + 8 \/ x + 24 <= i.
Proof.
  intros H Ht. pose proof (bo_heads _ _ H) as [Hpos Hab].
  rewrite sizeof_pointer_eq, TOTALNUMLIST_eq in Hab.
  pose proof (total_size_nonneg bs (blocks_ok_pos _ _ H)) as Htot.
  destruct Ht as [Hp|[He|(B & HB & Hi)]].
  - split; [lia|]. intros x (B' & HB' & <- & _).
    pose proof (blocks_ok_range _ _ _ H HB'). lia.
  - split; [lia|]. intros x (B' & HB' & <- & Hs). rewrite MIN_BLOCK_SIZE_eq in Hs.
    pose proof (blocks_ok_range _ _ _ H HB'). lia.
  - pose proof (blocks_ok_range _ _ _ H HB) as HrB.
    destruct (bo_sizes _ _ H B HB) as (Hs8 & _).
    split; [lia|]. intros x (B' & HB' & <- & Hs').
    rewrite MIN_BLOCK_SIZE_eq in Hs'.
    destruct (contig_disjoint _ _ B B' (blocks_ok_pos _ _ H) (bo_contig _ _ H) HB HB')
      as [->|[?|?]]; lia.
Qed.

(** The blocks stay what they are when no tag is written. *)
Lemma blocks_ok_frame st st' bs :
  blocks_ok st bs ->
  segListHead st' = segListHead st -> prologue st' = prologue st ->
  (forall i, tag_byte st bs i -> load8 (heap st') i = load8 (heap st) i) ->
  blocks_ok st' bs.
Proof.
  intros [Hh Hp Hc He Hb Hs Ht] HS HP Hfr.
  split; rewrite ?HS, ?HP; try assumption.
  - destruct Hp as [Hp1 Hp2]. split.
    + rewrite <- Hp1. apply get_block_size_ext. intros i Hi. apply Hfr. left. lia.
    + rewrite <- Hp2. apply get_allocated_ext. intros i Hi. apply Hfr. left. lia.
  - cbv zeta in *. destruct He as [He1 He2]. rewrite sizeof_header_eq in *. split.
    + rewrite <- He1. apply get_block_size_ext. intros i Hi. apply Hfr. right. left. lia.
    + rewrite <- He2. apply get_allocated_ext. intros i Hi. apply Hfr. right. left. lia.
  - intros B HB. unfold tagged.
    assert (F : forall i, b_addr B <= i < b_addr B + 4
                  \/ b_addr B + b_size B - 8 <= i < b_addr B + b_size B - 4 ->
                  load8 (heap st') i = load8 (heap st) i).
    { intros i Hi. apply Hfr. right. right. exists B. split; assumption. }
    rewrite (get_block_size_ext (heap st) (heap st') (b_addr B))
      by (intros; apply F; lia).
    rewrite (get_allocated_ext (heap st) (heap st') (b_addr B))
      by (intros; apply F; lia).
    rewrite (get_block_size_ext (heap st) (heap st') (b_addr B + b_size B - 8))
      by (intros; apply F; lia).
    rewrite (get_allocated_ext (heap st) (heap st') (b_addr B + b_size B - 8))
      by (intros; apply F; lia).
    exact (Ht B HB).
Qed.

(** The lists stay what they are when neither the head array nor a link
    of a node is written. *)
Lemma lists_ok_frame st st' fl :
  lists_ok st fl ->
  segListHead st' = segListHead st ->
  (forall i, segListHead st <= i < segListHead st + 88 ->
             load8 (heap st') i = load8 (heap st) i) ->
  (forall k y i, 0 <= k < TOTALNUMLIST -> y ∈ fl k -> y + 8 <= i < y + 24 ->
             load8 (heap st') i = load8 (heap st) i) ->
  lists_ok st' fl.
Proof.
  intros [Hd Hn Hj] HS Hh Hl. split; [|exact Hn|exact Hj].
  intros k Hk. apply (dll_untouched st); [exact HS|apply Hd; exact Hk| |].
  - intros i Hi. apply Hh. rewrite TOTALNUMLIST_eq in Hk. lia.
  - intros y i Hy Hi. apply (Hl k y); assumption.
Qed.

Lemma pop_pre st bs fl b k :
  Pre (mkHeap bs fl) st -> 0 <= k < TOTALNUMLIST -> b ∈ fl k ->
  Pre (mkHeap bs (fl_remove b k fl)) (list_pop b k st).
Proof.
  intros [Hb Hl Hn] Hk Hin. cbn [blocks flist] in *.
  pose proof (blocks_node_space _ _ Hb) as HNS.
  pose proof (nodes_free_in _ _ _ Hb Hn) as HN.
  destruct (list_pop_ok st fl _ b k HNS HN Hl Hk Hin) as [Hl' Hfr].
  destruct (list_pop_fields b k st) as (HS & HP & _).
  split; cbn [blocks flist].
  - apply (blocks_ok_frame st); try assumption.
    intros i Hi. destruct (tag_byte_apart _ _ _ Hb Hi) as [Hi1 Hi2].
    apply Hfr; [lia|]. intros x Hx _. apply Hi2. exact (HN k x Hk Hx).
  - exact Hl'.
  - intros j x Hj Hx. apply elem_of_fl_remove in Hx as [Hx _]. auto.
Qed.

Lemma push_pre st bs fl x k :
  Pre (mkHeap bs fl) st -> 0 <= k < TOTALNUMLIST ->
  free_of_class bs k x ->
  (forall j, 0 <= j < TOTALNUMLIST -> x ∉ fl j) ->
  Pre (mkHeap bs (fl_push x k fl)) (list_push x k st).
Proof.
  intros [Hb Hl Hn] Hk Hx Hfresh. cbn [blocks flist] in *.
  pose proof (blocks_node_space _ _ Hb) as HNS.
  pose proof (nodes_free_in _ _ _ Hb Hn) as HN.
  assert (HNx : block_node bs x).
  { destruct Hx as (B & HB & Ha & Hf & _). exists B. repeat split; try assumption.
    destruct (bo_sizes _ _ Hb B HB) as (_ & _ & Hfree). auto. }
  destruct (list_push_ok st fl _ x k HNS HN Hl Hk HNx Hfresh) as [Hl' Hfr].
  destruct (list_push_fields x k st) as (HS & HP & _).
  split; cbn [blocks flist].
  - apply (blocks_ok_frame st); try assumption.
    intros i Hi. destruct (tag_byte_apart _ _ _ Hb Hi) as [Hi1 Hi2].
    apply Hfr; [lia|apply Hi2; exact HNx|].
    intros y Hy. apply Hi2. exact (HN k y Hk Hy).
  - exact Hl'.
  - intros j y Hj Hy. apply elem_of_fl_push in Hy as [[-> ->]|Hy]; auto.
Qed.

Lemma free_of_class_mono bs bs' k x :
  (forall B, B ∈ bs -> B ∈ bs') -> free_of_class bs k x -> free_of_class bs' k x.
Proof. intros H (B & HB & Hr). exists B. split; auto. Qed.

(** Blocks before and after a stretch of the row lie outside it. *)
Lemma contig_parts a l1 mid l2 :
  (forall B, B ∈ l1 ++ mid ++ l2 -> 0 < b_size B) ->
  contig a (l1 ++ mid ++ l2) ->
  (forall B, B ∈ l1 -> a <= b_addr B /\ b_addr B + b_size B <= a + total_size l1)
  /\ (forall B, B ∈ l2 ->
        a + total_size l1 + total_size mid <= b_addr B
        /\ b_addr B + b_size B <= a + total_size (l1 ++ mid ++ l2)).
Proof.
  intros Hpos Hc. apply contig_app in Hc as [Hc1 Hc2].
  apply contig_app in Hc2 as [Hcm Hc2].
  assert (0 <= total_size l1).
  { apply total_size_nonneg. intros B HB. apply Hpos, elem_of_app. now left. }
  assert (0 <= total_size mid).
  { apply total_size_nonneg. intros B HB. apply Hpos, elem_of_app. right.
    apply elem_of_app. now left. }
  split.
  - intros B HB. apply contig_below; [|exact Hc1|exact HB].
    intros B' HB'. apply Hpos, elem_of_app. now left.
  - intros B HB. rewrite !total_size_app.
    assert (Hr : a + total_size l1 + total_size mid <= b_addr B
                 /\ b_addr B + b_size B
                    <= a + total_size l1 + total_size mid + total_size l2).
    { apply contig_below; [|exact Hc2|exact HB].
      intros B' HB'. apply Hpos, elem_of_app. right. apply elem_of_app. now right. }
    lia.
Qed.

(** Rewriting the tags of a stretch of blocks that are on no list. *)
Lemma retag_pre st st' l1 old new l2 fl :
  Pre (mkHeap (l1 ++ old ++ l2) fl) st ->
  nodes_free (l1 ++ l2) fl ->
  total_size new = total_size old ->
  (forall B, B ∈ new -> size_ok B) ->
  contig (prologue st + 8 + total_size l1) new ->
  segListHead st' = segListHead st -> prologue st' = prologue st ->
  (forall B, B ∈ new -> tagged (heap st') B) ->
  (forall i, i < prologue st + 8 + total_size l1
             \/ prologue st + 8 + total_size l1 + total_size old <= i ->
             load8 (heap st') i = load8 (heap st) i) ->
  Pre (mkHeap (l1 ++ new ++ l2) fl) st'.
Proof.
  intros [Hb Hl Hn] Hn' Htot Hsz Hcn HS HP Htag Hfr. cbn [blocks flist] in *.
  pose proof Hb as [Hh Hp Hc He Hbd Hs Ht].
  pose proof (blocks_ok_pos _ _ Hb) as Hpos.
  rewrite sizeof_header_eq in *.
  rewrite sizeof_pointer_eq, TOTALNUMLIST_eq in Hh.
  destruct (contig_parts _ _ _ _ Hpos Hc) as [Hr1 Hr2].
  pose proof Hc as Hc'. apply contig_app in Hc' as [Hc1 Hc2].
  apply contig_app in Hc2 as [_ Hc2].
  assert (Ht1 : 0 <= total_size l1).
  { apply total_size_nonneg. intros B HB. apply Hpos, elem_of_app. now left. }
  assert (Hto : 0 <= total_size old).
  { apply total_size_nonneg. intros B HB. apply Hpos, elem_of_app. right.
    apply elem_of_app. now left. }
  assert (Ht2 : 0 <= total_size l2).
  { apply total_size_nonneg. intros B HB. apply Hpos, elem_of_app. right.
    apply elem_of_app. now right. }
  assert (Htotal : total_size (l1 ++ new ++ l2) = total_size (l1 ++ old ++ l2)).
  { rewrite !total_size_app. lia. }
  split; cbn [blocks flist].
  - split; rewrite ?HS, ?HP, ?sizeof_header_eq, ?sizeof_pointer_eq, ?TOTALNUMLIST_eq,
      ?Htotal; try assumption.
    + destruct Hp as [Hp1 Hp2]. split.
      * rewrite <- Hp1. apply get_block_size_ext. intros i Hi. apply Hfr. lia.
      * rewrite <- Hp2. apply get_allocated_ext. intros i Hi. apply Hfr. lia.
    + apply contig_app. split; [exact Hc1|]. apply contig_app. split; [exact Hcn|].
      rewrite Htot. exact Hc2.
    + cbv zeta in *. destruct He as [He1 He2].
      rewrite !total_size_app in *. split.
      * rewrite <- He1. apply get_block_size_ext. intros i Hi. apply Hfr. lia.
      * rewrite <- He2. apply get_allocated_ext. intros i Hi. apply Hfr. lia.
    + intros B HB. apply elem_of_app in HB as [HB|HB];
        [apply Hs, elem_of_app; now left|].
      apply elem_of_app in HB as [HB|HB]; [now apply Hsz|].
      apply Hs, elem_of_app. right. apply elem_of_app. now right.
    + intros B HB.
      assert (Hold : B ∈ l1 \/ B ∈ l2 -> tagged (heap st') B).
      { intros Hin.
        assert (HB' : B ∈ l1 ++ old ++ l2).
        { destruct Hin; apply elem_of_app; [now left|right; apply elem_of_app; now right]. }
        assert (Hout : b_addr B + b_size B <= prologue st + 8 + total_size l1
                       \/ prologue st + 8 + total_size l1 + total_size old <= b_addr B).
        { destruct Hin as [Hin|Hin]; [left; apply Hr1; exact Hin|right; apply Hr2; exact Hin]. }
        destruct (Hs B HB') as (Hs8 & _).
        unfold tagged.
        rewrite (get_block_size_ext (heap st) (heap st') (b_addr B))
          by (intros; apply Hfr; lia).
        rewrite (get_allocated_ext (heap st) (heap st') (b_addr B))
          by (intros; apply Hfr; lia).
        rewrite (get_block_size_ext (heap st) (heap st') (b_addr B + b_size B - 8))
          by (intros; apply Hfr; lia).
        rewrite (get_allocated_ext (heap st) (heap st') (b_addr B + b_size B - 8))
          by (intros; apply Hfr; lia).
        exact (Ht B HB'). }
      apply elem_of_app in HB as [HB|HB]; [apply Hold; now left|].
      apply elem_of_app in HB as [HB|HB]; [now apply Htag|apply Hold; now right].
  - apply (lists_ok_frame st); [exact Hl|exact HS| |].
    + intros i Hi. apply Hfr. lia.
    + intros k y i Hk Hy Hi. destruct (Hn' k y Hk Hy) as (B & HB & <- & Hf & _).
      assert (HB' : B ∈ l1 ++ old ++ l2).
      { apply elem_of_app in HB as [HB|HB]; apply elem_of_app;
          [now left|right; apply elem_of_app; now right]. }
      destruct (Hs B HB') as (_ & _ & Hfree). specialize (Hfree Hf).
      rewrite MIN_BLOCK_SIZE_eq in Hfree.
      apply Hfr. apply elem_of_app in HB as [HB|HB].
      * pose proof (Hr1 B HB). lia.
      * pose proof (Hr2 B HB). lia.
  - intros k y Hk Hy. apply (free_of_class_mono (l1 ++ l2)); [|apply Hn'; assumption].
    intros B HB. apply elem_of_app in HB as [HB|HB]; apply elem_of_app;
      [now left|right; apply elem_of_app; now right].
Qed.

End Blocks.

Lemma segListIndex_class s :
  32 <= s < 2 ^ 32 -> 0 <= segListIndex s < TOTALNUMLIST.
Proof.
  intros Hs. rewrite segListIndex_pos by lia. rewrite TOTALNUMLIST_eq.
  assert (5 <= Z.log2 s).
  { change 5 with (Z.log2 32). apply Z.log2_le_mono. lia. }
  lia.
Qed.

(** * Writing boundary tags *)

Lemma flag_mod2 fb : flag fb mod 2 = flag fb.
Proof. now destruct fb. Qed.

Lemma flag_ALLOC : flag true = ALLOC.
Proof. reflexivity. Qed.

Lemma flag_FREE : flag false = FREE.
Proof. reflexivity. Qed.

Lemma mod8_cases s : 0 < s -> s mod 8 = 0 -> s = 8 \/ 16 <= s.
Proof. intros H1 H2. apply Z.mod_divide in H2 as [q ->]; lia. Qed.

(** Size and flag written to the header and then to the footer. *)
Lemma write_tags m a s fb :
  s = 8 \/ 16 <= s -> s < 2 ^ 31 ->
  let m' := put_allocated (a + s - 8) (flag fb)
              (put_block_size (a + s - 8) s
                 (put_allocated a (flag fb) (put_block_size a s m))) in
  tagged m' (mkBlk a s fb)
  /\ forall i, i < a \/ a + s <= i -> load8 m' i = load8 m i.
Proof.
  intros Hs Hlt m'. subst m'. split.
  - unfold tagged. cbn [b_addr b_size b_alloc].
    destruct Hs as [->|Hs].
    + replace (a + 8 - 8) with a by lia.
      mem_simpl. rewrite flag_mod2. uint_simpl. auto.
    + mem_simpl. rewrite !flag_mod2. uint_simpl. auto.
  - intros i Hi.
    repeat first [rewrite load8_put_allocated by lia
                 |rewrite load8_put_block_size by lia]. reflexivity.
Qed.

(** The flag alone written to the header and then to the footer. *)
Lemma mark_tags m a s fb0 fb :
  tagged m (mkBlk a s fb0) -> s = 8 \/ 16 <= s ->
  let m' := put_allocated (a + s - 8) (flag fb) (put_allocated a (flag fb) m) in
  tagged m' (mkBlk a s fb)
  /\ forall i, i < a \/ a + s <= i -> load8 m' i = load8 m i.
Proof.
  intros (T1 & T2 & T3 & T4) Hs m'. subst m'. cbn [b_addr b_size b_alloc] in *. split.
  - unfold tagged. cbn [b_addr b_size b_alloc].
    destruct Hs as [->|Hs].
    + replace (a + 8 - 8) with a in * by lia.
      mem_simpl. rewrite flag_mod2. auto.
    + mem_simpl. rewrite !flag_mod2. auto.
  - intros i Hi.
    rewrite !load8_put_allocated by lia. reflexivity.
Qed.

(** The size alone written to the header and then to the footer, over
    tags that hold the flag already. *)
Lemma size_tags m a s fb :
  get_allocated m a = flag fb -> get_allocated m (a + s - 8) = flag fb ->
  s = 8 \/ 16 <= s -> s < 2 ^ 31 ->
  let m' := put_block_size (a + s - 8) s (put_block_size a s m) in
  tagged m' (mkBlk a s fb)
  /\ forall i, i < a \/ a + s <= i -> load8 m' i = load8 m i.
Proof.
  intros T1 T2 Hs Hlt m'. subst m'. split.
  - unfold tagged. cbn [b_addr b_size b_alloc].
    destruct Hs as [->|Hs].
    + replace (a + 8 - 8) with a in * by lia.
      mem_simpl. uint_simpl. auto.
    + mem_simpl. uint_simpl. auto.
  - intros i Hi.
    rewrite !load8_put_block_size by lia. reflexivity.
Qed.

Lemma tagged_ext m m' B :
  8 <= b_size B ->
  (forall i, b_addr B <= i < b_addr B + b_size B -> load8 m' i = load8 m i) ->
  tagged m B -> tagged m' B.
Proof.
  intros Hs Hfr T. unfold tagged in *.
  rewrite (get_block_size_ext m m' (b_addr B)) by (intros; apply Hfr; lia).
  rewrite (get_allocated_ext m m' (b_addr B)) by (intros; apply Hfr; lia).
  rewrite (get_block_size_ext m m' (b_addr B + b_size B - 8)) by (intros; apply Hfr; lia).
  rewrite (get_allocated_ext m m' (b_addr B + b_size B - 8)) by (intros; apply Hfr; lia).
  exact T.
Qed.

Section Place.

Context {E : Type}.
Implicit Types (st : state E).

(** What the representation says of one block of the row. *)
Lemma blocks_ok_at st l1 B l2 :
  blocks_ok st (l1 ++ B :: l2) ->
  b_addr B = prologue st + 8 + total_size l1
  /\ 0 <= total_size l1 /\ 0 <= total_size l2
  /\ size_ok B /\ tagged (heap st) B
  /\ 0 < segListHead st /\ segListHead st + 88 <= prologue st
  /\ 8 + (total_size l1 + (b_size B + total_size l2)) + 8 < 2 ^ 31
  /\ prologue st + 8 + (total_size l1 + (b_size B + total_size l2)) + 8 <= 2 ^ 64.
Proof.
  intros Hb. pose proof (blocks_ok_pos _ _ Hb) as Hpos.
  destruct Hb as [Hh Hp Hc He Hbd Hs Ht].
  rewrite sizeof_header_eq in *. rewrite sizeof_pointer_eq, TOTALNUMLIST_eq in Hh.
  apply contig_app in Hc as [_ Hc]. cbn [contig] in Hc. destruct Hc as [Ha _].
  rewrite total_size_app in Hbd. cbn [total_size] in Hbd.
  assert (HB : B ∈ l1 ++ B :: l2) by (apply elem_of_app; right; left).
  repeat split; try tauto; try lia; try (apply Hs, HB); try (apply Ht, HB).
  - apply total_size_nonneg. intros B' HB'. apply Hpos, elem_of_app. now left.
  - apply total_size_nonneg. intros B' HB'. apply Hpos, elem_of_app. right. now right.
Qed.

(** Once a block is off its list, all nodes are among the other blocks. *)
Lemma nodes_free_removed l1 B l2 fl :
  nodes_free (l1 ++ B :: l2) fl ->
  nodes_free (l1 ++ l2) (fl_remove (b_addr B) (segListIndex (b_size B)) fl).
Proof.
  intros Hn k x Hk Hx. apply elem_of_fl_remove in Hx as [Hx Hne].
  destruct (Hn k x Hk Hx) as (B' & HB' & Ha & Hf & Hc).
  exists B'. repeat split; try assumption.
  apply elem_of_app in HB' as [HB'|HB']; apply elem_of_app; [now left|].
  apply elem_of_cons in HB' as [->|HB']; [|now right].
  exfalso. apply Hne; congruence.
Qed.

Lemma in_around (l1 mid l2 : list blk) B : B ∈ l1 ++ l2 -> B ∈ l1 ++ mid ++ l2.
Proof.
  intros HB. apply elem_of_app in HB as [HB|HB]; apply elem_of_app;
    [now left|right; apply elem_of_app; now right].
Qed.

Lemma in_around_inv (l1 mid l2 : list blk) B :
  B ∈ l1 ++ mid ++ l2 -> B ∈ l1 ++ l2 \/ B ∈ mid.
Proof.
  intros HB. apply elem_of_app in HB as [HB|HB];
    [left; apply elem_of_app; now left|].
  apply elem_of_app in HB as [HB|HB]; [now right|left; apply elem_of_app; now right].
Qed.

(** The blocks around a stretch have addresses outside it. *)
Lemma around_outside st l1 mid l2 B :
  blocks_ok st (l1 ++ mid ++ l2) -> B ∈ l1 ++ l2 ->
  b_addr B + b_size B <= prologue st + 8 + total_size l1
  \/ prologue st + 8 + total_size l1 + total_size mid <= b_addr B.
Proof.
  intros Hb HB. pose proof (blocks_ok_pos _ _ Hb) as Hpos.
  pose proof (bo_contig _ _ Hb) as Hc. rewrite sizeof_header_eq in Hc.
  destruct (contig_parts _ _ _ _ Hpos Hc) as [Hr1 Hr2].
  apply elem_of_app in HB as [HB|HB]; [left; apply Hr1, HB|right; apply Hr2, HB].
Qed.

(** [place] on a free block that is on the list of its class.  With a
    residual of at least [MIN_BLOCK_SIZE] the block is taken off its list,
    becomes an allocated block of [asize] bytes, and the residual becomes
    a free block at offset [asize], tagged at both ends and pushed on the
    list of its own class; with a smaller residual the block is taken off
    its list and marked allocated at its full size. *)
Lemma place_rep st l1 l2 fl b s asize :
  Rep (mkHeap (l1 ++ mkBlk b s false :: l2) fl) st ->
  0 < asize <= s -> asize mod 8 = 0 ->
  let r := s - asize in
  let st' := place b asize st in
  let fl1 := fl_remove b (segListIndex s) fl in
  segListHead st' = segListHead st /\ prologue st' = prologue st
  /\ extender st' = extender st
  /\ if MIN_BLOCK_SIZE <=? r then
       Rep (mkHeap (l1 ++ mkBlk b asize true :: mkBlk (b + asize) r false :: l2)
                   (fl_push (b + asize) (segListIndex r) fl1)) st'
     else
       Rep (mkHeap (l1 ++ mkBlk b s true :: l2) fl1) st'.
Proof.
  intros [HPre Hfl] Has Ha8 r st' fl1. cbn [blocks flist] in *.
  pose proof (pre_blocks _ _ HPre) as Hb. cbn [blocks] in Hb.
  destruct (blocks_ok_at _ _ _ _ Hb)
    as (Hadr & Ht1 & Ht2 & Hsz & Htag & HS0 & HSP & Hb31 & Hb64).
  cbn [b_addr b_size b_alloc] in *.
  destruct Hsz as (Hs8 & Hsm & Hs32). cbn [b_addr b_size b_alloc] in *.
  specialize (Hs32 eq_refl). rewrite MIN_BLOCK_SIZE_eq in Hs32.
  destruct Htag as (T1 & T2 & T3 & T4). cbn [b_addr b_size b_alloc] in *.
  assert (Hk : 0 <= segListIndex s < TOTALNUMLIST).
  { apply segListIndex_class. lia. }
  assert (Hin : b ∈ fl (segListIndex s)).
  { apply (Hfl (mkBlk b s false)); [apply elem_of_app; right; left|reflexivity]. }
  pose proof (pop_pre _ _ _ _ _ HPre Hk Hin) as HPre1. fold fl1 in HPre1.
  destruct (list_pop_fields b (segListIndex s) st) as (HS1 & HP1 & HE1).
  assert (Hplace : place b asize st = st') by reflexivity. clearbody st'.
  cbv beta delta [place] in Hplace.
  assert (Hbs : block_size st b = s) by (rewrite block_size_eq; exact T1).
  rewrite Hbs in Hplace.
  replace (to_size_t (s - asize)) with r in Hplace by (unfold r; now uint_simpl).
  cbv zeta in Hplace.
  set (st1 := list_pop b (segListIndex s) st) in *.
  assert (Hout : forall B, B ∈ l1 ++ [mkBlk b s false] ++ l2 -> B <> mkBlk b s false ->
                   0 < b_size B /\ (b_addr B + b_size B <= b \/ b + s <= b_addr B)).
  { intros B HB Hne. split; [apply (blocks_ok_pos _ _ Hb), HB|].
    assert (HB' : B ∈ l1 ++ l2).
    { apply in_around_inv in HB as [HB|HB]; [exact HB|].
      apply list_elem_of_singleton in HB. contradiction. }
    pose proof (around_outside st l1 [mkBlk b s false] l2 B Hb HB') as H.
    cbn [total_size b_size] in H. lia. }
  assert (Hout' : forall B, B ∈ l1 ++ l2 ->
                   0 < b_size B /\ (b_addr B + b_size B <= b \/ b + s <= b_addr B)).
  { intros B HB. split; [apply (blocks_ok_pos _ _ Hb), (in_around _ [mkBlk b s false]), HB|].
    pose proof (around_outside st l1 [mkBlk b s false] l2 B Hb HB) as H.
    cbn [total_size b_size] in H. lia. }
  clear Hout. rename Hout' into Hout.
  assert (Hkeep : forall B, B ∈ l1 ++ l2 -> b_alloc B = false ->
                    b_addr B ∈ fl1 (segListIndex (b_size B))).
  { intros B HB Hf. apply elem_of_fl_remove. split.
    - apply Hfl; [|exact Hf]. apply (in_around _ [mkBlk b s false]), HB.
    - intros _ Heq. destruct (Hout B HB). lia. }
  assert (Hcases : asize = 8 \/ 16 <= asize) by (apply mod8_cases; [lia|assumption]).
  assert (T1' : get_block_size (heap st1) b = s /\ get_block_size (heap st1) (b + s - 8) = s).
  { destruct (bo_tagged _ _ (pre_blocks _ _ HPre1) (mkBlk b s false)) as (? & _ & ? & _);
      [apply elem_of_app; right; left|]. auto. }
  destruct T1' as [T1' T3'].
  assert (Tg1 : tagged (heap st1) (mkBlk b s false)).
  { apply (bo_tagged _ _ (pre_blocks _ _ HPre1)). apply elem_of_app; right; left. }
  clearbody st1.
  destruct (Z.leb_spec MIN_BLOCK_SIZE r) as [Hr|Hr]; rewrite MIN_BLOCK_SIZE_eq in Hr.
  - (* split *)
    set (st3 := set_allocated b ALLOC (set_block_size b asize st1)) in *.
    assert (R1 : get_footer st3 b = b + asize - 8).
    { clear Hplace. rewrite get_footer_eq. cut (get_block_size (heap st3) b = asize); [lia|].
      unfold st3. st_unfold. mem_simpl. now uint_simpl. }
    rewrite R1 in Hplace.
    set (st5 := set_allocated (b + asize - 8) ALLOC
                  (set_block_size (b + asize - 8) asize st3)) in *.
    assert (H5 : heap st5
                 = put_allocated (b + asize - 8) (flag true)
                     (put_block_size (b + asize - 8) asize
                        (put_allocated b (flag true) (put_block_size b asize (heap st1))))).
    { unfold st5, st3. st_unfold. reflexivity. }
    destruct (write_tags (heap st1) b asize true Hcases ltac:(lia)) as [Tg5 Fr5].
    cbv zeta in Tg5, Fr5. rewrite <- H5 in Tg5, Fr5.
    assert (F5 : segListHead st5 = segListHead st1 /\ prologue st5 = prologue st1
                 /\ extender st5 = extender st1).
    { unfold st5, st3. st_unfold. auto. }
    clearbody st5. clear st3 R1 H5.
    assert (R2 : block_size st5 b = asize).
    { rewrite block_size_eq. apply Tg5. }
    rewrite R2 in Hplace.
    set (st7 := set_allocated (b + asize) FREE (set_block_size (b + asize) r st5)) in *.
    assert (R3 : get_footer st7 (b + asize) = b + asize + r - 8).
    { clear Hplace. rewrite get_footer_eq.
      cut (get_block_size (heap st7) (b + asize) = r); [lia|].
      unfold st7. st_unfold. mem_simpl. uint_simpl. reflexivity. }
    rewrite R3 in Hplace.
    set (st9 := set_allocated (b + asize + r - 8) FREE
                  (set_block_size (b + asize + r - 8) r st7)) in *.
    assert (H9 : heap st9
                 = put_allocated (b + asize + r - 8) (flag false)
                     (put_block_size (b + asize + r - 8) r
                        (put_allocated (b + asize) (flag false)
                           (put_block_size (b + asize) r (heap st5))))).
    { unfold st9, st7. st_unfold. reflexivity. }
    destruct (write_tags (heap st5) (b + asize) r false ltac:(lia) ltac:(lia)) as [Tg9 Fr9].
    cbv zeta in Tg9, Fr9. rewrite <- H9 in Tg9, Fr9.
    assert (F9 : segListHead st9 = segListHead st5 /\ prologue st9 = prologue st5
                 /\ extender st9 = extender st5).
    { unfold st9, st7. st_unfold. auto. }
    clearbody st9. clear st7 R3 H9.
    assert (R4 : block_size st9 (b + asize) = r).
    { rewrite block_size_eq. apply Tg9. }
    rewrite R4 in Hplace.
    destruct F5 as (F5a & F5b & F5c), F9 as (F9a & F9b & F9c).
    destruct (list_push_fields (b + asize) (segListIndex r) st9) as (FSa & FSb & FSc).
    rewrite Hplace in FSa, FSb, FSc.
    assert (Hr8 : r mod 8 = 0).
    { unfold r. rewrite Zminus_mod, Hsm, Ha8. reflexivity. }
    assert (Hkr : 0 <= segListIndex r < TOTALNUMLIST) by (apply segListIndex_class; lia).
    pose proof (nodes_free_removed _ _ _ _ (pre_nodes _ _ HPre)) as Hnf.
    cbn [blocks flist b_addr b_size] in Hnf. fold fl1 in Hnf.
    assert (HPre9 : Pre (mkHeap (l1 ++ [mkBlk b asize true; mkBlk (b + asize) r false] ++ l2)
                                fl1) st9).
    { apply (retag_pre st1 st9 l1 [mkBlk b s false]); try assumption; try congruence.
      - cbn [total_size b_size]. unfold r. lia.
      - intros B HB. apply elem_of_cons in HB as [->|HB];
          [|apply list_elem_of_singleton in HB as ->];
          unfold size_ok; cbn [b_size b_alloc]; rewrite ?MIN_BLOCK_SIZE_eq;
          repeat split; try lia; try assumption; try discriminate.
      - cbn [contig b_addr b_size]. rewrite HP1. repeat split; lia.
      - intros B HB. apply elem_of_cons in HB as [->|HB];
          [|apply list_elem_of_singleton in HB as ->]; [|exact Tg9].
        apply (tagged_ext (heap st5)); [cbn [b_size]; lia| |exact Tg5].
        cbn [b_addr b_size]. intros i Hi. apply Fr9. lia.
      - cbn [total_size b_size]. rewrite HP1. intros i Hi.
        rewrite Fr9 by (unfold r; lia). apply Fr5. lia. }
    rewrite <- Hplace in *.
    split; [congruence|split; [congruence|split; [congruence|]]].
    split; cbn [blocks flist].
    + apply (push_pre st9); try assumption.
      * exists (mkBlk (b + asize) r false). repeat split.
        apply elem_of_app; right; right; left.
      * intros j Hj Hx. destruct (Hnf j _ Hj Hx) as (B & HB & Ha & _).
        destruct (Hout B HB). lia.
    + intros B HB Hf. apply elem_of_fl_push.
      apply (in_around_inv l1 [_; _]) in HB as [HB|HB].
      * right. apply Hkeep; assumption.
      * apply elem_of_cons in HB as [->|HB]; [discriminate|].
        apply list_elem_of_singleton in HB as ->. left. auto.
  - (* no split *)
    assert (R1 : get_footer (set_allocated b ALLOC st1) b = b + s - 8).
    { clear Hplace. rewrite get_footer_eq.
      cut (get_block_size (heap (set_allocated b ALLOC st1)) b = s); [lia|].
      st_unfold. mem_simpl. exact T1'. }
    rewrite R1 in Hplace.
    assert (H3 : heap st' = put_allocated (b + s - 8) (flag true)
                              (put_allocated b (flag true) (heap st1))).
    { rewrite <- Hplace. st_unfold. reflexivity. }
    destruct (mark_tags (heap st1) b s false true Tg1 ltac:(lia)) as [Tg3 Fr3].
    cbv zeta in Tg3, Fr3. rewrite <- H3 in Tg3, Fr3.
    assert (F3 : segListHead st' = segListHead st1 /\ prologue st' = prologue st1
                 /\ extender st' = extender st1).
    { rewrite <- Hplace. st_unfold. auto. }
    destruct F3 as (F3a & F3b & F3c).
    clear Hplace R1 H3.
    pose proof (nodes_free_removed _ _ _ _ (pre_nodes _ _ HPre)) as Hnf.
    cbn [blocks flist b_addr b_size] in Hnf. fold fl1 in Hnf.
    split; [congruence|split; [congruence|split; [congruence|]]].
    split; cbn [blocks flist].
    + apply (retag_pre st1 st' l1 [mkBlk b s false] [mkBlk b s true]);
        try assumption; try congruence; try reflexivity.
      * intros B HB. apply list_elem_of_singleton in HB as ->.
        unfold size_ok; cbn [b_size b_alloc]. repeat split; try lia; try assumption;
          try discriminate.
      * cbn [contig b_addr b_size]. rewrite HP1. repeat split; lia.
      * intros B HB. apply list_elem_of_singleton in HB as ->. exact Tg3.
      * cbn [total_size b_size]. rewrite HP1. intros i Hi. apply Fr3. lia.
    + intros B HB Hf.
      apply (in_around_inv l1 [_]) in HB as [HB|HB].
      * apply Hkeep; assumption.
      * apply list_elem_of_singleton in HB as ->. discriminate.
Qed.

End Place.

Section Merge.

Context {E : Type}.
Implicit Types (st : state E).

Lemma nodes_free_drop bs bs' B fl :
  nodes_free bs fl ->
  (forall B', B' ∈ bs -> B' = B \/ B' ∈ bs') ->
  nodes_free bs' (fl_remove (b_addr B) (segListIndex (b_size B)) fl).
Proof.
  intros Hn Hsub k x Hk Hx. apply elem_of_fl_remove in Hx as [Hx Hne].
  destruct (Hn k x Hk Hx) as (B' & HB' & Ha & Hf & Hc).
  destruct (Hsub B' HB') as [->|HB'']; [exfalso; apply Hne; congruence|].
  exists B'. auto.
Qed.

(** The free blocks that are listed stay listed when another node is
    taken off. *)
Lemma listed_drop (outer : list blk) fl x k :
  (forall B, B ∈ outer -> b_alloc B = false -> b_addr B ∈ fl (segListIndex (b_size B))) ->
  (forall B, B ∈ outer -> b_addr B <> x) ->
  forall B, B ∈ outer -> b_alloc B = false ->
    b_addr B ∈ fl_remove x k fl (segListIndex (b_size B)).
Proof.
  intros Hl Hne B HB Hf. apply elem_of_fl_remove. split; [now apply Hl|].
  intros _. now apply Hne.
Qed.

(** A stretch of free blocks that are off their lists becomes one free
    block on the list of its class. *)
Lemma merge_rep st l1 mid l2 fl a S :
  Pre (mkHeap (l1 ++ mid ++ l2) fl) st ->
  nodes_free (l1 ++ l2) fl ->
  (forall B, B ∈ l1 ++ l2 -> b_alloc B = false ->
     b_addr B ∈ fl (segListIndex (b_size B))) ->
  a = prologue st + 8 + total_size l1 -> S = total_size mid ->
  get_allocated (heap st) a = FREE -> get_allocated (heap st) (a + S - 8) = FREE ->
  32 <= S -> S mod 8 = 0 ->
  let st' := list_push a (segListIndex S)
               (set_block_size (a + S - 8) S (set_block_size a S st)) in
  (segListHead st' = segListHead st /\ prologue st' = prologue st
   /\ extender st' = extender st)
  /\ Rep (mkHeap (l1 ++ mkBlk a S false :: l2) (fl_push a (segListIndex S) fl)) st'.
Proof.
  intros HPre Hnf Hl Ha HS Ta Tf HS32 HS8 st'.
  pose proof (pre_blocks _ _ HPre) as Hb. cbn [blocks] in Hb.
  pose proof (blocks_ok_pos _ _ Hb) as Hpos.
  pose proof (bo_bound _ _ Hb) as [Hb31 Hb64]. rewrite !total_size_app in Hb31, Hb64.
  rewrite sizeof_header_eq in *.
  assert (Ht1 : 0 <= total_size l1).
  { apply total_size_nonneg. intros B HB. apply Hpos, elem_of_app. now left. }
  assert (Ht2 : 0 <= total_size l2).
  { apply total_size_nonneg. intros B HB. apply Hpos, elem_of_app. right.
    apply elem_of_app. now right. }
  set (st4 := set_block_size (a + S - 8) S (set_block_size a S st)) in *.
  assert (H4 : heap st4 = put_block_size (a + S - 8) S (put_block_size a S (heap st))).
  { unfold st4. st_unfold. reflexivity. }
  destruct (size_tags (heap st) a S false Ta Tf ltac:(lia) ltac:(lia)) as [Tg4 Fr4].
  cbv zeta in Tg4, Fr4. rewrite <- H4 in Tg4, Fr4.
  assert (F4 : segListHead st4 = segListHead st /\ prologue st4 = prologue st
               /\ extender st4 = extender st).
  { unfold st4. st_unfold. auto. }
  destruct F4 as (F4a & F4b & F4c). clearbody st4. clear H4.
  destruct (list_push_fields a (segListIndex S) st4) as (FSa & FSb & FSc).
  fold st' in FSa, FSb, FSc.
  assert (Hk : 0 <= segListIndex S < TOTALNUMLIST) by (apply segListIndex_class; lia).
  assert (Hout : forall B, B ∈ l1 ++ l2 ->
                   0 < b_size B /\ (b_addr B + b_size B <= a \/ a + S <= b_addr B)).
  { intros B HB. split; [apply Hpos, in_around, HB|].
    pose proof (around_outside st l1 mid l2 B Hb HB) as H. lia. }
  assert (HPre4 : Pre (mkHeap (l1 ++ [mkBlk a S false] ++ l2) fl) st4).
  { apply (retag_pre st st4 l1 mid); try assumption.
    - cbn [total_size b_size]. lia.
    - intros B HB. apply list_elem_of_singleton in HB as ->.
      unfold size_ok; cbn [b_size b_alloc]; rewrite ?MIN_BLOCK_SIZE_eq.
      repeat split; try lia; try assumption.
    - cbn [contig b_addr b_size]. split; [lia|exact I].
    - intros B HB. apply list_elem_of_singleton in HB as ->. exact Tg4.
    - intros i Hi. apply Fr4. lia. }
  split; [split; [congruence|split; congruence]|].
  split; cbn [blocks flist].
  - apply (push_pre st4); try assumption.
    + exists (mkBlk a S false). repeat split. apply elem_of_app; right; left.
    + intros j Hj Hx. destruct (Hnf j _ Hj Hx) as (B & HB & Hadr & _).
      destruct (Hout B HB). lia.
  - intros B HB Hf. apply elem_of_fl_push.
    apply (in_around_inv l1 [_]) in HB as [HB|HB].
    + right. apply Hl; assumption.
    + apply list_elem_of_singleton in HB as ->. left. auto.
Qed.

End Merge.

Section Coalesce.

Context {E : Type}.
Implicit Types (st : state E).

(** The tag before a block is the footer of the block before it, or the
    prologue. *)
Lemma before_tags st l1 B l2 :
  blocks_ok st (l1 ++ B :: l2) ->
  (l1 = [] -> allocated st (b_addr B - 8) = ALLOC)
  /\ (forall l1' P, l1 = l1' ++ [P] ->
        allocated st (b_addr B - 8) = flag (b_alloc P)
        /\ block_size st (b_addr B - 8) = b_size P
        /\ b_addr P = b_addr B - b_size P
        /\ b_addr P = prologue st + 8 + total_size l1').
Proof.
  intros Hb. split.
  - intros ->. destruct (blocks_ok_at _ _ _ _ Hb) as (Ha & _).
    cbn [total_size] in Ha. rewrite allocated_eq.
    replace (b_addr B - 8) with (prologue st) by lia. apply (bo_prologue _ _ Hb).
  - intros l1' P ->. rewrite <- app_assoc in Hb. cbn [app] in Hb.
    destruct (blocks_ok_at _ _ _ _ Hb) as (Ha & _ & _ & _ & (_ & _ & T3 & T4) & _).
    pose proof (bo_contig _ _ Hb) as Hc. apply contig_app in Hc as [_ Hc].
    cbn [contig] in Hc. destruct Hc as (HaP & HaB & _).
    rewrite allocated_eq, block_size_eq.
    replace (b_addr B - 8) with (b_addr P + b_size P - 8) by lia.
    repeat split; try assumption. lia.
Qed.

(** The tag after a block is the header of the block after it, or the
    epilogue. *)
Lemma after_tags st l1 B l2 :
  blocks_ok st (l1 ++ B :: l2) ->
  (l2 = [] -> allocated st (b_addr B + b_size B) = ALLOC)
  /\ (forall N l2', l2 = N :: l2' ->
        allocated st (b_addr B + b_size B) = flag (b_alloc N)
        /\ block_size st (b_addr B + b_size B) = b_size N
        /\ b_addr N = b_addr B + b_size B).
Proof.
  intros Hb. split.
  - intros ->. destruct (blocks_ok_at _ _ _ _ Hb) as (Ha & _).
    pose proof (bo_epilogue _ _ Hb) as He. cbv zeta in He.
    rewrite total_size_app, sizeof_header_eq in He. cbn [total_size] in He.
    rewrite allocated_eq.
    replace (b_addr B + b_size B)
      with (prologue st + 8 + (total_size l1 + (b_size B + 0))) by lia.
    apply He.
  - intros N l2' ->.
    pose proof (bo_contig _ _ Hb) as Hc. apply contig_app in Hc as [_ Hc].
    cbn [contig] in Hc. destruct Hc as (HaB & HaN & _).
    destruct (bo_tagged _ _ Hb N) as (T1 & T2 & _);
      [apply elem_of_app; right; right; left|].
    rewrite allocated_eq, block_size_eq.
    replace (b_addr B + b_size B) with (b_addr N) by lia.
    repeat split; assumption.
Qed.

Lemma alloc_before_tag st l1 B l2 :
  blocks_ok st (l1 ++ B :: l2) -> alloc_before l1 ->
  allocated st (b_addr B - 8) = ALLOC.
Proof.
  intros Hb Hal. destruct (before_tags _ _ _ _ Hb) as [H0 H1].
  destruct l1 as [|X l1] using rev_ind; [now apply H0|].
  destruct (H1 _ _ eq_refl) as (Ha & _). rewrite Ha, (Hal _ _ eq_refl). reflexivity.
Qed.

Lemma alloc_after_tag st l1 B l2 :
  blocks_ok st (l1 ++ B :: l2) -> alloc_after l2 ->
  allocated st (b_addr B + b_size B) = ALLOC.
Proof.
  intros Hb Hal. destruct (after_tags _ _ _ _ Hb) as [H0 H1].
  destruct l2 as [|N l2]; [now apply H0|].
  destruct (H1 _ _ eq_refl) as (Ha & _). rewrite Ha, (Hal _ _ eq_refl). reflexivity.
Qed.

(** Taking a free block off the list of its class. *)
Lemma pop_block st bs fl B :
  Pre (mkHeap bs fl) st -> B ∈ bs -> b_alloc B = false ->
  b_addr B ∈ fl (segListIndex (b_size B)) ->
  let st1 := list_pop (b_addr B) (segListIndex (b_size B)) st in
  Pre (mkHeap bs (fl_remove (b_addr B) (segListIndex (b_size B)) fl)) st1
  /\ segListHead st1 = segListHead st /\ prologue st1 = prologue st
  /\ extender st1 = extender st.
Proof.
  intros HPre HB Hf Hin st1.
  pose proof (pre_blocks _ _ HPre) as Hb. cbn [blocks] in Hb.
  destruct (bo_sizes _ _ Hb B HB) as (_ & _ & H32). specialize (H32 Hf).
  rewrite MIN_BLOCK_SIZE_eq in H32.
  destruct (list_elem_of_split _ _ HB) as (l1 & l2 & ->).
  destruct (blocks_ok_at _ _ _ _ Hb) as (_ & ? & ? & _ & _ & _ & _ & Hb31 & _).
  split; [|apply list_pop_fields].
  apply pop_pre; [exact HPre| |exact Hin]. apply segListIndex_class. lia.
Qed.

(** The sizes that the headers of the blocks hold. *)
Lemma pre_size st bs fl B :
  Pre (mkHeap bs fl) st -> B ∈ bs -> block_size st (b_addr B) = b_size B.
Proof.
  intros HPre HB. rewrite block_size_eq.
  apply (bo_tagged _ _ (pre_blocks _ _ HPre) B HB).
Qed.

(** Case 1: both neighbours are allocated. *)
Lemma coalesce_case1 st l1 B l2 :
  blocks_ok st (l1 ++ B :: l2) -> alloc_before l1 -> alloc_after l2 ->
  coalesce (b_addr B) st = (b_addr B, st).
Proof.
  intros Hb H1 H2. cbv beta delta [coalesce]. cbv zeta.
  rewrite sizeof_header_eq.
  replace (block_size st (b_addr B)) with (b_size B)
    by (symmetry; rewrite block_size_eq; apply (bo_tagged _ _ Hb B);
        apply elem_of_app; right; left).
  rewrite (alloc_before_tag _ _ _ _ Hb H1), (alloc_after_tag _ _ _ _ Hb H2).
  reflexivity.
Qed.

(** The end of the three merging cases: the new size goes to the header
    and to the footer that it leads to, and the block goes on the list of
    the class of its new size. *)
Lemma merge_tail st a S :
  16 <= S < 2 ^ 31 ->
  let st3 := set_block_size a S st in
  let st4 := set_block_size (get_footer st3 a) (block_size st3 a) st3 in
  list_push a (segListIndex (block_size st4 a)) st4
  = list_push a (segListIndex S)
      (set_block_size (a + S - 8) S (set_block_size a S st)).
Proof.
  intros HS st3 st4.
  assert (R1 : block_size st3 a = S).
  { unfold st3. st_unfold. mem_simpl. now uint_simpl. }
  assert (R2 : get_footer st3 a = a + S - 8).
  { rewrite get_footer_eq, <- block_size_eq, R1. reflexivity. }
  unfold st4. rewrite R2, R1. fold st3.
  assert (R3 : block_size (set_block_size (a + S - 8) S st3) a = S).
  { unfold st3. st_unfold. mem_simpl. now uint_simpl. }
  rewrite R3. reflexivity.
Qed.

(** Case 2: the block after is free. *)
Lemma coalesce_case2 st l1 b s n sN l2 fl :
  Rep (mkHeap (l1 ++ mkBlk b s false :: mkBlk n sN false :: l2) fl) st ->
  alloc_before l1 ->
  let S := s + sN in
  let fl' := fl_push b (segListIndex S)
               (fl_remove n (segListIndex sN) (fl_remove b (segListIndex s) fl)) in
  let st' := snd (coalesce b st) in
  fst (coalesce b st) = b
  /\ (segListHead st' = segListHead st /\ prologue st' = prologue st
      /\ extender st' = extender st)
  /\ Rep (mkHeap (l1 ++ mkBlk b S false :: l2) fl') st'.
Proof.
  intros [HPre Hfl] Hbefore S fl' st'. cbn [blocks flist] in *.
  set (B := mkBlk b s false) in *. set (N := mkBlk n sN false) in *.
  pose proof (pre_blocks _ _ HPre) as Hb. cbn [blocks] in Hb.
  assert (HB : B ∈ l1 ++ B :: N :: l2) by (apply elem_of_app; right; left).
  assert (HN : N ∈ l1 ++ B :: N :: l2) by (apply elem_of_app; right; right; left).
  destruct (blocks_ok_at _ _ _ _ Hb)
    as (Hadr & Ht1 & Ht2 & Hsz & Htag & HS0 & HSP & Hb31 & Hb64).
  cbn [total_size b_addr b_size b_alloc B N] in Hadr, Ht2, Hb31, Hb64.
  destruct (bo_sizes _ _ Hb B HB) as (_ & Hs8 & Hs32).
  destruct (bo_sizes _ _ Hb N HN) as (_ & HsN8 & HsN32).
  specialize (Hs32 eq_refl). specialize (HsN32 eq_refl).
  cbn [b_size B N] in Hs8, Hs32, HsN8, HsN32. rewrite MIN_BLOCK_SIZE_eq in Hs32, HsN32.
  assert (Ht2' : 0 <= total_size l2).
  { apply total_size_nonneg. intros B' HB'. apply (blocks_ok_pos _ _ Hb).
    apply elem_of_app. right. right. now right. }
  destruct (after_tags _ _ _ _ Hb) as [_ Hafter].
  destruct (Hafter _ _ eq_refl) as (Hna & Hns & Hnadr).
  cbn [b_addr b_size b_alloc B N] in Hna, Hns, Hnadr.
  pose proof (alloc_before_tag _ _ _ _ Hb Hbefore) as Hpa. cbn [b_addr B] in Hpa.
  pose proof (pre_size _ _ _ _ HPre HB) as Hbs. cbn [b_addr b_size B] in Hbs.
  assert (Hcoal : coalesce b st = (fst (coalesce b st), st')) by (destruct (coalesce b st); reflexivity).
  clearbody st'. revert Hcoal. generalize (fst (coalesce b st)) as res. intros res Hcoal.
  cbv beta delta [coalesce] in Hcoal. cbv zeta in Hcoal.
  rewrite sizeof_header_eq, Hbs, Hpa, Hna in Hcoal.
  change (negb (ALLOC =? 0)) with true in Hcoal.
  change (negb (flag false =? 0)) with false in Hcoal.
  cbn [andb negb] in Hcoal.
  rewrite <- Hnadr in Hcoal.
  (* pop of the block *)
  destruct (pop_block st _ fl B HPre HB eq_refl) as (HPre1 & F1a & F1b & F1c).
  { apply Hfl; [exact HB|reflexivity]. }
  cbn [b_addr b_size B] in HPre1, F1a, F1b, F1c.
  set (fl1 := fl_remove b (segListIndex s) fl) in *.
  set (st1 := list_pop b (segListIndex s) st) in *. clearbody st1.
  pose proof (pre_size _ _ _ _ HPre1 HN) as Hns1. cbn [b_addr b_size N] in Hns1.
  rewrite Hns1 in Hcoal.
  (* pop of the block after *)
  assert (Hne : n <> b) by lia.
  destruct (pop_block st1 _ fl1 N HPre1 HN eq_refl) as (HPre2 & F2a & F2b & F2c).
  { apply elem_of_fl_remove. split; [apply Hfl; [exact HN|reflexivity]|auto]. }
  cbn [b_addr b_size N] in HPre2, F2a, F2b, F2c.
  set (fl2 := fl_remove n (segListIndex sN) fl1) in *.
  set (st2 := list_pop n (segListIndex sN) st1) in *. clearbody st2.
  pose proof (pre_size _ _ _ _ HPre2 HB) as Hbs2. cbn [b_addr b_size B] in Hbs2.
  pose proof (pre_size _ _ _ _ HPre2 HN) as Hns2. cbn [b_addr b_size N] in Hns2.
  rewrite Hbs2, Hns2 in Hcoal. fold S in Hcoal.
  pose proof (merge_tail st2 b S ltac:(unfold S; lia)) as Htail. cbv zeta in Htail.
  rewrite Htail in Hcoal. injection Hcoal as <- <-.
  split; [reflexivity|]. clear Htail.
  assert (Hout : forall B', B' ∈ l1 ++ l2 -> b_addr B' <> b /\ b_addr B' <> n).
  { intros B' HB'. pose proof (around_outside st l1 [B; N] l2 B' Hb HB') as Ho.
    pose proof (blocks_ok_pos _ _ Hb B' (in_around l1 [B; N] l2 B' HB')).
    cbn [total_size b_size B N] in Ho. lia. }
  destruct (bo_tagged _ _ (pre_blocks _ _ HPre2) B HB) as (_ & TB & _).
  destruct (bo_tagged _ _ (pre_blocks _ _ HPre2) N HN) as (_ & _ & _ & TN).
  cbn [b_addr b_size b_alloc B N] in TB, TN.
  destruct (merge_rep st2 l1 [B; N] l2 fl2 b S) as [(Fa & Fb & Fc) HRep];
    try assumption.
  - apply (nodes_free_drop (l1 ++ N :: l2) _ N).
    + apply (nodes_free_drop (l1 ++ B :: N :: l2) _ B); [apply (pre_nodes _ _ HPre)|].
      intros B'. rewrite !elem_of_app, !elem_of_cons. tauto.
    + intros B'. rewrite !elem_of_app, !elem_of_cons. tauto.
  - apply listed_drop; [apply listed_drop|].
    + intros B' HB' Hf. apply Hfl; [|exact Hf]. apply (in_around l1 [B; N] l2), HB'.
    + intros B' HB'. apply Hout, HB'.
    + intros B' HB'. apply Hout, HB'.
  - lia.
  - cbn [total_size b_size B N]. unfold S. lia.
  - replace (b + S - 8) with (n + sN - 8) by (unfold S; lia). exact TN.
  - unfold S. lia.
  - unfold S. rewrite Z.add_mod, Hs8, HsN8 by lia. reflexivity.
  - split; [split; [congruence|split; congruence]|exact HRep].
Qed.

(** Case 3: the block before is free. *)
Lemma coalesce_case3 st l1 p sP b s l2 fl :
  Rep (mkHeap (l1 ++ mkBlk p sP false :: mkBlk b s false :: l2) fl) st ->
  alloc_after l2 ->
  let S := sP + s in
  let fl' := fl_push p (segListIndex S)
               (fl_remove p (segListIndex sP) (fl_remove b (segListIndex s) fl)) in
  let st' := snd (coalesce b st) in
  fst (coalesce b st) = p
  /\ (segListHead st' = segListHead st /\ prologue st' = prologue st
      /\ extender st' = extender st)
  /\ Rep (mkHeap (l1 ++ mkBlk p S false :: l2) fl') st'.
Proof.
  intros [HPre Hfl] Hafter S fl' st'. cbn [blocks flist] in *.
  set (B := mkBlk b s false) in *. set (P := mkBlk p sP false) in *.
  pose proof (pre_blocks _ _ HPre) as Hb. cbn [blocks] in Hb.
  assert (HP : P ∈ l1 ++ P :: B :: l2) by (apply elem_of_app; right; left).
  assert (HB : B ∈ l1 ++ P :: B :: l2) by (apply elem_of_app; right; right; left).
  destruct (blocks_ok_at _ _ _ _ Hb)
    as (Hadr & Ht1 & Ht2 & Hsz & Htag & HS0 & HSP & Hb31 & Hb64).
  cbn [total_size b_addr b_size b_alloc B P] in Hadr, Ht2, Hb31, Hb64.
  destruct (bo_sizes _ _ Hb B HB) as (_ & Hs8 & Hs32).
  destruct (bo_sizes _ _ Hb P HP) as (_ & HsP8 & HsP32).
  specialize (Hs32 eq_refl). specialize (HsP32 eq_refl).
  cbn [b_size B P] in Hs8, Hs32, HsP8, HsP32. rewrite MIN_BLOCK_SIZE_eq in Hs32, HsP32.
  assert (Ht2' : 0 <= total_size l2).
  { apply total_size_nonneg. intros B' HB'. apply (blocks_ok_pos _ _ Hb).
    apply elem_of_app. right. right. now right. }
  assert (Hb' : blocks_ok st ((l1 ++ [P]) ++ B :: l2)).
  { rewrite <- app_assoc. exact Hb. }
  destruct (before_tags _ _ _ _ Hb') as [_ Hbefore].
  destruct (Hbefore _ _ eq_refl) as (Hpa & Hps & Hpadr & _).
  cbn [b_addr b_size b_alloc B P] in Hpa, Hps, Hpadr.
  pose proof (alloc_after_tag _ _ _ _ Hb' Hafter) as Hna. cbn [b_addr b_size B] in Hna.
  pose proof (pre_size _ _ _ _ HPre HB) as Hbs. cbn [b_addr b_size B] in Hbs.
  assert (Hcoal : coalesce b st = (fst (coalesce b st), st'))
    by (destruct (coalesce b st); reflexivity).
  clearbody st'. revert Hcoal. generalize (fst (coalesce b st)) as res. intros res Hcoal.
  cbv beta delta [coalesce] in Hcoal. cbv zeta in Hcoal.
  rewrite sizeof_header_eq, Hbs, Hpa, Hna, Hps in Hcoal.
  change (negb (ALLOC =? 0)) with true in Hcoal.
  change (negb (flag false =? 0)) with false in Hcoal.
  cbn [andb negb] in Hcoal.
  replace (b - 8 - sP + 8) with p in Hcoal by lia.
  (* pop of the block *)
  destruct (pop_block st _ fl B HPre HB eq_refl) as (HPre1 & F1a & F1b & F1c).
  { apply Hfl; [exact HB|reflexivity]. }
  cbn [b_addr b_size B] in HPre1, F1a, F1b, F1c.
  set (fl1 := fl_remove b (segListIndex s) fl) in *.
  set (st1 := list_pop b (segListIndex s) st) in *. clearbody st1.
  pose proof (pre_size _ _ _ _ HPre1 HP) as Hps1. cbn [b_addr b_size P] in Hps1.
  rewrite Hps1 in Hcoal.
  (* pop of the block before *)
  assert (Hne : p <> b) by lia.
  destruct (pop_block st1 _ fl1 P HPre1 HP eq_refl) as (HPre2 & F2a & F2b & F2c).
  { apply elem_of_fl_remove. split; [apply Hfl; [exact HP|reflexivity]|auto]. }
  cbn [b_addr b_size P] in HPre2, F2a, F2b, F2c.
  set (fl2 := fl_remove p (segListIndex sP) fl1) in *.
  set (st2 := list_pop p (segListIndex sP) st1) in *. clearbody st2.
  pose proof (pre_size _ _ _ _ HPre2 HB) as Hbs2. cbn [b_addr b_size B] in Hbs2.
  pose proof (pre_size _ _ _ _ HPre2 HP) as Hps2. cbn [b_addr b_size P] in Hps2.
  rewrite Hbs2, Hps2 in Hcoal. fold S in Hcoal.
  pose proof (merge_tail st2 p S ltac:(unfold S; lia)) as Htail. cbv zeta in Htail.
  rewrite Htail in Hcoal. injection Hcoal as <- <-.
  split; [reflexivity|]. clear Htail.
  assert (Hout : forall B', B' ∈ l1 ++ l2 -> b_addr B' <> b /\ b_addr B' <> p).
  { intros B' HB'. pose proof (around_outside st l1 [P; B] l2 B' Hb HB') as Ho.
    pose proof (blocks_ok_pos _ _ Hb B' (in_around l1 [P; B] l2 B' HB')).
    cbn [total_size b_size B P] in Ho. lia. }
  destruct (bo_tagged _ _ (pre_blocks _ _ HPre2) P HP) as (_ & TP & _).
  destruct (bo_tagged _ _ (pre_blocks _ _ HPre2) B HB) as (_ & _ & _ & TB).
  cbn [b_addr b_size b_alloc B P] in TB, TP.
  destruct (merge_rep st2 l1 [P; B] l2 fl2 p S) as [(Fa & Fb & Fc) HRep];
    try assumption.
  - apply (nodes_free_drop (l1 ++ P :: l2) _ P).
    + apply (nodes_free_drop (l1 ++ P :: B :: l2) _ B); [apply (pre_nodes _ _ HPre)|].
      intros B'. rewrite !elem_of_app, !elem_of_cons. tauto.
    + intros B'. rewrite !elem_of_app, !elem_of_cons. tauto.
  - apply listed_drop; [apply listed_drop|].
    + intros B' HB' Hf. apply Hfl; [|exact Hf]. apply (in_around l1 [P; B] l2), HB'.
    + intros B' HB'. apply Hout, HB'.
    + intros B' HB'. apply Hout, HB'.
  - lia.
  - cbn [total_size b_size B P]. unfold S. lia.
  - replace (p + S - 8) with (b + s - 8) by (unfold S; lia). exact TB.
  - unfold S. lia.
  - unfold S. rewrite Z.add_mod, Hs8, HsP8 by lia. reflexivity.
  - split; [split; [congruence|split; congruence]|exact HRep].
Qed.

(** Case 4: the blocks before and after are free. *)
Lemma coalesce_case4 st l1 p sP b s n sN l2 fl :
  Rep (mkHeap (l1 ++ mkBlk p sP false :: mkBlk b s false :: mkBlk n sN false :: l2) fl)
      st ->
  let S := sP + (s + sN) in
  let fl' := fl_push p (segListIndex S)
               (fl_remove n (segListIndex sN)
                  (fl_remove b (segListIndex s) (fl_remove p (segListIndex sP) fl))) in
  let st' := snd (coalesce b st) in
  fst (coalesce b st) = p
  /\ (segListHead st' = segListHead st /\ prologue st' = prologue st
      /\ extender st' = extender st)
  /\ Rep (mkHeap (l1 ++ mkBlk p S false :: l2) fl') st'.
Proof.
  intros [HPre Hfl] S fl' st'. cbn [blocks flist] in *.
  set (B := mkBlk b s false) in *. set (P := mkBlk p sP false) in *.
  set (N := mkBlk n sN false) in *.
  pose proof (pre_blocks _ _ HPre) as Hb. cbn [blocks] in Hb.
  assert (HP : P ∈ l1 ++ P :: B :: N :: l2) by (apply elem_of_app; right; left).
  assert (HB : B ∈ l1 ++ P :: B :: N :: l2) by (apply elem_of_app; right; right; left).
  assert (HN : N ∈ l1 ++ P :: B :: N :: l2)
    by (apply elem_of_app; right; right; right; left).
  destruct (blocks_ok_at _ _ _ _ Hb)
    as (Hadr & Ht1 & Ht2 & Hsz & Htag & HS0 & HSP & Hb31 & Hb64).
  cbn [total_size b_addr b_size b_alloc B P N] in Hadr, Ht2, Hb31, Hb64.
  destruct (bo_sizes _ _ Hb B HB) as (_ & Hs8 & Hs32).
  destruct (bo_sizes _ _ Hb P HP) as (_ & HsP8 & HsP32).
  destruct (bo_sizes _ _ Hb N HN) as (_ & HsN8 & HsN32).
  specialize (Hs32 eq_refl). specialize (HsP32 eq_refl). specialize (HsN32 eq_refl).
  cbn [b_size B P N] in Hs8, Hs32, HsP8, HsP32, HsN8, HsN32.
  rewrite MIN_BLOCK_SIZE_eq in Hs32, HsP32, HsN32.
  assert (Ht2' : 0 <= total_size l2).
  { apply total_size_nonneg. intros B' HB'. apply (blocks_ok_pos _ _ Hb).
    apply elem_of_app. right. right. right. now right. }
  assert (Hb' : blocks_ok st ((l1 ++ [P]) ++ B :: N :: l2)).
  { rewrite <- app_assoc. exact Hb. }
  destruct (before_tags _ _ _ _ Hb') as [_ Hbefore].
  destruct (Hbefore _ _ eq_refl) as (Hpa & Hps & Hpadr & _).
  cbn [b_addr b_size b_alloc B P] in Hpa, Hps, Hpadr.
  destruct (after_tags _ _ _ _ Hb') as [_ Hafter].
  destruct (Hafter _ _ eq_refl) as (Hna & Hns & Hnadr).
  cbn [b_addr b_size b_alloc B N] in Hna, Hns, Hnadr.
  pose proof (pre_size _ _ _ _ HPre HB) as Hbs. cbn [b_addr b_size B] in Hbs.
  assert (Hcoal : coalesce b st = (fst (coalesce b st), st'))
    by (destruct (coalesce b st); reflexivity).
  clearbody st'. revert Hcoal. generalize (fst (coalesce b st)) as res. intros res Hcoal.
  cbv beta delta [coalesce] in Hcoal. cbv zeta in Hcoal.
  rewrite sizeof_header_eq, Hbs, Hpa, Hna, Hps in Hcoal.
  change (negb (flag false =? 0)) with false in Hcoal.
  cbn [andb negb] in Hcoal.
  replace (b - 8 - sP + 8) with p in Hcoal by lia.
  rewrite <- Hnadr in Hcoal.
  pose proof (pre_size _ _ _ _ HPre HP) as Hps0. cbn [b_addr b_size P] in Hps0.
  rewrite Hps0 in Hcoal.
  (* pop of the block before *)
  destruct (pop_block st _ fl P HPre HP eq_refl) as (HPre1 & F1a & F1b & F1c).
  { apply Hfl; [exact HP|reflexivity]. }
  cbn [b_addr b_size P] in HPre1, F1a, F1b, F1c.
  set (fl1 := fl_remove p (segListIndex sP) fl) in *.
  set (st1 := list_pop p (segListIndex sP) st) in *. clearbody st1.
  pose proof (pre_size _ _ _ _ HPre1 HB) as Hbs1. cbn [b_addr b_size B] in Hbs1.
  rewrite Hbs1 in Hcoal.
  (* pop of the block *)
  destruct (pop_block st1 _ fl1 B HPre1 HB eq_refl) as (HPre2 & F2a & F2b & F2c).
  { apply elem_of_fl_remove. split; [apply Hfl; [exact HB|reflexivity]|]. cbn. lia. }
  cbn [b_addr b_size B] in HPre2, F2a, F2b, F2c.
  set (fl2 := fl_remove b (segListIndex s) fl1) in *.
  set (st2 := list_pop b (segListIndex s) st1) in *. clearbody st2.
  pose proof (pre_size _ _ _ _ HPre2 HN) as Hns2. cbn [b_addr b_size N] in Hns2.
  rewrite Hns2 in Hcoal.
  (* pop of the block after *)
  destruct (pop_block st2 _ fl2 N HPre2 HN eq_refl) as (HPre3 & F3a & F3b & F3c).
  { apply elem_of_fl_remove. split; [|cbn; lia].
    apply elem_of_fl_remove. split; [apply Hfl; [exact HN|reflexivity]|]. cbn. lia. }
  cbn [b_addr b_size N] in HPre3, F3a, F3b, F3c.
  set (fl3 := fl_remove n (segListIndex sN) fl2) in *.
  set (st3 := list_pop n (segListIndex sN) st2) in *. clearbody st3.
  pose proof (pre_size _ _ _ _ HPre3 HB) as Hbs3. cbn [b_addr b_size B] in Hbs3.
  pose proof (pre_size _ _ _ _ HPre3 HP) as Hps3. cbn [b_addr b_size P] in Hps3.
  pose proof (pre_size _ _ _ _ HPre3 HN) as Hns3. cbn [b_addr b_size N] in Hns3.
  assert (Hpf3 : block_size st3 (b - 8) = sP).
  { destruct (bo_tagged _ _ (pre_blocks _ _ HPre3) P HP) as (_ & _ & T & _).
    cbn [b_addr b_size P] in T. rewrite block_size_eq.
    replace (b - 8) with (p + sP - 8) by lia. exact T. }
  rewrite Hpf3 in Hcoal. replace (b - 8 - sP + 8) with p in Hcoal by lia.
  rewrite Hbs3, Hps3, Hns3 in Hcoal. fold S in Hcoal.
  pose proof (merge_tail st3 p S ltac:(unfold S; lia)) as Htail. cbv zeta in Htail.
  rewrite Htail in Hcoal. injection Hcoal as <- <-.
  split; [reflexivity|]. clear Htail.
  assert (Hout : forall B', B' ∈ l1 ++ l2 ->
                   b_addr B' <> b /\ b_addr B' <> p /\ b_addr B' <> n).
  { intros B' HB'. pose proof (around_outside st l1 [P; B; N] l2 B' Hb HB') as Ho.
    pose proof (blocks_ok_pos _ _ Hb B' (in_around l1 [P; B; N] l2 B' HB')).
    cbn [total_size b_size B P N] in Ho. lia. }
  destruct (bo_tagged _ _ (pre_blocks _ _ HPre3) P HP) as (_ & TP & _).
  destruct (bo_tagged _ _ (pre_blocks _ _ HPre3) N HN) as (_ & _ & _ & TN).
  cbn [b_addr b_size b_alloc N P] in TN, TP.
  destruct (merge_rep st3 l1 [P; B; N] l2 fl3 p S) as [(Fa & Fb & Fc) HRep];
    try assumption.
  - apply (nodes_free_drop (l1 ++ N :: l2) _ N).
    + apply (nodes_free_drop (l1 ++ B :: N :: l2) _ B).
      * apply (nodes_free_drop (l1 ++ P :: B :: N :: l2) _ P);
          [apply (pre_nodes _ _ HPre)|].
        intros B'. rewrite !elem_of_app, !elem_of_cons. tauto.
      * intros B'. rewrite !elem_of_app, !elem_of_cons. tauto.
    + intros B'. rewrite !elem_of_app, !elem_of_cons. tauto.
  - apply listed_drop; [apply listed_drop; [apply listed_drop|]|].
    + intros B' HB' Hf. apply Hfl; [|exact Hf]. apply (in_around l1 [P; B; N] l2), HB'.
    + intros B' HB'. apply Hout, HB'.
    + intros B' HB'. apply Hout, HB'.
    + intros B' HB'. apply Hout, HB'.
  - lia.
  - cbn [total_size b_size B P N]. unfold S. lia.
  - replace (p + S - 8) with (n + sN - 8) by (unfold S; lia). exact TN.
  - unfold S. lia.
  - unfold S. rewrite Z.add_mod, (Z.add_mod s), Hs8, HsP8, HsN8 by lia. reflexivity.
  - split; [split; [congruence|split; congruence]|exact HRep].
Qed.

End Coalesce.

Section InitRep.

Context {E : Type}.
Variable mem_sbrk : Z -> E -> Z * E.
Implicit Types (st : state E).

(** The heap after a successful [mm_init]: one free block of
    [CHUNKSIZE - OVERHEAD] bytes, alone on the last list. *)
Lemma mm_init_rep st (S0 : Z) (e1 e2 : E) :
  mem_sbrk (sizeof_pointer * TOTALNUMLIST) (extender st) = (S0, e1) ->
  0 < S0 ->
  S0 + sizeof_pointer * TOTALNUMLIST + CHUNKSIZE <= 2 ^ 64 ->
  mem_sbrk CHUNKSIZE e1 = (S0 + sizeof_pointer * TOTALNUMLIST, e2) ->
  let st' := snd (mm_init mem_sbrk st) in
  Rep (mkHeap [mkBlk (S0 + 96) 65520 false] (fl_push (S0 + 96) 10 (fun _ => []))) st'
  /\ segListHead st' = S0 /\ prologue st' = S0 + 88 /\ extender st' = e2.
Proof.
  intros H1 HS Hmax H2 st'.
  destruct (mm_init_fields mem_sbrk st S0 e1 e2 H1 ltac:(lia) Hmax H2)
    as (_ & (G1 & G2 & G3) & (F1a & F1b) & (F2a & F2b) & (F3a & F3b) & (F4a & F4b)
        & (F5 & F6a & F6b) & F7).
  cbv zeta in G1, G2, G3, F1a, F1b, F2a, F2b, F3a, F3b, F4a, F4b, F5, F6a, F6b, F7.
  fold st' in G1, G2, G3, F1a, F1b, F2a, F2b, F3a, F3b, F4a, F4b, F5, F6a, F6b, F7.
  clearbody st'.
  rewrite sizeof_pointer_eq, TOTALNUMLIST_eq, CHUNKSIZE_eq in Hmax.
  rewrite allocated_eq in F1a, F2a, F3a, F4a.
  rewrite block_size_eq in F1b, F2b, F3b, F4b.
  replace (S0 + 88 + 8) with (S0 + 96) in * by lia.
  split; [|auto].
  split; [split|]; cbn [blocks flist].
  - split; cbn [total_size b_size b_addr];
      rewrite ?G1, ?G2, ?sizeof_header_eq, ?sizeof_pointer_eq, ?TOTALNUMLIST_eq.
    + lia.
    + auto.
    + cbn [contig b_addr]. split; [lia|exact I].
    + cbv zeta. replace (S0 + 88 + 8 + (65520 + 0)) with (S0 + 88 + 65528) by lia. auto.
    + lia.
    + intros B HB. apply list_elem_of_singleton in HB as ->.
      unfold size_ok. cbn [b_size b_alloc]. rewrite MIN_BLOCK_SIZE_eq.
      repeat split; try lia; try reflexivity.
    + intros B HB. apply list_elem_of_singleton in HB as ->.
      unfold tagged. cbn [b_addr b_size b_alloc].
      replace (S0 + 96 + 65520 - 8) with (S0 + 96 + 65512) by lia. auto.
  - split.
    + intros k Hk. rewrite TOTALNUMLIST_eq in Hk. unfold fl_push.
      destruct (Z.eqb_spec k 10) as [->|Hne].
      * cbn [dll]. rewrite F5. rewrite get_prev_eq, <- prev_eq, get_next_eq, <- next_eq.
        rewrite F6a, F6b. repeat split; try reflexivity. rewrite NULL_eq. lia.
      * cbn [dll]. apply F7. lia.
    + intros k Hk. unfold fl_push. destruct (k =? 10).
      * apply NoDup_singleton.
      * apply NoDup_nil_2.
    + intros j k x Hj Hk Hxj Hxk. apply elem_of_fl_push in Hxj, Hxk.
      destruct Hxj as [[-> _]|Hxj]; [|inversion Hxj].
      destruct Hxk as [[-> _]|Hxk]; [reflexivity|inversion Hxk].
  - intros k x Hk Hx. apply elem_of_fl_push in Hx as [[-> ->]|Hx]; [|inversion Hx].
    exists (mkBlk (S0 + 96) 65520 false). repeat split. apply list_elem_of_singleton. reflexivity.
  - intros B HB Hf. apply list_elem_of_singleton in HB as ->.
    cbn [b_addr b_size]. apply elem_of_fl_push. left. split; reflexivity.
Qed.

End InitRep.

(** * Rows without two free neighbours *)

Lemma naf_cons B B' l :
  no_adjacent_free (B :: B' :: l)
  <-> (b_alloc B = false -> b_alloc B' = true) /\ no_adjacent_free (B' :: l).
Proof. reflexivity. Qed.

Lemma naf_single B : no_adjacent_free [B].
Proof. cbn. auto. Qed.

Lemma naf_tail B l : no_adjacent_free (B :: l) -> no_adjacent_free l.
Proof. destruct l; [cbn; auto|]. rewrite naf_cons. tauto. Qed.

Lemma naf_app_cons l1 B l2 :
  no_adjacent_free (l1 ++ B :: l2)
  <-> no_adjacent_free (l1 ++ [B]) /\ no_adjacent_free (B :: l2).
Proof.
  induction l1 as [|X l1 IH].
  - cbn [app]. pose proof (naf_single B). tauto.
  - destruct l1 as [|Y l1].
    + cbn [app]. rewrite !naf_cons. pose proof (naf_single B). tauto.
    + cbn [app] in *. rewrite !naf_cons. tauto.
Qed.

Lemma naf_prefix l1 l2 : no_adjacent_free (l1 ++ l2) -> no_adjacent_free l1.
Proof.
  induction l1 as [|X l1 IH]; [cbn; auto|].
  destruct l1 as [|Y l1].
  - intros _. apply naf_single.
  - cbn [app] in *. rewrite !naf_cons. tauto.
Qed.


Lemma alloc_before_nil : alloc_before [].
Proof. intros l P H. destruct l; discriminate. Qed.

Lemma alloc_after_nil : alloc_after [].
Proof. intros N l H. discriminate. Qed.

Lemma alloc_before_snoc l P : alloc_before (l ++ [P]) <-> b_alloc P = true.
Proof.
  split.
  - intros H. exact (H l P eq_refl).
  - intros H l' P' Heq. apply app_inj_tail in Heq as [_ <-]. exact H.
Qed.

Lemma alloc_after_cons N l : alloc_after (N :: l) <-> b_alloc N = true.
Proof.
  split.
  - intros H. exact (H N l eq_refl).
  - intros H N' l' Heq. injection Heq as <- _. exact H.
Qed.

(** The last block of a row can be any block when the one before it is
    allocated, and any block of the same flag or allocated otherwise. *)
Lemma naf_last l X Y :
  no_adjacent_free (l ++ [X]) ->
  b_alloc Y = true \/ b_alloc Y = b_alloc X \/ alloc_before l ->
  no_adjacent_free (l ++ [Y]).
Proof.
  induction l as [|Z l IH]; intros H HY; [apply naf_single|].
  destruct l as [|Z' l].
  - cbn [app] in *. rewrite naf_cons in *. split; [|apply naf_single].
    destruct H as [H _]. intros HZ. specialize (H HZ).
    destruct HY as [HY|[HY|HY]]; [assumption|congruence|].
    apply (alloc_before_snoc [] Z) in HY. congruence.
  - cbn [app] in *. rewrite naf_cons in *. split; [tauto|].
    apply IH; [tauto|]. destruct HY as [HY|[HY|HY]]; auto.
    right. right. intros l' P Heq. apply (HY (Z :: l') P). cbn [app]. congruence.
Qed.

Lemma naf_snoc_alloc l Y :
  no_adjacent_free l -> b_alloc Y = true -> no_adjacent_free (l ++ [Y]).
Proof.
  intros H HY. destruct l as [|X l] using rev_ind; [apply naf_single|].
  rewrite <- app_assoc. cbn [app]. apply naf_app_cons. split; [exact H|].
  rewrite naf_cons. split; [auto|apply naf_single].
Qed.

Lemma naf_snoc_before l Y :
  no_adjacent_free l -> alloc_before l -> no_adjacent_free (l ++ [Y]).
Proof.
  intros H Hb. destruct l as [|X l] using rev_ind; [apply naf_single|].
  rewrite <- app_assoc. cbn [app]. apply naf_app_cons. split; [exact H|].
  rewrite naf_cons. split; [|apply naf_single].
  apply alloc_before_snoc in Hb. congruence.
Qed.

Lemma naf_head l X Y :
  no_adjacent_free (X :: l) ->
  b_alloc Y = true \/ b_alloc Y = b_alloc X \/ alloc_after l ->
  no_adjacent_free (Y :: l).
Proof.
  destruct l as [|Z l]; intros H HY; [apply naf_single|].
  rewrite naf_cons in *. split; [|tauto].
  destruct H as [H _]. intros HF.
  destruct HY as [HY|[HY|HY]]; [congruence|apply H; congruence|].
  now apply alloc_after_cons in HY.
Qed.

Lemma naf_glue l1 M l2 :
  no_adjacent_free (l1 ++ [M]) -> no_adjacent_free (M :: l2) ->
  no_adjacent_free (l1 ++ M :: l2).
Proof. intros H1 H2. apply naf_app_cons. auto. Qed.



(** The neighbours of a block, case by case. *)
Lemma before_cases l : alloc_before l \/ exists l' p sP, l = l' ++ [mkBlk p sP false].
Proof.
  destruct l as [|[p sP [|]] l _] using rev_ind.
  - left. apply alloc_before_nil.
  - left. now apply alloc_before_snoc.
  - right. eauto.
Qed.

Lemma after_cases l : alloc_after l \/ exists n sN l', l = mkBlk n sN false :: l'.
Proof.
  destruct l as [|[n sN [|]] l].
  - left. apply alloc_after_nil.
  - left. now apply alloc_after_cons.
  - right. eauto.
Qed.

Section Free.

Context {E : Type}.
Implicit Types (st : state E).

Lemma nodes_free_skip l1 B l2 fl :
  nodes_free (l1 ++ B :: l2) fl -> b_alloc B = true -> nodes_free (l1 ++ l2) fl.
Proof.
  intros Hn HB k x Hk Hx. destruct (Hn k x Hk Hx) as (B' & HB' & Ha & Hf & Hc).
  exists B'. repeat split; try assumption.
  apply elem_of_app in HB' as [HB'|HB']; apply elem_of_app; [now left|].
  apply elem_of_cons in HB' as [->|HB']; [congruence|now right].
Qed.

(** The start of [mm_free]: the block is marked free at both ends and
    pushed on the list of its class. *)
Lemma free_mark st l1 b s l2 fl :
  Rep (mkHeap (l1 ++ mkBlk b s true :: l2) fl) st -> MIN_BLOCK_SIZE <= s ->
  let st1 := set_allocated b FREE st in
  let st2 := set_allocated (get_footer st1 b) FREE st1 in
  let st3 := list_push b (segListIndex (block_size st2 b)) st2 in
  Rep (mkHeap (l1 ++ mkBlk b s false :: l2) (fl_push b (segListIndex s) fl)) st3
  /\ segListHead st3 = segListHead st /\ prologue st3 = prologue st
  /\ extender st3 = extender st.
Proof.
  intros [HPre Hfl] Hs32 st1 st2 st3. cbn [blocks flist] in *.
  rewrite MIN_BLOCK_SIZE_eq in Hs32.
  set (B := mkBlk b s true) in *.
  pose proof (pre_blocks _ _ HPre) as Hb. cbn [blocks] in Hb.
  assert (HB : B ∈ l1 ++ B :: l2) by (apply elem_of_app; right; left).
  destruct (blocks_ok_at _ _ _ _ Hb)
    as (Hadr & Ht1 & Ht2 & Hsz & Htag & HS0 & HSP & Hb31 & Hb64).
  cbn [b_addr b_size B] in Hadr, Hb31, Hb64.
  destruct Hsz as (_ & Hs8 & _). cbn [b_size B] in Hs8.
  pose proof Htag as (T1 & _). cbn [b_addr b_size B] in T1.
  assert (R1 : get_footer st1 b = b + s - 8).
  { rewrite get_footer_eq. cut (get_block_size (heap st1) b = s); [lia|].
    unfold st1. st_unfold. mem_simpl. exact T1. }
  assert (H2 : heap st2 = put_allocated (b + s - 8) (flag false)
                            (put_allocated b (flag false) (heap st))).
  { unfold st2. rewrite R1. unfold st1. st_unfold. reflexivity. }
  assert (F2 : segListHead st2 = segListHead st /\ prologue st2 = prologue st
               /\ extender st2 = extender st).
  { unfold st2, st1. st_unfold. auto. }
  destruct F2 as (F2a & F2b & F2c).
  destruct (mark_tags (heap st) b s true false Htag ltac:(lia)) as [Tg2 Fr2].
  cbv zeta in Tg2, Fr2. rewrite <- H2 in Tg2, Fr2.
  assert (R2 : block_size st2 b = s) by (rewrite block_size_eq; apply Tg2).
  unfold st3. rewrite R2. clearbody st2. clear st3 H2 R1 R2 st1.
  destruct (list_push_fields b (segListIndex s) st2) as (FSa & FSb & FSc).
  assert (Hk : 0 <= segListIndex s < TOTALNUMLIST) by (apply segListIndex_class; lia).
  pose proof (nodes_free_skip _ _ _ _ (pre_nodes _ _ HPre) eq_refl) as Hnf.
  cbn [blocks flist] in Hnf.
  assert (Hout : forall B', B' ∈ l1 ++ l2 ->
                   0 < b_size B' /\ (b_addr B' + b_size B' <= b \/ b + s <= b_addr B')).
  { intros B' HB'. split; [apply (blocks_ok_pos _ _ Hb), (in_around _ [B]), HB'|].
    pose proof (around_outside st l1 [B] l2 B' Hb HB') as H.
    cbn [total_size b_size B] in H. lia. }
  assert (HPre2 : Pre (mkHeap (l1 ++ [mkBlk b s false] ++ l2) fl) st2).
  { apply (retag_pre st st2 l1 [B]); try assumption; try reflexivity.
    - intros B' HB'. apply list_elem_of_singleton in HB' as ->.
      unfold size_ok; cbn [b_size b_alloc]; rewrite ?MIN_BLOCK_SIZE_eq.
      repeat split; try lia; try assumption.
    - cbn [contig b_addr b_size]. split; [lia|exact I].
    - intros B' HB'. apply list_elem_of_singleton in HB' as ->. exact Tg2.
    - cbn [total_size b_size B]. intros i Hi. apply Fr2. lia. }
  split; [|split; [congruence|split; congruence]].
  split; cbn [blocks flist].
  - apply (push_pre st2); try assumption.
    + exists (mkBlk b s false). repeat split. apply elem_of_app; right; left.
    + intros j Hj Hx. destruct (Hnf j _ Hj Hx) as (B' & HB' & Had & _).
      destruct (Hout B' HB'). lia.
  - intros B' HB' Hf. apply elem_of_fl_push.
    apply (in_around_inv l1 [_]) in HB' as [HB'|HB'].
    + right. apply Hfl; [|exact Hf]. apply (in_around l1 [B]), HB'.
    + apply list_elem_of_singleton in HB' as ->. left. auto.
Qed.

(** [coalesce] on a free block whose row would have no two free
    neighbours if the block were allocated: the row that comes out has
    none, holds the same bytes, and keeps every allocated block. *)
Lemma coalesce_quiet st l1 b s l2 fl :
  Rep (mkHeap (l1 ++ mkBlk b s false :: l2) fl) st ->
  no_adjacent_free (l1 ++ mkBlk b s true :: l2) ->
  exists l1' M l2' fl',
    Rep (mkHeap (l1' ++ M :: l2') fl') (snd (coalesce b st))
    /\ fst (coalesce b st) = b_addr M /\ b_alloc M = false /\ s <= b_size M
    /\ no_adjacent_free (l1' ++ M :: l2')
    /\ total_size (l1' ++ M :: l2') = total_size (l1 ++ mkBlk b s false :: l2)
    /\ (forall X, X ∈ l1 ++ l2 -> b_alloc X = true -> X ∈ l1' ++ l2')
    /\ (forall X, X ∈ l1' ++ l2' -> X ∈ l1 ++ l2)
    /\ segListHead (snd (coalesce b st)) = segListHead st
    /\ prologue (snd (coalesce b st)) = prologue st
    /\ extender (snd (coalesce b st)) = extender st.
Proof.
  intros HRep Hnaf.
  pose proof (pre_blocks _ _ (rep_pre _ _ HRep)) as Hb. cbn [blocks] in Hb.
  apply naf_app_cons in Hnaf as [Hn1 Hn2].
  destruct (before_cases l1) as [Hbef|(l1r & p & sP & ->)];
    destruct (after_cases l2) as [Haft|(n & sN & l2r & ->)].
  - (* case 1 *)
    pose proof (coalesce_case1 st l1 (mkBlk b s false) l2 Hb Hbef Haft) as Hc1.
    cbn [b_addr] in Hc1. rewrite Hc1. cbn [fst snd].
    exists l1, (mkBlk b s false), l2, fl. cbn [b_addr b_size b_alloc].
    split; [exact HRep|]. split; [reflexivity|]. split; [reflexivity|].
    split; [lia|]. split; [|split; [reflexivity|auto]].
    apply naf_glue; [apply (naf_last _ _ _ Hn1); auto|apply (naf_head _ _ _ Hn2); auto].
  - (* case 2 *)
    destruct (coalesce_case2 st l1 b s n sN l2r fl HRep Hbef) as (Hr & (Fa & Fb & Fc) & HR).
    destruct (bo_sizes _ _ Hb (mkBlk n sN false)) as (HsN & _);
      [apply elem_of_app; right; right; left|]. cbn [b_size] in HsN.
    exists l1, (mkBlk b (s + sN) false), l2r. eexists. cbn [b_addr b_size b_alloc].
    split; [exact HR|]. split; [exact Hr|]. split; [reflexivity|].
    split; [lia|]. split; [|split; [|split; [|split; [|auto]]]].
    + apply naf_glue; [apply (naf_last _ _ _ Hn1); auto|].
      apply naf_tail in Hn2. apply (naf_head _ _ _ Hn2). auto.
    + rewrite !total_size_app. cbn [total_size b_size]. lia.
    + intros X HX HXa. rewrite !elem_of_app, !elem_of_cons in *.
      destruct HX as [HX|[->|HX]]; [auto|discriminate|auto].
    + intros X. rewrite !elem_of_app, !elem_of_cons. tauto.
  - (* case 3 *)
    rewrite <- app_assoc in HRep, Hb, Hn1. cbn [app] in HRep, Hb, Hn1.
    destruct (coalesce_case3 st l1r p sP b s l2 fl HRep Haft) as (Hr & (Fa & Fb & Fc) & HR).
    destruct (bo_sizes _ _ Hb (mkBlk p sP false)) as (HsP & _);
      [apply elem_of_app; right; left|]. cbn [b_size] in HsP.
    exists l1r, (mkBlk p (sP + s) false), l2. eexists. cbn [b_addr b_size b_alloc].
    split; [exact HR|]. split; [exact Hr|]. split; [reflexivity|].
    split; [lia|]. split; [|split; [|split; [|split; [|auto]]]].
    + apply naf_glue; [|apply (naf_head _ _ _ Hn2); auto].
      change (l1r ++ [mkBlk p sP false; mkBlk b s true])
        with (l1r ++ [mkBlk p sP false] ++ [mkBlk b s true]) in Hn1.
      rewrite app_assoc in Hn1. apply naf_prefix in Hn1.
      apply (naf_last _ _ _ Hn1). auto.
    + rewrite <- !app_assoc, !total_size_app. cbn [total_size b_size app]. lia.
    + intros X HX HXa. rewrite !elem_of_app, !elem_of_cons in *.
      destruct HX as [[HX|[->|HX]]|HX]; [auto|discriminate|inversion HX|auto].
    + intros X. rewrite !elem_of_app, !elem_of_cons. tauto.
  - (* case 4 *)
    rewrite <- app_assoc in HRep, Hb, Hn1. cbn [app] in HRep, Hb, Hn1.
    destruct (coalesce_case4 st l1r p sP b s n sN l2r fl HRep) as (Hr & (Fa & Fb & Fc) & HR).
    destruct (bo_sizes _ _ Hb (mkBlk p sP false)) as (HsP & _);
      [apply elem_of_app; right; left|]. cbn [b_size] in HsP.
    destruct (bo_sizes _ _ Hb (mkBlk n sN false)) as (HsN & _);
      [apply elem_of_app; right; right; right; left|]. cbn [b_size] in HsN.
    exists l1r, (mkBlk p (sP + (s + sN)) false), l2r. eexists.
    cbn [b_addr b_size b_alloc].
    split; [exact HR|]. split; [exact Hr|]. split; [reflexivity|].
    split; [lia|]. split; [|split; [|split; [|split; [|auto]]]].
    + apply naf_glue.
      * change (l1r ++ [mkBlk p sP false; mkBlk b s true])
          with (l1r ++ [mkBlk p sP false] ++ [mkBlk b s true]) in Hn1.
        rewrite app_assoc in Hn1. apply naf_prefix in Hn1.
        apply (naf_last _ _ _ Hn1). auto.
      * apply naf_tail in Hn2. apply (naf_head _ _ _ Hn2). auto.
    + rewrite <- !app_assoc, !total_size_app. cbn [total_size b_size app]. lia.
    + intros X HX HXa. rewrite !elem_of_app, !elem_of_cons in *.
      destruct HX as [[HX|[->|HX]]|[->|HX]];
        [auto|discriminate|inversion HX|discriminate|auto].
    + intros X. rewrite !elem_of_app, !elem_of_cons. tauto.
Qed.

End Free.

(** ** [mm_free] at a quiescent point *)

Lemma mm_free_quiescent H live (st : state memlib) p :
  quiescent H live st -> p ∈ live ->
  exists H', quiescent H' (filter (fun q => q <> p) live) (mm_free p st).
Proof.
  intros [[HRep Hmin Hbrk Hmax Hlive] Hnaf] Hp.
  destruct (Hlive p Hp) as (B & HB & Hpay & Hal).
  destruct H as [bs fl]. cbn [blocks flist] in *.
  destruct (list_elem_of_split _ _ HB) as (l1 & l2 & ->).
  destruct B as [b s a]. cbn [b_addr b_alloc] in Hpay, Hal. subst a.
  assert (Hs : MIN_BLOCK_SIZE <= s) by (apply (Hmin _ HB)).
  destruct (free_mark st l1 b s l2 fl HRep Hs) as (HRep3 & F3a & F3b & F3c).
  cbv zeta in HRep3, F3a, F3b, F3c.
  match type of HRep3 with Rep _ ?x => set (st3 := x) in * end.
  assert (Heq : mm_free p st = snd (coalesce b st3)).
  { subst p. unfold mm_free, payload.
    replace (b + sizeof_header - sizeof_header) with b by lia. reflexivity. }
  rewrite Heq. clearbody st3. clear Heq.
  destruct (coalesce_quiet st3 l1 b s l2 _ HRep3 Hnaf)
    as (l1' & M & l2' & fl' & HR & _ & HMf & HMs & Hnaf' & Htot & Hkept & Hsub
        & Fa & Fb & Fc).
  exists (mkHeap (l1' ++ M :: l2') fl'). split; [split|]; cbn [blocks flist].
  - exact HR.
  - intros X HX. apply elem_of_app in HX as [HX|HX].
    + apply Hmin, (in_around _ [_]), Hsub, elem_of_app. now left.
    + apply elem_of_cons in HX as [->|HX]; [lia|].
      apply Hmin, (in_around _ [_]), Hsub, elem_of_app. now right.
  - rewrite Fc, Fb, F3c, F3b, Htot, Hbrk. rewrite !total_size_app. reflexivity.
  - rewrite Fc, Fb, F3c, F3b. exact Hmax.
  - intros q Hq. apply list_elem_of_filter in Hq as [Hne Hq].
    destruct (Hlive q Hq) as (Bq & HBq & Hpq & Haq).
    exists Bq. split; [|auto]. apply (in_around _ [_]), Hkept; [|exact Haq].
    apply (in_around_inv l1 [_]) in HBq as [HBq|HBq]; [exact HBq|].
    apply list_elem_of_singleton in HBq as ->. cbn [b_addr] in Hpq. congruence.
  - exact Hnaf'.
Qed.

(** * Growing the heap *)

(** Flag and size written to the header and then to the footer, as
    [extend_heap] does, and the new epilogue after them. *)
Lemma extend_tags m a s :
  16 <= s < 2 ^ 31 ->
  let m4 := put_block_size (a + s - 8) s
              (put_allocated (a + s - 8) FREE
                 (put_block_size a s (put_allocated a FREE m))) in
  let m6 := put_block_size (a + s) 0 (put_allocated (a + s) ALLOC m4) in
  tagged m6 (mkBlk a s false)
  /\ get_block_size m6 (a + s) = 0 /\ get_allocated m6 (a + s) = ALLOC
  /\ forall i, i < a -> load8 m6 i = load8 m i.
Proof.
  intros Hs m4 m6. subst m6 m4. split; [|split; [|split]].
  - unfold tagged. cbn [b_addr b_size b_alloc]. rewrite flag_FREE.
    mem_simpl. rewrite FREE_eq. uint_simpl. auto.
  - mem_simpl. now uint_simpl.
  - mem_simpl. reflexivity.
  - intros i Hi.
    repeat first [rewrite load8_put_allocated by lia
                 |rewrite load8_put_block_size by lia]. reflexivity.
Qed.

Section Grow.

Context {E : Type}.
Implicit Types (st : state E).

(** A new block in the place of the epilogue and a new epilogue after
    it. *)
Lemma grow_pre st st' bs fl N :
  Pre (mkHeap bs fl) st ->
  segListHead st' = segListHead st -> prologue st' = prologue st ->
  b_addr N = prologue st + 8 + total_size bs -> size_ok N ->
  tagged (heap st') N ->
  get_block_size (heap st') (b_addr N + b_size N) = 0 ->
  get_allocated (heap st') (b_addr N + b_size N) = ALLOC ->
  8 + (total_size bs + b_size N) + 8 < 2 ^ 31 ->
  prologue st + 8 + (total_size bs + b_size N) + 8 <= 2 ^ 64 ->
  (forall i, i < b_addr N -> load8 (heap st') i = load8 (heap st) i) ->
  Pre (mkHeap (bs ++ [N]) fl) st'.
Proof.
  intros [Hb Hl Hn] HS HP Ha Hsz Htag He1 He2 Hb31 Hb64 Hfr. cbn [blocks flist] in *.
  pose proof Hb as [Hh Hp Hc He Hbd Hs Ht].
  pose proof (blocks_ok_pos _ _ Hb) as Hpos.
  rewrite sizeof_header_eq in *.
  rewrite sizeof_pointer_eq, TOTALNUMLIST_eq in Hh.
  assert (Ht0 : 0 <= total_size bs) by (apply total_size_nonneg, Hpos).
  split; cbn [blocks flist].
  - split; rewrite ?HS, ?HP, ?sizeof_header_eq, ?sizeof_pointer_eq, ?TOTALNUMLIST_eq,
      ?total_size_app; cbn [total_size]; rewrite ?Z.add_0_r; try assumption.
    + destruct Hp as [Hp1 Hp2]. split.
      * rewrite <- Hp1. apply get_block_size_ext. intros i Hi. apply Hfr. lia.
      * rewrite <- Hp2. apply get_allocated_ext. intros i Hi. apply Hfr. lia.
    + apply contig_app. split; [exact Hc|]. cbn [contig]. split; [lia|exact I].
    + cbv zeta.
      replace (prologue st + 8 + (total_size bs + b_size N))
        with (b_addr N + b_size N) by lia. auto.
    + lia.
    + intros B HB. apply elem_of_app in HB as [HB|HB]; [now apply Hs|].
      apply list_elem_of_singleton in HB as ->. exact Hsz.
    + intros B HB. apply elem_of_app in HB as [HB|HB].
      * pose proof (blocks_ok_range _ _ _ Hb HB) as Hr.
        destruct (Hs B HB) as (Hs8 & _).
        apply (tagged_ext (heap st)); [exact Hs8| |now apply Ht].
        intros i Hi. apply Hfr. lia.
      * apply list_elem_of_singleton in HB as ->. exact Htag.
  - apply (lists_ok_frame st); [exact Hl|exact HS| |].
    + intros i Hi. apply Hfr. lia.
    + intros k y i Hk Hy Hi. destruct (Hn k y Hk Hy) as (B & HB & <- & Hf & _).
      destruct (Hs B HB) as (_ & _ & Hfree). specialize (Hfree Hf).
      rewrite MIN_BLOCK_SIZE_eq in Hfree.
      pose proof (blocks_ok_range _ _ _ Hb HB) as Hr.
      apply Hfr. lia.
  - intros k y Hk Hy. apply (free_of_class_mono bs); [|apply Hn; assumption].
    intros B HB. apply elem_of_app. now left.
Qed.

End Grow.

Lemma st_eta {E} (st : state E) :
  mkState (heap st) (segListHead st) (prologue st) (extender st) = st.
Proof. destruct st; reflexivity. Qed.

(** [extend_heap] over memlib, on a heap without two free neighbours:
    either nothing changes, or there is a free block [M] of at least the
    size asked for, at the returned address, that [place] can take. *)
Lemma extend_heap_ok H live (st : state memlib) words wc size :
  heap_ok H live st -> no_adjacent_free (blocks H) ->
  to_uint32 (Z.shiftl words 3) = size -> MIN_BLOCK_SIZE <= size -> size mod 8 = 0 ->
  (fst (extend_heap memlib_sbrk words wc st) = NULL
   /\ snd (extend_heap memlib_sbrk words wc st) = st)
  \/ exists l1 M l2 fl',
       fst (extend_heap memlib_sbrk words wc st) = b_addr M
       /\ heap_ok (mkHeap (l1 ++ M :: l2) fl') live
            (snd (extend_heap memlib_sbrk words wc st))
       /\ b_alloc M = false /\ size <= b_size M
       /\ no_adjacent_free (l1 ++ [mkBlk (b_addr M) (b_size M) true])
       /\ no_adjacent_free (M :: l2)
       /\ (forall B, B ∈ blocks H -> b_alloc B = true -> B ∈ l1 ++ l2).
Proof.
  intros [HRep Hmin Hbrk Hmax Hlive] Hnaf Hsize Hs32 Hs8.
  destruct H as [bs fl]. cbn [blocks flist] in *.
  rewrite MIN_BLOCK_SIZE_eq in Hs32.
  pose proof (pre_blocks _ _ (rep_pre _ _ HRep)) as Hb. cbn [blocks] in Hb.
  pose proof Hb as [Hh Hp Hc He [Hb31 Hb64] Hs Ht].
  pose proof (blocks_ok_pos _ _ Hb) as Hpos.
  rewrite sizeof_header_eq in *. rewrite sizeof_pointer_eq, TOTALNUMLIST_eq in Hh.
  assert (Ht0 : 0 <= total_size bs) by (apply total_size_nonneg, Hpos).
  destruct (extend_heap memlib_sbrk words wc st) as [blk st'] eqn:Hext. cbn [fst snd].
  unfold extend_heap in Hext. rewrite Hsize in Hext.
  destruct (Z.eqb_spec size 0) as [Hz|_]; [lia|].
  unfold memlib_sbrk in Hext.
  destruct (Z.ltb_spec size 0) as [Hz|_]; [lia|]. cbn [orb] in Hext.
  destruct (Z.ltb_spec (mem_max_addr (extender st)) (mem_brk (extender st) + size))
    as [Hfull|Hroom].
  - (* no room *)
    left. change (SBRK_FAILED =? SBRK_FAILED) with true in Hext. cbv iota beta in Hext.
    rewrite st_eta in Hext. injection Hext as <- <-. auto.
  - right. cbv zeta iota beta in Hext.
    destruct (Z.eqb_spec (mem_brk (extender st)) SBRK_FAILED) as [Hf|_];
      [unfold SBRK_FAILED in Hf; lia|].
    set (epi := prologue st + 8 + total_size bs) in *.
    replace (mem_brk (extender st) - sizeof_header) with epi in Hext
      by (rewrite sizeof_header_eq; lia).
    set (e' := mkMemlib (mem_brk (extender st) + size) (mem_max_addr (extender st))) in *.
    set (st0 := mkState (heap st) (segListHead st) (prologue st) e') in *.
    set (st2 := set_block_size epi size (set_allocated epi FREE st0)) in *.
    assert (R1 : get_footer st2 epi = epi + size - 8).
    { rewrite get_footer_eq. cut (get_block_size (heap st2) epi = size); [lia|].
      unfold st2. st_unfold. mem_simpl. now uint_simpl. }
    rewrite R1 in Hext.
    set (st3 := set_allocated (epi + size - 8) FREE st2) in *.
    assert (R2 : block_size st3 epi = size).
    { unfold st3, st2. st_unfold. mem_simpl. now uint_simpl. }
    rewrite R2 in Hext.
    replace (epi + size - 8 + sizeof_header) with (epi + size) in Hext
      by (rewrite sizeof_header_eq; lia).
    set (st6 := set_block_size (epi + size) 0
                  (set_allocated (epi + size) ALLOC
                     (set_block_size (epi + size - 8) size st3))) in *.
    assert (H6 : heap st6
                 = put_block_size (epi + size) 0
                     (put_allocated (epi + size) ALLOC
                        (put_block_size (epi + size - 8) size
                           (put_allocated (epi + size - 8) FREE
                              (put_block_size epi size
                                 (put_allocated epi FREE (heap st))))))).
    { unfold st6, st3, st2, st0. st_unfold. reflexivity. }
    assert (F6 : segListHead st6 = segListHead st /\ prologue st6 = prologue st
                 /\ extender st6 = e').
    { unfold st6, st3, st2, st0. st_unfold. auto. }
    destruct F6 as (F6a & F6b & F6c).
    destruct (extend_tags (heap st) epi size ltac:(lia)) as (Tg6 & E6a & E6b & Fr6).
    cbv zeta in Tg6, E6a, E6b, Fr6. rewrite <- H6 in Tg6, E6a, E6b, Fr6.
    assert (R3 : block_size st6 epi = size) by (rewrite block_size_eq; apply Tg6).
    rewrite R3 in Hext.
    clearbody st6. clear st3 st2 st0 R1 R2 R3 H6.
    set (N := mkBlk epi size false) in *.
    assert (HPre6 : Pre (mkHeap (bs ++ [N]) fl) st6).
    { apply (grow_pre st st6 bs fl N); try assumption; try reflexivity;
        cbn [b_addr b_size N]; try lia.
      - apply (rep_pre _ _ HRep).
      - unfold size_ok. cbn [b_size b_alloc N]. rewrite MIN_BLOCK_SIZE_eq.
        repeat split; try lia; assumption. }
    assert (Hk : 0 <= segListIndex size < TOTALNUMLIST) by (apply segListIndex_class; lia).
    assert (Hold : forall B, B ∈ bs -> b_addr B + b_size B <= epi).
    { intros B HB. pose proof (blocks_ok_range _ _ _ Hb HB). unfold epi. lia. }
    set (st7 := list_push epi (segListIndex size) st6) in *.
    destruct (list_push_fields epi (segListIndex size) st6) as (F7a & F7b & F7c).
    fold st7 in F7a, F7b, F7c.
    assert (HRep7 : Rep (mkHeap (bs ++ [N]) (fl_push epi (segListIndex size) fl)) st7).
    { split; cbn [blocks flist].
      - apply (push_pre st6); try assumption.
        + exists N. repeat split. apply elem_of_app; right; left.
        + intros j Hj Hx.
          destruct (pre_nodes _ _ (rep_pre _ _ HRep) j _ Hj Hx) as (B & HB & Ha & _).
          pose proof (Hold B HB). pose proof (Hpos B HB). lia.
      - intros B HB Hfr. apply elem_of_fl_push.
        apply elem_of_app in HB as [HB|HB].
        + right. apply (rep_free _ _ HRep); assumption.
        + apply list_elem_of_singleton in HB as ->. left. auto. }
    clearbody st7.
    assert (Hok7 : heap_ok (mkHeap (bs ++ [N]) (fl_push epi (segListIndex size) fl))
                     live st7).
    { split; cbn [blocks flist].
      - exact HRep7.
      - intros B HB. apply elem_of_app in HB as [HB|HB]; [now apply Hmin|].
        apply list_elem_of_singleton in HB as ->. rewrite MIN_BLOCK_SIZE_eq. cbn. lia.
      - rewrite F7c, F7b, F6c, F6b, total_size_app. cbn [mem_brk e' total_size b_size N].
        rewrite Hbrk. lia.
      - rewrite F7c, F7b, F6c, F6b. cbn [mem_max_addr e']. exact Hmax.
      - intros q Hq. destruct (Hlive q Hq) as (B & HB & Hr). exists B.
        split; [apply elem_of_app; now left|exact Hr]. }
    destruct wc.
    + (* with coalescing *)
      destruct (coalesce_quiet st7 bs epi size [] _ HRep7)
        as (l1' & M & l2' & fl' & HR & Hres & HMf & HMs & Hnaf' & Htot & Hkept & Hsub
            & Fa & Fb & Fc).
      { apply naf_snoc_alloc; [exact Hnaf|reflexivity]. }
      rewrite Hext in HR, Hres, Fa, Fb, Fc. cbn [fst snd] in HR, Hres, Fa, Fb, Fc.
      exists l1', M, l2', fl'.
      destruct Hok7 as [_ Hmin7 Hbrk7 Hmax7 Hlive7]. cbn [blocks flist] in *.
      apply naf_app_cons in Hnaf' as [Hn1 Hn2].
      split; [exact Hres|]. split; [split; cbn [blocks flist]|].
      * exact HR.
      * intros X HX. apply elem_of_app in HX as [HX|HX].
        -- apply Hmin7, (in_around _ [_]), Hsub, elem_of_app. now left.
        -- apply elem_of_cons in HX as [->|HX]; [rewrite MIN_BLOCK_SIZE_eq; lia|].
           apply Hmin7, (in_around _ [_]), Hsub, elem_of_app. now right.
      * rewrite Fc, Fb, Htot. exact Hbrk7.
      * rewrite Fc, Fb. exact Hmax7.
      * intros q Hq. destruct (Hlive q Hq) as (B & HB & Hpq & Haq). exists B.
        split; [|auto]. apply (in_around _ [_]), Hkept; [|exact Haq].
        rewrite app_nil_r. exact HB.
      * split; [exact HMf|]. split; [exact HMs|].
        split; [apply (naf_last _ _ _ Hn1); auto|]. split; [exact Hn2|].
        intros B HB Ha. apply Hkept; [|exact Ha]. rewrite app_nil_r. exact HB.
    + (* without *)
      injection Hext as <- <-.
      exists bs, N, [], (fl_push epi (segListIndex size) fl). cbn [b_addr b_size b_alloc N].
      split; [reflexivity|]. split; [exact Hok7|]. split; [reflexivity|].
      split; [lia|]. split; [apply naf_snoc_alloc; [exact Hnaf|reflexivity]|].
      split; [apply naf_single|]. intros B HB _. rewrite app_nil_r. exact HB.
Qed.

(** * [mm_malloc] at a quiescent point *)

Section Search.

Context {E : Type}.
Implicit Types (st : state E).

Lemma scan_list_found st asize : forall fuel l prv p b,
  dll (heap st) prv p l -> scan_list fuel st asize p = Some b -> b <> NULL ->
  b ∈ l /\ asize <= block_size st b.
Proof.
  induction fuel as [|fuel IH]; intros l prv p b Hl Hs Hb; [discriminate|].
  cbn [scan_list] in Hs. destruct l as [|x l].
  - cbn [dll] in Hl. subst p. rewrite Z.eqb_refl in Hs. congruence.
  - destruct Hl as (-> & Hx & _ & Hl).
    destruct (Z.eqb_spec x NULL) as [|_]; [contradiction|].
    destruct (_ && _) eqn:Hc.
    + injection Hs as <-. apply andb_true_iff in Hc as [_ Hc].
      apply Z.leb_le in Hc. split; [left|exact Hc].
    + rewrite next_eq, <- get_next_eq in Hs.
      destruct (IH l x _ b Hl Hs Hb) as [Hin Hsz]. split; [now right|exact Hsz].
Qed.

Lemma scan_lists_found st fl asize fuel : forall n i b,
  lists_ok st fl -> 0 <= i -> i + Z.of_nat n <= TOTALNUMLIST ->
  scan_lists n fuel st asize i = Some b -> b <> NULL ->
  exists k, 0 <= k < TOTALNUMLIST /\ b ∈ fl k /\ asize <= block_size st b.
Proof.
  induction n as [|n IH]; intros i b Hl Hi Hn Hs Hb; cbn [scan_lists] in Hs;
    [congruence|].
  destruct (scan_list fuel st asize (head st i)) as [c|] eqn:Hc; [|discriminate].
  destruct (Z.eqb_spec c NULL) as [Hz|Hnz].
  - apply (IH (i + 1)); try assumption; lia.
  - injection Hs as <-.
    destruct (scan_list_found st asize fuel (fl i) NULL _ c
                (lo_dll _ _ Hl i ltac:(lia)) Hc Hnz) as [Hin Hsz].
    exists i. repeat split; try assumption; lia.
Qed.

Lemma find_fit_found st fl asize fuel b :
  lists_ok st fl -> MIN_BLOCK_SIZE <= asize < 2 ^ 32 ->
  find_fit fuel asize st = Some b -> b <> NULL ->
  exists k, 0 <= k < TOTALNUMLIST /\ b ∈ fl k /\ asize <= block_size st b.
Proof.
  intros Hl Ha Hf Hb. unfold find_fit in Hf.
  pose proof (segListIndex_ge_0 asize Ha).
  pose proof (segListIndex_le (to_int asize)).
  apply (scan_lists_found st fl asize fuel _ _ b Hl) in Hf; try assumption; lia.
Qed.

End Search.

(** [place] on a free block that has room for the request, after the
    search or the growth of the heap. *)
Lemma place_post H live l1 M l2 fl (st : state memlib) asize :
  heap_ok (mkHeap (l1 ++ M :: l2) fl) live st -> b_alloc M = false ->
  no_adjacent_free (l1 ++ [mkBlk (b_addr M) (b_size M) true]) ->
  no_adjacent_free (M :: l2) ->
  MIN_BLOCK_SIZE <= asize <= b_size M -> asize mod 8 = 0 ->
  (forall B, B ∈ blocks H -> b_alloc B = true -> B ∈ l1 ++ l2) ->
  malloc_post H live asize (payload (b_addr M)) (place (b_addr M) asize st).
Proof.
  intros [HRep Hmin Hbrk Hmax Hlive] HMf Hn1 Hn2 Has Ha8 Hkept.
  destruct M as [b s a]. cbn [b_addr b_size b_alloc blocks flist] in *. subst a.
  rewrite MIN_BLOCK_SIZE_eq in Has.
  pose proof (pre_blocks _ _ (rep_pre _ _ HRep)) as Hb. cbn [blocks] in Hb.
  destruct (blocks_ok_at _ _ _ _ Hb) as (Hadr & Ht1 & _ & _ & _ & HS0 & HSP & _).
  cbn [b_addr] in Hadr.
  assert (Hout : forall B, B ∈ l1 ++ l2 -> b_addr B <> b).
  { intros B HB. pose proof (around_outside st l1 [mkBlk b s false] l2 B Hb HB) as Ho.
    pose proof (blocks_ok_pos _ _ Hb B (in_around l1 [_] l2 B HB)).
    cbn [total_size b_size] in Ho. lia. }
  assert (Hpn : (payload b =? NULL) = false).
  { apply Z.eqb_neq. unfold payload. rewrite sizeof_header_eq, NULL_eq. lia. }
  destruct (place_rep st l1 l2 fl b s asize HRep ltac:(lia) Ha8) as (Fa & Fb & Fc & HR).
  cbv zeta in Fa, Fb, Fc, HR.
  set (st' := place b asize st) in *. clearbody st'.
  assert (Hold : forall q, q ∈ live -> forall mid,
            exists B, B ∈ l1 ++ mid ++ l2 /\ payload (b_addr B) = q /\ b_alloc B = true).
  { intros q Hq mid. destruct (Hlive q Hq) as (B & HB & Hpq & Haq). exists B.
    split; [|auto]. apply in_around.
    apply (in_around_inv l1 [_]) in HB as [HB|HB]; [exact HB|].
    apply list_elem_of_singleton in HB as ->. discriminate. }
  assert (Hother : forall B mid, B ∈ blocks H -> b_alloc B = true ->
            B ∈ l1 ++ mid ++ l2 /\ payload (b_addr B) <> payload b).
  { intros B mid HB Ha. specialize (Hkept B HB Ha). split; [apply in_around, Hkept|].
    unfold payload. pose proof (Hout B Hkept). lia. }
  unfold malloc_post. rewrite Hpn.
  destruct (Z.leb_spec MIN_BLOCK_SIZE (s - asize)) as [Hr|Hr]; rewrite MIN_BLOCK_SIZE_eq in Hr.
  - (* split *)
    exists (mkHeap (l1 ++ mkBlk b asize true :: mkBlk (b + asize) (s - asize) false :: l2)
              (fl_push (b + asize) (segListIndex (s - asize))
                 (fl_remove b (segListIndex s) fl))).
    cbn [blocks flist]. split; [split; [split; cbn [blocks flist]|]|split].
    + exact HR.
    + intros X HX. apply (in_around_inv l1 [_; _]) in HX as [HX|HX].
      * apply Hmin, (in_around _ [_]), HX.
      * rewrite MIN_BLOCK_SIZE_eq. apply elem_of_cons in HX as [->|HX]; [cbn; lia|].
        apply list_elem_of_singleton in HX as ->. cbn. lia.
    + rewrite Fc, Fb, Hbrk, !total_size_app. cbn [total_size b_size]. lia.
    + rewrite Fc, Fb. exact Hmax.
    + intros q Hq. apply elem_of_cons in Hq as [->|Hq].
      * exists (mkBlk b asize true). split; [apply elem_of_app; right; left|auto].
      * apply (Hold q Hq [_; _]).
    + apply naf_glue; [apply (naf_last _ _ _ Hn1); auto|].
      rewrite naf_cons. split; [discriminate|]. apply (naf_head _ _ _ Hn2). auto.
    + intros _. exists (mkBlk b asize true). cbn [b_addr b_size b_alloc].
      split; [apply elem_of_app; right; left|]. repeat split. lia.
    + intros B HB Ha. apply (Hother B [_; _] HB Ha).
  - (* no split *)
    exists (mkHeap (l1 ++ mkBlk b s true :: l2) (fl_remove b (segListIndex s) fl)).
    cbn [blocks flist]. split; [split; [split; cbn [blocks flist]|]|split].
    + exact HR.
    + intros X HX. apply (in_around_inv l1 [_]) in HX as [HX|HX].
      * apply Hmin, (in_around _ [_]), HX.
      * rewrite MIN_BLOCK_SIZE_eq. apply list_elem_of_singleton in HX as ->. cbn. lia.
    + rewrite Fc, Fb, Hbrk, !total_size_app. cbn [total_size b_size]. lia.
    + rewrite Fc, Fb. exact Hmax.
    + intros q Hq. apply elem_of_cons in Hq as [->|Hq].
      * exists (mkBlk b s true). split; [apply elem_of_app; right; left|auto].
      * apply (Hold q Hq [_]).
    + apply naf_glue; [apply (naf_last _ _ _ Hn1); auto|].
      apply (naf_head _ _ _ Hn2). auto.
    + intros _. exists (mkBlk b s true). cbn [b_addr b_size b_alloc].
      split; [apply elem_of_app; right; left|]. repeat split. lia.
    + intros B HB Ha. apply (Hother B [_] HB Ha).
Qed.

Lemma null_post H live (st : state memlib) asize :
  quiescent H live st -> malloc_post H live asize NULL st.
Proof.
  intros HQ. exists H. rewrite Z.eqb_refl. split; [exact HQ|]. split; [congruence|].
  intros B HB Ha. split; [exact HB|].
  destruct HQ as [[HRep _ _ _ _] _].
  pose proof (pre_blocks _ _ (rep_pre _ _ HRep)) as Hb.
  pose proof (blocks_ok_range _ _ _ Hb HB) as Hr.
  pose proof (bo_heads _ _ Hb) as Hh.
  rewrite sizeof_pointer_eq, TOTALNUMLIST_eq in Hh.
  unfold payload. rewrite sizeof_header_eq, NULL_eq. lia.
Qed.

Lemma shift_words n :
  0 <= n < 2 ^ 32 -> n mod 8 = 0 -> to_uint32 (Z.shiftl (Z.shiftr n 3) 3) = n.
Proof.
  intros Hn Hm. rewrite Z.shiftr_div_pow2 by lia. change (2 ^ 3) with 8.
  now apply sbrk_request.
Qed.

(** The block that [extend_heap] hands over is not at address 0. *)
Lemma heap_ok_addr H live (st : state memlib) B :
  heap_ok H live st -> B ∈ blocks H -> (b_addr B =? NULL) = false.
Proof.
  intros [HRep _ _ _ _] HB.
  pose proof (pre_blocks _ _ (rep_pre _ _ HRep)) as Hb.
  pose proof (blocks_ok_range _ _ _ Hb HB) as Hr.
  pose proof (bo_heads _ _ Hb) as Hh.
  rewrite sizeof_pointer_eq, TOTALNUMLIST_eq in Hh.
  apply Z.eqb_neq. rewrite NULL_eq. lia.
Qed.

Lemma search_post H live (st : state memlib) fuel asize p st' :
  quiescent H live st -> MIN_BLOCK_SIZE <= asize < 2 ^ 32 -> asize mod 8 = 0 ->
  mm_malloc_search memlib_sbrk fuel asize st = Some (p, st') ->
  malloc_post H live asize p st'.
Proof.
  intros HQ Has Ha8 Hm. pose proof HQ as [Hok Hnaf].
  unfold mm_malloc_search in Hm.
  destruct (find_fit fuel asize st) as [b|] eqn:Hfit; [|discriminate].
  destruct (Z.eqb_spec b NULL) as [Hbz|Hbnz]; cbn [negb] in Hm.
  - (* nothing fits *)
    set (es := if CHUNKSIZE <? asize then asize else CHUNKSIZE) in *.
    assert (Hes : MIN_BLOCK_SIZE <= es < 2 ^ 32 /\ es mod 8 = 0 /\ asize <= es).
    { unfold es. rewrite CHUNKSIZE_eq, MIN_BLOCK_SIZE_eq in *.
      destruct (Z.ltb_spec 65536 asize); repeat split; try lia; try assumption;
        try reflexivity. }
    destruct Hes as (Hes1 & Hes8 & Hes2).
    destruct (extend_heap_ok H live st (Z.shiftr es 3) true es Hok Hnaf
                (shift_words es ltac:(rewrite MIN_BLOCK_SIZE_eq in Hes1; lia) Hes8)
                ltac:(lia) Hes8)
      as [[Hnull Hsame]|(l1 & M & l2 & fl' & Hres & Hok' & HMf & HMs & Hn1 & Hn2 & Hkept)];
      destruct (extend_heap memlib_sbrk (Z.shiftr es 3) true st) as [blk st1];
      cbn [fst snd] in *.
    + subst blk st1. rewrite Z.eqb_refl in Hm. cbn [negb] in Hm. injection Hm as <- <-.
      now apply null_post.
    + subst blk. rewrite (heap_ok_addr _ _ _ M Hok') in Hm
        by (cbn [blocks]; apply elem_of_app; right; left).
      cbn [negb] in Hm. injection Hm as <- <-.
      apply (place_post H live l1 M l2 fl'); try assumption. lia.
  - (* a block fits *)
    injection Hm as <- <-.
    destruct Hok as [HRep Hmin Hbrk Hmax Hlive]. destruct H as [bs fl].
    cbn [blocks flist] in *.
    destruct (find_fit_found st fl asize fuel b (pre_lists _ _ (rep_pre _ _ HRep))
                Has Hfit Hbnz) as (k & Hk & Hin & Hsz).
    destruct (pre_nodes _ _ (rep_pre _ _ HRep) k b Hk Hin) as (B & HB & Hadr & HBf & _).
    cbn [blocks] in HB.
    rewrite <- Hadr in Hsz.
    rewrite (pre_size _ _ _ _ (rep_pre _ _ HRep) HB) in Hsz.
    destruct (list_elem_of_split _ _ HB) as (l1 & l2 & ->).
    apply naf_app_cons in Hnaf as [Hn1 Hn2]. subst b.
    apply (place_post (mkHeap (l1 ++ B :: l2) fl) live l1 B l2 fl); try assumption.
    + split; assumption.
    + apply (naf_last _ _ _ Hn1). auto.
    + lia.
    + cbn [blocks]. intros X HX Ha.
      apply (in_around_inv l1 [_]) in HX as [HX|HX]; [exact HX|].
      apply list_elem_of_singleton in HX as ->. congruence.
Qed.

Lemma mm_malloc_post H live (st : state memlib) fuel u p st' :
  quiescent H live st ->
  mm_malloc memlib_sbrk fuel u st = Some (p, st') ->
  malloc_post H live (adjust_size u) p st'.
Proof.
  intros HQ Hm. pose proof HQ as [Hok Hnaf]. unfold mm_malloc in Hm.
  destruct (u =? 0).
  { injection Hm as <- <-. now apply null_post. }
  cbv zeta in Hm.
  pose proof (adjust_size_range u) as Has. pose proof (adjust_size_mod8 u) as Ha8.
  set (asize := adjust_size u) in *. clearbody asize.
  destruct (asize <=? 96); [|now apply (search_post H live st fuel)].
  destruct (extend_heap_ok H live st (Z.shiftr asize 3) false asize Hok Hnaf
              (shift_words asize ltac:(rewrite MIN_BLOCK_SIZE_eq in Has; lia) Ha8)
              ltac:(lia) Ha8)
    as [[Hnull Hsame]|(l1 & M & l2 & fl' & Hres & Hok' & HMf & HMs & Hn1 & Hn2 & Hkept)];
    destruct (extend_heap memlib_sbrk (Z.shiftr asize 3) false st) as [blk st1];
    cbn [fst snd] in *.
  - subst blk st1. rewrite Z.eqb_refl in Hm. cbn [negb] in Hm.
    now apply (search_post H live st fuel).
  - subst blk. rewrite (heap_ok_addr _ _ _ M Hok') in Hm
      by (cbn [blocks]; apply elem_of_app; right; left).
    cbn [negb] in Hm. injection Hm as <- <-.
    apply (place_post H live l1 M l2 fl'); try assumption. lia.
Qed.

(** * [mm_realloc] at a quiescent point *)

Lemma load8_memcpy_bytes n : forall dst src m i,
  i < dst \/ dst + Z.of_nat n <= i ->
  load8 (memcpy_bytes n dst src m) i = load8 m i.
Proof.
  induction n as [|n IH]; intros dst src m i Hi; [reflexivity|].
  cbn [memcpy_bytes]. rewrite IH by lia. apply load8_store8_ne. lia.
Qed.

Lemma load8_memcpy dst src n m i :
  i < dst \/ dst + Z.max 0 n <= i -> load8 (memcpy dst src n m) i = load8 m i.
Proof. intros Hi. unfold memcpy. apply load8_memcpy_bytes. lia. Qed.

(** Writes into the payload of an allocated block leave the heap what it
    is. *)
Lemma payload_write H live (st : state memlib) f B :
  quiescent H live st -> B ∈ blocks H -> b_alloc B = true ->
  (forall i, i < b_addr B + 8 \/ b_addr B + b_size B - 8 <= i ->
             load8 (f (heap st)) i = load8 (heap st) i) ->
  quiescent H live (on_heap f st).
Proof.
  intros [[HRep Hmin Hbrk Hmax Hlive] Hnaf] HB Ha Hfr.
  destruct H as [bs fl]. cbn [blocks flist] in *.
  destruct (list_elem_of_split _ _ HB) as (l1 & l2 & ->).
  pose proof (pre_blocks _ _ (rep_pre _ _ HRep)) as Hb. cbn [blocks] in Hb.
  destruct (blocks_ok_at _ _ _ _ Hb) as (Hadr & _ & _ & Hsz & Htag & _).
  split; [split; cbn [blocks flist]; try assumption|exact Hnaf].
  split; [|apply (rep_free _ _ HRep)].
  apply (retag_pre st (on_heap f st) l1 [B] [B] l2 fl); try reflexivity.
  - apply (rep_pre _ _ HRep).
  - apply (nodes_free_skip _ _ _ _ (pre_nodes _ _ (rep_pre _ _ HRep)) Ha).
  - intros X HX. apply list_elem_of_singleton in HX as ->. exact Hsz.
  - cbn [contig]. split; [lia|exact I].
  - intros X HX. apply list_elem_of_singleton in HX as ->.
    rewrite heap_on_heap. destruct Hsz as (Hs8 & _). unfold tagged in *.
    rewrite (get_block_size_ext (heap st) (f (heap st)) (b_addr B))
      by (intros; apply Hfr; lia).
    rewrite (get_allocated_ext (heap st) (f (heap st)) (b_addr B))
      by (intros; apply Hfr; lia).
    rewrite (get_block_size_ext (heap st) (f (heap st)) (b_addr B + b_size B - 8))
      by (intros; apply Hfr; lia).
    rewrite (get_allocated_ext (heap st) (f (heap st)) (b_addr B + b_size B - 8))
      by (intros; apply Hfr; lia).
    exact Htag.
  - cbn [total_size]. intros i Hi. rewrite heap_on_heap. apply Hfr.
    destruct Hsz as (Hs8 & _). lia.
Qed.

Lemma mm_realloc_quiescent H live (st : state memlib) fuel p u q st' :
  quiescent H live st -> p ∈ live -> 0 <= u <= 2 ^ 32 - 24 ->
  mm_realloc memlib_sbrk fuel p u st = Some (Returned q st') ->
  exists H', quiescent H' (q :: filter (fun r => r <> p) live) st'.
Proof.
  intros HQ Hp Hu Hr. unfold mm_realloc in Hr.
  destruct (mm_malloc memlib_sbrk fuel u st) as [[newp st1]|] eqn:Hm; [|discriminate].
  destruct (Z.eqb_spec newp NULL) as [|Hnz]; [discriminate|].
  cbv zeta in Hr. injection Hr as <- <-.
  assert (Hu0 : u <> 0).
  { intros ->. unfold mm_malloc in Hm. rewrite Z.eqb_refl in Hm. congruence. }
  destruct (mm_malloc_post H live st fuel u newp st1 HQ Hm) as (H1 & HQ1 & Hnew & Hkept).
  destruct (Hnew Hnz) as (Bn & HBn & Hpn & Han & Hsn).
  rewrite adjust_size_required in Hsn by lia.
  destruct (required_size_bounds u ltac:(lia)) as (_ & _ & Hreq).
  rewrite OVERHEAD_eq in Hreq.
  apply Z.eqb_neq in Hnz. rewrite Hnz in HQ1.
  assert (Hpne : newp <> p).
  { destruct HQ as [[_ _ _ _ Hlive] _]. destruct (Hlive p Hp) as (Bp & HBp & Hpp & Hap).
    destruct (Hkept Bp HBp Hap) as [_ Hne]. congruence. }
  set (cs := if u <? block_size st1 (p - sizeof_header) then u
             else block_size st1 (p - sizeof_header)).
  assert (Hcs : cs <= u) by (unfold cs; destruct (Z.ltb_spec u (block_size st1 (p - sizeof_header))); lia).
  assert (HQ2 : quiescent H1 (newp :: live) (on_heap (memcpy newp p cs) st1)).
  { apply (payload_write H1 _ st1 _ Bn HQ1 HBn Han).
    intros i Hi. apply load8_memcpy. unfold payload in Hpn.
    rewrite sizeof_header_eq in Hpn. lia. }
  destruct (mm_free_quiescent H1 (newp :: live) _ p HQ2) as (H' & HQ').
  { now right. }
  exists H'. rewrite filter_cons_True in HQ' by exact Hpne. exact HQ'.
Qed.

(** * Every state that a client reaches is quiescent *)

Lemma after_init_quiescent cap :
  exact_fit <= cap <= 2 ^ 31 ->
  quiescent (mkHeap [mkBlk 4192 65520 false] (fl_push 4192 10 (fun _ => [])))
    [] (after_init cap).
Proof.
  intros Hcap. unfold exact_fit in Hcap.
  rewrite sizeof_pointer_eq, TOTALNUMLIST_eq, CHUNKSIZE_eq in Hcap.
  assert (H1 : memlib_sbrk (sizeof_pointer * TOTALNUMLIST) (extender (fresh cap))
               = (4096, mkMemlib 4184 (4096 + cap))).
  { unfold memlib_sbrk, fresh. cbn [extender mem_brk mem_max_addr].
    rewrite sizeof_pointer_eq, TOTALNUMLIST_eq.
    destruct (Z.ltb_spec (4096 + cap) (4096 + 8 * 11)); [lia|]. reflexivity. }
  assert (H4 : memlib_sbrk CHUNKSIZE (mkMemlib 4184 (4096 + cap))
               = (4096 + sizeof_pointer * TOTALNUMLIST, mkMemlib 69720 (4096 + cap))).
  { unfold memlib_sbrk. cbn [mem_brk mem_max_addr].
    rewrite CHUNKSIZE_eq.
    destruct (Z.ltb_spec (4096 + cap) (4184 + 65536)); [lia|]. reflexivity. }
  assert (H3 : 4096 + sizeof_pointer * TOTALNUMLIST + CHUNKSIZE <= 2 ^ 64)
    by (vm_compute; discriminate).
  destruct (mm_init_rep memlib_sbrk (fresh cap) 4096 _ _ H1 ltac:(lia) H3 H4)
    as (HRep & FS & FP & FE).
  cbv zeta in HRep, FS, FP, FE. fold (after_init cap) in HRep, FS, FP, FE.
  split; [split; cbn [blocks flist]|apply naf_single].
  - exact HRep.
  - intros B HB. apply list_elem_of_singleton in HB as ->. rewrite MIN_BLOCK_SIZE_eq. cbn. lia.
  - rewrite FE, FP. cbn [mem_brk total_size b_size]. lia.
  - rewrite FE, FP. cbn [mem_max_addr]. lia.
  - intros p Hp. inversion Hp.
Qed.

Lemma reachable_quiescent st live :
  reachable st live -> exists H, quiescent H live st.
Proof.
  induction 1 as [cap Hcap|st live fuel u p st' _ [H HQ] Hu Hm
                 |st live p _ [H HQ] Hp|st live fuel p u q st' _ [H HQ] Hp Hu Hr
                 |st live p i v _ [H HQ] Hp Hi].
  - eexists. apply after_init_quiescent, Hcap.
  - destruct (mm_malloc_post H live st fuel u p st' HQ Hm) as (H' & HQ' & _). eauto.
  - apply (mm_free_quiescent H live st p HQ Hp).
  - apply (mm_realloc_quiescent H live st fuel p u q st' HQ Hp Hu Hr).
  - exists H. pose proof HQ as [[HRep _ _ _ Hlive] _].
    destruct (Hlive p Hp) as (B & HB & Hpay & Ha).
    unfold payload in Hpay. rewrite sizeof_header_eq in Hpay, Hi.
    replace (p - 8) with (b_addr B) in Hi by lia.
    destruct H as [bs fl]. cbn [blocks] in *.
    rewrite (pre_size _ _ _ _ (rep_pre _ _ HRep) HB), OVERHEAD_eq in Hi.
    apply (payload_write _ _ st _ B HQ HB Ha).
    intros j Hj. apply load8_store8_ne. lia.
Qed.

(** * The walk over the heap and the neighbours of a free block *)

Section Walk.

Context {E : Type}.
Implicit Types (st : state E).

Lemma walk_row m : forall bs a fuel,
  contig a bs -> (forall B, B ∈ bs -> 0 < b_size B) ->
  (forall B, B ∈ bs -> get_block_size m (b_addr B) = b_size B) ->
  get_block_size m (a + total_size bs) = 0 ->
  (length bs < fuel)%nat ->
  heap_blocks fuel m a = map b_addr bs.
Proof.
  induction bs as [|B bs IH]; intros a fuel Hc Hpos Hsz He Hf;
    (destruct fuel as [|fuel]; [cbn [length] in Hf; lia|]); rewrite heap_blocks_eq.
  - cbn [total_size] in He. rewrite Z.add_0_r in He. rewrite He. reflexivity.
  - destruct Hc as [Ha Hc]. subst a.
    rewrite (Hsz B) by left. pose proof (Hpos B ltac:(left)).
    destruct (Z.eqb_spec (b_size B) 0) as [|_]; [lia|].
    cbn [map]. f_equal. apply IH; try assumption.
    + intros B' HB'. apply Hpos. now right.
    + intros B' HB'. apply Hsz. now right.
    + cbn [total_size] in He. rewrite Z.add_assoc in He. exact He.
    + cbn [length] in Hf. lia.
Qed.



End Walk.

(** * Walks over the class lists *)

Lemma dll_walk m : forall l prv p fuel,
  dll m prv p l -> (length l < fuel)%nat -> list_nodes fuel m p = l.
Proof.
  induction l as [|x l IH]; intros prv p fuel Hl Hf;
    (destruct fuel as [|fuel]; [cbn [length] in Hf; lia|]); rewrite list_nodes_eq.
  - cbn [dll] in Hl. subst p. rewrite Z.eqb_refl. reflexivity.
  - destruct Hl as (-> & Hx & _ & Hl).
    destruct (Z.eqb_spec x NULL) as [|_]; [contradiction|].
    f_equal. apply (IH x); [exact Hl|]. cbn [length] in Hf. lia.
Qed.

Lemma filter_ne_notin (x : Z) (l : list Z) : x ∉ l -> filter (fun y => y <> x) l = l.
Proof.
  induction l as [|y l IH]; intros Hx; [reflexivity|].
  apply not_elem_of_cons in Hx as [Hne Hx].
  rewrite filter_cons_True by congruence. now rewrite IH.
Qed.

Lemma length_filter_le (x : Z) (l : list Z) :
  (length (filter (fun y => y <> x) l) <= length l)%nat.
Proof. apply length_filter. Qed.

(** * The search, node by node *)

Section Scan.

Context {E : Type}.
Implicit Types (st : state E).

Lemma scan_list_first st asize : forall fuel l prv p b,
  dll (heap st) prv p l -> (forall x, x ∈ l -> allocated st x = 0) ->
  scan_list fuel st asize p = Some b -> b <> NULL ->
  exists l1 l2, l = l1 ++ b :: l2
                /\ (forall x, x ∈ l1 -> block_size st x < asize)
                /\ asize <= block_size st b.
Proof.
  induction fuel as [|fuel IH]; intros l prv p b Hl Hfree Hs Hb; [discriminate|].
  cbn [scan_list] in Hs. destruct l as [|x l].
  - cbn [dll] in Hl. subst p. rewrite Z.eqb_refl in Hs. congruence.
  - destruct Hl as (-> & Hx & _ & Hl).
    destruct (Z.eqb_spec x NULL) as [|_]; [contradiction|].
    rewrite (Hfree x ltac:(left)) in Hs. cbn [Z.eqb andb] in Hs.
    destruct (Z.leb_spec asize (block_size st x)) as [Hfit|Hsmall].
    + injection Hs as <-. exists [], l. split; [reflexivity|].
      split; [intros y Hy; inversion Hy|exact Hfit].
    + rewrite next_eq, <- get_next_eq in Hs.
      destruct (IH l x _ b Hl (fun y Hy => Hfree y ltac:(now right)) Hs Hb)
        as (l1 & l2 & -> & Hbefore & Hfit).
      exists (x :: l1), l2. split; [reflexivity|]. split; [|exact Hfit].
      intros y Hy. apply elem_of_cons in Hy as [->|Hy]; [exact Hsmall|now apply Hbefore].
Qed.

Lemma scan_list_none st asize : forall fuel l prv p,
  dll (heap st) prv p l -> (forall x, x ∈ l -> allocated st x = 0) ->
  scan_list fuel st asize p = Some NULL ->
  forall x, x ∈ l -> block_size st x < asize.
Proof.
  induction fuel as [|fuel IH]; intros l prv p Hl Hfree Hs; [discriminate|].
  cbn [scan_list] in Hs. destruct l as [|x l]; [intros y Hy; inversion Hy|].
  destruct Hl as (-> & Hx & _ & Hl).
  destruct (Z.eqb_spec x NULL) as [|_]; [contradiction|].
  rewrite (Hfree x ltac:(left)) in Hs. cbn [Z.eqb andb] in Hs.
  destruct (Z.leb_spec asize (block_size st x)) as [Hfit|Hsmall]; [congruence|].
  rewrite next_eq, <- get_next_eq in Hs.
  intros y Hy. apply elem_of_cons in Hy as [->|Hy]; [exact Hsmall|].
  apply (IH l x _ Hl (fun z Hz => Hfree z ltac:(now right)) Hs y Hy).
Qed.

Lemma scan_lists_first st fl asize fuel : forall n i b,
  lists_ok st fl ->
  (forall k x, 0 <= k < TOTALNUMLIST -> x ∈ fl k -> allocated st x = 0) ->
  0 <= i -> i + Z.of_nat n <= TOTALNUMLIST ->
  scan_lists n fuel st asize i = Some b -> b <> NULL ->
  exists k l1 l2,
    i <= k < i + Z.of_nat n /\ fl k = l1 ++ b :: l2
    /\ (forall x, x ∈ l1 -> block_size st x < asize)
    /\ asize <= block_size st b
    /\ (forall j x, i <= j < k -> x ∈ fl j -> block_size st x < asize).
Proof.
  induction n as [|n IH]; intros i b Hl Hfree Hi Hn Hs Hb; cbn [scan_lists] in Hs;
    [congruence|].
  destruct (scan_list fuel st asize (head st i)) as [c|] eqn:Hc; [|discriminate].
  pose proof (lo_dll _ _ Hl i ltac:(lia)) as Hd.
  destruct (Z.eqb_spec c NULL) as [->|Hnz].
  - pose proof (scan_list_none st asize fuel (fl i) NULL _ Hd
                  (fun y Hy => Hfree i y ltac:(lia) Hy) Hc) as Hnone.
    destruct (IH (i + 1) b Hl Hfree ltac:(lia) ltac:(lia) Hs Hb)
      as (k & l1 & l2 & Hk & Heq & Hbefore & Hfit & Hlower).
    exists k, l1, l2. repeat split; try assumption; try lia.
    intros j x Hj Hx. destruct (Z.eq_dec j i) as [->|Hne]; [now apply Hnone|].
    apply (Hlower j x); [lia|exact Hx].
  - injection Hs as <-.
    destruct (scan_list_first st asize fuel (fl i) NULL _ c Hd
                (fun y Hy => Hfree i y ltac:(lia) Hy) Hc Hnz) as (l1 & l2 & Heq & Hbefore & Hfit).
    exists i, l1, l2. repeat split; try assumption; try lia.
Qed.

Lemma scan_lists_none st fl asize fuel : forall n i,
  lists_ok st fl ->
  (forall k x, 0 <= k < TOTALNUMLIST -> x ∈ fl k -> allocated st x = 0) ->
  0 <= i -> i + Z.of_nat n <= TOTALNUMLIST ->
  scan_lists n fuel st asize i = Some NULL ->
  forall j x, i <= j < i + Z.of_nat n -> x ∈ fl j -> block_size st x < asize.
Proof.
  induction n as [|n IH]; intros i Hl Hfree Hi Hn Hs j x Hj Hx; [lia|].
  cbn [scan_lists] in Hs.
  destruct (scan_list fuel st asize (head st i)) as [c|] eqn:Hc; [|discriminate].
  pose proof (lo_dll _ _ Hl i ltac:(lia)) as Hd.
  destruct (Z.eqb_spec c NULL) as [->|Hnz]; [|congruence].
  destruct (Z.eq_dec j i) as [->|Hne].
  - apply (scan_list_none st asize fuel (fl i) NULL _ Hd (fun y Hy => Hfree i y ltac:(lia) Hy) Hc x Hx).
  - apply (IH (i + 1) Hl Hfree ltac:(lia) ltac:(lia) Hs j x); [lia|exact Hx].
Qed.

(** The nodes of the lists are free blocks. *)
Lemma nodes_allocated_0 st bs fl :
  Pre (mkHeap bs fl) st ->
  forall k x, 0 <= k < TOTALNUMLIST -> x ∈ fl k -> allocated st x = 0.
Proof.
  intros HPre k x Hk Hx.
  destruct (pre_nodes _ _ HPre k x Hk Hx) as (B & HB & <- & Hf & _).
  destruct (bo_tagged _ _ (pre_blocks _ _ HPre) B HB) as (_ & T2 & _).
  rewrite allocated_eq, T2, Hf. reflexivity.
Qed.

Lemma pre_lists_end st bs fl fuel :
  Pre (mkHeap bs fl) st ->
  (forall k, 0 <= k < TOTALNUMLIST -> (length (fl k) < fuel)%nat) ->
  lists_end fuel st.
Proof.
  intros HPre Hlen i Hi. exists (fl i). split; [|now apply Hlen].
  apply (lo_dll _ _ (pre_lists _ _ HPre) i Hi).
Qed.

End Scan.

(** The class of a block grows with its size. *)
Lemma segListIndex_mono a s :
  1 <= a <= s -> s < 2 ^ 32 -> segListIndex a <= segListIndex s.
Proof.
  intros Ha Hs. rewrite !segListIndex_pos by lia.
  pose proof (Z.log2_le_mono a s ltac:(lia)). lia.
Qed.

Lemma to_int_small a : 0 <= a < 2 ^ 31 -> to_int a = a.
Proof. intros Ha. unfold to_int. rewrite Z.mod_small by lia. lia. Qed.

(** * What no operation moves *)

Section Fields.

Context {E : Type}.
Variable mem_sbrk : Z -> E -> Z * E.
Implicit Types (st : state E).

Lemma segListHead_list_push b k st : segListHead (list_push b k st) = segListHead st.
Proof. apply list_push_fields. Qed.
Lemma prologue_list_push b k st : prologue (list_push b k st) = prologue st.
Proof. apply list_push_fields. Qed.
Lemma extender_list_push b k st : extender (list_push b k st) = extender st.
Proof. apply list_push_fields. Qed.
Lemma segListHead_list_pop b k st : segListHead (list_pop b k st) = segListHead st.
Proof. apply list_pop_fields. Qed.
Lemma prologue_list_pop b k st : prologue (list_pop b k st) = prologue st.
Proof. apply list_pop_fields. Qed.
Lemma extender_list_pop b k st : extender (list_pop b k st) = extender st.
Proof. apply list_pop_fields. Qed.

Lemma place_fields b asize st :
  segListHead (place b asize st) = segListHead st
  /\ prologue (place b asize st) = prologue st
  /\ extender (place b asize st) = extender st.
Proof.
  unfold place. cbv zeta. destruct (_ <=? _);
    rewrite ?segListHead_list_push, ?prologue_list_push, ?extender_list_push;
    st_unfold;
    rewrite ?segListHead_list_pop, ?prologue_list_pop, ?extender_list_pop; auto.
Qed.

Lemma coalesce_fields b st :
  segListHead (snd (coalesce b st)) = segListHead st
  /\ prologue (snd (coalesce b st)) = prologue st
  /\ extender (snd (coalesce b st)) = extender st.
Proof.
  unfold coalesce. cbv zeta.
  destruct (_ && _); [cbn [snd]; auto|].
  destruct (_ && _); [|destruct (_ && _)]; cbn [snd];
    rewrite ?segListHead_list_push, ?prologue_list_push, ?extender_list_push;
    st_unfold;
    rewrite ?segListHead_list_pop, ?prologue_list_pop, ?extender_list_pop; auto.
Qed.

Lemma extend_heap_fields words wc st :
  segListHead (snd (extend_heap mem_sbrk words wc st)) = segListHead st
  /\ prologue (snd (extend_heap mem_sbrk words wc st)) = prologue st.
Proof.
  unfold extend_heap. cbv zeta. destruct (_ =? 0); [cbn [snd]; auto|].
  destruct (mem_sbrk _ _) as [blk e]. destruct (_ =? _); [cbn [snd]; auto|].
  destruct wc.
  - match goal with
    | |- context [coalesce ?b ?s] => destruct (coalesce_fields b s) as (-> & -> & _)
    end.
    rewrite ?segListHead_list_push, ?prologue_list_push. st_unfold. auto.
  - cbn [snd]. rewrite ?segListHead_list_push, ?prologue_list_push. st_unfold. auto.
Qed.

Lemma mm_free_fields p st :
  segListHead (mm_free p st) = segListHead st
  /\ prologue (mm_free p st) = prologue st
  /\ extender (mm_free p st) = extender st.
Proof.
  unfold mm_free. cbv zeta.
  match goal with
  | |- context [coalesce ?b ?s] => destruct (coalesce_fields b s) as (-> & -> & ->)
  end.
  rewrite ?segListHead_list_push, ?prologue_list_push, ?extender_list_push.
  st_unfold. auto.
Qed.

Lemma mm_malloc_search_fields fuel asize st p st' :
  mm_malloc_search mem_sbrk fuel asize st = Some (p, st') ->
  segListHead st' = segListHead st /\ prologue st' = prologue st.
Proof.
  unfold mm_malloc_search. destruct (find_fit _ _ _) as [b|]; [|discriminate].
  destruct (negb (b =? NULL)).
  - intros [= <- <-]. destruct (place_fields b asize st) as (-> & -> & _). auto.
  - cbv zeta.
    match goal with
    | |- context [extend_heap mem_sbrk ?w ?c st] =>
        pose proof (extend_heap_fields w c st) as (F1 & F2);
        destruct (extend_heap mem_sbrk w c st) as [blk st1]
    end.
    cbn [snd] in F1, F2. destruct (negb (blk =? NULL)); intros [= <- <-]; [|auto].
    destruct (place_fields blk asize st1) as (-> & -> & _). auto.
Qed.

Lemma mm_malloc_fields fuel u st p st' :
  mm_malloc mem_sbrk fuel u st = Some (p, st') ->
  segListHead st' = segListHead st /\ prologue st' = prologue st.
Proof.
  unfold mm_malloc. destruct (u =? 0); [intros [= <- <-]; auto|]. cbv zeta.
  destruct (_ <=? 96); [|apply mm_malloc_search_fields].
  match goal with
  | |- context [extend_heap mem_sbrk ?w ?c st] =>
      pose proof (extend_heap_fields w c st) as (F1 & F2);
      destruct (extend_heap mem_sbrk w c st) as [blk st1]
  end.
  cbn [snd] in F1, F2. destruct (negb (blk =? NULL)).
  - intros [= <- <-]. destruct (place_fields blk (adjust_size u) st1) as (-> & -> & _).
    auto.
  - intros Hm. apply mm_malloc_search_fields in Hm as [-> ->]. auto.
Qed.

Lemma mm_realloc_fields fuel p u st q st' :
  mm_realloc mem_sbrk fuel p u st = Some (Returned q st') ->
  segListHead st' = segListHead st /\ prologue st' = prologue st.
Proof.
  unfold mm_realloc.
  destruct (mm_malloc mem_sbrk fuel u st) as [[newp st1]|] eqn:Hm; [|discriminate].
  destruct (newp =? NULL); [discriminate|]. cbv zeta. intros [= <- <-].
  apply mm_malloc_fields in Hm as [F1 F2].
  match goal with
  | |- context [mm_free p ?s] => destruct (mm_free_fields p s) as (-> & -> & _)
  end.
  st_unfold. auto.
Qed.

End Fields.

Lemma after_init_fields cap :
  exact_fit <= cap ->
  segListHead (after_init cap) = 4096 /\ prologue (after_init cap) = 4184.
Proof.
  intros Hcap. unfold exact_fit in Hcap.
  rewrite sizeof_pointer_eq, TOTALNUMLIST_eq, CHUNKSIZE_eq in Hcap.
  assert (H1 : memlib_sbrk (sizeof_pointer * TOTALNUMLIST) (extender (fresh cap))
               = (4096, mkMemlib 4184 (4096 + cap))).
  { unfold memlib_sbrk, fresh. cbn [extender mem_brk mem_max_addr].
    rewrite sizeof_pointer_eq, TOTALNUMLIST_eq.
    destruct (Z.ltb_spec (4096 + cap) (4096 + 8 * 11)); [lia|]. reflexivity. }
  assert (H4 : memlib_sbrk CHUNKSIZE (mkMemlib 4184 (4096 + cap))
               = (4096 + sizeof_pointer * TOTALNUMLIST, mkMemlib 69720 (4096 + cap))).
  { unfold memlib_sbrk. cbn [mem_brk mem_max_addr].
    rewrite CHUNKSIZE_eq.
    destruct (Z.ltb_spec (4096 + cap) (4184 + 65536)); [lia|]. reflexivity. }
  assert (H3 : 4096 + sizeof_pointer * TOTALNUMLIST + CHUNKSIZE <= 2 ^ 64)
    by (vm_compute; discriminate).
  destruct (mm_init_rep memlib_sbrk (fresh cap) 4096 _ _ H1 ltac:(lia) H3 H4)
    as (_ & FS & FP & _).
  cbv zeta in FS, FP. fold (after_init cap) in FS, FP. split; [exact FS|].
  rewrite FP. reflexivity.
Qed.

(** The head array and the prologue are where [mm_init] put them. *)
Lemma reachable_fields st live :
  reachable st live -> segListHead st = 4096 /\ prologue st = 4184.
Proof.
  induction 1 as [cap Hcap|st live fuel u p st' _ [IH1 IH2] Hu Hm
                 |st live p _ [IH1 IH2] Hp|st live fuel p u q st' _ [IH1 IH2] Hp Hu Hr
                 |st live p i v _ [IH1 IH2] Hp Hi].
  - apply after_init_fields, Hcap.
  - apply mm_malloc_fields in Hm as [-> ->]. auto.
  - destruct (mm_free_fields p st) as (-> & -> & _). auto.
  - apply mm_realloc_fields in Hr as [-> ->]. auto.
  - st_unfold. auto.
Qed.

(** * The checker on a row of blocks *)

Section CheckRow.

Context {E : Type}.
Implicit Types (st : state E).

Lemma flag_eqb_0 a : (flag a =? 0) = negb a.
Proof. now destruct a. Qed.

Lemma checkblock_ok st b :
  0 <= b -> b + 8 < 2 ^ 64 -> b mod 8 = 0 ->
  block_size st b = block_size st (get_footer st b) ->
  checkblock st b = [].
Proof.
  intros H0 H64 H8 Hsz. unfold checkblock, payload. rewrite sizeof_header_eq.
  rewrite to_size_t_small by lia.
  replace ((b + 8) mod 8) with 0
    by (rewrite <- Z.add_mod_idemp_l, H8 by lia; reflexivity).
  cbv zeta. rewrite <- Hsz, !Z.eqb_refl. reflexivity.
Qed.

Lemma printblock_line st B :
  tagged (heap st) B -> 0 < b_size B -> printblock st (b_addr B) = [block_line B].
Proof.
  intros (T1 & T2 & T3 & T4) Hpos. unfold printblock, block_line. cbv zeta.
  rewrite get_footer_eq, !block_size_eq, !allocated_eq, T1, T2, T3, T4.
  destruct (Z.eqb_spec (b_size B) 0); [lia|reflexivity].
Qed.

Lemma check_blocks_row st verbose : forall bs a fuel,
  contig a bs ->
  (forall B, B ∈ bs -> 8 <= b_size B /\ b_size B mod 8 = 0 /\ tagged (heap st) B) ->
  0 <= a -> a + total_size bs + 8 <= 2 ^ 64 -> a mod 8 = 0 ->
  get_block_size (heap st) (a + total_size bs) = 0 ->
  (length bs < fuel)%nat ->
  check_blocks fuel verbose st a
  = Some (if verbose =? 0 then [] else map block_line bs, a + total_size bs).
Proof.
  induction bs as [|B bs IH]; intros a fuel Hc Hbs H0 H64 H8 He Hf;
    (destruct fuel as [|fuel]; [cbn [length] in Hf; lia|]); cbn [check_blocks].
  - cbn [total_size] in *. rewrite Z.add_0_r in *. rewrite block_size_eq, He.
    cbn [Z.ltb Z.compare map]. destruct (verbose =? 0); reflexivity.
  - destruct Hc as [Ha Hc]. subst a.
    destruct (Hbs B ltac:(left)) as (Hs8 & Hsm & Htag).
    assert (Ht : 0 <= total_size bs).
    { apply total_size_nonneg. intros B' HB'.
      destruct (Hbs B' ltac:(now right)) as (? & _). lia. }
    cbn [total_size] in H64, He.
    pose proof Htag as (T1 & _ & T3 & _).
    rewrite block_size_eq, T1.
    destruct (Z.ltb_spec 0 (b_size B)) as [_|]; [|lia].
    rewrite (IH (b_addr B + b_size B) fuel); try assumption; try lia.
    + rewrite checkblock_ok; try lia.
      * cbn [total_size map]. rewrite Z.add_assoc.
        destruct (verbose =? 0); [reflexivity|].
        rewrite printblock_line by (assumption || lia). reflexivity.
      * rewrite get_footer_eq, !block_size_eq, T1, T3. reflexivity.
    + intros B' HB'. apply Hbs. now right.
    + rewrite <- Z.add_mod_idemp_l, H8 by lia. cbn [Z.add]. exact Hsm.
    + rewrite <- Z.add_assoc. exact He.
    + cbn [length] in Hf. lia.
Qed.

(** [mm_checkheap] on a heap whose tags are those of a row of blocks. *)
Lemma mm_checkheap_row st bs fuel verbose :
  blocks_ok st bs -> prologue st mod 8 = 0 -> (length bs < fuel)%nat ->
  mm_checkheap fuel verbose st
  = Some (if verbose =? 0 then []
          else Printf (String.append "Heap (%p):" newline) [prologue st]
               :: map block_line bs
               ++ [Printf (String.append "%p: EOL" newline)
                     [prologue st + sizeof_header + total_size bs]]).
Proof.
  intros Hb H8 Hf. pose proof Hb as [Hh [Hp1 Hp2] Hc [He1 He2] [Hb31 Hb64] Hs Ht].
  rewrite sizeof_header_eq in *. rewrite sizeof_pointer_eq, TOTALNUMLIST_eq in Hh.
  assert (Ht0 : 0 <= total_size bs) by (apply total_size_nonneg, (blocks_ok_pos _ _ Hb)).
  unfold mm_checkheap. cbv zeta.
  rewrite !block_size_eq, !allocated_eq, Hp1, Hp2, sizeof_header_eq.
  rewrite (check_blocks_row st verbose bs (prologue st + 8) fuel); try assumption;
    try lia.
  - rewrite checkblock_ok; try lia.
    + rewrite block_size_eq, allocated_eq, He1, He2.
      cbn [Z.eqb negb orb ALLOC app].
      destruct (verbose =? 0); [reflexivity|].
      unfold printblock. cbv zeta. rewrite block_size_eq, He1. cbn [Z.eqb app].
      reflexivity.
    + rewrite get_footer_eq, !block_size_eq, Hp1.
      replace (prologue st + 8 - 8) with (prologue st) by lia. now rewrite Hp1.
  - intros B HB. destruct (Hs B HB) as (? & ? & _). auto.
  - rewrite <- Z.add_mod_idemp_l, H8 by lia. reflexivity.
Qed.

End CheckRow.

Section CheckSilent.

Context {E : Type}.
Implicit Types (st : state E).

Lemma checkblock_nil st b :
  checkblock st b = [] ->
  to_size_t (payload b) mod 8 = 0
  /\ block_size st b = block_size st (get_footer st b).
Proof.
  unfold checkblock. cbv zeta.
  destruct (Z.eqb_spec (to_size_t (payload b) mod 8) 0) as [H8|]; [|discriminate].
  destruct (Z.eqb_spec (block_size st b) (block_size st (get_footer st b)));
    [auto|discriminate].
Qed.

Lemma check_blocks_silent st : forall fuel a e,
  check_blocks fuel 0 st a = Some ([], e) ->
  (forall b, b ∈ heap_blocks fuel (heap st) a ->
     to_size_t (payload b) mod 8 = 0
     /\ block_size st b = block_size st (get_footer st b))
  /\ block_size st e = 0.
Proof.
  induction fuel as [|fuel IH]; intros a e Hc; [discriminate|].
  cbn [check_blocks] in Hc. rewrite heap_blocks_eq.
  pose proof (get_block_size_range (heap st) a) as Hr. rewrite <- block_size_eq in Hr.
  destruct (Z.ltb_spec 0 (block_size st a)) as [Hpos|Hz].
  - destruct (check_blocks fuel 0 st (a + block_size st a)) as [[out last]|] eqn:Hrec;
      [|discriminate].
    cbn [Z.eqb app] in Hc. injection Hc as Hout <-.
    apply app_eq_nil in Hout as [Hcb ->].
    destruct (IH _ _ Hrec) as [Hall He]. split; [|exact He].
    rewrite <- block_size_eq.
    destruct (Z.eqb_spec (block_size st a) 0); [lia|].
    intros b Hb. apply elem_of_cons in Hb as [->|Hb]; [now apply checkblock_nil|].
    now apply Hall.
  - injection Hc as <-. rewrite <- block_size_eq.
    destruct (Z.eqb_spec (block_size st a) 0); [|lia].
    split; [intros b Hb; inversion Hb|assumption].
Qed.

End CheckSilent.

(** * Where the blocks are *)

Lemma total_size_mod8 bs :
  (forall B, B ∈ bs -> b_size B mod 8 = 0) -> total_size bs mod 8 = 0.
Proof.
  induction bs as [|B bs IH]; intros H; [reflexivity|]. cbn [total_size].
  rewrite Z.add_mod, (H B), IH by (try lia; try left; intros; apply H; now right).
  reflexivity.
Qed.

Lemma block_aligned {E} (st : state E) bs B :
  blocks_ok st bs -> prologue st mod 8 = 0 -> B ∈ bs -> b_addr B mod 8 = 0.
Proof.
  intros Hb H8 HB. destruct (list_elem_of_split _ _ HB) as (l1 & l2 & ->).
  destruct (blocks_ok_at _ _ _ _ Hb) as (-> & _).
  assert (Ht : total_size l1 mod 8 = 0).
  { apply total_size_mod8. intros B' HB'.
    destruct (bo_sizes _ _ Hb B') as (_ & ? & _); [apply elem_of_app; now left|auto]. }
  rewrite Z.add_mod, (Z.add_mod (prologue st)), H8, Ht by lia. reflexivity.
Qed.

(** * What the operations leave alone *)

Lemma payloads_kept_refl bs m : payloads_kept bs m m.
Proof. intros B i _ _ _. reflexivity. Qed.

Lemma payloads_kept_trans bs bs' m1 m2 m3 :
  payloads_kept bs m1 m2 -> payloads_kept bs' m2 m3 ->
  (forall B, B ∈ bs -> b_alloc B = true -> B ∈ bs') ->
  payloads_kept bs m1 m3.
Proof.
  intros H1 H2 Hsub B i HB Ha Hi.
  rewrite (H2 B i (Hsub B HB Ha) Ha Hi). exact (H1 B i HB Ha Hi).
Qed.

Lemma payloads_kept_sub bs bs' m m' :
  payloads_kept bs' m m' -> (forall B, B ∈ bs -> b_alloc B = true -> B ∈ bs') ->
  payloads_kept bs m m'.
Proof. intros H Hsub B i HB Ha Hi. apply (H B i (Hsub B HB Ha) Ha Hi). Qed.

Section Kept.

Context {E : Type}.
Implicit Types (st : state E).

(** A byte of an allocated payload is above the head array and in no
    other block. *)
Lemma payload_apart st bs B i :
  blocks_ok st bs -> B ∈ bs -> b_alloc B = true ->
  b_addr B + 8 <= i < b_addr B + b_size B - 8 ->
  segListHead st + 88 <= i
  /\ forall X, X ∈ bs -> b_alloc X = false ->
       i < b_addr X \/ b_addr X + b_size X <= i.
Proof.
  intros Hb HB Ha Hi. pose proof (bo_heads _ _ Hb) as Hh.
  rewrite sizeof_pointer_eq, TOTALNUMLIST_eq in Hh.
  pose proof (blocks_ok_range _ _ _ Hb HB) as Hr. split; [lia|].
  intros X HX HXa.
  destruct (contig_disjoint _ _ B X (blocks_ok_pos _ _ Hb) (bo_contig _ _ Hb) HB HX)
    as [->|[Hd|Hd]]; [congruence|lia|lia].
Qed.

(** Writes that stay off the stretch of a free block. *)
Lemma kept_outside st bs m' X :
  blocks_ok st bs -> X ∈ bs -> b_alloc X = false ->
  (forall i, i < b_addr X \/ b_addr X + b_size X <= i -> load8 m' i = load8 (heap st) i) ->
  payloads_kept bs (heap st) m'.
Proof.
  intros Hb HX HXa Hfr B i HB Ha Hi. apply Hfr.
  destruct (payload_apart st bs B i Hb HB Ha Hi) as [_ Hout]. now apply Hout.
Qed.

Lemma pop_kept st bs fl b k :
  Pre (mkHeap bs fl) st -> 0 <= k < TOTALNUMLIST -> b ∈ fl k ->
  payloads_kept bs (heap st) (heap (list_pop b k st)).
Proof.
  intros [Hb Hl Hn] Hk Hin B i HB Ha Hi. cbn [blocks flist] in *.
  pose proof (blocks_node_space _ _ Hb) as HNS.
  pose proof (nodes_free_in _ _ _ Hb Hn) as HN.
  destruct (list_pop_ok st fl _ b k HNS HN Hl Hk Hin) as [_ Hfr].
  destruct (payload_apart st bs B i Hb HB Ha Hi) as [Hhead Hout].
  apply Hfr; [lia|]. intros x Hx _.
  destruct (Hn k x Hk Hx) as (X & HX & <- & HXf & _).
  destruct (bo_sizes _ _ Hb X HX) as (_ & _ & H32). specialize (H32 HXf).
  rewrite MIN_BLOCK_SIZE_eq in H32. destruct (Hout X HX HXf); lia.
Qed.

Lemma push_kept st bs fl x k :
  Pre (mkHeap bs fl) st -> 0 <= k < TOTALNUMLIST ->
  free_of_class bs k x -> (forall j, 0 <= j < TOTALNUMLIST -> x ∉ fl j) ->
  payloads_kept bs (heap st) (heap (list_push x k st)).
Proof.
  intros [Hb Hl Hn] Hk Hx Hfresh B i HB Ha Hi. cbn [blocks flist] in *.
  pose proof (blocks_node_space _ _ Hb) as HNS.
  pose proof (nodes_free_in _ _ _ Hb Hn) as HN.
  assert (HNx : block_node bs x).
  { destruct Hx as (X & HX & Hax & Hf & _). exists X. repeat split; try assumption.
    destruct (bo_sizes _ _ Hb X HX) as (_ & _ & Hfree). auto. }
  destruct (list_push_ok st fl _ x k HNS HN Hl Hk HNx Hfresh) as [_ Hfr].
  destruct (payload_apart st bs B i Hb HB Ha Hi) as [Hhead Hout].
  assert (Hnode : forall y, free_of_class bs k y -> i < y + 8 \/ y + 24 <= i).
  { intros y (Y & HY & <- & HYf & _).
    destruct (bo_sizes _ _ Hb Y HY) as (_ & _ & H32). specialize (H32 HYf).
    rewrite MIN_BLOCK_SIZE_eq in H32. destruct (Hout Y HY HYf); lia. }
  apply Hfr; [lia|now apply Hnode|].
  intros y Hy. apply Hnode, (Hn k y Hk Hy).
Qed.

(** [place] writes into no payload of an allocated block. *)
Lemma place_kept st l1 l2 fl b s asize :
  Rep (mkHeap (l1 ++ mkBlk b s false :: l2) fl) st ->
  0 < asize <= s -> asize mod 8 = 0 ->
  payloads_kept (l1 ++ mkBlk b s false :: l2) (heap st) (heap (place b asize st)).
Proof.
  intros [HPre Hfl] Has Ha8.
  set (r := s - asize). set (st' := place b asize st).
  set (fl1 := fl_remove b (segListIndex s) fl). cbn [blocks flist] in *.
  pose proof (pre_blocks _ _ HPre) as Hb. cbn [blocks] in Hb.
  destruct (blocks_ok_at _ _ _ _ Hb)
    as (Hadr & Ht1 & Ht2 & Hsz & Htag & HS0 & HSP & Hb31 & Hb64).
  cbn [b_addr b_size b_alloc] in *.
  destruct Hsz as (Hs8 & Hsm & Hs32). cbn [b_addr b_size b_alloc] in *.
  specialize (Hs32 eq_refl). rewrite MIN_BLOCK_SIZE_eq in Hs32.
  destruct Htag as (T1 & T2 & T3 & T4). cbn [b_addr b_size b_alloc] in *.
  assert (Hk : 0 <= segListIndex s < TOTALNUMLIST).
  { apply segListIndex_class. lia. }
  assert (Hin : b ∈ fl (segListIndex s)).
  { apply (Hfl (mkBlk b s false)); [apply elem_of_app; right; left|reflexivity]. }
  pose proof (pop_pre _ _ _ _ _ HPre Hk Hin) as HPre1. fold fl1 in HPre1.
  pose proof (pop_kept _ _ _ _ _ HPre Hk Hin) as Hk1.
  destruct (list_pop_fields b (segListIndex s) st) as (HS1 & HP1 & HE1).
  assert (Hplace : place b asize st = st') by reflexivity. clearbody st'.
  cbv beta delta [place] in Hplace.
  assert (Hbs : block_size st b = s) by (rewrite block_size_eq; exact T1).
  rewrite Hbs in Hplace.
  replace (to_size_t (s - asize)) with r in Hplace by (unfold r; now uint_simpl).
  cbv zeta in Hplace.
  set (st1 := list_pop b (segListIndex s) st) in *.
  assert (Hout : forall B, B ∈ l1 ++ [mkBlk b s false] ++ l2 -> B <> mkBlk b s false ->
                   0 < b_size B /\ (b_addr B + b_size B <= b \/ b + s <= b_addr B)).
  { intros B HB Hne. split; [apply (blocks_ok_pos _ _ Hb), HB|].
    assert (HB' : B ∈ l1 ++ l2).
    { apply in_around_inv in HB as [HB|HB]; [exact HB|].
      apply list_elem_of_singleton in HB. contradiction. }
    pose proof (around_outside st l1 [mkBlk b s false] l2 B Hb HB') as H.
    cbn [total_size b_size] in H. lia. }
  assert (Hout' : forall B, B ∈ l1 ++ l2 ->
                   0 < b_size B /\ (b_addr B + b_size B <= b \/ b + s <= b_addr B)).
  { intros B HB. split; [apply (blocks_ok_pos _ _ Hb), (in_around _ [mkBlk b s false]), HB|].
    pose proof (around_outside st l1 [mkBlk b s false] l2 B Hb HB) as H.
    cbn [total_size b_size] in H. lia. }
  clear Hout. rename Hout' into Hout.
  assert (Hkeep : forall B, B ∈ l1 ++ l2 -> b_alloc B = false ->
                    b_addr B ∈ fl1 (segListIndex (b_size B))).
  { intros B HB Hf. apply elem_of_fl_remove. split.
    - apply Hfl; [|exact Hf]. apply (in_around _ [mkBlk b s false]), HB.
    - intros _ Heq. destruct (Hout B HB). lia. }
  assert (Hcases : asize = 8 \/ 16 <= asize) by (apply mod8_cases; [lia|assumption]).
  assert (T1' : get_block_size (heap st1) b = s /\ get_block_size (heap st1) (b + s - 8) = s).
  { destruct (bo_tagged _ _ (pre_blocks _ _ HPre1) (mkBlk b s false)) as (? & _ & ? & _);
      [apply elem_of_app; right; left|]. auto. }
  destruct T1' as [T1' T3'].
  assert (Tg1 : tagged (heap st1) (mkBlk b s false)).
  { apply (bo_tagged _ _ (pre_blocks _ _ HPre1)). apply elem_of_app; right; left. }
  clearbody st1.
  destruct (Z.leb_spec MIN_BLOCK_SIZE r) as [Hr|Hr]; rewrite MIN_BLOCK_SIZE_eq in Hr.
  - (* split *)
    set (st3 := set_allocated b ALLOC (set_block_size b asize st1)) in *.
    assert (R1 : get_footer st3 b = b + asize - 8).
    { clear Hplace. rewrite get_footer_eq. cut (get_block_size (heap st3) b = asize); [lia|].
      unfold st3. st_unfold. mem_simpl. now uint_simpl. }
    rewrite R1 in Hplace.
    set (st5 := set_allocated (b + asize - 8) ALLOC
                  (set_block_size (b + asize - 8) asize st3)) in *.
    assert (H5 : heap st5
                 = put_allocated (b + asize - 8) (flag true)
                     (put_block_size (b + asize - 8) asize
                        (put_allocated b (flag true) (put_block_size b asize (heap st1))))).
    { unfold st5, st3. st_unfold. reflexivity. }
    destruct (write_tags (heap st1) b asize true Hcases ltac:(lia)) as [Tg5 Fr5].
    cbv zeta in Tg5, Fr5. rewrite <- H5 in Tg5, Fr5.
    assert (F5 : segListHead st5 = segListHead st1 /\ prologue st5 = prologue st1
                 /\ extender st5 = extender st1).
    { unfold st5, st3. st_unfold. auto. }
    clearbody st5. clear st3 R1 H5.
    assert (R2 : block_size st5 b = asize).
    { rewrite block_size_eq. apply Tg5. }
    rewrite R2 in Hplace.
    set (st7 := set_allocated (b + asize) FREE (set_block_size (b + asize) r st5)) in *.
    assert (R3 : get_footer st7 (b + asize) = b + asize + r - 8).
    { clear Hplace. rewrite get_footer_eq.
      cut (get_block_size (heap st7) (b + asize) = r); [lia|].
      unfold st7. st_unfold. mem_simpl. uint_simpl. reflexivity. }
    rewrite R3 in Hplace.
    set (st9 := set_allocated (b + asize + r - 8) FREE
                  (set_block_size (b + asize + r - 8) r st7)) in *.
    assert (H9 : heap st9
                 = put_allocated (b + asize + r - 8) (flag false)
                     (put_block_size (b + asize + r - 8) r
                        (put_allocated (b + asize) (flag false)
                           (put_block_size (b + asize) r (heap st5))))).
    { unfold st9, st7. st_unfold. reflexivity. }
    destruct (write_tags (heap st5) (b + asize) r false ltac:(lia) ltac:(lia)) as [Tg9 Fr9].
    cbv zeta in Tg9, Fr9. rewrite <- H9 in Tg9, Fr9.
    assert (F9 : segListHead st9 = segListHead st5 /\ prologue st9 = prologue st5
                 /\ extender st9 = extender st5).
    { unfold st9, st7. st_unfold. auto. }
    clearbody st9. clear st7 R3 H9.
    assert (R4 : block_size st9 (b + asize) = r).
    { rewrite block_size_eq. apply Tg9. }
    rewrite R4 in Hplace.
    destruct F5 as (F5a & F5b & F5c), F9 as (F9a & F9b & F9c).
    destruct (list_push_fields (b + asize) (segListIndex r) st9) as (FSa & FSb & FSc).
    rewrite Hplace in FSa, FSb, FSc.
    assert (Hr8 : r mod 8 = 0).
    { unfold r. rewrite Zminus_mod, Hsm, Ha8. reflexivity. }
    assert (Hkr : 0 <= segListIndex r < TOTALNUMLIST) by (apply segListIndex_class; lia).
    pose proof (nodes_free_removed _ _ _ _ (pre_nodes _ _ HPre)) as Hnf.
    cbn [blocks flist b_addr b_size] in Hnf. fold fl1 in Hnf.
    assert (HPre9 : Pre (mkHeap (l1 ++ [mkBlk b asize true; mkBlk (b + asize) r false] ++ l2)
                                fl1) st9).
    { apply (retag_pre st1 st9 l1 [mkBlk b s false]); try assumption; try congruence.
      - cbn [total_size b_size]. unfold r. lia.
      - intros B HB. apply elem_of_cons in HB as [->|HB];
          [|apply list_elem_of_singleton in HB as ->];
          unfold size_ok; cbn [b_size b_alloc]; rewrite ?MIN_BLOCK_SIZE_eq;
          repeat split; try lia; try assumption; try discriminate.
      - cbn [contig b_addr b_size]. rewrite HP1. repeat split; lia.
      - intros B HB. apply elem_of_cons in HB as [->|HB];
          [|apply list_elem_of_singleton in HB as ->]; [|exact Tg9].
        apply (tagged_ext (heap st5)); [cbn [b_size]; lia| |exact Tg5].
        cbn [b_addr b_size]. intros i Hi. apply Fr9. lia.
      - cbn [total_size b_size]. rewrite HP1. intros i Hi.
        rewrite Fr9 by (unfold r; lia). apply Fr5. lia. }
    assert (Hpk : payloads_kept
                    (l1 ++ [mkBlk b asize true; mkBlk (b + asize) r false] ++ l2)
                    (heap st9) (heap st')).
    { rewrite <- Hplace. apply (push_kept st9 _ fl1); try assumption.
      - exists (mkBlk (b + asize) r false). repeat split.
        apply elem_of_app; right; right; left.
      - intros j Hj Hx. destruct (Hnf j _ Hj Hx) as (B & HB & Ha & _).
        destruct (Hout B HB). lia. }
    intros B i HB Ha Hi.
    assert (HB' : B ∈ l1 ++ l2).
    { apply (in_around_inv l1 [_]) in HB as [HB|HB]; [exact HB|].
      apply list_elem_of_singleton in HB as ->. discriminate. }
    destruct (Hout B HB') as [Hpos Hd].
    rewrite (Hpk B i (in_around l1 [_; _] l2 B HB') Ha Hi).
    rewrite Fr9 by (unfold r; lia). rewrite Fr5 by lia. exact (Hk1 B i HB Ha Hi).
  - (* no split *)
    assert (R1 : get_footer (set_allocated b ALLOC st1) b = b + s - 8).
    { clear Hplace. rewrite get_footer_eq.
      cut (get_block_size (heap (set_allocated b ALLOC st1)) b = s); [lia|].
      st_unfold. mem_simpl. exact T1'. }
    rewrite R1 in Hplace.
    assert (H3 : heap st' = put_allocated (b + s - 8) (flag true)
                              (put_allocated b (flag true) (heap st1))).
    { rewrite <- Hplace. st_unfold. reflexivity. }
    destruct (mark_tags (heap st1) b s false true Tg1 ltac:(lia)) as [Tg3 Fr3].
    cbv zeta in Tg3, Fr3. rewrite <- H3 in Tg3, Fr3.
    assert (F3 : segListHead st' = segListHead st1 /\ prologue st' = prologue st1
                 /\ extender st' = extender st1).
    { rewrite <- Hplace. st_unfold. auto. }
    destruct F3 as (F3a & F3b & F3c).
    clear Hplace R1 H3.
    intros B i HB Ha Hi.
    assert (HB' : B ∈ l1 ++ l2).
    { apply (in_around_inv l1 [_]) in HB as [HB|HB]; [exact HB|].
      apply list_elem_of_singleton in HB as ->. discriminate. }
    destruct (Hout B HB') as [Hpos Hd].
    rewrite Fr3 by lia. exact (Hk1 B i HB Ha Hi).
Qed.

End Kept.

(** * What [coalesce] and [mm_free] leave alone *)

Section KeptCoalesce.

Context {E : Type}.
Implicit Types (st : state E).

Lemma pop_block_kept st bs fl B :
  Pre (mkHeap bs fl) st -> B ∈ bs -> b_alloc B = false ->
  b_addr B ∈ fl (segListIndex (b_size B)) ->
  payloads_kept bs (heap st)
    (heap (list_pop (b_addr B) (segListIndex (b_size B)) st)).
Proof.
  intros HPre HB Hf Hin.
  pose proof (pre_blocks _ _ HPre) as Hb. cbn [blocks] in Hb.
  destruct (bo_sizes _ _ Hb B HB) as (_ & _ & H32). specialize (H32 Hf).
  rewrite MIN_BLOCK_SIZE_eq in H32.
  destruct (list_elem_of_split _ _ HB) as (l1 & l2 & ->).
  destruct (blocks_ok_at _ _ _ _ Hb) as (_ & ? & ? & _ & _ & _ & _ & Hb31 & _).
  apply (pop_kept _ _ fl); [exact HPre| |exact Hin]. apply segListIndex_class. lia.
Qed.

(** A stretch of free blocks off their lists is made one free block
    without a write into the payload of a block outside it. *)
Lemma merge_kept st l1 mid l2 fl a S :
  Pre (mkHeap (l1 ++ mid ++ l2) fl) st ->
  nodes_free (l1 ++ l2) fl ->
  (forall B, B ∈ l1 ++ l2 -> b_alloc B = false ->
     b_addr B ∈ fl (segListIndex (b_size B))) ->
  a = prologue st + 8 + total_size l1 -> S = total_size mid ->
  get_allocated (heap st) a = FREE -> get_allocated (heap st) (a + S - 8) = FREE ->
  32 <= S -> S mod 8 = 0 ->
  payloads_kept (l1 ++ l2) (heap st)
    (heap (list_push a (segListIndex S)
             (set_block_size (a + S - 8) S (set_block_size a S st)))).
Proof.
  intros HPre Hnf Hl Ha HS Ta Tf HS32 HS8.
  set (st' := list_push a (segListIndex S)
                (set_block_size (a + S - 8) S (set_block_size a S st))).
  pose proof (pre_blocks _ _ HPre) as Hb. cbn [blocks] in Hb.
  pose proof (blocks_ok_pos _ _ Hb) as Hpos.
  pose proof (bo_bound _ _ Hb) as [Hb31 Hb64]. rewrite !total_size_app in Hb31, Hb64.
  rewrite sizeof_header_eq in *.
  assert (Ht1 : 0 <= total_size l1).
  { apply total_size_nonneg. intros B HB. apply Hpos, elem_of_app. now left. }
  assert (Ht2 : 0 <= total_size l2).
  { apply total_size_nonneg. intros B HB. apply Hpos, elem_of_app. right.
    apply elem_of_app. now right. }
  set (st4 := set_block_size (a + S - 8) S (set_block_size a S st)) in *.
  assert (H4 : heap st4 = put_block_size (a + S - 8) S (put_block_size a S (heap st))).
  { unfold st4. st_unfold. reflexivity. }
  destruct (size_tags (heap st) a S false Ta Tf ltac:(lia) ltac:(lia)) as [Tg4 Fr4].
  cbv zeta in Tg4, Fr4. rewrite <- H4 in Tg4, Fr4.
  assert (F4 : segListHead st4 = segListHead st /\ prologue st4 = prologue st
               /\ extender st4 = extender st).
  { unfold st4. st_unfold. auto. }
  destruct F4 as (F4a & F4b & F4c). clearbody st4. clear H4.
  destruct (list_push_fields a (segListIndex S) st4) as (FSa & FSb & FSc).
  fold st' in FSa, FSb, FSc.
  assert (Hk : 0 <= segListIndex S < TOTALNUMLIST) by (apply segListIndex_class; lia).
  assert (Hout : forall B, B ∈ l1 ++ l2 ->
                   0 < b_size B /\ (b_addr B + b_size B <= a \/ a + S <= b_addr B)).
  { intros B HB. split; [apply Hpos, in_around, HB|].
    pose proof (around_outside st l1 mid l2 B Hb HB) as H. lia. }
  assert (HPre4 : Pre (mkHeap (l1 ++ [mkBlk a S false] ++ l2) fl) st4).
  { apply (retag_pre st st4 l1 mid); try assumption.
    - cbn [total_size b_size]. lia.
    - intros B HB. apply list_elem_of_singleton in HB as ->.
      unfold size_ok; cbn [b_size b_alloc]; rewrite ?MIN_BLOCK_SIZE_eq.
      repeat split; try lia; try assumption.
    - cbn [contig b_addr b_size]. split; [lia|exact I].
    - intros B HB. apply list_elem_of_singleton in HB as ->. exact Tg4.
    - intros i Hi. apply Fr4. lia. }
  assert (Hpk : payloads_kept (l1 ++ [mkBlk a S false] ++ l2) (heap st4) (heap st')).
  { apply (push_kept st4 _ fl); try assumption.
    + exists (mkBlk a S false). repeat split. apply elem_of_app; right; left.
    + intros j Hj Hx. destruct (Hnf j _ Hj Hx) as (B & HB & Hadr & _).
      destruct (Hout B HB). lia. }
  intros B i HB Hal Hi. destruct (Hout B HB) as [Hp Hd].
  rewrite (Hpk B i (in_around l1 [_] l2 B HB) Hal Hi). apply Fr4. lia.
Qed.

Lemma coalesce_case2_kept st l1 b s n sN l2 fl :
  Rep (mkHeap (l1 ++ mkBlk b s false :: mkBlk n sN false :: l2) fl) st ->
  alloc_before l1 ->
  payloads_kept (l1 ++ l2) (heap st) (heap (snd (coalesce b st))).
Proof.
  intros [HPre Hfl] Hbefore. set (S := s + sN). set (st' := snd (coalesce b st)).
  cbn [blocks flist] in *.
  set (B := mkBlk b s false) in *. set (N := mkBlk n sN false) in *.
  pose proof (pre_blocks _ _ HPre) as Hb. cbn [blocks] in Hb.
  assert (HB : B ∈ l1 ++ B :: N :: l2) by (apply elem_of_app; right; left).
  assert (HN : N ∈ l1 ++ B :: N :: l2) by (apply elem_of_app; right; right; left).
  destruct (blocks_ok_at _ _ _ _ Hb)
    as (Hadr & Ht1 & Ht2 & Hsz & Htag & HS0 & HSP & Hb31 & Hb64).
  cbn [total_size b_addr b_size b_alloc B N] in Hadr, Ht2, Hb31, Hb64.
  destruct (bo_sizes _ _ Hb B HB) as (_ & Hs8 & Hs32).
  destruct (bo_sizes _ _ Hb N HN) as (_ & HsN8 & HsN32).
  specialize (Hs32 eq_refl). specialize (HsN32 eq_refl).
  cbn [b_size B N] in Hs8, Hs32, HsN8, HsN32. rewrite MIN_BLOCK_SIZE_eq in Hs32, HsN32.
  assert (Ht2' : 0 <= total_size l2).
  { apply total_size_nonneg. intros B' HB'. apply (blocks_ok_pos _ _ Hb).
    apply elem_of_app. right. right. now right. }
  destruct (after_tags _ _ _ _ Hb) as [_ Hafter].
  destruct (Hafter _ _ eq_refl) as (Hna & Hns & Hnadr).
  cbn [b_addr b_size b_alloc B N] in Hna, Hns, Hnadr.
  pose proof (alloc_before_tag _ _ _ _ Hb Hbefore) as Hpa. cbn [b_addr B] in Hpa.
  pose proof (pre_size _ _ _ _ HPre HB) as Hbs. cbn [b_addr b_size B] in Hbs.
  assert (Hcoal : coalesce b st = (fst (coalesce b st), st')) by (destruct (coalesce b st); reflexivity).
  clearbody st'. revert Hcoal. generalize (fst (coalesce b st)) as res. intros res Hcoal.
  cbv beta delta [coalesce] in Hcoal. cbv zeta in Hcoal.
  rewrite sizeof_header_eq, Hbs, Hpa, Hna in Hcoal.
  change (negb (ALLOC =? 0)) with true in Hcoal.
  change (negb (flag false =? 0)) with false in Hcoal.
  cbn [andb negb] in Hcoal.
  rewrite <- Hnadr in Hcoal.
  (* pop of the block *)
  assert (K1 : payloads_kept (l1 ++ B :: N :: l2) (heap st)
                 (heap (list_pop (b_addr B) (segListIndex (b_size B)) st))).
  { apply (pop_block_kept st _ fl B HPre HB eq_refl). apply Hfl; [exact HB|reflexivity]. }
  cbn [b_addr b_size B] in K1.
  destruct (pop_block st _ fl B HPre HB eq_refl) as (HPre1 & F1a & F1b & F1c).
  { apply Hfl; [exact HB|reflexivity]. }
  cbn [b_addr b_size B] in HPre1, F1a, F1b, F1c.
  set (fl1 := fl_remove b (segListIndex s) fl) in *.
  set (st1 := list_pop b (segListIndex s) st) in *. clearbody st1.
  pose proof (pre_size _ _ _ _ HPre1 HN) as Hns1. cbn [b_addr b_size N] in Hns1.
  rewrite Hns1 in Hcoal.
  (* pop of the block after *)
  assert (Hne : n <> b) by lia.
  assert (K2 : payloads_kept (l1 ++ B :: N :: l2) (heap st1)
                 (heap (list_pop (b_addr N) (segListIndex (b_size N)) st1))).
  { apply (pop_block_kept st1 _ fl1 N HPre1 HN eq_refl). apply elem_of_fl_remove. split; [apply Hfl; [exact HN|reflexivity]|auto]. }
  cbn [b_addr b_size N] in K2.
  destruct (pop_block st1 _ fl1 N HPre1 HN eq_refl) as (HPre2 & F2a & F2b & F2c).
  { apply elem_of_fl_remove. split; [apply Hfl; [exact HN|reflexivity]|auto]. }
  cbn [b_addr b_size N] in HPre2, F2a, F2b, F2c.
  set (fl2 := fl_remove n (segListIndex sN) fl1) in *.
  set (st2 := list_pop n (segListIndex sN) st1) in *. clearbody st2.
  pose proof (pre_size _ _ _ _ HPre2 HB) as Hbs2. cbn [b_addr b_size B] in Hbs2.
  pose proof (pre_size _ _ _ _ HPre2 HN) as Hns2. cbn [b_addr b_size N] in Hns2.
  rewrite Hbs2, Hns2 in Hcoal. fold S in Hcoal.
  pose proof (merge_tail st2 b S ltac:(unfold S; lia)) as Htail. cbv zeta in Htail.
  rewrite Htail in Hcoal. injection Hcoal as <- <-.
  clear Htail.
  assert (Hout : forall B', B' ∈ l1 ++ l2 -> b_addr B' <> b /\ b_addr B' <> n).
  { intros B' HB'. pose proof (around_outside st l1 [B; N] l2 B' Hb HB') as Ho.
    pose proof (blocks_ok_pos _ _ Hb B' (in_around l1 [B; N] l2 B' HB')).
    cbn [total_size b_size B N] in Ho. lia. }
  destruct (bo_tagged _ _ (pre_blocks _ _ HPre2) B HB) as (_ & TB & _).
  destruct (bo_tagged _ _ (pre_blocks _ _ HPre2) N HN) as (_ & _ & _ & TN).
  cbn [b_addr b_size b_alloc B N] in TB, TN.
  assert (K9 : payloads_kept (l1 ++ l2) (heap st2)
                 (heap (list_push b (segListIndex S)
                          (set_block_size (b + S - 8) S (set_block_size b S st2))))).
  { apply (merge_kept st2 l1 [B; N] l2 fl2 b S); try assumption.
  - apply (nodes_free_drop (l1 ++ N :: l2) _ N).
    + apply (nodes_free_drop (l1 ++ B :: N :: l2) _ B); [apply (pre_nodes _ _ HPre)|].
      intros B'. rewrite !elem_of_app, !elem_of_cons. tauto.
    + intros B'. rewrite !elem_of_app, !elem_of_cons. tauto.
  - apply listed_drop; [apply listed_drop|].
    + intros B' HB' Hf. apply Hfl; [|exact Hf]. apply (in_around l1 [B; N] l2), HB'.
    + intros B' HB'. apply Hout, HB'.
    + intros B' HB'. apply Hout, HB'.
  - lia.
  - cbn [total_size b_size B N]. unfold S. lia.
  - replace (b + S - 8) with (n + sN - 8) by (unfold S; lia). exact TN.
  - unfold S. lia.
  - unfold S. rewrite Z.add_mod, Hs8, HsN8 by lia. reflexivity.
  }
  intros X i HX Ha Hi.
  pose proof (in_around l1 [B; N] l2 X HX) as HX'.
  rewrite (K9 X i HX Ha Hi), (K2 X i HX' Ha Hi). exact (K1 X i HX' Ha Hi).
Qed.

Lemma coalesce_case3_kept st l1 p sP b s l2 fl :
  Rep (mkHeap (l1 ++ mkBlk p sP false :: mkBlk b s false :: l2) fl) st ->
  alloc_after l2 ->
  payloads_kept (l1 ++ l2) (heap st) (heap (snd (coalesce b st))).
Proof.
  intros [HPre Hfl] Hafter. set (S := sP + s). set (st' := snd (coalesce b st)).
  cbn [blocks flist] in *.
  set (B := mkBlk b s false) in *. set (P := mkBlk p sP false) in *.
  pose proof (pre_blocks _ _ HPre) as Hb. cbn [blocks] in Hb.
  assert (HP : P ∈ l1 ++ P :: B :: l2) by (apply elem_of_app; right; left).
  assert (HB : B ∈ l1 ++ P :: B :: l2) by (apply elem_of_app; right; right; left).
  destruct (blocks_ok_at _ _ _ _ Hb)
    as (Hadr & Ht1 & Ht2 & Hsz & Htag & HS0 & HSP & Hb31 & Hb64).
  cbn [total_size b_addr b_size b_alloc B P] in Hadr, Ht2, Hb31, Hb64.
  destruct (bo_sizes _ _ Hb B HB) as (_ & Hs8 & Hs32).
  destruct (bo_sizes _ _ Hb P HP) as (_ & HsP8 & HsP32).
  specialize (Hs32 eq_refl). specialize (HsP32 eq_refl).
  cbn [b_size B P] in Hs8, Hs32, HsP8, HsP32. rewrite MIN_BLOCK_SIZE_eq in Hs32, HsP32.
  assert (Ht2' : 0 <= total_size l2).
  { apply total_size_nonneg. intros B' HB'. apply (blocks_ok_pos _ _ Hb).
    apply elem_of_app. right. right. now right. }
  assert (Hb' : blocks_ok st ((l1 ++ [P]) ++ B :: l2)).
  { rewrite <- app_assoc. exact Hb. }
  destruct (before_tags _ _ _ _ Hb') as [_ Hbefore].
  destruct (Hbefore _ _ eq_refl) as (Hpa & Hps & Hpadr & _).
  cbn [b_addr b_size b_alloc B P] in Hpa, Hps, Hpadr.
  pose proof (alloc_after_tag _ _ _ _ Hb' Hafter) as Hna. cbn [b_addr b_size B] in Hna.
  pose proof (pre_size _ _ _ _ HPre HB) as Hbs. cbn [b_addr b_size B] in Hbs.
  assert (Hcoal : coalesce b st = (fst (coalesce b st), st'))
    by (destruct (coalesce b st); reflexivity).
  clearbody st'. revert Hcoal. generalize (fst (coalesce b st)) as res. intros res Hcoal.
  cbv beta delta [coalesce] in Hcoal. cbv zeta in Hcoal.
  rewrite sizeof_header_eq, Hbs, Hpa, Hna, Hps in Hcoal.
  change (negb (ALLOC =? 0)) with true in Hcoal.
  change (negb (flag false =? 0)) with false in Hcoal.
  cbn [andb negb] in Hcoal.
  replace (b - 8 - sP + 8) with p in Hcoal by lia.
  (* pop of the block *)
  assert (K1 : payloads_kept (l1 ++ P :: B :: l2) (heap st)
                 (heap (list_pop (b_addr B) (segListIndex (b_size B)) st))).
  { apply (pop_block_kept st _ fl B HPre HB eq_refl). apply Hfl; [exact HB|reflexivity]. }
  cbn [b_addr b_size B] in K1.
  destruct (pop_block st _ fl B HPre HB eq_refl) as (HPre1 & F1a & F1b & F1c).
  { apply Hfl; [exact HB|reflexivity]. }
  cbn [b_addr b_size B] in HPre1, F1a, F1b, F1c.
  set (fl1 := fl_remove b (segListIndex s) fl) in *.
  set (st1 := list_pop b (segListIndex s) st) in *. clearbody st1.
  pose proof (pre_size _ _ _ _ HPre1 HP) as Hps1. cbn [b_addr b_size P] in Hps1.
  rewrite Hps1 in Hcoal.
  (* pop of the block before *)
  assert (Hne : p <> b) by lia.
  assert (K2 : payloads_kept (l1 ++ P :: B :: l2) (heap st1)
                 (heap (list_pop (b_addr P) (segListIndex (b_size P)) st1))).
  { apply (pop_block_kept st1 _ fl1 P HPre1 HP eq_refl). apply elem_of_fl_remove. split; [apply Hfl; [exact HP|reflexivity]|auto]. }
  cbn [b_addr b_size P] in K2.
  destruct (pop_block st1 _ fl1 P HPre1 HP eq_refl) as (HPre2 & F2a & F2b & F2c).
  { apply elem_of_fl_remove. split; [apply Hfl; [exact HP|reflexivity]|auto]. }
  cbn [b_addr b_size P] in HPre2, F2a, F2b, F2c.
  set (fl2 := fl_remove p (segListIndex sP) fl1) in *.
  set (st2 := list_pop p (segListIndex sP) st1) in *. clearbody st2.
  pose proof (pre_size _ _ _ _ HPre2 HB) as Hbs2. cbn [b_addr b_size B] in Hbs2.
  pose proof (pre_size _ _ _ _ HPre2 HP) as Hps2. cbn [b_addr b_size P] in Hps2.
  rewrite Hbs2, Hps2 in Hcoal. fold S in Hcoal.
  pose proof (merge_tail st2 p S ltac:(unfold S; lia)) as Htail. cbv zeta in Htail.
  rewrite Htail in Hcoal. injection Hcoal as <- <-.
  clear Htail.
  assert (Hout : forall B', B' ∈ l1 ++ l2 -> b_addr B' <> b /\ b_addr B' <> p).
  { intros B' HB'. pose proof (around_outside st l1 [P; B] l2 B' Hb HB') as Ho.
    pose proof (blocks_ok_pos _ _ Hb B' (in_around l1 [P; B] l2 B' HB')).
    cbn [total_size b_size B P] in Ho. lia. }
  destruct (bo_tagged _ _ (pre_blocks _ _ HPre2) P HP) as (_ & TP & _).
  destruct (bo_tagged _ _ (pre_blocks _ _ HPre2) B HB) as (_ & _ & _ & TB).
  cbn [b_addr b_size b_alloc B P] in TB, TP.
  assert (K9 : payloads_kept (l1 ++ l2) (heap st2)
                 (heap (list_push p (segListIndex S)
                          (set_block_size (p + S - 8) S (set_block_size p S st2))))).
  { apply (merge_kept st2 l1 [P; B] l2 fl2 p S); try assumption.
  - apply (nodes_free_drop (l1 ++ P :: l2) _ P).
    + apply (nodes_free_drop (l1 ++ P :: B :: l2) _ B); [apply (pre_nodes _ _ HPre)|].
      intros B'. rewrite !elem_of_app, !elem_of_cons. tauto.
    + intros B'. rewrite !elem_of_app, !elem_of_cons. tauto.
  - apply listed_drop; [apply listed_drop|].
    + intros B' HB' Hf. apply Hfl; [|exact Hf]. apply (in_around l1 [P; B] l2), HB'.
    + intros B' HB'. apply Hout, HB'.
    + intros B' HB'. apply Hout, HB'.
  - lia.
  - cbn [total_size b_size B P]. unfold S. lia.
  - replace (p + S - 8) with (b + s - 8) by (unfold S; lia). exact TB.
  - unfold S. lia.
  - unfold S. rewrite Z.add_mod, Hs8, HsP8 by lia. reflexivity.
  }
  intros X i HX Ha Hi.
  pose proof (in_around l1 [P; B] l2 X HX) as HX'.
  rewrite (K9 X i HX Ha Hi), (K2 X i HX' Ha Hi). exact (K1 X i HX' Ha Hi).
Qed.

Lemma coalesce_case4_kept st l1 p sP b s n sN l2 fl :
  Rep (mkHeap (l1 ++ mkBlk p sP false :: mkBlk b s false :: mkBlk n sN false :: l2) fl)
      st ->
  payloads_kept (l1 ++ l2) (heap st) (heap (snd (coalesce b st))).
Proof.
  intros [HPre Hfl]. set (S := sP + (s + sN)). set (st' := snd (coalesce b st)).
  cbn [blocks flist] in *.
  set (B := mkBlk b s false) in *. set (P := mkBlk p sP false) in *.
  set (N := mkBlk n sN false) in *.
  pose proof (pre_blocks _ _ HPre) as Hb. cbn [blocks] in Hb.
  assert (HP : P ∈ l1 ++ P :: B :: N :: l2) by (apply elem_of_app; right; left).
  assert (HB : B ∈ l1 ++ P :: B :: N :: l2) by (apply elem_of_app; right; right; left).
  assert (HN : N ∈ l1 ++ P :: B :: N :: l2)
    by (apply elem_of_app; right; right; right; left).
  destruct (blocks_ok_at _ _ _ _ Hb)
    as (Hadr & Ht1 & Ht2 & Hsz & Htag & HS0 & HSP & Hb31 & Hb64).
  cbn [total_size b_addr b_size b_alloc B P N] in Hadr, Ht2, Hb31, Hb64.
  destruct (bo_sizes _ _ Hb B HB) as (_ & Hs8 & Hs32).
  destruct (bo_sizes _ _ Hb P HP) as (_ & HsP8 & HsP32).
  destruct (bo_sizes _ _ Hb N HN) as (_ & HsN8 & HsN32).
  specialize (Hs32 eq_refl). specialize (HsP32 eq_refl). specialize (HsN32 eq_refl).
  cbn [b_size B P N] in Hs8, Hs32, HsP8, HsP32, HsN8, HsN32.
  rewrite MIN_BLOCK_SIZE_eq in Hs32, HsP32, HsN32.
  assert (Ht2' : 0 <= total_size l2).
  { apply total_size_nonneg. intros B' HB'. apply (blocks_ok_pos _ _ Hb).
    apply elem_of_app. right. right. right. now right. }
  assert (Hb' : blocks_ok st ((l1 ++ [P]) ++ B :: N :: l2)).
  { rewrite <- app_assoc. exact Hb. }
  destruct (before_tags _ _ _ _ Hb') as [_ Hbefore].
  destruct (Hbefore _ _ eq_refl) as (Hpa & Hps & Hpadr & _).
  cbn [b_addr b_size b_alloc B P] in Hpa, Hps, Hpadr.
  destruct (after_tags _ _ _ _ Hb') as [_ Hafter].
  destruct (Hafter _ _ eq_refl) as (Hna & Hns & Hnadr).
  cbn [b_addr b_size b_alloc B N] in Hna, Hns, Hnadr.
  pose proof (pre_size _ _ _ _ HPre HB) as Hbs. cbn [b_addr b_size B] in Hbs.
  assert (Hcoal : coalesce b st = (fst (coalesce b st), st'))
    by (destruct (coalesce b st); reflexivity).
  clearbody st'. revert Hcoal. generalize (fst (coalesce b st)) as res. intros res Hcoal.
  cbv beta delta [coalesce] in Hcoal. cbv zeta in Hcoal.
  rewrite sizeof_header_eq, Hbs, Hpa, Hna, Hps in Hcoal.
  change (negb (flag false =? 0)) with false in Hcoal.
  cbn [andb negb] in Hcoal.
  replace (b - 8 - sP + 8) with p in Hcoal by lia.
  rewrite <- Hnadr in Hcoal.
  pose proof (pre_size _ _ _ _ HPre HP) as Hps0. cbn [b_addr b_size P] in Hps0.
  rewrite Hps0 in Hcoal.
  (* pop of the block before *)
  assert (K1 : payloads_kept (l1 ++ P :: B :: N :: l2) (heap st)
                 (heap (list_pop (b_addr P) (segListIndex (b_size P)) st))).
  { apply (pop_block_kept st _ fl P HPre HP eq_refl). apply Hfl; [exact HP|reflexivity]. }
  cbn [b_addr b_size P] in K1.
  destruct (pop_block st _ fl P HPre HP eq_refl) as (HPre1 & F1a & F1b & F1c).
  { apply Hfl; [exact HP|reflexivity]. }
  cbn [b_addr b_size P] in HPre1, F1a, F1b, F1c.
  set (fl1 := fl_remove p (segListIndex sP) fl) in *.
  set (st1 := list_pop p (segListIndex sP) st) in *. clearbody st1.
  pose proof (pre_size _ _ _ _ HPre1 HB) as Hbs1. cbn [b_addr b_size B] in Hbs1.
  rewrite Hbs1 in Hcoal.
  (* pop of the block *)
  assert (K2 : payloads_kept (l1 ++ P :: B :: N :: l2) (heap st1)
                 (heap (list_pop (b_addr B) (segListIndex (b_size B)) st1))).
  { apply (pop_block_kept st1 _ fl1 B HPre1 HB eq_refl). apply elem_of_fl_remove. split; [apply Hfl; [exact HB|reflexivity]|]. cbn. lia. }
  cbn [b_addr b_size B] in K2.
  destruct (pop_block st1 _ fl1 B HPre1 HB eq_refl) as (HPre2 & F2a & F2b & F2c).
  { apply elem_of_fl_remove. split; [apply Hfl; [exact HB|reflexivity]|]. cbn. lia. }
  cbn [b_addr b_size B] in HPre2, F2a, F2b, F2c.
  set (fl2 := fl_remove b (segListIndex s) fl1) in *.
  set (st2 := list_pop b (segListIndex s) st1) in *. clearbody st2.
  pose proof (pre_size _ _ _ _ HPre2 HN) as Hns2. cbn [b_addr b_size N] in Hns2.
  rewrite Hns2 in Hcoal.
  (* pop of the block after *)
  assert (K3 : payloads_kept (l1 ++ P :: B :: N :: l2) (heap st2)
                 (heap (list_pop (b_addr N) (segListIndex (b_size N)) st2))).
  { apply (pop_block_kept st2 _ fl2 N HPre2 HN eq_refl). apply elem_of_fl_remove. split; [|cbn; lia].
    apply elem_of_fl_remove. split; [apply Hfl; [exact HN|reflexivity]|]. cbn. lia. }
  cbn [b_addr b_size N] in K3.
  destruct (pop_block st2 _ fl2 N HPre2 HN eq_refl) as (HPre3 & F3a & F3b & F3c).
  { apply elem_of_fl_remove. split; [|cbn; lia].
    apply elem_of_fl_remove. split; [apply Hfl; [exact HN|reflexivity]|]. cbn. lia. }
  cbn [b_addr b_size N] in HPre3, F3a, F3b, F3c.
  set (fl3 := fl_remove n (segListIndex sN) fl2) in *.
  set (st3 := list_pop n (segListIndex sN) st2) in *. clearbody st3.
  pose proof (pre_size _ _ _ _ HPre3 HB) as Hbs3. cbn [b_addr b_size B] in Hbs3.
  pose proof (pre_size _ _ _ _ HPre3 HP) as Hps3. cbn [b_addr b_size P] in Hps3.
  pose proof (pre_size _ _ _ _ HPre3 HN) as Hns3. cbn [b_addr b_size N] in Hns3.
  assert (Hpf3 : block_size st3 (b - 8) = sP).
  { destruct (bo_tagged _ _ (pre_blocks _ _ HPre3) P HP) as (_ & _ & T & _).
    cbn [b_addr b_size P] in T. rewrite block_size_eq.
    replace (b - 8) with (p + sP - 8) by lia. exact T. }
  rewrite Hpf3 in Hcoal. replace (b - 8 - sP + 8) with p in Hcoal by lia.
  rewrite Hbs3, Hps3, Hns3 in Hcoal. fold S in Hcoal.
  pose proof (merge_tail st3 p S ltac:(unfold S; lia)) as Htail. cbv zeta in Htail.
  rewrite Htail in Hcoal. injection Hcoal as <- <-.
  clear Htail.
  assert (Hout : forall B', B' ∈ l1 ++ l2 ->
                   b_addr B' <> b /\ b_addr B' <> p /\ b_addr B' <> n).
  { intros B' HB'. pose proof (around_outside st l1 [P; B; N] l2 B' Hb HB') as Ho.
    pose proof (blocks_ok_pos _ _ Hb B' (in_around l1 [P; B; N] l2 B' HB')).
    cbn [total_size b_size B P N] in Ho. lia. }
  destruct (bo_tagged _ _ (pre_blocks _ _ HPre3) P HP) as (_ & TP & _).
  destruct (bo_tagged _ _ (pre_blocks _ _ HPre3) N HN) as (_ & _ & _ & TN).
  cbn [b_addr b_size b_alloc N P] in TN, TP.
  assert (K9 : payloads_kept (l1 ++ l2) (heap st3)
                 (heap (list_push p (segListIndex S)
                          (set_block_size (p + S - 8) S (set_block_size p S st3))))).
  { apply (merge_kept st3 l1 [P; B; N] l2 fl3 p S); try assumption.
  - apply (nodes_free_drop (l1 ++ N :: l2) _ N).
    + apply (nodes_free_drop (l1 ++ B :: N :: l2) _ B).
      * apply (nodes_free_drop (l1 ++ P :: B :: N :: l2) _ P);
          [apply (pre_nodes _ _ HPre)|].
        intros B'. rewrite !elem_of_app, !elem_of_cons. tauto.
      * intros B'. rewrite !elem_of_app, !elem_of_cons. tauto.
    + intros B'. rewrite !elem_of_app, !elem_of_cons. tauto.
  - apply listed_drop; [apply listed_drop; [apply listed_drop|]|].
    + intros B' HB' Hf. apply Hfl; [|exact Hf]. apply (in_around l1 [P; B; N] l2), HB'.
    + intros B' HB'. apply Hout, HB'.
    + intros B' HB'. apply Hout, HB'.
    + intros B' HB'. apply Hout, HB'.
  - lia.
  - cbn [total_size b_size B P N]. unfold S. lia.
  - replace (p + S - 8) with (n + sN - 8) by (unfold S; lia). exact TN.
  - unfold S. lia.
  - unfold S. rewrite Z.add_mod, (Z.add_mod s), Hs8, HsP8, HsN8 by lia. reflexivity.
  }
  intros X i HX Ha Hi.
  pose proof (in_around l1 [P; B; N] l2 X HX) as HX'.
  rewrite (K9 X i HX Ha Hi), (K3 X i HX' Ha Hi), (K2 X i HX' Ha Hi). exact (K1 X i HX' Ha Hi).
Qed.

(** [coalesce] on a free block writes into no payload of an allocated
    block. *)
Lemma coalesce_kept st l1 b s l2 fl :
  Rep (mkHeap (l1 ++ mkBlk b s false :: l2) fl) st ->
  payloads_kept (l1 ++ mkBlk b s false :: l2) (heap st) (heap (snd (coalesce b st))).
Proof.
  intros HRep.
  pose proof (pre_blocks _ _ (rep_pre _ _ HRep)) as Hb. cbn [blocks] in Hb.
  destruct (before_cases l1) as [Hbef|(l1r & p & sP & ->)];
    destruct (after_cases l2) as [Haft|(n & sN & l2r & ->)].
  - pose proof (coalesce_case1 st l1 (mkBlk b s false) l2 Hb Hbef Haft) as Hc1.
    cbn [b_addr] in Hc1. rewrite Hc1. apply payloads_kept_refl.
  - apply (payloads_kept_sub _ (l1 ++ l2r)).
    + apply (coalesce_case2_kept st l1 b s n sN l2r fl HRep Hbef).
    + intros X HX HXa. rewrite !elem_of_app, !elem_of_cons in *.
      destruct HX as [HX|[->|[->|HX]]]; [auto|discriminate|discriminate|auto].
  - rewrite <- app_assoc in HRep. cbn [app] in HRep.
    apply (payloads_kept_sub _ (l1r ++ l2)).
    + apply (coalesce_case3_kept st l1r p sP b s l2 fl HRep Haft).
    + intros X HX HXa. rewrite !elem_of_app, !elem_of_cons in *.
      destruct HX as [[HX|[->|HX]]|[->|HX]];
        [auto|discriminate|inversion HX|discriminate|auto].
  - rewrite <- app_assoc in HRep. cbn [app] in HRep.
    apply (payloads_kept_sub _ (l1r ++ l2r)).
    + apply (coalesce_case4_kept st l1r p sP b s n sN l2r fl HRep).
    + intros X HX HXa. rewrite !elem_of_app, !elem_of_cons in *.
      destruct HX as [[HX|[->|HX]]|[->|[->|HX]]];
        [auto|discriminate|inversion HX|discriminate|discriminate|auto].
Qed.

End KeptCoalesce.

Section KeptFree.

Context {E : Type}.
Implicit Types (st : state E).

(** The start of [mm_free] writes into no payload of another block. *)
Lemma free_mark_kept st l1 b s l2 fl :
  Rep (mkHeap (l1 ++ mkBlk b s true :: l2) fl) st -> MIN_BLOCK_SIZE <= s ->
  let st1 := set_allocated b FREE st in
  let st2 := set_allocated (get_footer st1 b) FREE st1 in
  let st3 := list_push b (segListIndex (block_size st2 b)) st2 in
  payloads_kept (l1 ++ l2) (heap st) (heap st3).
Proof.
  intros [HPre Hfl] Hs32 st1 st2 st3. cbn [blocks flist] in *.
  rewrite MIN_BLOCK_SIZE_eq in Hs32.
  set (B := mkBlk b s true) in *.
  pose proof (pre_blocks _ _ HPre) as Hb. cbn [blocks] in Hb.
  assert (HB : B ∈ l1 ++ B :: l2) by (apply elem_of_app; right; left).
  destruct (blocks_ok_at _ _ _ _ Hb)
    as (Hadr & Ht1 & Ht2 & Hsz & Htag & HS0 & HSP & Hb31 & Hb64).
  cbn [b_addr b_size B] in Hadr, Hb31, Hb64.
  destruct Hsz as (_ & Hs8 & _). cbn [b_size B] in Hs8.
  pose proof Htag as (T1 & _). cbn [b_addr b_size B] in T1.
  assert (R1 : get_footer st1 b = b + s - 8).
  { rewrite get_footer_eq. cut (get_block_size (heap st1) b = s); [lia|].
    unfold st1. st_unfold. mem_simpl. exact T1. }
  assert (H2 : heap st2 = put_allocated (b + s - 8) (flag false)
                            (put_allocated b (flag false) (heap st))).
  { unfold st2. rewrite R1. unfold st1. st_unfold. reflexivity. }
  assert (F2 : segListHead st2 = segListHead st /\ prologue st2 = prologue st
               /\ extender st2 = extender st).
  { unfold st2, st1. st_unfold. auto. }
  destruct F2 as (F2a & F2b & F2c).
  destruct (mark_tags (heap st) b s true false Htag ltac:(lia)) as [Tg2 Fr2].
  cbv zeta in Tg2, Fr2. rewrite <- H2 in Tg2, Fr2.
  assert (R2 : block_size st2 b = s) by (rewrite block_size_eq; apply Tg2).
  unfold st3. rewrite R2. clearbody st2. clear st3 H2 R1 R2 st1.
  destruct (list_push_fields b (segListIndex s) st2) as (FSa & FSb & FSc).
  assert (Hk : 0 <= segListIndex s < TOTALNUMLIST) by (apply segListIndex_class; lia).
  pose proof (nodes_free_skip _ _ _ _ (pre_nodes _ _ HPre) eq_refl) as Hnf.
  cbn [blocks flist] in Hnf.
  assert (Hout : forall B', B' ∈ l1 ++ l2 ->
                   0 < b_size B' /\ (b_addr B' + b_size B' <= b \/ b + s <= b_addr B')).
  { intros B' HB'. split; [apply (blocks_ok_pos _ _ Hb), (in_around _ [B]), HB'|].
    pose proof (around_outside st l1 [B] l2 B' Hb HB') as H.
    cbn [total_size b_size B] in H. lia. }
  assert (HPre2 : Pre (mkHeap (l1 ++ [mkBlk b s false] ++ l2) fl) st2).
  { apply (retag_pre st st2 l1 [B]); try assumption; try reflexivity.
    - intros B' HB'. apply list_elem_of_singleton in HB' as ->.
      unfold size_ok; cbn [b_size b_alloc]; rewrite ?MIN_BLOCK_SIZE_eq.
      repeat split; try lia; try assumption.
    - cbn [contig b_addr b_size]. split; [lia|exact I].
    - intros B' HB'. apply list_elem_of_singleton in HB' as ->. exact Tg2.
    - cbn [total_size b_size B]. intros i Hi. apply Fr2. lia. }
  assert (Hpk : payloads_kept (l1 ++ [mkBlk b s false] ++ l2) (heap st2)
                  (heap (list_push b (segListIndex s) st2))).
  { apply (push_kept st2 _ fl); try assumption.
    + exists (mkBlk b s false). repeat split. apply elem_of_app; right; left.
    + intros j Hj Hx. destruct (Hnf j _ Hj Hx) as (B' & HB' & Had & _).
      destruct (Hout B' HB'). lia. }
  intros X i HX Ha Hi. destruct (Hout X HX) as [Hp Hd].
  rewrite (Hpk X i (in_around l1 [_] l2 X HX) Ha Hi). apply Fr2. lia.
Qed.

(** [mm_free] writes into no payload of another allocated block. *)
Lemma mm_free_kept st l1 b s l2 fl :
  Rep (mkHeap (l1 ++ mkBlk b s true :: l2) fl) st -> MIN_BLOCK_SIZE <= s ->
  payloads_kept (l1 ++ l2) (heap st) (heap (mm_free (payload b) st)).
Proof.
  intros HRep Hs.
  destruct (free_mark st l1 b s l2 fl HRep Hs) as (HRep3 & _).
  pose proof (free_mark_kept st l1 b s l2 fl HRep Hs) as K3.
  cbv zeta in HRep3, K3.
  match type of HRep3 with Rep _ ?x => set (st3 := x) in * end.
  assert (Heq : mm_free (payload b) st = snd (coalesce b st3)).
  { unfold mm_free, payload.
    replace (b + sizeof_header - sizeof_header) with b by lia. reflexivity. }
  rewrite Heq. clearbody st3. clear Heq.
  pose proof (coalesce_kept st3 l1 b s l2 _ HRep3) as Kc.
  intros X i HX Ha Hi.
  rewrite (Kc X i (in_around l1 [_] l2 X HX) Ha Hi). exact (K3 X i HX Ha Hi).
Qed.

End KeptFree.

(** * What [mm_malloc] leaves alone *)

(** [extend_heap] writes into no payload of an allocated block. *)
Lemma extend_heap_kept H live (st : state memlib) words wc size :
  heap_ok H live st ->
  to_uint32 (Z.shiftl words 3) = size -> MIN_BLOCK_SIZE <= size -> size mod 8 = 0 ->
  payloads_kept (blocks H) (heap st) (heap (snd (extend_heap memlib_sbrk words wc st))).
Proof.
  intros [HRep Hmin Hbrk Hmax Hlive] Hsize Hs32 Hs8.
  destruct H as [bs fl]. cbn [blocks flist] in *.
  rewrite MIN_BLOCK_SIZE_eq in Hs32.
  pose proof (pre_blocks _ _ (rep_pre _ _ HRep)) as Hb. cbn [blocks] in Hb.
  pose proof Hb as [Hh Hp Hc He [Hb31 Hb64] Hs Ht].
  pose proof (blocks_ok_pos _ _ Hb) as Hpos.
  rewrite sizeof_header_eq in *. rewrite sizeof_pointer_eq, TOTALNUMLIST_eq in Hh.
  assert (Ht0 : 0 <= total_size bs) by (apply total_size_nonneg, Hpos).
  destruct (extend_heap memlib_sbrk words wc st) as [blk st'] eqn:Hext. cbn [fst snd].
  unfold extend_heap in Hext. rewrite Hsize in Hext.
  destruct (Z.eqb_spec size 0) as [Hz|_]; [lia|].
  unfold memlib_sbrk in Hext.
  destruct (Z.ltb_spec size 0) as [Hz|_]; [lia|]. cbn [orb] in Hext.
  destruct (Z.ltb_spec (mem_max_addr (extender st)) (mem_brk (extender st) + size))
    as [Hfull|Hroom].
  - (* no room *)
    change (SBRK_FAILED =? SBRK_FAILED) with true in Hext. cbv iota beta in Hext.
    rewrite st_eta in Hext. injection Hext as <- <-. apply payloads_kept_refl.
  - cbv zeta iota beta in Hext.
    destruct (Z.eqb_spec (mem_brk (extender st)) SBRK_FAILED) as [Hf|_];
      [unfold SBRK_FAILED in Hf; lia|].
    set (epi := prologue st + 8 + total_size bs) in *.
    replace (mem_brk (extender st) - sizeof_header) with epi in Hext
      by (rewrite sizeof_header_eq; lia).
    set (e' := mkMemlib (mem_brk (extender st) + size) (mem_max_addr (extender st))) in *.
    set (st0 := mkState (heap st) (segListHead st) (prologue st) e') in *.
    set (st2 := set_block_size epi size (set_allocated epi FREE st0)) in *.
    assert (R1 : get_footer st2 epi = epi + size - 8).
    { rewrite get_footer_eq. cut (get_block_size (heap st2) epi = size); [lia|].
      unfold st2. st_unfold. mem_simpl. now uint_simpl. }
    rewrite R1 in Hext.
    set (st3 := set_allocated (epi + size - 8) FREE st2) in *.
    assert (R2 : block_size st3 epi = size).
    { unfold st3, st2. st_unfold. mem_simpl. now uint_simpl. }
    rewrite R2 in Hext.
    replace (epi + size - 8 + sizeof_header) with (epi + size) in Hext
      by (rewrite sizeof_header_eq; lia).
    set (st6 := set_block_size (epi + size) 0
                  (set_allocated (epi + size) ALLOC
                     (set_block_size (epi + size - 8) size st3))) in *.
    assert (H6 : heap st6
                 = put_block_size (epi + size) 0
                     (put_allocated (epi + size) ALLOC
                        (put_block_size (epi + size - 8) size
                           (put_allocated (epi + size - 8) FREE
                              (put_block_size epi size
                                 (put_allocated epi FREE (heap st))))))).
    { unfold st6, st3, st2, st0. st_unfold. reflexivity. }
    assert (F6 : segListHead st6 = segListHead st /\ prologue st6 = prologue st
                 /\ extender st6 = e').
    { unfold st6, st3, st2, st0. st_unfold. auto. }
    destruct F6 as (F6a & F6b & F6c).
    destruct (extend_tags (heap st) epi size ltac:(lia)) as (Tg6 & E6a & E6b & Fr6).
    cbv zeta in Tg6, E6a, E6b, Fr6. rewrite <- H6 in Tg6, E6a, E6b, Fr6.
    assert (R3 : block_size st6 epi = size) by (rewrite block_size_eq; apply Tg6).
    rewrite R3 in Hext.
    clearbody st6. clear st3 st2 st0 R1 R2 R3 H6.
    set (N := mkBlk epi size false) in *.
    assert (HPre6 : Pre (mkHeap (bs ++ [N]) fl) st6).
    { apply (grow_pre st st6 bs fl N); try assumption; try reflexivity;
        cbn [b_addr b_size N]; try lia.
      - apply (rep_pre _ _ HRep).
      - unfold size_ok. cbn [b_size b_alloc N]. rewrite MIN_BLOCK_SIZE_eq.
        repeat split; try lia; assumption. }
    assert (Hk : 0 <= segListIndex size < TOTALNUMLIST) by (apply segListIndex_class; lia).
    assert (Hold : forall B, B ∈ bs -> b_addr B + b_size B <= epi).
    { intros B HB. pose proof (blocks_ok_range _ _ _ Hb HB). unfold epi. lia. }
    set (st7 := list_push epi (segListIndex size) st6) in *.
    destruct (list_push_fields epi (segListIndex size) st6) as (F7a & F7b & F7c).
    fold st7 in F7a, F7b, F7c.
    assert (HRep7 : Rep (mkHeap (bs ++ [N]) (fl_push epi (segListIndex size) fl)) st7).
    { split; cbn [blocks flist].
      - apply (push_pre st6); try assumption.
        + exists N. repeat split. apply elem_of_app; right; left.
        + intros j Hj Hx.
          destruct (pre_nodes _ _ (rep_pre _ _ HRep) j _ Hj Hx) as (B & HB & Ha & _).
          pose proof (Hold B HB). pose proof (Hpos B HB). lia.
      - intros B HB Hfr. apply elem_of_fl_push.
        apply elem_of_app in HB as [HB|HB].
        + right. apply (rep_free _ _ HRep); assumption.
        + apply list_elem_of_singleton in HB as ->. left. auto. }
    assert (K7 : payloads_kept (bs ++ [N]) (heap st6) (heap st7)).
    { apply (push_kept st6 _ fl); try assumption.
      + exists N. repeat split. apply elem_of_app; right; left.
      + intros j Hj Hx.
        destruct (pre_nodes _ _ (rep_pre _ _ HRep) j _ Hj Hx) as (B & HB & Ha & _).
        pose proof (Hold B HB). pose proof (Hpos B HB). lia. }
    assert (K : payloads_kept bs (heap st) (heap st7)).
    { intros B i HB Ha Hi.
      rewrite (K7 B i ltac:(apply elem_of_app; now left) Ha Hi). apply Fr6.
      pose proof (Hold B HB). lia. }
    clearbody st7.
    destruct wc.
    + pose proof (coalesce_kept st7 bs epi size [] _ HRep7) as Kc.
      rewrite Hext in Kc. cbn [snd] in Kc.
      intros B i HB Ha Hi.
      rewrite (Kc B i ltac:(apply elem_of_app; now left) Ha Hi). exact (K B i HB Ha Hi).
    + injection Hext as <- <-. exact K.
Qed.

Lemma place_kept_ok H live l1 M l2 fl (st st0 : state memlib) asize :
  heap_ok (mkHeap (l1 ++ M :: l2) fl) live st -> b_alloc M = false ->
  MIN_BLOCK_SIZE <= asize <= b_size M -> asize mod 8 = 0 ->
  payloads_kept (blocks H) (heap st0) (heap st) ->
  (forall B, B ∈ blocks H -> b_alloc B = true -> B ∈ l1 ++ l2) ->
  payloads_kept (blocks H) (heap st0) (heap (place (b_addr M) asize st)).
Proof.
  intros [HRep _ _ _ _] HMf Has Ha8 K0 Hkept.
  destruct M as [b s a]. cbn [b_addr b_size b_alloc blocks flist] in *. subst a.
  rewrite MIN_BLOCK_SIZE_eq in Has.
  apply (payloads_kept_trans _ (l1 ++ mkBlk b s false :: l2) _ (heap st)); [exact K0| |].
  - apply (place_kept st l1 l2 fl b s asize HRep); [lia|exact Ha8].
  - intros B HB Ha. apply (in_around l1 [_]), Hkept; assumption.
Qed.

Lemma search_kept H live (st : state memlib) fuel asize p st' :
  quiescent H live st -> MIN_BLOCK_SIZE <= asize < 2 ^ 32 -> asize mod 8 = 0 ->
  mm_malloc_search memlib_sbrk fuel asize st = Some (p, st') ->
  payloads_kept (blocks H) (heap st) (heap st').
Proof.
  intros HQ Has Ha8 Hm. pose proof HQ as [Hok Hnaf].
  unfold mm_malloc_search in Hm.
  destruct (find_fit fuel asize st) as [b|] eqn:Hfit; [|discriminate].
  destruct (Z.eqb_spec b NULL) as [Hbz|Hbnz]; cbn [negb] in Hm.
  - (* nothing fits *)
    set (es := if CHUNKSIZE <? asize then asize else CHUNKSIZE) in *.
    assert (Hes : MIN_BLOCK_SIZE <= es < 2 ^ 32 /\ es mod 8 = 0 /\ asize <= es).
    { unfold es. rewrite CHUNKSIZE_eq, MIN_BLOCK_SIZE_eq in *.
      destruct (Z.ltb_spec 65536 asize); repeat split; try lia; try assumption;
        try reflexivity. }
    destruct Hes as (Hes1 & Hes8 & Hes2).
    pose proof (extend_heap_kept H live st (Z.shiftr es 3) true es Hok
                  (shift_words es ltac:(rewrite MIN_BLOCK_SIZE_eq in Hes1; lia) Hes8)
                  ltac:(lia) Hes8) as K1.
    destruct (extend_heap_ok H live st (Z.shiftr es 3) true es Hok Hnaf
                (shift_words es ltac:(rewrite MIN_BLOCK_SIZE_eq in Hes1; lia) Hes8)
                ltac:(lia) Hes8)
      as [[Hnull Hsame]|(l1 & M & l2 & fl' & Hres & Hok' & HMf & HMs & Hn1 & Hn2 & Hkept)];
      destruct (extend_heap memlib_sbrk (Z.shiftr es 3) true st) as [blk st1];
      cbn [fst snd] in *.
    + subst blk st1. rewrite Z.eqb_refl in Hm. cbn [negb] in Hm. injection Hm as <- <-.
      apply payloads_kept_refl.
    + subst blk. rewrite (heap_ok_addr _ _ _ M Hok') in Hm
        by (cbn [blocks]; apply elem_of_app; right; left).
      cbn [negb] in Hm. injection Hm as <- <-.
      apply (place_kept_ok H live l1 M l2 fl'); try assumption. lia.
  - (* a block fits *)
    injection Hm as <- <-.
    destruct Hok as [HRep Hmin Hbrk Hmax Hlive]. destruct H as [bs fl].
    cbn [blocks flist] in *.
    destruct (find_fit_found st fl asize fuel b (pre_lists _ _ (rep_pre _ _ HRep))
                Has Hfit Hbnz) as (k & Hk & Hin & Hsz).
    destruct (pre_nodes _ _ (rep_pre _ _ HRep) k b Hk Hin) as (B & HB & Hadr & HBf & _).
    cbn [blocks] in HB.
    rewrite <- Hadr in Hsz.
    rewrite (pre_size _ _ _ _ (rep_pre _ _ HRep) HB) in Hsz.
    destruct (list_elem_of_split _ _ HB) as (l1 & l2 & ->). subst b.
    apply (place_kept_ok (mkHeap (l1 ++ B :: l2) fl) live l1 B l2 fl); try assumption.
    + split; assumption.
    + lia.
    + apply payloads_kept_refl.
    + cbn [blocks]. intros X HX Ha.
      apply (in_around_inv l1 [_]) in HX as [HX|HX]; [exact HX|].
      apply list_elem_of_singleton in HX as ->. congruence.
Qed.

(** [mm_malloc] writes into no payload of a block that is allocated when
    it is called. *)
Lemma mm_malloc_kept H live (st : state memlib) fuel u p st' :
  quiescent H live st ->
  mm_malloc memlib_sbrk fuel u st = Some (p, st') ->
  payloads_kept (blocks H) (heap st) (heap st').
Proof.
  intros HQ Hm. pose proof HQ as [Hok Hnaf]. unfold mm_malloc in Hm.
  destruct (u =? 0).
  { injection Hm as <- <-. apply payloads_kept_refl. }
  cbv zeta in Hm.
  pose proof (adjust_size_range u) as Has. pose proof (adjust_size_mod8 u) as Ha8.
  set (asize := adjust_size u) in *. clearbody asize.
  destruct (asize <=? 96); [|now apply (search_kept H live st fuel asize p)].
  pose proof (extend_heap_kept H live st (Z.shiftr asize 3) false asize Hok
                (shift_words asize ltac:(rewrite MIN_BLOCK_SIZE_eq in Has; lia) Ha8)
                ltac:(lia) Ha8) as K1.
  destruct (extend_heap_ok H live st (Z.shiftr asize 3) false asize Hok Hnaf
              (shift_words asize ltac:(rewrite MIN_BLOCK_SIZE_eq in Has; lia) Ha8)
              ltac:(lia) Ha8)
    as [[Hnull Hsame]|(l1 & M & l2 & fl' & Hres & Hok' & HMf & HMs & Hn1 & Hn2 & Hkept)];
    destruct (extend_heap memlib_sbrk (Z.shiftr asize 3) false st) as [blk st1];
    cbn [fst snd] in *.
  - subst blk st1. rewrite Z.eqb_refl in Hm. cbn [negb] in Hm.
    now apply (search_kept H live st fuel asize p).
  - subst blk. rewrite (heap_ok_addr _ _ _ M Hok') in Hm
      by (cbn [blocks]; apply elem_of_app; right; left).
    cbn [negb] in Hm. injection Hm as <- <-.
    apply (place_kept_ok H live l1 M l2 fl'); try assumption. lia.
Qed.

(** * What the client finds in its payloads *)

(** [memcpy] between regions that do not overlap. *)
Lemma load8_memcpy_bytes_copied n : forall dst src m j,
  src + Z.of_nat n <= dst \/ dst + Z.of_nat n <= src ->
  0 <= j < Z.of_nat n ->
  load8 (memcpy_bytes n dst src m) (dst + j) = load8 m (src + j).
Proof.
  induction n as [|n IH]; intros dst src m j Hd Hj; [lia|].
  cbn [memcpy_bytes]. destruct (Z.eq_dec j 0) as [->|Hj0].
  - rewrite !Z.add_0_r. rewrite load8_memcpy_bytes by lia.
    rewrite load8_store8_eq. unfold load8. apply Z.mod_mod. lia.
  - replace (dst + j) with (dst + 1 + (j - 1)) by lia.
    rewrite IH by lia. rewrite load8_store8_ne by lia. f_equal. lia.
Qed.

Lemma load8_memcpy_copied dst src n m j :
  src + n <= dst \/ dst + n <= src -> 0 <= j < n ->
  load8 (memcpy dst src n m) (dst + j) = load8 m (src + j).
Proof. intros Hd Hj. unfold memcpy. apply load8_memcpy_bytes_copied; lia. Qed.

(** A byte of a payload that the client holds is a byte of the payload of
    an allocated block. *)
Lemma live_payload H live (st : state memlib) q i :
  heap_ok H live st -> q ∈ live ->
  q <= i < q + (block_size st (q - sizeof_header) - OVERHEAD) ->
  exists B, B ∈ blocks H /\ b_alloc B = true /\ payload (b_addr B) = q
            /\ block_size st (q - sizeof_header) = b_size B
            /\ b_addr B + 8 <= i < b_addr B + b_size B - 8.
Proof.
  intros [HRep _ _ _ Hlive] Hq Hi. destruct (Hlive q Hq) as (B & HB & Hpay & Ha).
  exists B. split; [exact HB|]. split; [exact Ha|]. split; [exact Hpay|].
  destruct H as [bs fl]. cbn [blocks] in *.
  unfold payload in Hpay. rewrite sizeof_header_eq in *. rewrite OVERHEAD_eq in Hi.
  replace (q - 8) with (b_addr B) in * by lia.
  rewrite (pre_size _ _ _ _ (rep_pre _ _ HRep) HB) in *. split; [reflexivity|lia].
Qed.

(** [mm_free] at a quiescent point leaves the payloads of the other
    blocks what they are. *)
Lemma mm_free_kept_ok H live (st : state memlib) p :
  heap_ok H live st -> p ∈ live ->
  forall B i, B ∈ blocks H -> b_alloc B = true -> payload (b_addr B) <> p ->
    b_addr B + 8 <= i < b_addr B + b_size B - 8 ->
    load8 (heap (mm_free p st)) i = load8 (heap st) i.
Proof.
  intros [HRep Hmin _ _ Hlive] Hp B i HB Ha Hne Hi.
  destruct (Hlive p Hp) as (Bp & HBp & Hpay & Hal).
  destruct H as [bs fl]. cbn [blocks flist] in *.
  destruct (list_elem_of_split _ _ HBp) as (l1 & l2 & ->).
  destruct Bp as [b s a]. cbn [b_addr b_alloc] in Hpay, Hal. subst a.
  assert (Hs : MIN_BLOCK_SIZE <= s) by (apply (Hmin _ HBp)).
  rewrite <- Hpay.
  apply (mm_free_kept st l1 b s l2 fl HRep Hs B i); try assumption.
  apply (in_around_inv l1 [_]) in HB as [HB|HB]; [exact HB|].
  apply list_elem_of_singleton in HB as ->. cbn [b_addr] in Hne. congruence.
Qed.

(** [mm_realloc] at a quiescent point: the payload it answers holds what
    the old one held, as far as both reach, and the payloads of the other
    blocks are what they were. *)
Lemma mm_realloc_kept H live (st : state memlib) fuel p u q st' :
  quiescent H live st -> p ∈ live -> 0 <= u <= 2 ^ 32 - 24 ->
  mm_realloc memlib_sbrk fuel p u st = Some (Returned q st') ->
  (forall j, 0 <= j < u -> j < block_size st (p - sizeof_header) - OVERHEAD ->
     load8 (heap st') (q + j) = load8 (heap st) (p + j))
  /\ (forall B i, B ∈ blocks H -> b_alloc B = true -> payload (b_addr B) <> p ->
        b_addr B + 8 <= i < b_addr B + b_size B - 8 ->
        load8 (heap st') i = load8 (heap st) i).
Proof.
  intros HQ Hp Hu Hr. unfold mm_realloc in Hr.
  destruct (mm_malloc memlib_sbrk fuel u st) as [[newp st1]|] eqn:Hm; [|discriminate].
  destruct (Z.eqb_spec newp NULL) as [|Hnz]; [discriminate|].
  cbv zeta in Hr. injection Hr as <- <-.
  assert (Hu0 : u <> 0).
  { intros ->. unfold mm_malloc in Hm. rewrite Z.eqb_refl in Hm. congruence. }
  destruct (mm_malloc_post H live st fuel u newp st1 HQ Hm) as (H1 & HQ1 & Hnew & Hkept).
  pose proof (mm_malloc_kept H live st fuel u newp st1 HQ Hm) as K1.
  destruct (Hnew Hnz) as (Bn & HBn & Hpn & Han & Hsn).
  rewrite adjust_size_required in Hsn by lia.
  destruct (required_size_bounds u ltac:(lia)) as (_ & _ & Hreq).
  rewrite OVERHEAD_eq in Hreq.
  apply Z.eqb_neq in Hnz. rewrite Hnz in HQ1.
  pose proof HQ as [[HRep0 _ _ _ Hlive] _].
  destruct (Hlive p Hp) as (Bp & HBp & Hpp & Hap).
  destruct (Hkept Bp HBp Hap) as [HBp1 Hpne].
  pose proof HQ1 as [[HRep1 _ _ _ _] _].
  destruct H as [bs fl]. destruct H1 as [bs1 fl1]. cbn [blocks flist] in *.
  pose proof (pre_blocks _ _ (rep_pre _ _ HRep1)) as Hb1. cbn [blocks] in Hb1.
  assert (Hsp : block_size st1 (p - sizeof_header) = b_size Bp).
  { rewrite <- Hpp. unfold payload.
    replace (b_addr Bp + sizeof_header - sizeof_header) with (b_addr Bp) by lia.
    apply (pre_size _ _ _ _ (rep_pre _ _ HRep1) HBp1). }
  assert (Hsp0 : block_size st (p - sizeof_header) = b_size Bp).
  { rewrite <- Hpp. unfold payload.
    replace (b_addr Bp + sizeof_header - sizeof_header) with (b_addr Bp) by lia.
    apply (pre_size _ _ _ _ (rep_pre _ _ HRep0) HBp). }
  rewrite Hsp. rewrite Hsp0, OVERHEAD_eq.
  set (cs := if u <? b_size Bp then u else b_size Bp).
  assert (Hcs : cs <= u /\ cs <= b_size Bp)
    by (unfold cs; destruct (Z.ltb_spec u (b_size Bp)); lia).
  unfold payload in Hpn, Hpp, Hpne. rewrite sizeof_header_eq in Hpn, Hpp, Hpne.
  pose proof (blocks_ok_pos _ _ Hb1) as Hpos1.
  assert (HQ2 : quiescent (mkHeap bs1 fl1) (newp :: live)
                  (on_heap (memcpy newp p cs) st1)).
  { apply (payload_write (mkHeap bs1 fl1) _ st1 _ Bn HQ1 HBn Han).
    intros i Hi. apply load8_memcpy. lia. }
  destruct HQ2 as [Hok2 _].
  assert (Hp2 : p ∈ newp :: live) by now right.
  pose proof (mm_free_kept_ok (mkHeap bs1 fl1) (newp :: live) _ p Hok2 Hp2) as K3.
  cbn [blocks] in K3. rewrite heap_on_heap in K3.
  split.
  - intros j Hj Hjp.
    rewrite (K3 Bn (newp + j) HBn Han) by (unfold payload; rewrite ?sizeof_header_eq; lia).
    rewrite load8_memcpy_copied.
    + apply (K1 Bp (p + j) HBp Hap). lia.
    + destruct (contig_disjoint _ _ Bp Bn Hpos1 (bo_contig _ _ Hb1) HBp1 HBn)
        as [Heq|[Hd|Hd]]; [subst Bn; lia|lia|lia].
    + unfold cs. destruct (Z.ltb_spec u (b_size Bp)); lia.
  - intros B i HB Ha Hne Hi. destruct (Hkept B HB Ha) as [HB1 Hnn].
    rewrite (K3 B i HB1 Ha Hne Hi).
    rewrite load8_memcpy.
    + apply (K1 B i HB Ha Hi).
    + unfold payload in Hnn. rewrite sizeof_header_eq in Hnn.
      destruct (contig_disjoint _ _ B Bn Hpos1 (bo_contig _ _ Hb1) HB1 HBn)
        as [Heq|[Hd|Hd]]; [subst Bn; lia|lia|lia].
Qed.

(** * When [mm_malloc] grows the heap, and when it gives up *)

(** [extend_heap] over memlib gives up exactly when the arena has no room
    for the bytes; otherwise the break moves up by them, and without
    coalescing the block is the one at the old epilogue. *)
Lemma extend_heap_cases H live (st : state memlib) words wc size :
  heap_ok H live st -> no_adjacent_free (blocks H) ->
  to_uint32 (Z.shiftl words 3) = size -> MIN_BLOCK_SIZE <= size -> size mod 8 = 0 ->
  (mem_max_addr (extender st) < mem_brk (extender st) + size
   /\ fst (extend_heap memlib_sbrk words wc st) = NULL
   /\ snd (extend_heap memlib_sbrk words wc st) = st)
  \/ (mem_brk (extender st) + size <= mem_max_addr (extender st)
      /\ mem_brk (extender (snd (extend_heap memlib_sbrk words wc st)))
         = mem_brk (extender st) + size
      /\ (wc = false ->
            fst (extend_heap memlib_sbrk words wc st)
            = mem_brk (extender st) - sizeof_header
            /\ block_size (snd (extend_heap memlib_sbrk words wc st))
                 (fst (extend_heap memlib_sbrk words wc st)) = size)).
Proof.
  intros [HRep Hmin Hbrk Hmax Hlive] Hnaf Hsize Hs32 Hs8.
  destruct H as [bs fl]. cbn [blocks flist] in *.
  rewrite MIN_BLOCK_SIZE_eq in Hs32.
  pose proof (pre_blocks _ _ (rep_pre _ _ HRep)) as Hb. cbn [blocks] in Hb.
  pose proof Hb as [Hh Hp Hc He [Hb31 Hb64] Hs Ht].
  pose proof (blocks_ok_pos _ _ Hb) as Hpos.
  rewrite sizeof_header_eq in *. rewrite sizeof_pointer_eq, TOTALNUMLIST_eq in Hh.
  assert (Ht0 : 0 <= total_size bs) by (apply total_size_nonneg, Hpos).
  destruct (extend_heap memlib_sbrk words wc st) as [blk st'] eqn:Hext. cbn [fst snd].
  unfold extend_heap in Hext. rewrite Hsize in Hext.
  destruct (Z.eqb_spec size 0) as [Hz|_]; [lia|].
  unfold memlib_sbrk in Hext.
  destruct (Z.ltb_spec size 0) as [Hz|_]; [lia|]. cbn [orb] in Hext.
  destruct (Z.ltb_spec (mem_max_addr (extender st)) (mem_brk (extender st) + size))
    as [Hfull|Hroom].
  - (* no room *)
    left. change (SBRK_FAILED =? SBRK_FAILED) with true in Hext. cbv iota beta in Hext.
    rewrite st_eta in Hext. injection Hext as <- <-. auto.
  - right. cbv zeta iota beta in Hext.
    destruct (Z.eqb_spec (mem_brk (extender st)) SBRK_FAILED) as [Hf|_];
      [unfold SBRK_FAILED in Hf; lia|].
    set (epi := prologue st + 8 + total_size bs) in *.
    replace (mem_brk (extender st) - sizeof_header) with epi in Hext
      by (rewrite sizeof_header_eq; lia).
    set (e' := mkMemlib (mem_brk (extender st) + size) (mem_max_addr (extender st))) in *.
    set (st0 := mkState (heap st) (segListHead st) (prologue st) e') in *.
    set (st2 := set_block_size epi size (set_allocated epi FREE st0)) in *.
    assert (R1 : get_footer st2 epi = epi + size - 8).
    { rewrite get_footer_eq. cut (get_block_size (heap st2) epi = size); [lia|].
      unfold st2. st_unfold. mem_simpl. now uint_simpl. }
    rewrite R1 in Hext.
    set (st3 := set_allocated (epi + size - 8) FREE st2) in *.
    assert (R2 : block_size st3 epi = size).
    { unfold st3, st2. st_unfold. mem_simpl. now uint_simpl. }
    rewrite R2 in Hext.
    replace (epi + size - 8 + sizeof_header) with (epi + size) in Hext
      by (rewrite sizeof_header_eq; lia).
    set (st6 := set_block_size (epi + size) 0
                  (set_allocated (epi + size) ALLOC
                     (set_block_size (epi + size - 8) size st3))) in *.
    assert (H6 : heap st6
                 = put_block_size (epi + size) 0
                     (put_allocated (epi + size) ALLOC
                        (put_block_size (epi + size - 8) size
                           (put_allocated (epi + size - 8) FREE
                              (put_block_size epi size
                                 (put_allocated epi FREE (heap st))))))).
    { unfold st6, st3, st2, st0. st_unfold. reflexivity. }
    assert (F6 : segListHead st6 = segListHead st /\ prologue st6 = prologue st
                 /\ extender st6 = e').
    { unfold st6, st3, st2, st0. st_unfold. auto. }
    destruct F6 as (F6a & F6b & F6c).
    destruct (extend_tags (heap st) epi size ltac:(lia)) as (Tg6 & E6a & E6b & Fr6).
    cbv zeta in Tg6, E6a, E6b, Fr6. rewrite <- H6 in Tg6, E6a, E6b, Fr6.
    assert (R3 : block_size st6 epi = size) by (rewrite block_size_eq; apply Tg6).
    rewrite R3 in Hext.
    clearbody st6. clear st3 st2 st0 R1 R2 R3 H6.
    set (N := mkBlk epi size false) in *.
    assert (HPre6 : Pre (mkHeap (bs ++ [N]) fl) st6).
    { apply (grow_pre st st6 bs fl N); try assumption; try reflexivity;
        cbn [b_addr b_size N]; try lia.
      - apply (rep_pre _ _ HRep).
      - unfold size_ok. cbn [b_size b_alloc N]. rewrite MIN_BLOCK_SIZE_eq.
        repeat split; try lia; assumption. }
    assert (Hk : 0 <= segListIndex size < TOTALNUMLIST) by (apply segListIndex_class; lia).
    assert (Hold : forall B, B ∈ bs -> b_addr B + b_size B <= epi).
    { intros B HB. pose proof (blocks_ok_range _ _ _ Hb HB). unfold epi. lia. }
    set (st7 := list_push epi (segListIndex size) st6) in *.
    destruct (list_push_fields epi (segListIndex size) st6) as (F7a & F7b & F7c).
    fold st7 in F7a, F7b, F7c.
    assert (HRep7 : Rep (mkHeap (bs ++ [N]) (fl_push epi (segListIndex size) fl)) st7).
    { split; cbn [blocks flist].
      - apply (push_pre st6); try assumption.
        + exists N. repeat split. apply elem_of_app; right; left.
        + intros j Hj Hx.
          destruct (pre_nodes _ _ (rep_pre _ _ HRep) j _ Hj Hx) as (B & HB & Ha & _).
          pose proof (Hold B HB). pose proof (Hpos B HB). lia.
      - intros B HB Hfr. apply elem_of_fl_push.
        apply elem_of_app in HB as [HB|HB].
        + right. apply (rep_free _ _ HRep); assumption.
        + apply list_elem_of_singleton in HB as ->. left. auto. }
    clearbody st7.
    assert (Hok7 : heap_ok (mkHeap (bs ++ [N]) (fl_push epi (segListIndex size) fl))
                     live st7).
    { split; cbn [blocks flist].
      - exact HRep7.
      - intros B HB. apply elem_of_app in HB as [HB|HB]; [now apply Hmin|].
        apply list_elem_of_singleton in HB as ->. rewrite MIN_BLOCK_SIZE_eq. cbn. lia.
      - rewrite F7c, F7b, F6c, F6b, total_size_app. cbn [mem_brk e' total_size b_size N].
        rewrite Hbrk. lia.
      - rewrite F7c, F7b, F6c, F6b. cbn [mem_max_addr e']. exact Hmax.
      - intros q Hq. destruct (Hlive q Hq) as (B & HB & Hr). exists B.
        split; [apply elem_of_app; now left|exact Hr]. }
    split; [exact Hroom|].
    destruct wc.
    + destruct (coalesce_quiet st7 bs epi size [] _ HRep7)
        as (l1' & M & l2' & fl' & HR & Hres & HMf & HMs & Hnaf' & Htot & Hkept & Hsub
            & Fa & Fb & Fc).
      { apply naf_snoc_alloc; [exact Hnaf|reflexivity]. }
      rewrite Hext in Fc. cbn [snd] in Fc.
      split; [rewrite Fc, F7c, F6c; reflexivity|discriminate].
    + injection Hext as <- <-.
      split; [rewrite F7c, F6c; reflexivity|]. intros _.
      split; [unfold epi; lia|].
      apply (pre_size _ _ _ N (rep_pre _ _ HRep7)). apply elem_of_app; right; left.
Qed.

(** The break of a heap is above address 8. *)
Lemma heap_ok_brk H live (st : state memlib) :
  heap_ok H live st -> 8 < mem_brk (extender st).
Proof.
  intros [HRep _ Hbrk _ _].
  pose proof (pre_blocks _ _ (rep_pre _ _ HRep)) as Hb.
  pose proof (bo_heads _ _ Hb) as Hh. rewrite sizeof_pointer_eq, TOTALNUMLIST_eq in Hh.
  pose proof (total_size_nonneg _ (blocks_ok_pos _ _ Hb)). lia.
Qed.

(** The payload of a block of the heap is not null. *)
Lemma heap_ok_payload H live (st : state memlib) B :
  heap_ok H live st -> B ∈ blocks H -> (payload (b_addr B) =? NULL) = false.
Proof.
  intros [HRep _ _ _ _] HB.
  pose proof (pre_blocks _ _ (rep_pre _ _ HRep)) as Hb.
  pose proof (blocks_ok_range _ _ _ Hb HB) as Hr.
  pose proof (bo_heads _ _ Hb) as Hh.
  rewrite sizeof_pointer_eq, TOTALNUMLIST_eq in Hh.
  apply Z.eqb_neq. unfold payload. rewrite NULL_eq, sizeof_header_eq. lia.
Qed.

(** A small request is served at the break when the arena has room. *)
Lemma mm_malloc_small_ok H live (st : state memlib) fuel u :
  quiescent H live st -> u <> 0 -> adjust_size u <= 96 ->
  mem_brk (extender st) + adjust_size u <= mem_max_addr (extender st) ->
  exists st', mm_malloc memlib_sbrk fuel u st = Some (mem_brk (extender st), st')
    /\ mem_brk (extender st') = mem_brk (extender st) + adjust_size u.
Proof.
  intros [Hok Hnaf] Hu0 Hsmall Hroom. unfold mm_malloc.
  rewrite (proj2 (Z.eqb_neq u 0) Hu0). cbv zeta.
  pose proof (adjust_size_range u) as Has. pose proof (adjust_size_mod8 u) as Ha8.
  set (asize := adjust_size u) in *. clearbody asize.
  rewrite (proj2 (Z.leb_le asize 96) Hsmall).
  pose proof (heap_ok_brk H live st Hok) as Hbrk.
  destruct (extend_heap_cases H live st (Z.shiftr asize 3) false asize Hok Hnaf
              (shift_words asize ltac:(rewrite MIN_BLOCK_SIZE_eq in Has; lia) Ha8)
              ltac:(lia) Ha8)
    as [(Hfull & _)|(_ & Hbrk' & Hnc)]; [lia|].
  destruct (Hnc eq_refl) as [Hblk _].
  destruct (extend_heap memlib_sbrk (Z.shiftr asize 3) false st) as [blk st1].
  cbn [fst snd] in *. subst blk. rewrite sizeof_header_eq.
  destruct (Z.eqb_spec (mem_brk (extender st) - 8) NULL) as [Hz|_];
    [rewrite NULL_eq in Hz; lia|].
  cbn [negb]. eexists. split.
  - unfold payload. rewrite sizeof_header_eq.
    replace (mem_brk (extender st) - 8 + 8) with (mem_brk (extender st)) by lia.
    reflexivity.
  - destruct (place_fields (mem_brk (extender st) - 8) asize st1) as (_ & _ & ->).
    exact Hbrk'.
Qed.

(** The search gives up only when no block of the lists fits and the arena
    has no room, and then it leaves the heap as it is. *)
Lemma search_null H live (st : state memlib) fuel asize st' :
  quiescent H live st -> MIN_BLOCK_SIZE <= asize < 2 ^ 32 -> asize mod 8 = 0 ->
  mm_malloc_search memlib_sbrk fuel asize st = Some (NULL, st') ->
  st' = st /\ find_fit fuel asize st = Some NULL
  /\ mem_max_addr (extender st)
     < mem_brk (extender st) + (if CHUNKSIZE <? asize then asize else CHUNKSIZE).
Proof.
  intros HQ Has Ha8 Hm. pose proof HQ as [Hok Hnaf].
  unfold mm_malloc_search in Hm.
  destruct (find_fit fuel asize st) as [b|] eqn:Hfit; [|discriminate].
  destruct (Z.eqb_spec b NULL) as [Hbz|Hbnz]; cbn [negb] in Hm.
  - subst b.
    set (es := if CHUNKSIZE <? asize then asize else CHUNKSIZE) in *.
    assert (Hes : MIN_BLOCK_SIZE <= es < 2 ^ 32 /\ es mod 8 = 0 /\ asize <= es).
    { unfold es. rewrite CHUNKSIZE_eq, MIN_BLOCK_SIZE_eq in *.
      destruct (Z.ltb_spec 65536 asize); repeat split; try lia; try assumption;
        try reflexivity. }
    destruct Hes as (Hes1 & Hes8 & Hes2).
    pose proof (extend_heap_cases H live st (Z.shiftr es 3) true es Hok Hnaf
                  (shift_words es ltac:(rewrite MIN_BLOCK_SIZE_eq in Hes1; lia) Hes8)
                  ltac:(lia) Hes8) as Hcases.
    destruct (extend_heap_ok H live st (Z.shiftr es 3) true es Hok Hnaf
                (shift_words es ltac:(rewrite MIN_BLOCK_SIZE_eq in Hes1; lia) Hes8)
                ltac:(lia) Hes8)
      as [[Hnull Hsame]|(l1 & M & l2 & fl' & Hres & Hok' & HMf & HMs & Hn1 & Hn2 & Hkept)];
      destruct (extend_heap memlib_sbrk (Z.shiftr es 3) true st) as [blk st1];
      cbn [fst snd] in *.
    + subst blk st1. rewrite Z.eqb_refl in Hm. cbn [negb] in Hm. injection Hm as <-.
      split; [reflexivity|]. split; [reflexivity|].
      destruct Hcases as [(Hfull & _)|(_ & Hbrk' & _)]; [exact Hfull|].
      rewrite MIN_BLOCK_SIZE_eq in Hes1. lia.
    + exfalso. subst blk. rewrite (heap_ok_addr _ _ _ M Hok') in Hm
        by (cbn [blocks]; apply elem_of_app; right; left).
      cbn [negb] in Hm. injection Hm as Hp _.
      pose proof (heap_ok_payload _ _ _ M Hok'
                    ltac:(cbn [blocks]; apply elem_of_app; right; left)) as Hpn.
      rewrite Hp, Z.eqb_refl in Hpn. discriminate.
  - exfalso. injection Hm as Hp _.
    destruct Hok as [HRep Hmin Hbrk Hmax Hlive]. destruct H as [bs fl].
    cbn [blocks flist] in *.
    destruct (find_fit_found st fl asize fuel b (pre_lists _ _ (rep_pre _ _ HRep))
                Has Hfit Hbnz) as (k & Hk & Hin & Hsz).
    destruct (pre_nodes _ _ (rep_pre _ _ HRep) k b Hk Hin) as (B & HB & Hadr & HBf & _).
    cbn [blocks] in HB. subst b.
    pose proof (heap_ok_payload (mkHeap bs fl) live st B
                  ltac:(split; assumption) HB) as Hpn.
    rewrite Hp, Z.eqb_refl in Hpn. discriminate.
Qed.

(** [mm_malloc] answers null only to a request of no bytes, or when no
    block of the lists fits and the arena has no room; the heap is then
    as it was. *)
Lemma mm_malloc_null_ok H live (st : state memlib) fuel u st' :
  quiescent H live st -> mm_malloc memlib_sbrk fuel u st = Some (NULL, st') ->
  st' = st
  /\ (u = 0
      \/ (find_fit fuel (adjust_size u) st = Some NULL
          /\ mem_max_addr (extender st)
             < mem_brk (extender st)
               + (if CHUNKSIZE <? adjust_size u then adjust_size u else CHUNKSIZE))).
Proof.
  intros HQ Hm. pose proof HQ as [Hok Hnaf]. unfold mm_malloc in Hm.
  destruct (Z.eqb_spec u 0) as [Hu|Hu].
  { injection Hm as <-. auto. }
  cbv zeta in Hm.
  pose proof (adjust_size_range u) as Has. pose proof (adjust_size_mod8 u) as Ha8.
  set (asize := adjust_size u) in *. clearbody asize.
  assert (Hs : mm_malloc_search memlib_sbrk fuel asize st = Some (NULL, st') ->
               st' = st /\ (u = 0 \/ (find_fit fuel asize st = Some NULL
                 /\ mem_max_addr (extender st)
                    < mem_brk (extender st)
                      + (if CHUNKSIZE <? asize then asize else CHUNKSIZE)))).
  { intros Hs. destruct (search_null H live st fuel asize st' HQ Has Ha8 Hs)
      as (-> & Hf & Hfull). auto. }
  destruct (asize <=? 96); [|exact (Hs Hm)].
  pose proof (heap_ok_brk H live st Hok) as Hbrk.
  destruct (extend_heap_cases H live st (Z.shiftr asize 3) false asize Hok Hnaf
              (shift_words asize ltac:(rewrite MIN_BLOCK_SIZE_eq in Has; lia) Ha8)
              ltac:(lia) Ha8)
    as [(Hfull & Hnull & Hsame)|(_ & Hbrk' & Hnc)];
    [|destruct (Hnc eq_refl) as [Hblk _]; clear Hnc];
    destruct (extend_heap memlib_sbrk (Z.shiftr asize 3) false st) as [blk st1];
    cbn [fst snd] in *.
  - subst blk st1. rewrite Z.eqb_refl in Hm. cbn [negb] in Hm. exact (Hs Hm).
  - exfalso. subst blk. rewrite sizeof_header_eq in Hm.
    destruct (Z.eqb_spec (mem_brk (extender st) - 8) NULL) as [Hz|_];
      [rewrite NULL_eq in Hz; lia|].
    cbn [negb] in Hm. injection Hm as Hp _. unfold payload in Hp.
    rewrite sizeof_header_eq, NULL_eq in Hp. lia.
Qed.

Lemma le_foldr_max (l : list nat) x : x ∈ l -> (x <= foldr Nat.max 0%nat l)%nat.
Proof.
  induction l as [|y l IH]; intros Hx; [inversion Hx|].
  cbn [foldr]. apply elem_of_cons in Hx as [->|Hx]; [lia|]. specialize (IH Hx). lia.
Qed.

(** A bound on the length of every list. *)
Lemma lists_bound (fl : Z -> list Z) :
  exists n, forall k, 0 <= k < TOTALNUMLIST -> (length (fl k) <= n)%nat.
Proof.
  exists (foldr Nat.max 0%nat (map (fun k => length (fl (Z.of_nat k))) (seq 0 11))).
  intros k Hk. rewrite TOTALNUMLIST_eq in Hk. apply le_foldr_max.
  apply list_elem_of_fmap. exists (Z.to_nat k). split; [now rewrite Z2Nat.id by lia|].
  apply elem_of_seq. lia.
Qed.

(** With fuel for the longest list and room in the arena, [mm_malloc]
    serves every request of at least one byte. *)
Lemma mm_malloc_serves_ok H live (st : state memlib) u :
  quiescent H live st -> u <> 0 ->
  mem_brk (extender st) + (if CHUNKSIZE <? adjust_size u then adjust_size u else CHUNKSIZE)
    <= mem_max_addr (extender st) ->
  exists n, forall fuel, (n < fuel)%nat ->
    exists p st', mm_malloc memlib_sbrk fuel u st = Some (p, st') /\ p <> NULL.
Proof.
  intros HQ Hu0 Hroom. pose proof HQ as [Hok Hnaf].
  destruct (lists_bound (flist H)) as (n & Hn). exists n. intros fuel Hfuel.
  pose proof (adjust_size_range u) as Has. pose proof (adjust_size_mod8 u) as Ha8.
  assert (Hend : lists_end fuel st).
  { destruct H as [bs fl]. apply (pre_lists_end st bs fl).
    - apply (rep_pre _ _ (ok_rep _ _ _ Hok)).
    - intros k Hk. specialize (Hn k Hk). cbn [flist] in Hn. lia. }
  destruct (find_fit_total fuel (adjust_size u) st Hend Has) as (b & Hfit).
  destruct (Z.leb_spec (adjust_size u) 96) as [Hsmall|Hbig].
  { destruct (mm_malloc_small_ok H live st fuel u HQ Hu0 Hsmall) as (st' & Hm & _).
    - destruct (CHUNKSIZE <? adjust_size u); [exact Hroom|].
      rewrite CHUNKSIZE_eq in Hroom. lia.
    - exists (mem_brk (extender st)), st'. split; [exact Hm|].
      pose proof (heap_ok_brk H live st Hok). rewrite NULL_eq. lia. }
  destruct (mm_malloc memlib_sbrk fuel u st) as [[p st']|] eqn:Hm.
  - exists p, st'. split; [reflexivity|]. intros ->.
    destruct (mm_malloc_null_ok H live st fuel u st' HQ Hm) as (_ & [Hz|(_ & Hfull)]);
      [contradiction|lia].
  - exfalso. unfold mm_malloc in Hm. rewrite (proj2 (Z.eqb_neq u 0) Hu0) in Hm.
    cbv zeta in Hm. rewrite (proj2 (Z.leb_gt _ _) Hbig) in Hm.
    unfold mm_malloc_search in Hm. rewrite Hfit in Hm.
    destruct (negb (b =? NULL)); [discriminate|]. cbv zeta in Hm.
    match type of Hm with
    | context [extend_heap ?a ?w ?c ?s] => destruct (extend_heap a w c s) as [blk st1]
    end.
    destruct (negb (blk =? NULL)); discriminate.
Qed.

(** * The theorems at work on concrete heaps *)


Lemma mm_init_layout_witness :
  memlib_sbrk (sizeof_pointer * TOTALNUMLIST) (extender (fresh roomy))
    = (4096, mkMemlib 4184 (4096 + roomy))
  /\ 0 <= 4096
  /\ 4096 + sizeof_pointer * TOTALNUMLIST + CHUNKSIZE <= 2 ^ 64
  /\ memlib_sbrk CHUNKSIZE (mkMemlib 4184 (4096 + roomy))
    = (4096 + sizeof_pointer * TOTALNUMLIST, mkMemlib 69720 (4096 + roomy))
  /\ head (after_init roomy) (TOTALNUMLIST - 1) = 4192
  /\ block_size (after_init roomy) 4192 = 65520
  /\ heap_blocks 2 (heap (after_init roomy)) 4192 = [4192].
Proof.
  assert (H1 : memlib_sbrk (sizeof_pointer * TOTALNUMLIST) (extender (fresh roomy))
               = (4096, mkMemlib 4184 (4096 + roomy))) by reflexivity.
  assert (H2 : 0 <= 4096) by lia.
  assert (H3 : 4096 + sizeof_pointer * TOTALNUMLIST + CHUNKSIZE <= 2 ^ 64)
    by (vm_compute; discriminate).
  assert (H4 : memlib_sbrk CHUNKSIZE (mkMemlib 4184 (4096 + roomy))
               = (4096 + sizeof_pointer * TOTALNUMLIST, mkMemlib 69720 (4096 + roomy)))
    by reflexivity.
  pose proof (mm_init_layout memlib_sbrk (fresh roomy) 4096 _ _ H1 H2 H3 H4) as H.
  cbv zeta in H.
  destruct H as (_ & _ & _ & _ & (_ & Hp) & (_ & Hb & _) & _ & Hw & (Hh & _) & _).
  specialize (Hw O). rewrite Hp in Hw.
  repeat split; assumption.
Defined.

(** The heap right after [mm_init] has class lists that end. *)

Lemma mm_malloc_fast_path_failure_witness :
  16 <> 0
  /\ adjust_size 16 <= 96
  /\ extend_heap memlib_sbrk (Z.shiftr (adjust_size 16) 3) false (after_init exact_fit)
     = (NULL, after_init exact_fit)
  /\ option_map fst (mm_malloc memlib_sbrk 2 16 (after_init exact_fit)) = Some 4200.
Proof.
  assert (H1 : 16 <> 0) by lia.
  assert (H2 : adjust_size 16 <= 96) by (vm_compute; discriminate).
  assert (H3 : extend_heap memlib_sbrk (Z.shiftr (adjust_size 16) 3) false
                 (after_init exact_fit) = (NULL, after_init exact_fit))
    by (vm_compute; reflexivity).
  split; [exact H1|]. split; [exact H2|]. split; [exact H3|].
  destruct (mm_malloc_fast_path_failure memlib_sbrk 2 16 _ _ H1 H2 H3) as [-> _].
  vm_compute. reflexivity.
Defined.

Lemma mm_malloc_in_order_witness :
  0 <= 4000 <= 2 ^ 32 - 24
  /\ mm_malloc memlib_sbrk 2 4000 (after_init roomy)
     = alloc_in_order memlib_sbrk 2 4000 (after_init roomy)
  /\ adjust_size 4000 = 4016.
Proof.
  assert (H : 0 <= 4000 <= 2 ^ 32 - 24) by lia.
  destruct (mm_malloc_in_order memlib_sbrk 2 4000 (after_init roomy) H)
    as (_ & Ha & _ & He & _).
  split; [exact H|]. split; [exact He|].
  rewrite Ha by lia. vm_compute. reflexivity.
Defined.

(** C1, as stated, fails on the code: a small request is served from the
    lists when its extension fails, and the 32-bit adjusted size of a large
    request is not [align8 (u + OVERHEAD)]. *)
Lemma mm_malloc_not_two_way :
  mm_malloc memlib_sbrk 2 16 (after_init exact_fit)
    <> alloc_two_way memlib_sbrk 2 16 (after_init exact_fit)
  /\ adjust_size (2 ^ 32) <> required_size (2 ^ 32).
Proof.
  split.
  - intros H. apply (f_equal (option_map fst)) in H. vm_compute in H. discriminate.
  - vm_compute. discriminate.
Qed.


(** C7 fails on the code: the adjusted size is kept in 32 bits, so a request
    of 2^32 bytes is answered with a block of 32 bytes, 16 of them payload. *)
Lemma mm_malloc_truncates_request :
  exists p st',
    mm_malloc memlib_sbrk 2 (2 ^ 32) (after_init roomy) = Some (p, st')
    /\ p = 69720 /\ p <> NULL
    /\ block_size st' (p - sizeof_header) = 32
    /\ block_size st' (p - sizeof_header) - OVERHEAD < 2 ^ 32.
Proof.
  assert (Hr : option_map (fun r => (fst r, block_size (snd r) (fst r - sizeof_header)))
                 (mm_malloc memlib_sbrk 2 (2 ^ 32) (after_init roomy))
               = Some (69720, 32)) by (vm_compute; reflexivity).
  destruct (mm_malloc memlib_sbrk 2 (2 ^ 32) (after_init roomy)) as [[p st']|];
    [|discriminate].
  cbn [option_map fst snd] in Hr. injection Hr as Hp Hb.
  exists p, st'. split; [reflexivity|]. split; [exact Hp|].
  split; [rewrite Hp; discriminate|]. split; [exact Hb|].
  rewrite Hb. vm_compute. reflexivity.
Qed.

(** C2: [coalesce] on a free block [b] that is on the list of its class,
    between the rows [l1] and [l2].  (1) With both neighbours allocated the
    heap is unchanged and [b] is returned.  (2) With only the block [n]
    after it free, [b] and [n] are taken off their lists, [b] grows by the
    size of [n], gets a matching footer, is pushed and returned.  (3) With
    only the block [p] before it free, [b] and [p] are taken off their
    lists, [p] grows by the size of [b], gets a matching footer, is pushed
    and returned.  (4) With both free, [p], [b] and [n] are taken off their
    lists and [p] grows by both sizes, gets a matching footer, is pushed and
    returned.  Each pop and push is on the list of the class of the size
    that the block has at that instant. *)
Theorem coalesce_spec {E : Type} (st : state E) l1 b s l2 fl :
  Rep (mkHeap (l1 ++ mkBlk b s false :: l2) fl) st ->
  let k := segListIndex s in
  (alloc_before l1 -> alloc_after l2 -> coalesce b st = (b, st))
  /\ (forall n sN l2', alloc_before l1 -> l2 = mkBlk n sN false :: l2' ->
        fst (coalesce b st) = b
        /\ Rep (mkHeap (l1 ++ mkBlk b (s + sN) false :: l2')
                  (fl_push b (segListIndex (s + sN))
                     (fl_remove n (segListIndex sN) (fl_remove b k fl))))
               (snd (coalesce b st)))
  /\ (forall l1' p sP, l1 = l1' ++ [mkBlk p sP false] -> alloc_after l2 ->
        fst (coalesce b st) = p
        /\ Rep (mkHeap (l1' ++ mkBlk p (sP + s) false :: l2)
                  (fl_push p (segListIndex (sP + s))
                     (fl_remove p (segListIndex sP) (fl_remove b k fl))))
               (snd (coalesce b st)))
  /\ (forall l1' p sP n sN l2',
        l1 = l1' ++ [mkBlk p sP false] -> l2 = mkBlk n sN false :: l2' ->
        fst (coalesce b st) = p
        /\ Rep (mkHeap (l1' ++ mkBlk p (sP + (s + sN)) false :: l2')
                  (fl_push p (segListIndex (sP + (s + sN)))
                     (fl_remove n (segListIndex sN)
                        (fl_remove b k (fl_remove p (segListIndex sP) fl)))))
               (snd (coalesce b st))).
Proof.
  intros HRep k. split; [|split; [|split]].
  - intros H1 H2.
    apply (coalesce_case1 st l1 (mkBlk b s false) l2); try assumption.
    apply (pre_blocks _ _ (rep_pre _ _ HRep)).
  - intros n sN l2' H1 ->.
    destruct (coalesce_case2 st l1 b s n sN l2' fl HRep H1) as (Hr & _ & HR). auto.
  - intros l1' p sP -> H2. rewrite <- app_assoc in HRep.
    destruct (coalesce_case3 st l1' p sP b s l2 fl HRep H2) as (Hr & _ & HR). auto.
  - intros l1' p sP n sN l2' -> ->. rewrite <- app_assoc in HRep.
    destruct (coalesce_case4 st l1' p sP b s n sN l2' fl HRep) as (Hr & _ & HR). auto.
Qed.

(** C3: [place] on a free block [b] of [s] bytes that is on the list of its
    class, for a target size [asize <= s] that is a positive multiple of 8.
    With a residual [r = s - asize] of at least [MIN_BLOCK_SIZE], [b] is
    taken off its list and becomes an allocated block of [asize] bytes,
    header and footer, and at offset [asize] there is a new free block of
    [r] bytes with matching header and footer, pushed on the list of
    [segListIndex r]; otherwise [b] is taken off its list and marked
    allocated at its full size. *)
Theorem place_spec {E : Type} (st : state E) l1 l2 fl b s asize :
  Rep (mkHeap (l1 ++ mkBlk b s false :: l2) fl) st ->
  0 < asize <= s -> asize mod 8 = 0 ->
  let r := s - asize in
  let st' := place b asize st in
  let fl1 := fl_remove b (segListIndex s) fl in
  segListHead st' = segListHead st /\ prologue st' = prologue st
  /\ extender st' = extender st
  /\ if MIN_BLOCK_SIZE <=? r then
       Rep (mkHeap (l1 ++ mkBlk b asize true :: mkBlk (b + asize) r false :: l2)
                   (fl_push (b + asize) (segListIndex r) fl1)) st'
     else
       Rep (mkHeap (l1 ++ mkBlk b s true :: l2) fl1) st'.
Proof. apply place_rep. Qed.

Lemma after_init_rep :
  Rep (mkHeap [mkBlk 4192 65520 false] init_lists) (after_init roomy).
Proof.
  assert (H1 : memlib_sbrk (sizeof_pointer * TOTALNUMLIST) (extender (fresh roomy))
               = (4096, mkMemlib 4184 (4096 + roomy))) by reflexivity.
  assert (H3 : 4096 + sizeof_pointer * TOTALNUMLIST + CHUNKSIZE <= 2 ^ 64)
    by (vm_compute; discriminate).
  assert (H4 : memlib_sbrk CHUNKSIZE (mkMemlib 4184 (4096 + roomy))
               = (4096 + sizeof_pointer * TOTALNUMLIST, mkMemlib 69720 (4096 + roomy)))
    by reflexivity.
  pose proof (mm_init_rep memlib_sbrk (fresh roomy) 4096 _ _ H1 ltac:(lia) H3 H4) as H.
  cbv zeta in H. destruct H as [H _]. exact H.
Defined.

Lemma placed_rep :
  Rep (mkHeap [mkBlk 4192 120 true; mkBlk 4312 65400 false] placed_lists)
      (place 4192 120 (after_init roomy)).
Proof.
  assert (H1 : 0 < 120 <= 65520) by lia.
  assert (H2 : 120 mod 8 = 0) by reflexivity.
  pose proof (place_rep (after_init roomy) [] [] _ 4192 65520 120 after_init_rep H1 H2) as H.
  cbv zeta in H. destruct H as (_ & _ & _ & H).
  replace (MIN_BLOCK_SIZE <=? 65520 - 120) with true in H by reflexivity.
  exact H.
Defined.

Lemma freed_unmerged_rep :
  Rep (mkHeap ([] ++ mkBlk 4192 120 false :: [mkBlk 4312 65400 false])
              (fl_push 4192 (segListIndex 120) placed_lists)) freed_unmerged.
Proof.
  assert (H1 : MIN_BLOCK_SIZE <= 120) by (vm_compute; discriminate).
  pose proof (free_mark (place 4192 120 (after_init roomy)) [] 4192 120
                [mkBlk 4312 65400 false] placed_lists placed_rep H1) as H.
  cbv zeta in H. destruct H as [H _]. exact H.
Defined.

Lemma coalesce_spec_witness :
  Rep (mkHeap ([] ++ mkBlk 4192 120 false :: [mkBlk 4312 65400 false])
              (fl_push 4192 (segListIndex 120) placed_lists)) freed_unmerged
  /\ fst (coalesce 4192 freed_unmerged) = 4192
  /\ Rep (mkHeap [mkBlk 4192 65520 false]
            (fl_push 4192 (segListIndex 65520)
               (fl_remove 4312 (segListIndex 65400)
                  (fl_remove 4192 (segListIndex 120)
                     (fl_push 4192 (segListIndex 120) placed_lists)))))
         (snd (coalesce 4192 freed_unmerged)).
Proof.
  split; [exact freed_unmerged_rep|].
  pose proof (coalesce_spec freed_unmerged [] 4192 120 [mkBlk 4312 65400 false] _
                freed_unmerged_rep) as H.
  cbv zeta in H. destruct H as (_ & H & _).
  exact (H 4312 65400 [] alloc_before_nil eq_refl).
Defined.

Lemma place_spec_witness :
  Rep (mkHeap ([] ++ mkBlk 4192 65520 false :: []) init_lists) (after_init roomy)
  /\ 0 < 32 <= 65520 /\ 32 mod 8 = 0
  /\ Rep (mkHeap [mkBlk 4192 32 true; mkBlk 4224 65488 false]
            (fl_push 4224 (segListIndex 65488)
               (fl_remove 4192 (segListIndex 65520) init_lists)))
         (place 4192 32 (after_init roomy)).
Proof.
  assert (H1 : 0 < 32 <= 65520) by lia.
  assert (H2 : 32 mod 8 = 0) by reflexivity.
  split; [exact after_init_rep|]. split; [exact H1|]. split; [exact H2|].
  pose proof (place_spec (after_init roomy) [] [] _ 4192 65520 32 after_init_rep H1 H2) as H.
  cbv zeta in H. destruct H as (_ & _ & _ & H).
  replace (MIN_BLOCK_SIZE <=? 65520 - 32) with true in H by reflexivity.
  exact H.
Defined.




(** * More of the allocator *)

(** X1: [list_push] puts the block at the head of the list it is given: a
    walk of that list from its head meets the new block first and then the
    nodes the list had, in their order, and the other lists are walked as
    before. *)
Theorem list_push_walk {E : Type} (st : state E) bs fl b k :
  Pre (mkHeap bs fl) st -> 0 <= k < TOTALNUMLIST ->
  block_node bs b -> (forall j, 0 <= j < TOTALNUMLIST -> b ∉ fl j) ->
  let st' := list_push b k st in
  head st' k = b /\ prev st' b = NULL
  /\ forall j, 0 <= j < TOTALNUMLIST ->
       list_nodes (S (S (length (fl j)))) (heap st') (head st' j)
       = if j =? k then b :: fl j else fl j.
Proof.
  intros [Hb Hl Hn] Hk HNb Hfresh st'. cbn [blocks flist] in *.
  pose proof (blocks_node_space _ _ Hb) as HNS.
  pose proof (nodes_free_in _ _ _ Hb Hn) as HN.
  destruct (list_push_ok st fl _ b k HNS HN Hl Hk HNb Hfresh) as [[Hd _ _] _].
  fold st' in Hd.
  pose proof (Hd k Hk) as Hdk. rewrite fl_push_same in Hdk.
  destruct Hdk as (Hh & _ & Hp & _).
  split; [exact Hh|]. split; [rewrite prev_eq, <- get_prev_eq; exact Hp|].
  intros j Hj. specialize (Hd j Hj). unfold fl_push in Hd.
  destruct (j =? k); apply (dll_walk _ _ _ _ _ Hd); cbn [length]; lia.
Qed.

(** X2: [list_pop] takes exactly the given node off its list: a walk of the
    list meets the other nodes, in the order they had, and the other lists
    are walked as before. *)
Theorem list_pop_walk {E : Type} (st : state E) bs fl b k :
  Pre (mkHeap bs fl) st -> 0 <= k < TOTALNUMLIST -> b ∈ fl k ->
  let st' := list_pop b k st in
  forall j, 0 <= j < TOTALNUMLIST ->
    list_nodes (S (length (fl j))) (heap st') (head st' j)
    = if j =? k then filter (fun y => y <> b) (fl j) else fl j.
Proof.
  intros HPre Hk Hin st' j Hj.
  pose proof (pop_pre st bs fl b k HPre Hk Hin) as [_ [Hd _ _] _].
  cbn [blocks flist] in Hd. fold st' in Hd. specialize (Hd j Hj).
  unfold fl_remove in Hd.
  destruct (j =? k); apply (dll_walk _ _ _ _ _ Hd); [|lia].
  pose proof (length_filter_le b (fl j)). lia.
Qed.

(** X3: pushing a block on a list and popping it again leaves every list
    with the nodes it had, in their order. *)
Theorem list_push_pop {E : Type} (st : state E) bs fl b k :
  Pre (mkHeap bs fl) st -> 0 <= k < TOTALNUMLIST ->
  block_node bs b -> (forall j, 0 <= j < TOTALNUMLIST -> b ∉ fl j) ->
  let st' := list_pop b k (list_push b k st) in
  forall j, 0 <= j < TOTALNUMLIST ->
    list_nodes (S (length (fl j))) (heap st') (head st' j) = fl j.
Proof.
  intros [Hb Hl Hn] Hk HNb Hfresh st' j Hj. cbn [blocks flist] in *.
  pose proof (blocks_node_space _ _ Hb) as HNS.
  pose proof (nodes_free_in _ _ _ Hb Hn) as HN.
  destruct (list_push_ok st fl _ b k HNS HN Hl Hk HNb Hfresh) as [Hl1 _].
  destruct (list_push_fields b k st) as (HS & _).
  assert (HNS1 : node_space (list_push b k st) (block_node bs)).
  { destruct HNS as [N1 N2 N3 N4]. split; rewrite ?HS; assumption. }
  assert (HN1 : nodes_in (block_node bs) (fl_push b k fl)).
  { intros i x Hi Hx. apply elem_of_fl_push in Hx as [[-> ->]|Hx]; [exact HNb|].
    apply (HN i x Hi Hx). }
  assert (Hin : b ∈ fl_push b k fl k) by (rewrite fl_push_same; left).
  destruct (list_pop_ok _ _ _ b k HNS1 HN1 Hl1 Hk Hin) as [[Hd _ _] _].
  fold st' in Hd. specialize (Hd j Hj).
  assert (Heq : fl_remove b k (fl_push b k fl) j = fl j).
  { unfold fl_remove, fl_push. destruct (Z.eqb_spec j k) as [->|]; [|reflexivity].
    rewrite filter_cons_False by (intros Hne; now apply Hne).
    apply filter_ne_notin, Hfresh, Hk. }
  rewrite Heq in Hd. apply (dll_walk _ _ _ _ _ Hd). lia.
Qed.

(** X4: with fuel for the longest list, [find_fit] ends, and it is complete
    over the whole heap: it answers [NULL] only when no free block of the
    heap has [asize] bytes, and a block it answers is a free block of the
    heap with at least [asize] bytes. *)
Theorem find_fit_complete {E : Type} (st : state E) bs fl fuel asize :
  Rep (mkHeap bs fl) st -> MIN_BLOCK_SIZE <= asize < 2 ^ 32 ->
  (forall k, 0 <= k < TOTALNUMLIST -> (length (fl k) < fuel)%nat) ->
  exists b, find_fit fuel asize st = Some b
    /\ (b = NULL -> forall B, B ∈ bs -> b_alloc B = false -> b_size B < asize)
    /\ (b <> NULL ->
          exists B, B ∈ bs /\ b_addr B = b /\ b_alloc B = false /\ asize <= b_size B).
Proof.
  intros [HPre Hfl] Has Hlen. cbn [blocks flist] in *.
  pose proof (pre_blocks _ _ HPre) as Hb. cbn [blocks] in Hb.
  destruct (find_fit_total fuel asize st (pre_lists_end _ _ _ _ HPre Hlen) Has) as (b & Hfit).
  exists b. split; [exact Hfit|]. split.
  - intros -> B HB Hf. destruct (Z.lt_ge_cases (b_size B) asize) as [|Hge]; [assumption|].
    exfalso.
    destruct (bo_bound _ _ Hb) as [Hb31 _]. rewrite sizeof_header_eq in Hb31.
    destruct (list_elem_of_split _ _ HB) as (l1 & l2 & ->).
    destruct (blocks_ok_at _ _ _ _ Hb) as (_ & Ht1 & Ht2 & (_ & _ & H32) & _).
    specialize (H32 Hf). rewrite total_size_app in Hb31. cbn [total_size] in Hb31.
    rewrite MIN_BLOCK_SIZE_eq in *.
    unfold find_fit in Hfit. rewrite to_int_small in Hfit by lia.
    pose proof (segListIndex_class asize ltac:(lia)) as Hka.
    pose proof (segListIndex_class (b_size B) ltac:(lia)) as Hkb.
    pose proof (segListIndex_mono asize (b_size B) ltac:(lia) ltac:(lia)) as Hmono.
    rewrite TOTALNUMLIST_eq in *.
    pose proof (scan_lists_none st fl asize fuel (Z.to_nat (11 - segListIndex asize))
                  (segListIndex asize) (pre_lists _ _ HPre)
                  (nodes_allocated_0 _ _ _ HPre) ltac:(lia)
                  ltac:(rewrite TOTALNUMLIST_eq; lia) Hfit
                  (segListIndex (b_size B)) (b_addr B) ltac:(lia)
                  (Hfl B HB Hf)) as Hsmall.
    rewrite (pre_size _ _ _ _ HPre HB) in Hsmall. lia.
  - intros Hnz.
    destruct (find_fit_found st fl asize fuel b (pre_lists _ _ HPre) Has Hfit Hnz)
      as (k & Hk & Hin & Hsz).
    destruct (pre_nodes _ _ HPre k b Hk Hin) as (B & HB & Hadr & HBf & _).
    cbn [blocks] in HB. exists B. repeat split; try assumption.
    rewrite <- Hadr, (pre_size _ _ _ _ HPre HB) in Hsz. exact Hsz.
Qed.

(** X5: [find_fit] is first fit: the block it answers is the first node
    that fits on its list, and no node fits on the lists of the lower
    classes, from the class of [asize] on. *)
Theorem find_fit_first {E : Type} (st : state E) bs fl fuel asize b :
  Pre (mkHeap bs fl) st -> MIN_BLOCK_SIZE <= asize < 2 ^ 32 ->
  find_fit fuel asize st = Some b -> b <> NULL ->
  exists k l1 l2,
    segListIndex (to_int asize) <= k < TOTALNUMLIST /\ fl k = l1 ++ b :: l2
    /\ (forall x, x ∈ l1 -> block_size st x < asize)
    /\ asize <= block_size st b
    /\ (forall j x, segListIndex (to_int asize) <= j < k -> x ∈ fl j ->
          block_size st x < asize).
Proof.
  intros HPre Has Hfit Hnz. unfold find_fit in Hfit.
  pose proof (segListIndex_ge_0 asize Has).
  pose proof (segListIndex_le (to_int asize)).
  destruct (scan_lists_first st fl asize fuel
              (Z.to_nat (TOTALNUMLIST - segListIndex (to_int asize)))
              (segListIndex (to_int asize)) b (pre_lists _ _ HPre)
              (nodes_allocated_0 _ _ _ HPre) ltac:(lia) ltac:(lia) Hfit Hnz)
    as (k & l1 & l2 & Hk & Heq & Hbefore & Hsz & Hlower).
  exists k, l1, l2. repeat split; try assumption; lia.
Qed.

(** X6: on a heap whose boundary tags are those of a row of blocks, with
    the prologue 8-aligned, [mm_checkheap] ends and reports no error,
    whatever the free lists hold and whether or not neighbours are both
    free: silent it prints nothing, verbose it prints the title, one line
    for each block in address order and the end-of-list line. *)
Theorem mm_checkheap_dump {E : Type} (st : state E) bs fuel verbose :
  blocks_ok st bs -> prologue st mod 8 = 0 -> (length bs < fuel)%nat ->
  mm_checkheap fuel verbose st
  = Some (if verbose =? 0 then []
          else Printf (String.append "Heap (%p):" newline) [prologue st]
               :: map block_line bs
               ++ [Printf (String.append "%p: EOL" newline)
                     [prologue st + sizeof_header + total_size bs]]).
Proof. intros Hb H8 Hf. now apply mm_checkheap_row. Qed.


(** X8: what a silent run of [mm_checkheap] without output is worth: the
    prologue header holds size 8 and is marked allocated, the prologue and
    every block that the walk visits have an 8-aligned payload and the same
    size in header and footer, and the walk stops at a block of size 0 that
    is marked allocated.  Nothing is said of the allocated flags of the
    blocks, of the free lists or of free neighbours. *)
Theorem mm_checkheap_silent {E : Type} (st : state E) fuel :
  mm_checkheap fuel 0 st = Some [] ->
  block_size st (prologue st) = sizeof_header
  /\ allocated st (prologue st) = ALLOC
  /\ (forall b,
        b ∈ prologue st :: heap_blocks fuel (heap st) (prologue st + sizeof_header) ->
        to_size_t (payload b) mod 8 = 0
        /\ block_size st b = block_size st (get_footer st b))
  /\ exists e, check_blocks fuel 0 st (prologue st + sizeof_header) = Some ([], e)
               /\ block_size st e = 0 /\ allocated st e = ALLOC.
Proof.
  unfold mm_checkheap. cbv zeta. cbn [Z.eqb app]. intros Hm.
  destruct (check_blocks fuel 0 st (prologue st + block_size st (prologue st)))
    as [[out4 e]|] eqn:Hc; [|discriminate].
  injection Hm as Hm.
  apply app_eq_nil in Hm as [H2 Hm]. apply app_eq_nil in Hm as [H3 Hm].
  apply app_eq_nil in Hm as [-> H6].
  assert (Hflag : forall x, (if negb (block_size st x =? 0) || (allocated st x =? 0)
                             then [Printf (String.append "Bad epilogue header" newline) []]
                             else []) = [] ->
                            block_size st x = 0 /\ allocated st x = ALLOC).
  { intros x Hx. pose proof (get_allocated_range (heap st) x) as Hr.
    rewrite <- allocated_eq in Hr. rewrite ALLOC_eq.
    destruct (Z.eqb_spec (block_size st x) 0); [|discriminate].
    destruct (Z.eqb_spec (allocated st x) 0); [discriminate|]. split; lia. }
  assert (Hp : block_size st (prologue st) = sizeof_header
               /\ allocated st (prologue st) = ALLOC).
  { pose proof (get_allocated_range (heap st) (prologue st)) as Hr.
    rewrite <- allocated_eq in Hr. rewrite ALLOC_eq.
    destruct (Z.eqb_spec (block_size st (prologue st)) sizeof_header); [|discriminate].
    destruct (Z.eqb_spec (allocated st (prologue st)) 0); [discriminate|]. split; [auto|lia]. }
  destruct Hp as [Hp1 Hp2]. rewrite Hp1 in Hc.
  destruct (check_blocks_silent st fuel _ e Hc) as [Hall He].
  split; [exact Hp1|]. split; [exact Hp2|]. split.
  - intros b Hb. apply elem_of_cons in Hb as [->|Hb]; [now apply checkblock_nil|].
    now apply Hall.
  - exists e. split; [exact Hc|]. now apply Hflag.
Qed.

(** X9: a payload that [mm_malloc] answers to a client is 8-aligned and is
    the payload of a block marked allocated that lies between the prologue
    and the epilogue and has at least the adjusted size; for a request of
    [u <= 2^32 - 24] bytes the block has room for [u] bytes between its
    header and its footer. *)
Theorem mm_malloc_payload (st : state memlib) live fuel u p st' :
  reachable st live ->
  mm_malloc memlib_sbrk fuel u st = Some (p, st') -> p <> NULL ->
  p mod 8 = 0
  /\ allocated st' (p - sizeof_header) = ALLOC
  /\ adjust_size u <= block_size st' (p - sizeof_header)
  /\ prologue st' + sizeof_header <= p - sizeof_header
  /\ p - sizeof_header + block_size st' (p - sizeof_header)
     <= mem_brk (extender st') - sizeof_header
  /\ (0 < u <= 2 ^ 32 - 24 -> u + OVERHEAD <= block_size st' (p - sizeof_header)).
Proof.
  intros Hr Hm Hnz. destruct (reachable_quiescent st live Hr) as (H & HQ).
  destruct (reachable_fields st live Hr) as [_ HP].
  destruct (mm_malloc_fields memlib_sbrk fuel u st p st' Hm) as [_ HP'].
  destruct (mm_malloc_post H live st fuel u p st' HQ Hm) as (H' & [Hok _] & Hnew & _).
  destruct (Hnew Hnz) as (B & HB & Hpay & Ha & Hsz).
  destruct Hok as [HRep _ Hbrk _ _]. destruct H' as [bs' fl']. cbn [blocks] in *.
  pose proof (pre_blocks _ _ (rep_pre _ _ HRep)) as Hb. cbn [blocks] in Hb.
  pose proof (blocks_ok_range _ _ _ Hb HB) as [Hlo Hhi].
  pose proof (block_aligned st' bs' B Hb ltac:(rewrite HP', HP; reflexivity) HB) as Hal.
  destruct (bo_tagged _ _ Hb B HB) as (T1 & T2 & _).
  unfold payload in Hpay. rewrite sizeof_header_eq in *.
  replace (p - 8) with (b_addr B) by lia.
  rewrite block_size_eq, allocated_eq, T1, T2, Ha, Hbrk.
  split; [rewrite <- Hpay, Z.add_mod, Hal by lia; reflexivity|].
  split; [reflexivity|]. split; [exact Hsz|]. split; [lia|]. split; [lia|].
  intros Hu. rewrite adjust_size_required in Hsz by exact Hu.
  destruct (required_size_bounds u Hu) as (_ & _ & Hreq). lia.
Qed.

(** X10: [mm_malloc] never hands out memory that the client holds: the
    block of every payload [q] that the client holds keeps its size and
    lies apart from the block of the payload that [mm_malloc] answers. *)
Theorem mm_malloc_disjoint (st : state memlib) live fuel u p st' q :
  reachable st live ->
  mm_malloc memlib_sbrk fuel u st = Some (p, st') -> p <> NULL -> q ∈ live ->
  block_size st' (q - sizeof_header) = block_size st (q - sizeof_header)
  /\ allocated st' (q - sizeof_header) = ALLOC
  /\ (q + block_size st (q - sizeof_header) <= p
      \/ p + block_size st' (p - sizeof_header) <= q).
Proof.
  intros Hr Hm Hnz Hq. destruct (reachable_quiescent st live Hr) as (H & HQ).
  destruct (mm_malloc_post H live st fuel u p st' HQ Hm) as (H' & [Hok _] & Hnew & Hkept).
  destruct (Hnew Hnz) as (B & HB & Hpay & Ha & Hsz).
  destruct HQ as [[HRep0 _ _ _ Hlive] _].
  destruct (Hlive q Hq) as (Bq & HBq & Hpq & Haq).
  destruct (Hkept Bq HBq Haq) as [HBq' Hne].
  destruct Hok as [HRep _ _ _ _]. destruct H' as [bs' fl']. destruct H as [bs fl].
  cbn [blocks] in *.
  pose proof (pre_blocks _ _ (rep_pre _ _ HRep)) as Hb. cbn [blocks] in Hb.
  unfold payload in Hpay, Hpq, Hne. rewrite sizeof_header_eq in *.
  replace (p - 8) with (b_addr B) by lia. replace (q - 8) with (b_addr Bq) by lia.
  rewrite (pre_size _ _ _ _ (rep_pre _ _ HRep) HBq'),
    (pre_size _ _ _ _ (rep_pre _ _ HRep0) HBq),
    (pre_size _ _ _ _ (rep_pre _ _ HRep) HB).
  destruct (bo_tagged _ _ Hb Bq HBq') as (_ & T2 & _).
  rewrite allocated_eq, T2, Haq.
  split; [reflexivity|]. split; [reflexivity|].
  destruct (contig_disjoint _ _ Bq B (blocks_ok_pos _ _ Hb) (bo_contig _ _ Hb) HBq' HB)
    as [Heq|[Hd|Hd]]; [subst Bq; lia|lia|lia].
Qed.

(** ** The statements above, on the run *)

Lemma placed_pre :
  Pre (mkHeap [mkBlk 4192 120 true; mkBlk 4312 65400 false] placed_lists)
      (place 4192 120 (after_init roomy)).
Proof. exact (rep_pre _ _ placed_rep). Defined.

Lemma placed_node : block_node [mkBlk 4192 120 true; mkBlk 4312 65400 false] 4192.
Proof.
  exists (mkBlk 4192 120 true). split; [left|]. split; [reflexivity|].
  vm_compute. discriminate.
Defined.

Lemma placed_fresh : forall j, 0 <= j < TOTALNUMLIST -> 4192 ∉ placed_lists j.
Proof.
  intros j Hj Hin. unfold placed_lists, init_lists in Hin.
  apply elem_of_fl_push in Hin as [[_ Hin]|Hin]; [discriminate|].
  apply elem_of_fl_remove in Hin as [Hin Hne].
  apply elem_of_fl_push in Hin as [[Hj10 _]|Hin]; [|inversion Hin].
  apply Hne; [|reflexivity]. rewrite Hj10. reflexivity.
Defined.

Lemma list_push_walk_witness :
  0 <= 1 < TOTALNUMLIST
  /\ let st' := list_push 4192 1 (place 4192 120 (after_init roomy)) in
     head st' 1 = 4192 /\ prev st' 4192 = NULL
     /\ forall j, 0 <= j < TOTALNUMLIST ->
          list_nodes (S (S (length (placed_lists j)))) (heap st') (head st' j)
          = if j =? 1 then 4192 :: placed_lists j else placed_lists j.
Proof.
  assert (Hk : 0 <= 1 < TOTALNUMLIST) by (split; [lia|reflexivity]).
  split; [exact Hk|].
  exact (list_push_walk _ _ _ 4192 1 placed_pre Hk placed_node placed_fresh).
Defined.

Lemma list_pop_walk_witness :
  0 <= 10 < TOTALNUMLIST /\ 4192 ∈ init_lists 10
  /\ let st' := list_pop 4192 10 (after_init roomy) in
     forall j, 0 <= j < TOTALNUMLIST ->
       list_nodes (S (length (init_lists j))) (heap st') (head st' j)
       = if j =? 10 then filter (fun y => y <> 4192) (init_lists j) else init_lists j.
Proof.
  assert (Hk : 0 <= 10 < TOTALNUMLIST) by (split; [lia|reflexivity]).
  assert (Hin : 4192 ∈ init_lists 10) by left.
  split; [exact Hk|]. split; [exact Hin|].
  exact (list_pop_walk _ _ _ 4192 10 (rep_pre _ _ after_init_rep) Hk Hin).
Defined.

Lemma list_push_pop_witness :
  0 <= 1 < TOTALNUMLIST
  /\ let st' := list_pop 4192 1 (list_push 4192 1 (place 4192 120 (after_init roomy))) in
     forall j, 0 <= j < TOTALNUMLIST ->
       list_nodes (S (length (placed_lists j))) (heap st') (head st' j) = placed_lists j.
Proof.
  assert (Hk : 0 <= 1 < TOTALNUMLIST) by (split; [lia|reflexivity]).
  split; [exact Hk|].
  exact (list_push_pop _ _ _ 4192 1 placed_pre Hk placed_node placed_fresh).
Defined.

Lemma init_lists_short :
  forall k, 0 <= k < TOTALNUMLIST -> (length (init_lists k) < 2)%nat.
Proof.
  intros k _. unfold init_lists, fl_push. destruct (k =? 10); cbn [length]; lia.
Defined.

Lemma find_fit_complete_witness :
  MIN_BLOCK_SIZE <= 120 < 2 ^ 32
  /\ exists b, find_fit 2 120 (after_init roomy) = Some b
       /\ (b = NULL ->
             forall B, B ∈ [mkBlk 4192 65520 false] -> b_alloc B = false -> b_size B < 120)
       /\ (b <> NULL ->
             exists B, B ∈ [mkBlk 4192 65520 false] /\ b_addr B = b
                       /\ b_alloc B = false /\ 120 <= b_size B).
Proof.
  assert (Ha : MIN_BLOCK_SIZE <= 120 < 2 ^ 32) by (split; vm_compute; congruence).
  split; [exact Ha|].
  exact (find_fit_complete _ _ _ 2%nat 120 after_init_rep Ha init_lists_short).
Defined.

Lemma find_fit_first_witness :
  MIN_BLOCK_SIZE <= 120 < 2 ^ 32
  /\ find_fit 2 120 (after_init roomy) = Some 4192 /\ 4192 <> NULL
  /\ exists k l1 l2,
       segListIndex (to_int 120) <= k < TOTALNUMLIST /\ init_lists k = l1 ++ 4192 :: l2
       /\ (forall x, x ∈ l1 -> block_size (after_init roomy) x < 120)
       /\ 120 <= block_size (after_init roomy) 4192
       /\ (forall j x, segListIndex (to_int 120) <= j < k -> x ∈ init_lists j ->
             block_size (after_init roomy) x < 120).
Proof.
  assert (Ha : MIN_BLOCK_SIZE <= 120 < 2 ^ 32) by (split; vm_compute; congruence).
  assert (Hf : find_fit 2 120 (after_init roomy) = Some 4192) by (vm_compute; reflexivity).
  assert (Hn : 4192 <> NULL) by discriminate.
  split; [exact Ha|]. split; [exact Hf|]. split; [exact Hn|].
  exact (find_fit_first _ _ _ 2%nat 120 4192 (rep_pre _ _ after_init_rep) Ha Hf Hn).
Defined.

Lemma after_init_aligned : prologue (after_init roomy) mod 8 = 0.
Proof. vm_compute. reflexivity. Defined.

Lemma mm_checkheap_dump_witness :
  (length [mkBlk 4192 65520 false] < 2)%nat
  /\ mm_checkheap 2 1 (after_init roomy)
     = Some (Printf (String.append "Heap (%p):" newline) [prologue (after_init roomy)]
             :: map block_line [mkBlk 4192 65520 false]
             ++ [Printf (String.append "%p: EOL" newline)
                   [prologue (after_init roomy) + sizeof_header
                    + total_size [mkBlk 4192 65520 false]]]).
Proof.
  assert (Hl : (length [mkBlk 4192 65520 false] < 2)%nat) by (cbn [length]; lia).
  split; [exact Hl|].
  exact (mm_checkheap_dump (after_init roomy) _ 2%nat 1
           (pre_blocks _ _ (rep_pre _ _ after_init_rep)) after_init_aligned Hl).
Defined.


Lemma mm_checkheap_silent_witness :
  mm_checkheap 2 0 (after_init roomy) = Some []
  /\ block_size (after_init roomy) (prologue (after_init roomy)) = sizeof_header
  /\ allocated (after_init roomy) (prologue (after_init roomy)) = ALLOC.
Proof.
  assert (Hm : mm_checkheap 2 0 (after_init roomy) = Some []) by (vm_compute; reflexivity).
  split; [exact Hm|].
  pose proof (mm_checkheap_silent (after_init roomy) 2%nat Hm) as (H1 & H2 & _).
  split; [exact H1|exact H2].
Defined.

Lemma run_first_reachable : reachable run_first [4200].
Proof.
  assert (R0 : reachable (after_init roomy) []).
  { apply reach_init. split; vm_compute; discriminate. }
  assert (M1 : mm_malloc memlib_sbrk 4 100 (after_init roomy) = Some (4200, run_first))
    by (vm_compute; reflexivity).
  refine (reach_malloc _ _ _ _ _ _ R0 _ M1). split; [lia|vm_compute; reflexivity].
Defined.

Lemma run_second_malloc :
  mm_malloc memlib_sbrk 4 200 run_first = Some (4320, run_second).
Proof. vm_compute. reflexivity. Defined.

Lemma mm_malloc_payload_witness :
  reachable run_first [4200]
  /\ mm_malloc memlib_sbrk 4 200 run_first = Some (4320, run_second) /\ 4320 <> NULL
  /\ 4320 mod 8 = 0
  /\ allocated run_second (4320 - sizeof_header) = ALLOC
  /\ adjust_size 200 <= block_size run_second (4320 - sizeof_header).
Proof.
  assert (Hn : 4320 <> NULL) by discriminate.
  split; [exact run_first_reachable|]. split; [exact run_second_malloc|].
  split; [exact Hn|].
  pose proof (mm_malloc_payload _ _ _ _ _ _ run_first_reachable run_second_malloc Hn)
    as (H1 & H2 & H3 & _).
  split; [exact H1|]. split; [exact H2|exact H3].
Defined.

Lemma mm_malloc_disjoint_witness :
  reachable run_first [4200]
  /\ mm_malloc memlib_sbrk 4 200 run_first = Some (4320, run_second) /\ 4320 <> NULL
  /\ 4200 ∈ [4200]
  /\ block_size run_second (4200 - sizeof_header)
     = block_size run_first (4200 - sizeof_header)
  /\ allocated run_second (4200 - sizeof_header) = ALLOC
  /\ (4200 + block_size run_first (4200 - sizeof_header) <= 4320
      \/ 4320 + block_size run_second (4320 - sizeof_header) <= 4200).
Proof.
  assert (Hn : 4320 <> NULL) by discriminate.
  assert (Hq : 4200 ∈ [4200]) by left.
  split; [exact run_first_reachable|]. split; [exact run_second_malloc|].
  split; [exact Hn|]. split; [exact Hq|].
  exact (mm_malloc_disjoint _ _ _ _ _ _ 4200 run_first_reachable run_second_malloc Hn Hq).
Defined.

(** * The bytes that the client keeps *)

(** X11: [mm_free] never changes a byte of another payload that the client
    holds: on every heap that a client reaches, after [mm_free p] every
    byte of the payload [q <> p] reads as before. *)
Theorem mm_free_keeps (st : state memlib) live p q i :
  reachable st live -> p ∈ live -> q ∈ live -> q <> p ->
  q <= i < q + (block_size st (q - sizeof_header) - OVERHEAD) ->
  load8 (heap (mm_free p st)) i = load8 (heap st) i.
Proof.
  intros Hr Hp Hq Hne Hi. destruct (reachable_quiescent st live Hr) as (H & [Hok _]).
  destruct (live_payload H live st q i Hok Hq Hi) as (B & HB & Ha & Hpay & _ & Hrange).
  apply (mm_free_kept_ok H live st p Hok Hp B i HB Ha); [congruence|exact Hrange].
Qed.

(** X12: [mm_malloc] never changes a byte of a payload that the client
    holds, whether it answers a block or null, and whether it takes a
    block off a list or grows the heap. *)
Theorem mm_malloc_keeps (st : state memlib) live fuel u p st' q i :
  reachable st live ->
  mm_malloc memlib_sbrk fuel u st = Some (p, st') -> q ∈ live ->
  q <= i < q + (block_size st (q - sizeof_header) - OVERHEAD) ->
  load8 (heap st') i = load8 (heap st) i.
Proof.
  intros Hr Hm Hq Hi. destruct (reachable_quiescent st live Hr) as (H & HQ).
  pose proof HQ as [Hok _].
  destruct (live_payload H live st q i Hok Hq Hi) as (B & HB & Ha & _ & _ & Hrange).
  exact (mm_malloc_kept H live st fuel u p st' HQ Hm B i HB Ha Hrange).
Qed.

(** X13: [mm_realloc] moves the contents: byte [j] of the payload it
    answers is byte [j] of the old payload, for every [j] below the size
    asked for and below the size of the old payload. *)
Theorem mm_realloc_copies (st : state memlib) live fuel p u q st' j :
  reachable st live -> p ∈ live -> 0 <= u <= 2 ^ 32 - 24 ->
  mm_realloc memlib_sbrk fuel p u st = Some (Returned q st') ->
  0 <= j < u -> j < block_size st (p - sizeof_header) - OVERHEAD ->
  load8 (heap st') (q + j) = load8 (heap st) (p + j).
Proof.
  intros Hr Hp Hu Hre Hj Hjp. destruct (reachable_quiescent st live Hr) as (H & HQ).
  destruct (mm_realloc_kept H live st fuel p u q st' HQ Hp Hu Hre) as [Hcopy _].
  exact (Hcopy j Hj Hjp).
Qed.


(** X15: a small request never reuses a free block while the arena has
    room: when the adjusted size is at most 96 bytes (every request of 1 to
    80 bytes) and the arena has room for it, [mm_malloc] grows the heap by
    exactly the adjusted size and answers the old break, whatever the free
    lists hold and whatever fuel the search would have. *)
Theorem mm_malloc_small (st : state memlib) live fuel u :
  reachable st live -> u <> 0 -> adjust_size u <= 96 ->
  mem_brk (extender st) + adjust_size u <= mem_max_addr (extender st) ->
  exists st', mm_malloc memlib_sbrk fuel u st = Some (mem_brk (extender st), st')
    /\ mem_brk (extender st') = mem_brk (extender st) + adjust_size u.
Proof.
  intros Hr Hu Hs Hroom. destruct (reachable_quiescent st live Hr) as (H & HQ).
  exact (mm_malloc_small_ok H live st fuel u HQ Hu Hs Hroom).
Qed.

(** X16: [mm_malloc] answers null only to a request of no bytes, or when
    the search of the lists finds no block and the arena has no room for
    the larger of the adjusted size and [CHUNKSIZE]; in both cases it
    leaves the heap exactly as it was. *)
Theorem mm_malloc_null (st : state memlib) live fuel u st' :
  reachable st live -> mm_malloc memlib_sbrk fuel u st = Some (NULL, st') ->
  st' = st
  /\ (u = 0
      \/ (find_fit fuel (adjust_size u) st = Some NULL
          /\ mem_max_addr (extender st)
             < mem_brk (extender st)
               + (if CHUNKSIZE <? adjust_size u then adjust_size u else CHUNKSIZE))).
Proof.
  intros Hr Hm. destruct (reachable_quiescent st live Hr) as (H & HQ).
  exact (mm_malloc_null_ok H live st fuel u st' HQ Hm).
Qed.

(** X17: [mm_malloc] does not fail while the arena has room: for a request
    of at least one byte on a heap whose arena can grow by the larger of
    the adjusted size and [CHUNKSIZE], with fuel for the longest list, it
    ends and answers a payload that is not null. *)
Theorem mm_malloc_serves (st : state memlib) live u :
  reachable st live -> u <> 0 ->
  mem_brk (extender st) + (if CHUNKSIZE <? adjust_size u then adjust_size u else CHUNKSIZE)
    <= mem_max_addr (extender st) ->
  exists n, forall fuel, (n < fuel)%nat ->
    exists p st', mm_malloc memlib_sbrk fuel u st = Some (p, st') /\ p <> NULL.
Proof.
  intros Hr Hu Hroom. destruct (reachable_quiescent st live Hr) as (H & HQ).
  exact (mm_malloc_serves_ok H live st u HQ Hu Hroom).
Qed.

(** ** The statements above, on the run *)

Lemma run_second_reachable : reachable run_second [4320; 4200].
Proof.
  refine (reach_malloc _ _ _ _ _ _ run_first_reachable _ run_second_malloc).
  split; [lia|vm_compute; reflexivity].
Defined.

Lemma run_written_reachable : reachable run_written [4320; 4200].
Proof.
  assert (Hp : 4200 ∈ [4320; 4200]) by (right; left).
  refine (reach_write run_second _ 4200 4200 65 run_second_reachable Hp _).
  split; [lia|vm_compute; reflexivity].
Defined.

Lemma run_moved_realloc :
  mm_realloc memlib_sbrk 4 4200 300 run_written = Some (Returned 4536 (snd run_moved)).
Proof. vm_compute. reflexivity. Defined.

Lemma mm_free_keeps_witness :
  reachable run_second [4320; 4200] /\ 4200 ∈ [4320; 4200] /\ 4320 ∈ [4320; 4200]
  /\ 4320 <> 4200
  /\ 4320 <= 4400 < 4320 + (block_size run_second (4320 - sizeof_header) - OVERHEAD)
  /\ load8 (heap (mm_free 4200 run_second)) 4400 = load8 (heap run_second) 4400.
Proof.
  assert (Hp : 4200 ∈ [4320; 4200]) by (right; left).
  assert (Hq : 4320 ∈ [4320; 4200]) by left.
  assert (Hne : 4320 <> 4200) by discriminate.
  assert (Hi : 4320 <= 4400
               < 4320 + (block_size run_second (4320 - sizeof_header) - OVERHEAD))
    by (split; [lia|vm_compute; reflexivity]).
  split; [exact run_second_reachable|]. split; [exact Hp|]. split; [exact Hq|].
  split; [exact Hne|]. split; [exact Hi|].
  exact (mm_free_keeps _ _ 4200 4320 4400 run_second_reachable Hp Hq Hne Hi).
Defined.

Lemma mm_malloc_keeps_witness :
  reachable run_first [4200]
  /\ mm_malloc memlib_sbrk 4 200 run_first = Some (4320, run_second) /\ 4200 ∈ [4200]
  /\ 4200 <= 4250 < 4200 + (block_size run_first (4200 - sizeof_header) - OVERHEAD)
  /\ load8 (heap run_second) 4250 = load8 (heap run_first) 4250.
Proof.
  assert (Hq : 4200 ∈ [4200]) by left.
  assert (Hi : 4200 <= 4250
               < 4200 + (block_size run_first (4200 - sizeof_header) - OVERHEAD))
    by (split; [lia|vm_compute; reflexivity]).
  split; [exact run_first_reachable|]. split; [exact run_second_malloc|].
  split; [exact Hq|]. split; [exact Hi|].
  exact (mm_malloc_keeps _ _ _ _ _ _ 4200 4250 run_first_reachable run_second_malloc Hq Hi).
Defined.

Lemma mm_realloc_copies_witness :
  reachable run_written [4320; 4200] /\ 4200 ∈ [4320; 4200] /\ 0 <= 300 <= 2 ^ 32 - 24
  /\ mm_realloc memlib_sbrk 4 4200 300 run_written = Some (Returned 4536 (snd run_moved))
  /\ 0 <= 0 < 300 /\ 0 < block_size run_written (4200 - sizeof_header) - OVERHEAD
  /\ load8 (heap (snd run_moved)) (4536 + 0) = load8 (heap run_written) (4200 + 0).
Proof.
  assert (Hp : 4200 ∈ [4320; 4200]) by (right; left).
  assert (Hu : 0 <= 300 <= 2 ^ 32 - 24) by lia.
  assert (Hj : 0 <= 0 < 300) by lia.
  assert (Hjp : 0 < block_size run_written (4200 - sizeof_header) - OVERHEAD)
    by (vm_compute; reflexivity).
  split; [exact run_written_reachable|]. split; [exact Hp|]. split; [exact Hu|].
  split; [exact run_moved_realloc|]. split; [exact Hj|]. split; [exact Hjp|].
  exact (mm_realloc_copies _ _ _ _ _ _ _ 0 run_written_reachable Hp Hu run_moved_realloc
           Hj Hjp).
Defined.


Lemma after_init_reachable : reachable (after_init roomy) [].
Proof. apply reach_init. split; vm_compute; discriminate. Defined.

Lemma exact_fit_reachable : reachable (after_init exact_fit) [].
Proof. apply reach_init. split; vm_compute; discriminate. Defined.

Lemma mm_malloc_small_witness :
  reachable (after_init roomy) [] /\ 10 <> 0 /\ adjust_size 10 <= 96
  /\ mem_brk (extender (after_init roomy)) + adjust_size 10
     <= mem_max_addr (extender (after_init roomy))
  /\ exists st',
       mm_malloc memlib_sbrk 0 10 (after_init roomy)
       = Some (mem_brk (extender (after_init roomy)), st')
       /\ mem_brk (extender st') = mem_brk (extender (after_init roomy)) + adjust_size 10.
Proof.
  assert (Hu : 10 <> 0) by discriminate.
  assert (Hs : adjust_size 10 <= 96) by (vm_compute; discriminate).
  assert (Hroom : mem_brk (extender (after_init roomy)) + adjust_size 10
                  <= mem_max_addr (extender (after_init roomy)))
    by (vm_compute; discriminate).
  split; [exact after_init_reachable|]. split; [exact Hu|]. split; [exact Hs|].
  split; [exact Hroom|].
  exact (mm_malloc_small _ _ 0%nat 10 after_init_reachable Hu Hs Hroom).
Defined.

Lemma exact_fit_null :
  mm_malloc memlib_sbrk 4 70000 (after_init exact_fit) = Some (NULL, after_init exact_fit).
Proof. vm_compute. reflexivity. Defined.

Lemma mm_malloc_null_witness :
  reachable (after_init exact_fit) []
  /\ mm_malloc memlib_sbrk 4 70000 (after_init exact_fit)
     = Some (NULL, after_init exact_fit)
  /\ (70000 = 0
      \/ (find_fit 4 (adjust_size 70000) (after_init exact_fit) = Some NULL
          /\ mem_max_addr (extender (after_init exact_fit))
             < mem_brk (extender (after_init exact_fit))
               + (if CHUNKSIZE <? adjust_size 70000 then adjust_size 70000
                  else CHUNKSIZE))).
Proof.
  split; [exact exact_fit_reachable|]. split; [exact exact_fit_null|].
  exact (proj2 (mm_malloc_null _ _ _ _ _ exact_fit_reachable exact_fit_null)).
Defined.

Lemma mm_malloc_serves_witness :
  reachable (after_init roomy) [] /\ 100 <> 0
  /\ mem_brk (extender (after_init roomy))
     + (if CHUNKSIZE <? adjust_size 100 then adjust_size 100 else CHUNKSIZE)
     <= mem_max_addr (extender (after_init roomy))
  /\ exists n, forall fuel, (n < fuel)%nat ->
       exists p st', mm_malloc memlib_sbrk fuel 100 (after_init roomy) = Some (p, st')
                     /\ p <> NULL.
Proof.
  assert (Hu : 100 <> 0) by discriminate.
  assert (Hroom : mem_brk (extender (after_init roomy))
                  + (if CHUNKSIZE <? adjust_size 100 then adjust_size 100 else CHUNKSIZE)
                  <= mem_max_addr (extender (after_init roomy)))
    by (vm_compute; discriminate).
  split; [exact after_init_reachable|]. split; [exact Hu|]. split; [exact Hroom|].
  exact (mm_malloc_serves _ _ 100 after_init_reachable Hu Hroom).
Defined.

(** * The allocator with one list: the adjusted size *)

Lemma h_adjust_size_eq u : Handout.adjust_size u = adjust_size u.
Proof. reflexivity. Qed.

Lemma h_adjust_size_range u : MIN_BLOCK_SIZE <= Handout.adjust_size u < 2 ^ 32.
Proof. rewrite h_adjust_size_eq. apply adjust_size_range. Qed.

Lemma h_adjust_size_mod8 u : Handout.adjust_size u mod 8 = 0.
Proof. rewrite h_adjust_size_eq. apply adjust_size_mod8. Qed.

Lemma h_adjust_size_required u :
  0 < u <= 2 ^ 32 - 24 -> Handout.adjust_size u = required_size u.
Proof. rewrite h_adjust_size_eq. apply adjust_size_required. Qed.

Import Handout.

(** * The allocator with one list: projections of an updated state *)

Section HProjections.

Context {E : Type}.
Implicit Types (st : state E) (f : mem -> mem).

Lemma h_heap_on_heap f st : heap (on_heap f st) = f (heap st).
Proof. reflexivity. Qed.
Lemma h_head_on_heap f st : head (on_heap f st) = head st.
Proof. reflexivity. Qed.
Lemma h_prologue_on_heap f st : prologue (on_heap f st) = prologue st.
Proof. reflexivity. Qed.
Lemma h_extender_on_heap f st : extender (on_heap f st) = extender st.
Proof. reflexivity. Qed.

Lemma h_heap_set_head p st : heap (set_head p st) = heap st.
Proof. reflexivity. Qed.
Lemma h_head_set_head p st : head (set_head p st) = p.
Proof. reflexivity. Qed.
Lemma h_prologue_set_head p st : prologue (set_head p st) = prologue st.
Proof. reflexivity. Qed.
Lemma h_extender_set_head p st : extender (set_head p st) = extender st.
Proof. reflexivity. Qed.

Lemma h_heap_mkState m s p (e : E) : heap (mkState m s p e) = m.
Proof. reflexivity. Qed.
Lemma h_head_mkState m s p (e : E) : head (mkState m s p e) = s.
Proof. reflexivity. Qed.
Lemma h_prologue_mkState m s p (e : E) : prologue (mkState m s p e) = p.
Proof. reflexivity. Qed.
Lemma h_extender_mkState m s p (e : E) : extender (mkState m s p e) = e.
Proof. reflexivity. Qed.

Lemma h_set_allocated_eq b v st : set_allocated b v st = on_heap (put_allocated b v) st.
Proof. reflexivity. Qed.
Lemma h_set_block_size_eq b s st :
  set_block_size b s st = on_heap (put_block_size b s) st.
Proof. reflexivity. Qed.
Lemma h_set_next_eq b p st : set_next b p st = on_heap (store64 (b + 8) p) st.
Proof. reflexivity. Qed.
Lemma h_set_prev_eq b p st : set_prev b p st = on_heap (store64 (b + 16) p) st.
Proof. reflexivity. Qed.

Lemma h_allocated_eq st b : allocated st b = get_allocated (heap st) b.
Proof. reflexivity. Qed.
Lemma h_block_size_eq st b : block_size st b = get_block_size (heap st) b.
Proof. reflexivity. Qed.
Lemma h_next_eq st b : next st b = load64 (heap st) (b + 8).
Proof. reflexivity. Qed.
Lemma h_prev_eq st b : prev st b = load64 (heap st) (b + 16).
Proof. reflexivity. Qed.
Lemma h_get_footer_eq st b : get_footer st b = b + get_block_size (heap st) b - 8.
Proof. reflexivity. Qed.
Lemma h_prev_get st b : prev st b = get_prev (heap st) b.
Proof. reflexivity. Qed.
Lemma h_next_get st b : next st b = get_next (heap st) b.
Proof. reflexivity. Qed.

Lemma h_st_eta st : mkState (heap st) (head st) (prologue st) (extender st) = st.
Proof. destruct st; reflexivity. Qed.

End HProjections.

Ltac hst_unfold :=
  repeat progress
    rewrite ?h_set_allocated_eq, ?h_set_block_size_eq, ?h_set_next_eq, ?h_set_prev_eq,
      ?h_allocated_eq, ?h_block_size_eq, ?h_next_eq, ?h_prev_eq,
      ?h_get_footer_eq, ?h_heap_on_heap, ?h_head_on_heap, ?h_prologue_on_heap,
      ?h_extender_on_heap, ?h_heap_set_head, ?h_head_set_head, ?h_prologue_set_head,
      ?h_extender_set_head, ?h_heap_mkState, ?h_head_mkState, ?h_prologue_mkState,
      ?h_extender_mkState, ?get_next_eq, ?get_prev_eq.

(** * The list operations *)

Section HListOps.

Context {E : Type}.
Implicit Types (st : state E) (l : list Z) (N : Z -> Prop).

Lemma h_list_pop_fields b st :
  prologue (list_pop b st) = prologue st /\ extender (list_pop b st) = extender st.
Proof.
  unfold list_pop.
  destruct (_ && _); [|destruct (_ =? _); [|destruct (_ =? _)]];
    cbv zeta; hst_unfold; auto.
Qed.

Lemma h_list_pop_cases b st :
  list_pop b st =
    if (prev st b =? NULL) && (next st b =? NULL) then
      set_prev b NULL (set_next b NULL (set_head NULL st))
    else if head st =? b then
      set_prev b NULL
        (set_prev (next (set_head (next st b) st) b) NULL (set_head (next st b) st))
    else if next st b =? NULL then
      set_prev b NULL (set_next (prev st b) NULL st)
    else
      set_prev b NULL
        (set_next b NULL
           (set_next (prev (set_prev (next st b) (prev st b) st) b)
              (next (set_prev (next st b) (prev st b) st) b)
              (set_prev (next st b) (prev st b) st))).
Proof. reflexivity. Qed.

(** [list_pop] on a node of the list: the list without the node, and no
    write outside the links of the nodes. *)
Lemma h_list_pop_ok st l N b :
  node_space N -> (forall x, x ∈ l -> N x) -> list_ok st l -> b ∈ l ->
  list_ok (list_pop b st) (filter (fun y => y <> b) l)
  /\ (forall i, (forall x, x ∈ l -> i < x + 8 \/ x + 24 <= i) ->
                load8 (heap (list_pop b st)) i = load8 (heap st) i)
  /\ (prev (list_pop b st) b = NULL
      /\ next (list_pop b st) b = if head st =? b then next st b else NULL).
Proof.
  intros HNS HNk [Hd Hndk] Hb.
  pose proof HNS as [Hpos Hfits Hapart].
  destruct (list_elem_of_split _ _ Hb) as (l1 & l2 & Hfl). subst l.
  destruct (dll_app_links _ _ _ _ _ _ Hd) as [Hprev Hnext].
  pose proof (dll_nonnull _ _ _ _ Hd) as Hnn.
  pose proof (dll_hd _ _ _ _ Hd) as Hhd.
  rewrite <- h_prev_get in Hprev. rewrite <- h_next_get in Hnext.
  assert (HNb : N b) by (apply HNk, elem_of_app; right; left).
  pose proof (Hpos b HNb) as Hba. pose proof (Hfits b HNb) as Hbf.
  cut (dll (heap (list_pop b st)) NULL (head (list_pop b st)) (l1 ++ l2)
       /\ (forall i, (forall x, x ∈ l1 ++ b :: l2 -> i < x + 8 \/ x + 24 <= i) ->
                    load8 (heap (list_pop b st)) i = load8 (heap st) i)
       /\ (prev (list_pop b st) b = NULL
           /\ next (list_pop b st) b = if head st =? b then next st b else NULL)).
  { intros (Hnew & Hfr & Hlinks). split; [|split; [exact Hfr|exact Hlinks]].
    rewrite filter_ne_split by exact Hndk. split; [exact Hnew|].
    apply NoDup_app in Hndk as (Hn1 & Hc & Hn2). apply NoDup_cons in Hn2 as [Hb2 Hn2].
    apply NoDup_app. split; [exact Hn1|]. split; [|exact Hn2].
    intros x Hx1 Hx2. apply (Hc x Hx1). now right. }
  rewrite h_list_pop_cases, Hprev, Hnext, Hhd.
  rewrite h_next_eq in Hnext. rewrite h_prev_eq in Hprev.
  destruct l1 as [|x l1]; destruct l2 as [|n l2].
  - (* the only node *)
    cbn [List.last hd app]. rewrite !Z.eqb_refl. cbn [andb].
    split; [|split].
    + cbn [dll]. hst_unfold. reflexivity.
    + intros i Hi. hst_unfold. pose proof (Hi b ltac:(left)).
      rewrite !load8_store64 by lia. reflexivity.
    + split; hst_unfold; mem_simpl; uint_simpl; reflexivity.
  - (* the first node *)
    cbn [List.last hd app] in *. rewrite !Z.eqb_refl.
    assert (Hn : n <> NULL) by (apply Hnn; right; left).
    destruct (Z.eqb_spec n NULL) as [|_]; [contradiction|]. cbn [andb].
    assert (HNn : N n) by (apply HNk; right; left).
    pose proof (Hpos n HNn). pose proof (Hfits n HNn).
    apply NoDup_cons in Hndk as Hnd'. destruct Hnd' as [Hbn Hnd'].
    assert (Hbn' : b <> n) by (intros ->; apply Hbn; left).
    pose proof (Hapart b n HNb HNn Hbn').
    assert (R : next (set_head n st) b = n).
    { hst_unfold. exact Hnext. }
    rewrite R. clear R.
    split; [|split].
    + replace (head (set_prev b NULL (set_prev n NULL (set_head n st)))) with n
        by (hst_unfold; reflexivity).
      rewrite Hhd in Hd.
      apply (dll_behead (heap st) _ NULL NULL b); [exact Hd|exact Hndk| | |].
      * rewrite get_prev_eq. hst_unfold. mem_simpl. reflexivity.
      * rewrite !get_next_eq. hst_unfold. mem_simpl. reflexivity.
      * intros y Hy.
        assert (HNy : N y) by (apply HNk; right; right; exact Hy).
        pose proof (Hpos y HNy).
        apply NoDup_cons in Hnd' as [Hnl _].
        assert (y <> n) by (intros ->; contradiction).
        assert (y <> b) by (intros ->; apply Hbn; right; exact Hy).
        pose proof (Hapart y n HNy HNn ltac:(assumption)).
        pose proof (Hapart y b HNy HNb ltac:(assumption)).
        rewrite !get_next_eq, !get_prev_eq. hst_unfold. mem_simpl. auto.
    + intros i Hx. hst_unfold.
      pose proof (Hx n ltac:(right; left)). pose proof (Hx b ltac:(left)).
      rewrite !load8_store64 by lia. reflexivity.
    + split; hst_unfold; mem_simpl; uint_simpl; [reflexivity|exact Hnext].
  - (* the last node *)
    set (pb := List.last (x :: l1) NULL) in *.
    assert (Hpl : pb ∈ x :: l1) by (apply last_in; congruence).
    assert (Hpb : pb <> NULL) by (apply Hnn, elem_of_app; left; exact Hpl).
    assert (HNp : N pb) by (apply HNk, elem_of_app; left; exact Hpl).
    pose proof (Hpos pb HNp). pose proof (Hfits pb HNp).
    assert (Hxb : x <> b).
    { intros ->. apply NoDup_cons in Hndk as [Hc _]. apply Hc, elem_of_app.
      right. left. }
    assert (Hpbb : pb <> b).
    { intros Heq. apply NoDup_app in Hndk as (_ & Hc & _).
      apply (Hc pb Hpl). rewrite Heq. left. }
    pose proof (Hapart pb b HNp HNb Hpbb).
    cbn [hd] in *. rewrite Z.eqb_refl.
    replace (hd NULL ((x :: l1) ++ [b])) with x by reflexivity.
    destruct (Z.eqb_spec pb NULL) as [|_]; [contradiction|]. cbn [andb].
    destruct (Z.eqb_spec x b) as [|_]; [contradiction|].
    rewrite app_nil_r.
    split; [|split].
    + replace (head (set_prev b NULL (set_next pb NULL st))) with (head st)
        by (hst_unfold; reflexivity).
      replace (x :: l1) with ((x :: l1) ++ []) by apply app_nil_r.
      apply (dll_unlink (heap st) _ b [] (x :: l1)); try assumption;
        try congruence.
      * intros y Hy. rewrite app_nil_r in Hy. cbn [hd]. fold pb.
        assert (HNy : N y) by (apply HNk, elem_of_app; left; exact Hy).
        pose proof (Hpos y HNy). pose proof (Hfits y HNy).
        assert (Hyb : y <> b).
        { intros ->. apply NoDup_app in Hndk as (_ & Hc & _). apply (Hc b Hy). left. }
        pose proof (Hapart y b HNy HNb Hyb).
        rewrite !get_next_eq. hst_unfold.
        destruct (decide (y = pb)) as [->|Hne].
        -- mem_simpl. reflexivity.
        -- pose proof (Hapart y pb HNy HNp Hne). mem_simpl. reflexivity.
      * intros y Hy. rewrite app_nil_r in Hy. cbn [hd]. fold pb.
        assert (HNy : N y) by (apply HNk, elem_of_app; left; exact Hy).
        assert (y <> NULL) by (apply Hnn, elem_of_app; left; exact Hy).
        destruct (decide (y = NULL)) as [|_]; [contradiction|].
        pose proof (Hpos y HNy). pose proof (Hfits y HNy).
        assert (Hyb : y <> b).
        { intros ->. apply NoDup_app in Hndk as (_ & Hc & _). apply (Hc b Hy). left. }
        pose proof (Hapart y b HNy HNb Hyb).
        rewrite !get_prev_eq. hst_unfold.
        destruct (decide (y = pb)) as [->|Hne].
        -- mem_simpl. reflexivity.
        -- pose proof (Hapart y pb HNy HNp Hne). mem_simpl. reflexivity.
    + intros i Hx. hst_unfold.
      pose proof (Hx pb ltac:(apply elem_of_app; left; exact Hpl)).
      pose proof (Hx b ltac:(apply elem_of_app; right; left)).
      rewrite !load8_store64 by lia. reflexivity.
    + split; hst_unfold; mem_simpl; uint_simpl; [reflexivity|exact Hnext].
  - (* a node between two others *)
    set (pb := List.last (x :: l1) NULL) in *.
    assert (Hpl : pb ∈ x :: l1) by (apply last_in; congruence).
    assert (Hpb : pb <> NULL) by (apply Hnn, elem_of_app; left; exact Hpl).
    assert (HNp : N pb) by (apply HNk, elem_of_app; left; exact Hpl).
    pose proof (Hpos pb HNp). pose proof (Hfits pb HNp).
    assert (Hxb : x <> b).
    { intros ->. apply NoDup_cons in Hndk as [Hc _]. apply Hc, elem_of_app.
      right. left. }
    assert (Hn : n <> NULL) by (apply Hnn, elem_of_app; right; right; left).
    assert (HNn : N n) by (apply HNk, elem_of_app; right; right; left).
    pose proof (Hpos n HNn). pose proof (Hfits n HNn).
    pose proof Hndk as Hnd3. apply NoDup_app in Hnd3 as (Hnd1 & Hc & Hnd2).
    apply NoDup_cons in Hnd2 as [Hbl2 Hnd2].
    assert (Hbn : b <> n) by (intros ->; apply Hbl2; left).
    assert (Hpbb : pb <> b) by (intros ->; apply (Hc b Hpl); left).
    assert (Hpn : pb <> n) by (intros ->; apply (Hc n Hpl); right; left).
    pose proof (Hapart b n HNb HNn Hbn).
    pose proof (Hapart pb b HNp HNb Hpbb).
    pose proof (Hapart pb n HNp HNn Hpn).
    cbn [hd] in *.
    replace (hd NULL ((x :: l1) ++ b :: n :: l2)) with x by reflexivity.
    destruct (Z.eqb_spec pb NULL) as [|_]; [contradiction|]. cbn [andb].
    destruct (Z.eqb_spec x b) as [|_]; [contradiction|].
    destruct (Z.eqb_spec n NULL) as [|_]; [contradiction|].
    assert (R1 : prev (set_prev n pb st) b = pb).
    { hst_unfold. mem_simpl. exact Hprev. }
    assert (R2 : next (set_prev n pb st) b = n).
    { hst_unfold. mem_simpl. exact Hnext. }
    rewrite R1, R2. clear R1 R2.
    split; [|split].
    + replace (head (set_prev b NULL (set_next b NULL
                       (set_next pb n (set_prev n pb st))))) with (head st)
        by (hst_unfold; reflexivity).
      apply (dll_unlink (heap st) _ b (n :: l2) (x :: l1)); try assumption;
        try congruence.
      * intros y Hy. cbn [hd]. fold pb.
        assert (HNy : N y).
        { apply HNk. apply elem_of_app in Hy as [Hy|Hy]; apply elem_of_app;
            [left|right; right]; exact Hy. }
        assert (Hyb : y <> b).
        { intros ->. apply elem_of_app in Hy as [Hy|Hy];
            [apply (Hc b Hy); left|contradiction]. }
        pose proof (Hapart y b HNy HNb Hyb).
        pose proof (Hpos y HNy). pose proof (Hfits y HNy).
        rewrite !get_next_eq. hst_unfold.
        destruct (decide (y = pb)) as [->|Hne].
        -- mem_simpl. uint_simpl. reflexivity.
        -- pose proof (Hapart y pb HNy HNp Hne).
           destruct (decide (y = n)) as [->|Hne2].
           ++ mem_simpl. reflexivity.
           ++ pose proof (Hapart y n HNy HNn Hne2). mem_simpl. reflexivity.
      * intros y Hy. cbn [hd]. fold pb.
        assert (HNy : N y).
        { apply HNk. apply elem_of_app in Hy as [Hy|Hy]; apply elem_of_app;
            [left|right; right]; exact Hy. }
        assert (Hyb : y <> b).
        { intros ->. apply elem_of_app in Hy as [Hy|Hy];
            [apply (Hc b Hy); left|contradiction]. }
        pose proof (Hapart y b HNy HNb Hyb).
        pose proof (Hpos y HNy). pose proof (Hfits y HNy).
        rewrite !get_prev_eq. hst_unfold.
        destruct (decide (y = n)) as [->|Hne].
        -- mem_simpl. uint_simpl. reflexivity.
        -- pose proof (Hapart y n HNy HNn Hne).
           destruct (decide (y = pb)) as [->|Hne2].
           ++ mem_simpl. reflexivity.
           ++ pose proof (Hapart y pb HNy HNp Hne2). mem_simpl. reflexivity.
    + intros i Hx. hst_unfold.
      pose proof (Hx pb ltac:(apply elem_of_app; left; exact Hpl)).
      pose proof (Hx n ltac:(apply elem_of_app; right; right; left)).
      pose proof (Hx b ltac:(apply elem_of_app; right; left)).
      rewrite !load8_store64 by lia. reflexivity.
    + split; hst_unfold; mem_simpl; uint_simpl; reflexivity.
Qed.

Lemma h_list_push_cases b st :
  list_push b st =
    if head st =? NULL then
      set_next b NULL (set_prev b NULL (set_head b st))
    else
      set_head b
        (set_prev (head (set_prev b NULL (set_next b (head st) st))) b
           (set_prev b NULL (set_next b (head st) st))).
Proof. reflexivity. Qed.

Lemma h_list_push_fields b st :
  prologue (list_push b st) = prologue st /\ extender (list_push b st) = extender st.
Proof. rewrite h_list_push_cases. destruct (_ =? _); hst_unfold; auto. Qed.

(** [list_push] of a node that is not on the list: the node in front of
    the list, and no write outside its links and the [prev] link of the
    old first node. *)
Lemma h_list_push_ok st l N b :
  node_space N -> (forall x, x ∈ l -> N x) -> list_ok st l -> N b -> b ∉ l ->
  list_ok (list_push b st) (b :: l)
  /\ (forall i, (i < b + 8 \/ b + 24 <= i) ->
                (forall x, x ∈ l -> i < x + 8 \/ x + 24 <= i) ->
                load8 (heap (list_push b st)) i = load8 (heap st) i).
Proof.
  intros HNS HNk [Hd Hndk] HNb Hfresh.
  pose proof HNS as [Hpos Hfits Hapart].
  pose proof (dll_nonnull _ _ _ _ Hd) as Hnn.
  pose proof (dll_hd _ _ _ _ Hd) as Hhd.
  pose proof (Hpos b HNb) as Hba. pose proof (Hfits b HNb) as Hbf.
  assert (Hb0 : b <> NULL) by (rewrite NULL_eq; lia).
  cut (dll (heap (list_push b st)) NULL (head (list_push b st)) (b :: l)
       /\ (forall i, (i < b + 8 \/ b + 24 <= i) ->
                (forall x, x ∈ l -> i < x + 8 \/ x + 24 <= i) ->
                load8 (heap (list_push b st)) i = load8 (heap st) i)).
  { intros (Hnew & Hfr). split; [|exact Hfr]. split; [exact Hnew|].
    apply NoDup_cons. split; assumption. }
  rewrite h_list_push_cases.
  destruct (Z.eqb_spec (head st) NULL) as [Hnull|Hnonnull].
  - (* the list was empty *)
    assert (Hl : l = []).
    { destruct l as [|h l]; [reflexivity|]. exfalso.
      apply (Hnn h); [left|]. cbn [hd] in Hhd. congruence. }
    subst l.
    split.
    + replace (head (set_next b NULL (set_prev b NULL (set_head b st)))) with b
        by (hst_unfold; reflexivity).
      apply (dll_cons (heap st) _ b NULL []); try assumption.
      * reflexivity.
      * rewrite get_prev_eq. hst_unfold. mem_simpl. reflexivity.
      * rewrite get_next_eq. hst_unfold. mem_simpl. reflexivity.
      * intros y Hy. inversion Hy.
    + intros i Hib _. hst_unfold. rewrite !load8_store64 by lia. reflexivity.
  - (* in front of the old first node *)
    set (h := head st) in *.
    assert (Hhl : h ∈ l).
    { destruct l as [|h' l]; cbn [hd] in Hhd; [congruence|].
      rewrite Hhd. left. }
    assert (HNh : N h) by (apply HNk; exact Hhl).
    pose proof (Hpos h HNh). pose proof (Hfits h HNh).
    assert (Hhb : h <> b) by (intros ->; apply (Hfresh Hhl)).
    pose proof (Hapart h b HNh HNb Hhb).
    assert (R : head (set_prev b NULL (set_next b h st)) = h).
    { hst_unfold. reflexivity. }
    rewrite R. clear R.
    split.
    + replace (head (set_head b (set_prev h b (set_prev b NULL (set_next b h st)))))
        with b by (hst_unfold; reflexivity).
      apply (dll_cons (heap st) _ b h l); try assumption.
      * rewrite get_prev_eq. hst_unfold. mem_simpl. reflexivity.
      * rewrite get_next_eq. hst_unfold. mem_simpl. uint_simpl. reflexivity.
      * intros y Hy.
        assert (HNy : N y) by (apply HNk; exact Hy).
        pose proof (Hpos y HNy).
        assert (Hyb : y <> b) by (intros ->; apply (Hfresh Hy)).
        pose proof (Hapart y b HNy HNb Hyb).
        rewrite !get_next_eq, !get_prev_eq. hst_unfold.
        destruct (decide (y = h)) as [->|Hne].
        -- mem_simpl. uint_simpl. auto.
        -- pose proof (Hapart y h HNy HNh Hne). mem_simpl. auto.
    + intros i Hib Hx. hst_unfold.
      pose proof (Hx h Hhl).
      rewrite !load8_store64 by lia. reflexivity.
Qed.

End HListOps.

(** * The allocator with one list: blocks in a row *)

Section HBlocks.

Context {E : Type}.
Implicit Types (st : state E) (bs : list blk).

Lemma h_blocks_ok_pos st bs : blocks_ok st bs -> forall B, B ∈ bs -> 0 < b_size B.
Proof. intros H B HB. destruct (bo_sizes _ _ H B HB) as (? & _). lia. Qed.

Lemma h_blocks_ok_range st bs B :
  blocks_ok st bs -> B ∈ bs ->
  prologue st + 8 <= b_addr B
  /\ b_addr B + b_size B <= prologue st + 8 + total_size bs.
Proof.
  intros H HB.
  pose proof (contig_below _ _ B (h_blocks_ok_pos _ _ H) (bo_contig _ _ H) HB) as Hr.
  rewrite sizeof_header_eq in Hr. exact Hr.
Qed.

Lemma h_blocks_node_space st bs : blocks_ok st bs -> node_space (block_node bs).
Proof.
  intros H. pose proof (bo_base _ _ H) as Hpos.
  pose proof (bo_bound _ _ H) as [_ Hfit].
  rewrite sizeof_header_eq in Hfit.
  split.
  - intros x (B & HB & <- & _).
    pose proof (h_blocks_ok_range _ _ _ H HB). lia.
  - intros x (B & HB & <- & Hs). rewrite MIN_BLOCK_SIZE_eq in Hs.
    pose proof (h_blocks_ok_range _ _ _ H HB). lia.
  - intros x y (B & HB & <- & Hs) (B' & HB' & <- & Hs') Hne.
    rewrite MIN_BLOCK_SIZE_eq in Hs, Hs'.
    destruct (contig_disjoint _ _ B B' (h_blocks_ok_pos _ _ H) (bo_contig _ _ H) HB HB')
      as [->|[?|?]]; [congruence|lia|lia].
Qed.

Lemma h_nodes_free_in bs (l : list Z) st :
  blocks_ok st bs -> nodes_free bs l -> forall x, x ∈ l -> block_node bs x.
Proof.
  intros H Hn x Hx. destruct (Hn x Hx) as (B & HB & Ha & Hf).
  exists B. repeat split; try assumption.
  destruct (bo_sizes _ _ H B HB) as (_ & _ & Hfree). auto.
Qed.

(** A tag is not in the links of a node. *)
Lemma h_tag_byte_apart st bs i :
  blocks_ok st bs -> tag_byte st bs i ->
  forall x, block_node bs x -> i < x + 8 \/ x + 24 <= i.
Proof.
  intros H Ht.
  pose proof (total_size_nonneg bs (h_blocks_ok_pos _ _ H)) as Htot.
  destruct Ht as [Hp|[He|(B & HB & Hi)]].
  - intros x (B' & HB' & <- & _).
    pose proof (h_blocks_ok_range _ _ _ H HB'). lia.
  - intros x (B' & HB' & <- & Hs). rewrite MIN_BLOCK_SIZE_eq in Hs.
    pose proof (h_blocks_ok_range _ _ _ H HB'). lia.
  - pose proof (h_blocks_ok_range _ _ _ H HB) as HrB.
    destruct (bo_sizes _ _ H B HB) as (Hs8 & _).
    intros x (B' & HB' & <- & Hs').
    rewrite MIN_BLOCK_SIZE_eq in Hs'.
    destruct (contig_disjoint _ _ B B' (h_blocks_ok_pos _ _ H) (bo_contig _ _ H) HB HB')
      as [->|[?|?]]; lia.
Qed.

(** The blocks stay what they are when no tag is written. *)
Lemma h_blocks_ok_frame st st' bs :
  blocks_ok st bs -> prologue st' = prologue st ->
  (forall i, tag_byte st bs i -> load8 (heap st') i = load8 (heap st) i) ->
  blocks_ok st' bs.
Proof.
  intros [Hh Hp Hc He Hb Hs Ht] HP Hfr.
  split; rewrite ?HP; try assumption.
  - destruct Hp as [Hp1 Hp2]. split.
    + rewrite <- Hp1. apply get_block_size_ext. intros i Hi. apply Hfr. left. lia.
    + rewrite <- Hp2. apply get_allocated_ext. intros i Hi. apply Hfr. left. lia.
  - cbv zeta in *. destruct He as [He1 He2]. rewrite sizeof_header_eq in *. split.
    + rewrite <- He1. apply get_block_size_ext. intros i Hi. apply Hfr. right. left. lia.
    + rewrite <- He2. apply get_allocated_ext. intros i Hi. apply Hfr. right. left. lia.
  - intros B HB. unfold tagged.
    assert (F : forall i, b_addr B <= i < b_addr B + 4
                  \/ b_addr B + b_size B - 8 <= i < b_addr B + b_size B - 4 ->
                  load8 (heap st') i = load8 (heap st) i).
    { intros i Hi. apply Hfr. right. right. exists B. split; assumption. }
    rewrite (get_block_size_ext (heap st) (heap st') (b_addr B))
      by (intros; apply F; lia).
    rewrite (get_allocated_ext (heap st) (heap st') (b_addr B))
      by (intros; apply F; lia).
    rewrite (get_block_size_ext (heap st) (heap st') (b_addr B + b_size B - 8))
      by (intros; apply F; lia).
    rewrite (get_allocated_ext (heap st) (heap st') (b_addr B + b_size B - 8))
      by (intros; apply F; lia).
    exact (Ht B HB).
Qed.

(** The list stays what it is when neither [head] nor a link of a node
    is written. *)
Lemma h_list_ok_frame st st' (l : list Z) :
  list_ok st l -> head st' = head st ->
  (forall y i, y ∈ l -> y + 8 <= i < y + 24 ->
             load8 (heap st') i = load8 (heap st) i) ->
  list_ok st' l.
Proof.
  intros [Hd Hn] HS Hl. split; [|exact Hn]. rewrite HS.
  apply (dll_frame (heap st)); [exact Hd|]. intros y Hy. split.
  - apply get_next_frame. intros i Hi. apply (Hl y); [exact Hy|lia].
  - apply get_prev_frame. intros i Hi. apply (Hl y); [exact Hy|lia].
Qed.

Lemma h_pop_pre st bs (l : list Z) b :
  Pre (mkHeap bs l) st -> b ∈ l ->
  Pre (mkHeap bs (filter (fun y => y <> b) l)) (list_pop b st).
Proof.
  intros [Hb Hl Hn] Hin. cbn [blocks flist] in *.
  pose proof (h_blocks_node_space _ _ Hb) as HNS.
  pose proof (h_nodes_free_in _ _ _ Hb Hn) as HN.
  destruct (h_list_pop_ok st l _ b HNS HN Hl Hin) as (Hl' & Hfr & _).
  destruct (h_list_pop_fields b st) as (HP & _).
  split; cbn [blocks flist].
  - apply (h_blocks_ok_frame st); try assumption.
    intros i Hi. pose proof (h_tag_byte_apart _ _ _ Hb Hi) as Hi2.
    apply Hfr. intros x Hx. apply Hi2. exact (HN x Hx).
  - exact Hl'.
  - intros x Hx. apply list_elem_of_filter in Hx as [_ Hx]. auto.
Qed.

Lemma h_push_pre st bs (l : list Z) x :
  Pre (mkHeap bs l) st -> free_block bs x -> x ∉ l ->
  Pre (mkHeap bs (x :: l)) (list_push x st).
Proof.
  intros [Hb Hl Hn] Hx Hfresh. cbn [blocks flist] in *.
  pose proof (h_blocks_node_space _ _ Hb) as HNS.
  pose proof (h_nodes_free_in _ _ _ Hb Hn) as HN.
  assert (HNx : block_node bs x).
  { destruct Hx as (B & HB & Ha & Hf). exists B. repeat split; try assumption.
    destruct (bo_sizes _ _ Hb B HB) as (_ & _ & Hfree). auto. }
  destruct (h_list_push_ok st l _ x HNS HN Hl HNx Hfresh) as [Hl' Hfr].
  destruct (h_list_push_fields x st) as (HP & _).
  split; cbn [blocks flist].
  - apply (h_blocks_ok_frame st); try assumption.
    intros i Hi. pose proof (h_tag_byte_apart _ _ _ Hb Hi) as Hi2.
    apply Hfr; [apply Hi2; exact HNx|].
    intros y Hy. apply Hi2. exact (HN y Hy).
  - exact Hl'.
  - intros y Hy. apply elem_of_cons in Hy as [->|Hy]; auto.
Qed.

Lemma h_free_block_mono bs bs' x :
  (forall B, B ∈ bs -> B ∈ bs') -> free_block bs x -> free_block bs' x.
Proof. intros H (B & HB & Hr). exists B. split; auto. Qed.

(** Rewriting the tags of a stretch of blocks that are off the list. *)
Lemma h_retag_pre st st' (l1 old new l2 : list blk) (l : list Z) :
  Pre (mkHeap (l1 ++ old ++ l2) l) st ->
  nodes_free (l1 ++ l2) l ->
  total_size new = total_size old ->
  (forall B, B ∈ new -> size_ok B) ->
  contig (prologue st + 8 + total_size l1) new ->
  head st' = head st -> prologue st' = prologue st ->
  (forall B, B ∈ new -> tagged (heap st') B) ->
  (forall i, i < prologue st + 8 + total_size l1
             \/ prologue st + 8 + total_size l1 + total_size old <= i ->
             load8 (heap st') i = load8 (heap st) i) ->
  Pre (mkHeap (l1 ++ new ++ l2) l) st'.
Proof.
  intros [Hb Hl Hn] Hn' Htot Hsz Hcn HS HP Htag Hfr. cbn [blocks flist] in *.
  pose proof Hb as [Hh Hp Hc He Hbd Hs Ht].
  pose proof (h_blocks_ok_pos _ _ Hb) as Hpos.
  rewrite sizeof_header_eq in *.
  destruct (contig_parts _ _ _ _ Hpos Hc) as [Hr1 Hr2].
  pose proof Hc as Hc'. apply contig_app in Hc' as [Hc1 Hc2].
  apply contig_app in Hc2 as [_ Hc2].
  assert (Ht1 : 0 <= total_size l1).
  { apply total_size_nonneg. intros B HB. apply Hpos, elem_of_app. now left. }
  assert (Hto : 0 <= total_size old).
  { apply total_size_nonneg. intros B HB. apply Hpos, elem_of_app. right.
    apply elem_of_app. now left. }
  assert (Ht2 : 0 <= total_size l2).
  { apply total_size_nonneg. intros B HB. apply Hpos, elem_of_app. right.
    apply elem_of_app. now right. }
  assert (Htotal : total_size (l1 ++ new ++ l2) = total_size (l1 ++ old ++ l2)).
  { rewrite !total_size_app. lia. }
  split; cbn [blocks flist].
  - split; rewrite ?HP, ?sizeof_header_eq, ?Htotal; try assumption.
    + destruct Hp as [Hp1 Hp2]. split.
      * rewrite <- Hp1. apply get_block_size_ext. intros i Hi. apply Hfr. lia.
      * rewrite <- Hp2. apply get_allocated_ext. intros i Hi. apply Hfr. lia.
    + apply contig_app. split; [exact Hc1|]. apply contig_app. split; [exact Hcn|].
      rewrite Htot. exact Hc2.
    + cbv zeta in *. destruct He as [He1 He2].
      rewrite !total_size_app in *. split.
      * rewrite <- He1. apply get_block_size_ext. intros i Hi. apply Hfr. lia.
      * rewrite <- He2. apply get_allocated_ext. intros i Hi. apply Hfr. lia.
    + intros B HB. apply elem_of_app in HB as [HB|HB];
        [apply Hs, elem_of_app; now left|].
      apply elem_of_app in HB as [HB|HB]; [now apply Hsz|].
      apply Hs, elem_of_app. right. apply elem_of_app. now right.
    + intros B HB.
      assert (Hold : B ∈ l1 \/ B ∈ l2 -> tagged (heap st') B).
      { intros Hin.
        assert (HB' : B ∈ l1 ++ old ++ l2).
        { destruct Hin; apply elem_of_app; [now left|right; apply elem_of_app; now right]. }
        assert (Hout : b_addr B + b_size B <= prologue st + 8 + total_size l1
                       \/ prologue st + 8 + total_size l1 + total_size old <= b_addr B).
        { destruct Hin as [Hin|Hin]; [left; apply Hr1; exact Hin|right; apply Hr2; exact Hin]. }
        destruct (Hs B HB') as (Hs8 & _).
        unfold tagged.
        rewrite (get_block_size_ext (heap st) (heap st') (b_addr B))
          by (intros; apply Hfr; lia).
        rewrite (get_allocated_ext (heap st) (heap st') (b_addr B))
          by (intros; apply Hfr; lia).
        rewrite (get_block_size_ext (heap st) (heap st') (b_addr B + b_size B - 8))
          by (intros; apply Hfr; lia).
        rewrite (get_allocated_ext (heap st) (heap st') (b_addr B + b_size B - 8))
          by (intros; apply Hfr; lia).
        exact (Ht B HB'). }
      apply elem_of_app in HB as [HB|HB]; [apply Hold; now left|].
      apply elem_of_app in HB as [HB|HB]; [now apply Htag|apply Hold; now right].
  - apply (h_list_ok_frame st); [exact Hl|exact HS|].
    intros y i Hy Hi. destruct (Hn' y Hy) as (B & HB & <- & Hf).
    assert (HB' : B ∈ l1 ++ old ++ l2).
    { apply elem_of_app in HB as [HB|HB]; apply elem_of_app;
        [now left|right; apply elem_of_app; now right]. }
    destruct (Hs B HB') as (_ & _ & Hfree). specialize (Hfree Hf).
    rewrite MIN_BLOCK_SIZE_eq in Hfree.
    apply Hfr. apply elem_of_app in HB as [HB|HB].
    + pose proof (Hr1 B HB). lia.
    + pose proof (Hr2 B HB). lia.
  - intros y Hy. apply (h_free_block_mono (l1 ++ l2)); [|apply Hn'; assumption].
    intros B HB. apply elem_of_app in HB as [HB|HB]; apply elem_of_app;
      [now left|right; apply elem_of_app; now right].
Qed.

End HBlocks.

(** * The allocator with one list: [place] *)

Section HPlace.

Context {E : Type}.
Implicit Types (st : state E).

(** What the representation says of one block of the row. *)
Lemma h_blocks_ok_at st l1 B l2 :
  blocks_ok st (l1 ++ B :: l2) ->
  b_addr B = prologue st + 8 + total_size l1
  /\ 0 <= total_size l1 /\ 0 <= total_size l2
  /\ size_ok B /\ tagged (heap st) B
  /\ 0 < prologue st
  /\ 8 + (total_size l1 + (b_size B + total_size l2)) + 8 < 2 ^ 31
  /\ prologue st + 8 + (total_size l1 + (b_size B + total_size l2)) + 8 <= 2 ^ 64.
Proof.
  intros Hb. pose proof (h_blocks_ok_pos _ _ Hb) as Hpos.
  destruct Hb as [Hh Hp Hc He Hbd Hs Ht].
  rewrite sizeof_header_eq in *.
  apply contig_app in Hc as [_ Hc]. cbn [contig] in Hc. destruct Hc as [Ha _].
  rewrite total_size_app in Hbd. cbn [total_size] in Hbd.
  assert (HB : B ∈ l1 ++ B :: l2) by (apply elem_of_app; right; left).
  repeat split; try tauto; try lia; try (apply Hs, HB); try (apply Ht, HB).
  - apply total_size_nonneg. intros B' HB'. apply Hpos, elem_of_app. now left.
  - apply total_size_nonneg. intros B' HB'. apply Hpos, elem_of_app. right. now right.
Qed.

(** Once a block is off the list, all nodes are among the other blocks. *)
Lemma h_nodes_free_removed l1 B l2 (fl : list Z) :
  nodes_free (l1 ++ B :: l2) fl ->
  nodes_free (l1 ++ l2) (filter (fun y => y <> b_addr B) fl).
Proof.
  intros Hn x Hx. apply list_elem_of_filter in Hx as [Hne Hx].
  destruct (Hn x Hx) as (B' & HB' & Ha & Hf).
  exists B'. repeat split; try assumption.
  apply elem_of_app in HB' as [HB'|HB']; apply elem_of_app; [now left|].
  apply elem_of_cons in HB' as [->|HB']; [|now right].
  exfalso. apply Hne; congruence.
Qed.

(** The blocks around a stretch have addresses outside it. *)
Lemma h_around_outside st l1 mid l2 B :
  blocks_ok st (l1 ++ mid ++ l2) -> B ∈ l1 ++ l2 ->
  b_addr B + b_size B <= prologue st + 8 + total_size l1
  \/ prologue st + 8 + total_size l1 + total_size mid <= b_addr B.
Proof.
  intros Hb HB. pose proof (h_blocks_ok_pos _ _ Hb) as Hpos.
  pose proof (bo_contig _ _ Hb) as Hc. rewrite sizeof_header_eq in Hc.
  destruct (contig_parts _ _ _ _ Hpos Hc) as [Hr1 Hr2].
  apply elem_of_app in HB as [HB|HB]; [left; apply Hr1, HB|right; apply Hr2, HB].
Qed.

(** The sizes that the headers of the blocks hold. *)
Lemma h_pre_size st bs fl B :
  Pre (mkHeap bs fl) st -> B ∈ bs -> block_size st (b_addr B) = b_size B.
Proof.
  intros HPre HB. rewrite h_block_size_eq.
  apply (bo_tagged _ _ (pre_blocks _ _ HPre) B HB).
Qed.

(** A byte of an allocated payload is in no free block. *)
Lemma h_payload_apart st bs B i :
  blocks_ok st bs -> B ∈ bs -> b_alloc B = true ->
  b_addr B + 8 <= i < b_addr B + b_size B - 8 ->
  forall X, X ∈ bs -> b_alloc X = false ->
    i < b_addr X \/ b_addr X + b_size X <= i.
Proof.
  intros Hb HB Ha Hi X HX HXa.
  destruct (contig_disjoint _ _ B X (h_blocks_ok_pos _ _ Hb) (bo_contig _ _ Hb) HB HX)
    as [->|[Hd|Hd]]; [congruence|lia|lia].
Qed.

Lemma h_pop_kept st bs (fl : list Z) b :
  Pre (mkHeap bs fl) st -> b ∈ fl ->
  payloads_kept bs (heap st) (heap (list_pop b st)).
Proof.
  intros [Hb Hl Hn] Hin B i HB Ha Hi. cbn [blocks flist] in *.
  pose proof (h_blocks_node_space _ _ Hb) as HNS.
  pose proof (h_nodes_free_in _ _ _ Hb Hn) as HN.
  destruct (h_list_pop_ok st fl _ b HNS HN Hl Hin) as (_ & Hfr & _).
  pose proof (h_payload_apart st bs B i Hb HB Ha Hi) as Hout.
  apply Hfr. intros x Hx.
  destruct (Hn x Hx) as (X & HX & <- & HXf).
  destruct (bo_sizes _ _ Hb X HX) as (_ & _ & H32). specialize (H32 HXf).
  rewrite MIN_BLOCK_SIZE_eq in H32. destruct (Hout X HX HXf); lia.
Qed.

Lemma h_push_kept st bs (fl : list Z) x :
  Pre (mkHeap bs fl) st -> free_block bs x -> x ∉ fl ->
  payloads_kept bs (heap st) (heap (list_push x st)).
Proof.
  intros [Hb Hl Hn] Hx Hfresh B i HB Ha Hi. cbn [blocks flist] in *.
  pose proof (h_blocks_node_space _ _ Hb) as HNS.
  pose proof (h_nodes_free_in _ _ _ Hb Hn) as HN.
  assert (HNx : block_node bs x).
  { destruct Hx as (X & HX & Hax & Hf). exists X. repeat split; try assumption.
    destruct (bo_sizes _ _ Hb X HX) as (_ & _ & Hfree). auto. }
  destruct (h_list_push_ok st fl _ x HNS HN Hl HNx Hfresh) as [_ Hfr].
  pose proof (h_payload_apart st bs B i Hb HB Ha Hi) as Hout.
  assert (Hnode : forall y, free_block bs y -> i < y + 8 \/ y + 24 <= i).
  { intros y (Y & HY & <- & HYf).
    destruct (bo_sizes _ _ Hb Y HY) as (_ & _ & H32). specialize (H32 HYf).
    rewrite MIN_BLOCK_SIZE_eq in H32. destruct (Hout Y HY HYf); lia. }
  apply Hfr; [now apply Hnode|].
  intros y Hy. apply Hnode, (Hn y Hy).
Qed.

(** [place] on a free block that is on the list.  With a residual of at
    least [MIN_BLOCK_SIZE] the block is taken off the list, becomes an
    allocated block of [asize] bytes, and the residual becomes a free
    block at offset [asize] that is pushed on the list; with a smaller
    residual the block is taken off the list and marked allocated at its
    full size.  No payload of another block is written. *)
Lemma h_place_rep st l1 l2 fl b s asize :
  Rep (mkHeap (l1 ++ mkBlk b s false :: l2) fl) st ->
  0 < asize <= s -> asize mod 8 = 0 ->
  let r := s - asize in
  let st' := place b asize st in
  let fl1 := filter (fun y => y <> b) fl in
  (prologue st' = prologue st /\ extender st' = extender st
   /\ if MIN_BLOCK_SIZE <=? r then
        Rep (mkHeap (l1 ++ mkBlk b asize true :: mkBlk (b + asize) r false :: l2)
                    ((b + asize) :: fl1)) st'
      else
        Rep (mkHeap (l1 ++ mkBlk b s true :: l2) fl1) st')
  /\ payloads_kept (l1 ++ l2) (heap st) (heap st').
Proof.
  intros [HPre Hfl] Has Ha8 r st' fl1. cbn [blocks flist] in *.
  pose proof (pre_blocks _ _ HPre) as Hb. cbn [blocks] in Hb.
  destruct (h_blocks_ok_at _ _ _ _ Hb)
    as (Hadr & Ht1 & Ht2 & Hsz & Htag & HP0 & Hb31 & Hb64).
  cbn [b_addr b_size b_alloc] in *.
  destruct Hsz as (Hs8 & Hsm & Hs32). cbn [b_addr b_size b_alloc] in *.
  specialize (Hs32 eq_refl). rewrite MIN_BLOCK_SIZE_eq in Hs32.
  destruct Htag as (T1 & T2 & T3 & T4). cbn [b_addr b_size b_alloc] in *.
  assert (Hin : b ∈ fl).
  { apply (Hfl (mkBlk b s false)); [apply elem_of_app; right; left|reflexivity]. }
  pose proof (h_pop_pre _ _ _ _ HPre Hin) as HPre1. fold fl1 in HPre1.
  pose proof (h_pop_kept _ _ _ _ HPre Hin) as Hk1.
  destruct (h_list_pop_fields b st) as (HP1 & HE1).
  assert (Hplace : place b asize st = st') by reflexivity. clearbody st'.
  cbv beta delta [place] in Hplace.
  assert (Hbs : block_size st b = s) by (rewrite h_block_size_eq; exact T1).
  rewrite Hbs in Hplace.
  replace (to_size_t (s - asize)) with r in Hplace by (unfold r; now uint_simpl).
  cbv zeta in Hplace.
  set (st1 := list_pop b st) in *.
  assert (Hout : forall B, B ∈ l1 ++ [mkBlk b s false] ++ l2 -> B <> mkBlk b s false ->
                   0 < b_size B /\ (b_addr B + b_size B <= b \/ b + s <= b_addr B)).
  { intros B HB Hne. split; [apply (h_blocks_ok_pos _ _ Hb), HB|].
    assert (HB' : B ∈ l1 ++ l2).
    { apply in_around_inv in HB as [HB|HB]; [exact HB|].
      apply list_elem_of_singleton in HB. contradiction. }
    pose proof (h_around_outside st l1 [mkBlk b s false] l2 B Hb HB') as H.
    cbn [total_size b_size] in H. lia. }
  assert (Hout' : forall B, B ∈ l1 ++ l2 ->
                   0 < b_size B /\ (b_addr B + b_size B <= b \/ b + s <= b_addr B)).
  { intros B HB. split; [apply (h_blocks_ok_pos _ _ Hb), (in_around _ [mkBlk b s false]), HB|].
    pose proof (h_around_outside st l1 [mkBlk b s false] l2 B Hb HB) as H.
    cbn [total_size b_size] in H. lia. }
  clear Hout. rename Hout' into Hout.
  assert (Hkeep : forall B, B ∈ l1 ++ l2 -> b_alloc B = false ->
                    b_addr B ∈ fl1).
  { intros B HB Hf. apply list_elem_of_filter. split.
    - intros Heq. destruct (Hout B HB). lia.
    - apply Hfl; [|exact Hf]. apply (in_around _ [mkBlk b s false]), HB. }
  assert (Hcases : asize = 8 \/ 16 <= asize) by (apply mod8_cases; [lia|assumption]).
  assert (T1' : get_block_size (heap st1) b = s /\ get_block_size (heap st1) (b + s - 8) = s).
  { destruct (bo_tagged _ _ (pre_blocks _ _ HPre1) (mkBlk b s false)) as (? & _ & ? & _);
      [apply elem_of_app; right; left|]. auto. }
  destruct T1' as [T1' T3'].
  assert (Tg1 : tagged (heap st1) (mkBlk b s false)).
  { apply (bo_tagged _ _ (pre_blocks _ _ HPre1)). apply elem_of_app; right; left. }
  clearbody st1.
  destruct (Z.leb_spec MIN_BLOCK_SIZE r) as [Hr|Hr]; rewrite MIN_BLOCK_SIZE_eq in Hr.
  - (* split *)
    set (st3 := set_allocated b ALLOC (set_block_size b asize st1)) in *.
    assert (R1 : get_footer st3 b = b + asize - 8).
    { clear Hplace. rewrite h_get_footer_eq. cut (get_block_size (heap st3) b = asize); [lia|].
      unfold st3. hst_unfold. mem_simpl. now uint_simpl. }
    rewrite R1 in Hplace.
    set (st5 := set_allocated (b + asize - 8) ALLOC
                  (set_block_size (b + asize - 8) asize st3)) in *.
    assert (H5 : heap st5
                 = put_allocated (b + asize - 8) (flag true)
                     (put_block_size (b + asize - 8) asize
                        (put_allocated b (flag true) (put_block_size b asize (heap st1))))).
    { unfold st5, st3. hst_unfold. reflexivity. }
    destruct (write_tags (heap st1) b asize true Hcases ltac:(lia)) as [Tg5 Fr5].
    cbv zeta in Tg5, Fr5. rewrite <- H5 in Tg5, Fr5.
    assert (F5 : head st5 = head st1 /\ prologue st5 = prologue st1
                 /\ extender st5 = extender st1).
    { unfold st5, st3. hst_unfold. auto. }
    clearbody st5. clear st3 R1 H5.
    assert (R2 : block_size st5 b = asize).
    { rewrite h_block_size_eq. apply Tg5. }
    rewrite R2 in Hplace.
    set (st7 := set_allocated (b + asize) FREE (set_block_size (b + asize) r st5)) in *.
    assert (R3 : get_footer st7 (b + asize) = b + asize + r - 8).
    { clear Hplace. rewrite h_get_footer_eq.
      cut (get_block_size (heap st7) (b + asize) = r); [lia|].
      unfold st7. hst_unfold. mem_simpl. uint_simpl. reflexivity. }
    rewrite R3 in Hplace.
    set (st9 := set_allocated (b + asize + r - 8) FREE
                  (set_block_size (b + asize + r - 8) r st7)) in *.
    assert (H9 : heap st9
                 = put_allocated (b + asize + r - 8) (flag false)
                     (put_block_size (b + asize + r - 8) r
                        (put_allocated (b + asize) (flag false)
                           (put_block_size (b + asize) r (heap st5))))).
    { unfold st9, st7. hst_unfold. reflexivity. }
    destruct (write_tags (heap st5) (b + asize) r false ltac:(lia) ltac:(lia)) as [Tg9 Fr9].
    cbv zeta in Tg9, Fr9. rewrite <- H9 in Tg9, Fr9.
    assert (F9 : head st9 = head st5 /\ prologue st9 = prologue st5
                 /\ extender st9 = extender st5).
    { unfold st9, st7. hst_unfold. auto. }
    clearbody st9. clear st7 R3 H9.
    assert (R4 : block_size st9 (b + asize) = r).
    { rewrite h_block_size_eq. apply Tg9. }
    destruct F5 as (F5a & F5b & F5c), F9 as (F9a & F9b & F9c).
    destruct (h_list_push_fields (b + asize) st9) as (FSb & FSc).
    rewrite Hplace in FSb, FSc.
    assert (Hr8 : r mod 8 = 0).
    { unfold r. rewrite Zminus_mod, Hsm, Ha8. reflexivity. }
    pose proof (h_nodes_free_removed _ _ _ _ (pre_nodes _ _ HPre)) as Hnf.
    cbn [blocks flist b_addr b_size] in Hnf. fold fl1 in Hnf.
    assert (HPre9 : Pre (mkHeap (l1 ++ [mkBlk b asize true; mkBlk (b + asize) r false] ++ l2)
                                fl1) st9).
    { apply (h_retag_pre st1 st9 l1 [mkBlk b s false]); try assumption; try congruence.
      - cbn [total_size b_size]. unfold r. lia.
      - intros B HB. apply elem_of_cons in HB as [->|HB];
          [|apply list_elem_of_singleton in HB as ->];
          unfold size_ok; cbn [b_size b_alloc]; rewrite ?MIN_BLOCK_SIZE_eq;
          repeat split; try lia; try assumption; try discriminate.
      - cbn [contig b_addr b_size]. rewrite HP1. repeat split; lia.
      - intros B HB. apply elem_of_cons in HB as [->|HB];
          [|apply list_elem_of_singleton in HB as ->]; [|exact Tg9].
        apply (tagged_ext (heap st5)); [cbn [b_size]; lia| |exact Tg5].
        cbn [b_addr b_size]. intros i Hi. apply Fr9. lia.
      - cbn [total_size b_size]. rewrite HP1. intros i Hi.
        rewrite Fr9 by (unfold r; lia). apply Fr5. lia. }
    assert (Hfb : free_block (l1 ++ [mkBlk b asize true; mkBlk (b + asize) r false] ++ l2)
                    (b + asize)).
    { exists (mkBlk (b + asize) r false). repeat split.
      apply elem_of_app; right; right; left. }
    assert (Hfresh : b + asize ∉ fl1).
    { intros Hx. destruct (Hnf _ Hx) as (B & HB & Ha & _).
      destruct (Hout B HB). lia. }
    pose proof (h_push_kept st9 _ fl1 (b + asize) HPre9 Hfb Hfresh) as Hpk.
    rewrite Hplace in Hpk.
    split.
    { split; [congruence|split; [congruence|]].
      rewrite <- Hplace. split; cbn [blocks flist].
      + apply (h_push_pre st9); assumption.
      + intros B HB Hf.
        apply (in_around_inv l1 [_; _]) in HB as [HB|HB].
        * right. apply Hkeep; assumption.
        * apply elem_of_cons in HB as [->|HB]; [discriminate|].
          apply list_elem_of_singleton in HB as ->. left. }
    intros B i HB Ha Hi. destruct (Hout B HB) as [Hpos Hd].
    rewrite (Hpk B i (in_around l1 [_; _] l2 B HB) Ha Hi).
    rewrite Fr9 by (unfold r; lia). rewrite Fr5 by lia.
    exact (Hk1 B i (in_around l1 [_] l2 B HB) Ha Hi).
  - (* no split *)
    assert (R1 : get_footer (set_allocated b ALLOC st1) b = b + s - 8).
    { clear Hplace. rewrite h_get_footer_eq.
      cut (get_block_size (heap (set_allocated b ALLOC st1)) b = s); [lia|].
      hst_unfold. mem_simpl. exact T1'. }
    rewrite R1 in Hplace.
    assert (H3 : heap st' = put_allocated (b + s - 8) (flag true)
                              (put_allocated b (flag true) (heap st1))).
    { rewrite <- Hplace. hst_unfold. reflexivity. }
    destruct (mark_tags (heap st1) b s false true Tg1 ltac:(lia)) as [Tg3 Fr3].
    cbv zeta in Tg3, Fr3. rewrite <- H3 in Tg3, Fr3.
    assert (F3 : head st' = head st1 /\ prologue st' = prologue st1
                 /\ extender st' = extender st1).
    { rewrite <- Hplace. hst_unfold. auto. }
    destruct F3 as (F3a & F3b & F3c).
    clear Hplace R1 H3.
    pose proof (h_nodes_free_removed _ _ _ _ (pre_nodes _ _ HPre)) as Hnf.
    cbn [blocks flist b_addr b_size] in Hnf. fold fl1 in Hnf.
    split.
    2:{ intros B i HB Ha Hi. destruct (Hout B HB) as [Hpos Hd].
        rewrite Fr3 by lia. exact (Hk1 B i (in_around l1 [_] l2 B HB) Ha Hi). }
    split; [congruence|split; [congruence|]].
    split; cbn [blocks flist].
    + apply (h_retag_pre st1 st' l1 [mkBlk b s false] [mkBlk b s true]);
        try assumption; try congruence; try reflexivity.
      * intros B HB. apply list_elem_of_singleton in HB as ->.
        unfold size_ok; cbn [b_size b_alloc]. repeat split; try lia; try assumption;
          try discriminate.
      * cbn [contig b_addr b_size]. rewrite HP1. repeat split; lia.
      * intros B HB. apply list_elem_of_singleton in HB as ->. exact Tg3.
      * cbn [total_size b_size]. rewrite HP1. intros i Hi. apply Fr3. lia.
    + intros B HB Hf.
      apply (in_around_inv l1 [_]) in HB as [HB|HB].
      * apply Hkeep; assumption.
      * apply list_elem_of_singleton in HB as ->. discriminate.
Qed.

End HPlace.

(** * The allocator with one list: [coalesce] *)

Section HMerge.

Context {E : Type}.
Implicit Types (st : state E).

Lemma h_nodes_free_drop bs bs' B (fl : list Z) :
  nodes_free bs fl ->
  (forall B', B' ∈ bs -> B' = B \/ B' ∈ bs') ->
  nodes_free bs' (filter (fun y => y <> b_addr B) fl).
Proof.
  intros Hn Hsub x Hx. apply list_elem_of_filter in Hx as [Hne Hx].
  destruct (Hn x Hx) as (B' & HB' & Ha & Hf).
  destruct (Hsub B' HB') as [->|HB'']; [exfalso; apply Hne; congruence|].
  exists B'. auto.
Qed.

(** The free blocks that are listed stay listed when another node is
    taken off. *)
Lemma h_listed_drop (outer : list blk) (fl : list Z) x :
  (forall B, B ∈ outer -> b_alloc B = false -> b_addr B ∈ fl) ->
  (forall B, B ∈ outer -> b_addr B <> x) ->
  forall B, B ∈ outer -> b_alloc B = false ->
    b_addr B ∈ filter (fun y => y <> x) fl.
Proof.
  intros Hl Hne B HB Hf. apply list_elem_of_filter. split; [now apply Hne|].
  now apply Hl.
Qed.

(** A stretch of free blocks that are off the list becomes one free
    block on the list; no payload of a block outside it is written. *)
Lemma h_merge_rep st l1 mid l2 fl a S :
  Pre (mkHeap (l1 ++ mid ++ l2) fl) st ->
  nodes_free (l1 ++ l2) fl ->
  (forall B, B ∈ l1 ++ l2 -> b_alloc B = false -> b_addr B ∈ fl) ->
  a = prologue st + 8 + total_size l1 -> S = total_size mid ->
  get_allocated (heap st) a = FREE -> get_allocated (heap st) (a + S - 8) = FREE ->
  32 <= S -> S mod 8 = 0 ->
  let st' := list_push a (set_block_size (a + S - 8) S (set_block_size a S st)) in
  (prologue st' = prologue st /\ extender st' = extender st)
  /\ Rep (mkHeap (l1 ++ mkBlk a S false :: l2) (a :: fl)) st'
  /\ payloads_kept (l1 ++ l2) (heap st) (heap st').
Proof.
  intros HPre Hnf Hl Ha HS Ta Tf HS32 HS8 st'.
  pose proof (pre_blocks _ _ HPre) as Hb. cbn [blocks] in Hb.
  pose proof (h_blocks_ok_pos _ _ Hb) as Hpos.
  pose proof (bo_bound _ _ Hb) as [Hb31 Hb64]. rewrite !total_size_app in Hb31, Hb64.
  rewrite sizeof_header_eq in *.
  assert (Ht1 : 0 <= total_size l1).
  { apply total_size_nonneg. intros B HB. apply Hpos, elem_of_app. now left. }
  assert (Ht2 : 0 <= total_size l2).
  { apply total_size_nonneg. intros B HB. apply Hpos, elem_of_app. right.
    apply elem_of_app. now right. }
  set (st4 := set_block_size (a + S - 8) S (set_block_size a S st)) in *.
  assert (H4 : heap st4 = put_block_size (a + S - 8) S (put_block_size a S (heap st))).
  { unfold st4. hst_unfold. reflexivity. }
  destruct (size_tags (heap st) a S false Ta Tf ltac:(lia) ltac:(lia)) as [Tg4 Fr4].
  cbv zeta in Tg4, Fr4. rewrite <- H4 in Tg4, Fr4.
  assert (F4 : head st4 = head st /\ prologue st4 = prologue st
               /\ extender st4 = extender st).
  { unfold st4. hst_unfold. auto. }
  destruct F4 as (F4a & F4b & F4c). clearbody st4. clear H4.
  destruct (h_list_push_fields a st4) as (FSb & FSc).
  fold st' in FSb, FSc.
  assert (Hout : forall B, B ∈ l1 ++ l2 ->
                   0 < b_size B /\ (b_addr B + b_size B <= a \/ a + S <= b_addr B)).
  { intros B HB. split; [apply Hpos, in_around, HB|].
    pose proof (h_around_outside st l1 mid l2 B Hb HB) as H. lia. }
  assert (HPre4 : Pre (mkHeap (l1 ++ [mkBlk a S false] ++ l2) fl) st4).
  { apply (h_retag_pre st st4 l1 mid); try assumption.
    - cbn [total_size b_size]. lia.
    - intros B HB. apply list_elem_of_singleton in HB as ->.
      unfold size_ok; cbn [b_size b_alloc]; rewrite ?MIN_BLOCK_SIZE_eq.
      repeat split; try lia; try assumption.
    - cbn [contig b_addr b_size]. split; [lia|exact I].
    - intros B HB. apply list_elem_of_singleton in HB as ->. exact Tg4.
    - intros i Hi. apply Fr4. lia. }
  assert (Hfb : free_block (l1 ++ [mkBlk a S false] ++ l2) a).
  { exists (mkBlk a S false). repeat split. apply elem_of_app; right; left. }
  assert (Hfresh : a ∉ fl).
  { intros Hx. destruct (Hnf _ Hx) as (B & HB & Hadr & _).
    destruct (Hout B HB). lia. }
  split; [split; congruence|]. split.
  - split; cbn [blocks flist].
    + apply (h_push_pre st4); assumption.
    + intros B HB Hf.
      apply (in_around_inv l1 [_]) in HB as [HB|HB].
      * right. apply Hl; assumption.
      * apply list_elem_of_singleton in HB as ->. left.
  - pose proof (h_push_kept st4 _ fl a HPre4 Hfb Hfresh) as Hpk.
    intros B i HB Hal Hi. destruct (Hout B HB) as [Hp Hd]. unfold st'.
    rewrite (Hpk B i (in_around l1 [_] l2 B HB) Hal Hi). apply Fr4. lia.
Qed.

End HMerge.

Section HCoalesce.

Context {E : Type}.
Implicit Types (st : state E).

Lemma h_before_tags st l1 B l2 :
  blocks_ok st (l1 ++ B :: l2) ->
  (l1 = [] -> allocated st (b_addr B - 8) = ALLOC)
  /\ (forall l1' P, l1 = l1' ++ [P] ->
        allocated st (b_addr B - 8) = flag (b_alloc P)
        /\ block_size st (b_addr B - 8) = b_size P
        /\ b_addr P = b_addr B - b_size P
        /\ b_addr P = prologue st + 8 + total_size l1').
Proof.
  intros Hb. split.
  - intros ->. destruct (h_blocks_ok_at _ _ _ _ Hb) as (Ha & _).
    cbn [total_size] in Ha. rewrite h_allocated_eq.
    replace (b_addr B - 8) with (prologue st) by lia. apply (bo_prologue _ _ Hb).
  - intros l1' P ->. rewrite <- app_assoc in Hb. cbn [app] in Hb.
    destruct (h_blocks_ok_at _ _ _ _ Hb) as (Ha & _ & _ & _ & (_ & _ & T3 & T4) & _).
    pose proof (bo_contig _ _ Hb) as Hc. apply contig_app in Hc as [_ Hc].
    cbn [contig] in Hc. destruct Hc as (HaP & HaB & _).
    rewrite h_allocated_eq, h_block_size_eq.
    replace (b_addr B - 8) with (b_addr P + b_size P - 8) by lia.
    repeat split; try assumption. lia.
Qed.

Lemma h_after_tags st l1 B l2 :
  blocks_ok st (l1 ++ B :: l2) ->
  (l2 = [] -> allocated st (b_addr B + b_size B) = ALLOC)
  /\ (forall N l2', l2 = N :: l2' ->
        allocated st (b_addr B + b_size B) = flag (b_alloc N)
        /\ block_size st (b_addr B + b_size B) = b_size N
        /\ b_addr N = b_addr B + b_size B).
Proof.
  intros Hb. split.
  - intros ->. destruct (h_blocks_ok_at _ _ _ _ Hb) as (Ha & _).
    pose proof (bo_epilogue _ _ Hb) as He. cbv zeta in He.
    rewrite total_size_app, sizeof_header_eq in He. cbn [total_size] in He.
    rewrite h_allocated_eq.
    replace (b_addr B + b_size B)
      with (prologue st + 8 + (total_size l1 + (b_size B + 0))) by lia.
    apply He.
  - intros N l2' ->.
    pose proof (bo_contig _ _ Hb) as Hc. apply contig_app in Hc as [_ Hc].
    cbn [contig] in Hc. destruct Hc as (HaB & HaN & _).
    destruct (bo_tagged _ _ Hb N) as (T1 & T2 & _);
      [apply elem_of_app; right; right; left|].
    rewrite h_allocated_eq, h_block_size_eq.
    replace (b_addr B + b_size B) with (b_addr N) by lia.
    repeat split; assumption.
Qed.

Lemma h_alloc_before_tag st l1 B l2 :
  blocks_ok st (l1 ++ B :: l2) -> alloc_before l1 ->
  allocated st (b_addr B - 8) = ALLOC.
Proof.
  intros Hb Hal. destruct (h_before_tags _ _ _ _ Hb) as [H0 H1].
  destruct l1 as [|X l1] using rev_ind; [now apply H0|].
  destruct (H1 _ _ eq_refl) as (Ha & _). rewrite Ha, (Hal _ _ eq_refl). reflexivity.
Qed.

Lemma h_alloc_after_tag st l1 B l2 :
  blocks_ok st (l1 ++ B :: l2) -> alloc_after l2 ->
  allocated st (b_addr B + b_size B) = ALLOC.
Proof.
  intros Hb Hal. destruct (h_after_tags _ _ _ _ Hb) as [H0 H1].
  destruct l2 as [|N l2]; [now apply H0|].
  destruct (H1 _ _ eq_refl) as (Ha & _). rewrite Ha, (Hal _ _ eq_refl). reflexivity.
Qed.

(** Taking a free block off the list. *)
Lemma h_pop_block st bs (fl : list Z) B :
  Pre (mkHeap bs fl) st -> B ∈ bs -> b_alloc B = false -> b_addr B ∈ fl ->
  let st1 := list_pop (b_addr B) st in
  Pre (mkHeap bs (filter (fun y => y <> b_addr B) fl)) st1
  /\ prologue st1 = prologue st /\ extender st1 = extender st.
Proof.
  intros HPre HB Hf Hin st1. split; [|apply h_list_pop_fields].
  apply h_pop_pre; assumption.
Qed.

(** Case 1: both neighbours are allocated. *)
Lemma h_coalesce_case1 st l1 B l2 :
  blocks_ok st (l1 ++ B :: l2) -> alloc_before l1 -> alloc_after l2 ->
  coalesce (b_addr B) st = (b_addr B, st).
Proof.
  intros Hb H1 H2. cbv beta delta [coalesce]. cbv zeta.
  rewrite sizeof_header_eq.
  replace (block_size st (b_addr B)) with (b_size B)
    by (symmetry; rewrite h_block_size_eq; apply (bo_tagged _ _ Hb B);
        apply elem_of_app; right; left).
  rewrite (h_alloc_before_tag _ _ _ _ Hb H1), (h_alloc_after_tag _ _ _ _ Hb H2).
  reflexivity.
Qed.

(** The end of the three merging cases: the new size goes to the header
    and to the footer that it leads to. *)
Lemma h_merge_tail st a S :
  16 <= S < 2 ^ 31 ->
  let st3 := set_block_size a S st in
  set_block_size (get_footer st3 a) (block_size st3 a) st3
  = set_block_size (a + S - 8) S (set_block_size a S st).
Proof.
  intros HS st3.
  assert (R1 : block_size st3 a = S).
  { unfold st3. hst_unfold. mem_simpl. now uint_simpl. }
  assert (R2 : get_footer st3 a = a + S - 8).
  { rewrite h_get_footer_eq, <- h_block_size_eq, R1. reflexivity. }
  rewrite R2, R1. reflexivity.
Qed.

(** Case 2: the block after is free. *)
Lemma h_coalesce_case2 st l1 b s n sN l2 fl :
  Rep (mkHeap (l1 ++ mkBlk b s false :: mkBlk n sN false :: l2) fl) st ->
  alloc_before l1 ->
  let S := s + sN in
  let fl' := b :: filter (fun y => y <> n) (filter (fun y => y <> b) fl) in
  let st' := snd (coalesce b st) in
  fst (coalesce b st) = b
  /\ (prologue st' = prologue st /\ extender st' = extender st)
  /\ Rep (mkHeap (l1 ++ mkBlk b S false :: l2) fl') st'
  /\ payloads_kept (l1 ++ l2) (heap st) (heap st').
Proof.
  intros [HPre Hfl] Hbefore S fl' st'. cbn [blocks flist] in *.
  set (B := mkBlk b s false) in *. set (N := mkBlk n sN false) in *.
  pose proof (pre_blocks _ _ HPre) as Hb. cbn [blocks] in Hb.
  assert (HB : B ∈ l1 ++ B :: N :: l2) by (apply elem_of_app; right; left).
  assert (HN : N ∈ l1 ++ B :: N :: l2) by (apply elem_of_app; right; right; left).
  destruct (h_blocks_ok_at _ _ _ _ Hb)
    as (Hadr & Ht1 & Ht2 & Hsz & Htag & HP0 & Hb31 & Hb64).
  cbn [total_size b_addr b_size b_alloc B N] in Hadr, Ht2, Hb31, Hb64.
  destruct (bo_sizes _ _ Hb B HB) as (_ & Hs8 & Hs32).
  destruct (bo_sizes _ _ Hb N HN) as (_ & HsN8 & HsN32).
  specialize (Hs32 eq_refl). specialize (HsN32 eq_refl).
  cbn [b_size B N] in Hs8, Hs32, HsN8, HsN32. rewrite MIN_BLOCK_SIZE_eq in Hs32, HsN32.
  assert (Ht2' : 0 <= total_size l2).
  { apply total_size_nonneg. intros B' HB'. apply (h_blocks_ok_pos _ _ Hb).
    apply elem_of_app. right. right. now right. }
  destruct (h_after_tags _ _ _ _ Hb) as [_ Hafter].
  destruct (Hafter _ _ eq_refl) as (Hna & Hns & Hnadr).
  cbn [b_addr b_size b_alloc B N] in Hna, Hns, Hnadr.
  pose proof (h_alloc_before_tag _ _ _ _ Hb Hbefore) as Hpa. cbn [b_addr B] in Hpa.
  pose proof (h_pre_size _ _ _ _ HPre HB) as Hbs. cbn [b_addr b_size B] in Hbs.
  assert (Hcoal : coalesce b st = (fst (coalesce b st), st')) by (destruct (coalesce b st); reflexivity).
  clearbody st'. revert Hcoal. generalize (fst (coalesce b st)) as res. intros res Hcoal.
  cbv beta delta [coalesce] in Hcoal. cbv zeta in Hcoal.
  rewrite ?sizeof_header_eq, ?Hbs, ?Hpa, ?Hna in Hcoal.
  change (negb (ALLOC =? 0)) with true in Hcoal.
  change (negb (flag false =? 0)) with false in Hcoal.
  cbn [andb negb] in Hcoal. cbv iota beta in Hcoal.
  rewrite <- Hnadr in Hcoal.
  (* pop of the block *)
  assert (Hin1 : b_addr B ∈ fl).
  { apply Hfl; [exact HB|reflexivity]. }
  pose proof (h_pop_kept st _ fl (b_addr B) HPre Hin1) as K1.
  destruct (h_pop_block st _ fl B HPre HB eq_refl Hin1) as (HPre1 & F1b & F1c).
  cbn [b_addr b_size B] in HPre1, F1b, F1c, K1.
  set (fl1 := filter (fun y => y <> b) fl) in *.
  set (st1 := list_pop b st) in *. clearbody st1.
  pose proof (h_pre_size _ _ _ _ HPre1 HN) as Hns1. cbn [b_addr b_size N] in Hns1.
  (* pop of the block after *)
  assert (Hne : n <> b) by lia.
  assert (Hin2 : b_addr N ∈ fl1).
  { apply list_elem_of_filter. split; [exact Hne|apply Hfl; [exact HN|reflexivity]]. }
  pose proof (h_pop_kept st1 _ fl1 (b_addr N) HPre1 Hin2) as K2.
  destruct (h_pop_block st1 _ fl1 N HPre1 HN eq_refl Hin2) as (HPre2 & F2b & F2c).
  cbn [b_addr b_size N] in HPre2, F2b, F2c, K2.
  set (fl2 := filter (fun y => y <> n) fl1) in *.
  set (st2 := list_pop n st1) in *. clearbody st2.
  pose proof (h_pre_size _ _ _ _ HPre2 HB) as Hbs2. cbn [b_addr b_size B] in Hbs2.
  pose proof (h_pre_size _ _ _ _ HPre2 HN) as Hns2. cbn [b_addr b_size N] in Hns2.
  rewrite ?Hbs2, ?Hns2 in Hcoal. fold S in Hcoal.
  pose proof (h_merge_tail st2 b S ltac:(unfold S; lia)) as Htail. cbv zeta in Htail.
  rewrite Htail in Hcoal. injection Hcoal as <- <-.
  split; [reflexivity|]. clear Htail.
  assert (Hout : forall B', B' ∈ l1 ++ l2 -> b_addr B' <> b /\ b_addr B' <> n).
  { intros B' HB'. pose proof (h_around_outside st l1 [B; N] l2 B' Hb HB') as Ho.
    pose proof (h_blocks_ok_pos _ _ Hb B' (in_around l1 [B; N] l2 B' HB')).
    cbn [total_size b_size B N] in Ho. lia. }
  destruct (bo_tagged _ _ (pre_blocks _ _ HPre2) B HB) as (_ & TB & _).
  destruct (bo_tagged _ _ (pre_blocks _ _ HPre2) N HN) as (_ & _ & _ & TN).
  cbn [b_addr b_size b_alloc B N] in TB, TN.
  destruct (h_merge_rep st2 l1 [B; N] l2 fl2 b S) as [(Fb & Fc) [HRep K9]];
    try assumption.
  - apply (h_nodes_free_drop (l1 ++ N :: l2) _ N).
    + apply (h_nodes_free_drop (l1 ++ B :: N :: l2) _ B); [apply (pre_nodes _ _ HPre)|].
      intros B'. rewrite !elem_of_app, !elem_of_cons. tauto.
    + intros B'. rewrite !elem_of_app, !elem_of_cons. tauto.
  - apply h_listed_drop; [apply h_listed_drop|].
    + intros B' HB' Hf. apply Hfl; [|exact Hf]. apply (in_around l1 [B; N] l2), HB'.
    + intros B' HB'. apply Hout, HB'.
    + intros B' HB'. apply Hout, HB'.
  - lia.
  - cbn [total_size b_size B N]. unfold S. lia.
  - replace (b + S - 8) with (n + sN - 8) by (unfold S; lia). exact TN.
  - unfold S. lia.
  - unfold S. rewrite Z.add_mod, Hs8, HsN8 by lia. reflexivity.
  - split; [split; congruence|]. split; [exact HRep|].
    intros X i HX Ha Hi.
    pose proof (in_around l1 [B; N] l2 X HX) as HX'.
    rewrite (K9 X i HX Ha Hi), (K2 X i HX' Ha Hi). exact (K1 X i HX' Ha Hi).
Qed.

(** Case 3: the block before is free. *)
Lemma h_coalesce_case3 st l1 p sP b s l2 fl :
  Rep (mkHeap (l1 ++ mkBlk p sP false :: mkBlk b s false :: l2) fl) st ->
  alloc_after l2 ->
  let S := sP + s in
  let fl' := p :: filter (fun y => y <> p) (filter (fun y => y <> b) fl) in
  let st' := snd (coalesce b st) in
  fst (coalesce b st) = p
  /\ (prologue st' = prologue st /\ extender st' = extender st)
  /\ Rep (mkHeap (l1 ++ mkBlk p S false :: l2) fl') st'
  /\ payloads_kept (l1 ++ l2) (heap st) (heap st').
Proof.
  intros [HPre Hfl] Hafter S fl' st'. cbn [blocks flist] in *.
  set (B := mkBlk b s false) in *. set (P := mkBlk p sP false) in *.
  pose proof (pre_blocks _ _ HPre) as Hb. cbn [blocks] in Hb.
  assert (HP : P ∈ l1 ++ P :: B :: l2) by (apply elem_of_app; right; left).
  assert (HB : B ∈ l1 ++ P :: B :: l2) by (apply elem_of_app; right; right; left).
  destruct (h_blocks_ok_at _ _ _ _ Hb)
    as (Hadr & Ht1 & Ht2 & Hsz & Htag & HP0 & Hb31 & Hb64).
  cbn [total_size b_addr b_size b_alloc B P] in Hadr, Ht2, Hb31, Hb64.
  destruct (bo_sizes _ _ Hb B HB) as (_ & Hs8 & Hs32).
  destruct (bo_sizes _ _ Hb P HP) as (_ & HsP8 & HsP32).
  specialize (Hs32 eq_refl). specialize (HsP32 eq_refl).
  cbn [b_size B P] in Hs8, Hs32, HsP8, HsP32. rewrite MIN_BLOCK_SIZE_eq in Hs32, HsP32.
  assert (Ht2' : 0 <= total_size l2).
  { apply total_size_nonneg. intros B' HB'. apply (h_blocks_ok_pos _ _ Hb).
    apply elem_of_app. right. right. now right. }
  assert (Hb' : blocks_ok st ((l1 ++ [P]) ++ B :: l2)).
  { rewrite <- app_assoc. exact Hb. }
  destruct (h_before_tags _ _ _ _ Hb') as [_ Hbefore].
  destruct (Hbefore _ _ eq_refl) as (Hpa & Hps & Hpadr & _).
  cbn [b_addr b_size b_alloc B P] in Hpa, Hps, Hpadr.
  pose proof (h_alloc_after_tag _ _ _ _ Hb' Hafter) as Hna. cbn [b_addr b_size B] in Hna.
  pose proof (h_pre_size _ _ _ _ HPre HB) as Hbs. cbn [b_addr b_size B] in Hbs.
  assert (Hcoal : coalesce b st = (fst (coalesce b st), st'))
    by (destruct (coalesce b st); reflexivity).
  clearbody st'. revert Hcoal. generalize (fst (coalesce b st)) as res. intros res Hcoal.
  cbv beta delta [coalesce] in Hcoal. cbv zeta in Hcoal.
  rewrite ?sizeof_header_eq, ?Hbs, ?Hpa, ?Hna, ?Hps in Hcoal.
  change (negb (ALLOC =? 0)) with true in Hcoal.
  change (negb (flag false =? 0)) with false in Hcoal.
  cbn [andb negb] in Hcoal. cbv iota beta in Hcoal.
  replace (b - 8 - sP + 8) with p in Hcoal by lia.
  (* pop of the block *)
  assert (Hin1 : b_addr B ∈ fl).
  { apply Hfl; [exact HB|reflexivity]. }
  pose proof (h_pop_kept st _ fl (b_addr B) HPre Hin1) as K1.
  destruct (h_pop_block st _ fl B HPre HB eq_refl Hin1) as (HPre1 & F1b & F1c).
  cbn [b_addr b_size B] in HPre1, F1b, F1c, K1.
  set (fl1 := filter (fun y => y <> b) fl) in *.
  set (st1 := list_pop b st) in *. clearbody st1.
  pose proof (h_pre_size _ _ _ _ HPre1 HP) as Hps1. cbn [b_addr b_size P] in Hps1.
  (* pop of the block before *)
  assert (Hne : p <> b) by lia.
  assert (Hin2 : b_addr P ∈ fl1).
  { apply list_elem_of_filter. split; [exact Hne|apply Hfl; [exact HP|reflexivity]]. }
  pose proof (h_pop_kept st1 _ fl1 (b_addr P) HPre1 Hin2) as K2.
  destruct (h_pop_block st1 _ fl1 P HPre1 HP eq_refl Hin2) as (HPre2 & F2b & F2c).
  cbn [b_addr b_size P] in HPre2, F2b, F2c, K2.
  set (fl2 := filter (fun y => y <> p) fl1) in *.
  set (st2 := list_pop p st1) in *. clearbody st2.
  pose proof (h_pre_size _ _ _ _ HPre2 HB) as Hbs2. cbn [b_addr b_size B] in Hbs2.
  pose proof (h_pre_size _ _ _ _ HPre2 HP) as Hps2. cbn [b_addr b_size P] in Hps2.
  rewrite ?Hbs2, ?Hps2 in Hcoal. fold S in Hcoal.
  pose proof (h_merge_tail st2 p S ltac:(unfold S; lia)) as Htail. cbv zeta in Htail.
  rewrite Htail in Hcoal. injection Hcoal as <- <-.
  split; [reflexivity|]. clear Htail.
  assert (Hout : forall B', B' ∈ l1 ++ l2 -> b_addr B' <> b /\ b_addr B' <> p).
  { intros B' HB'. pose proof (h_around_outside st l1 [P; B] l2 B' Hb HB') as Ho.
    pose proof (h_blocks_ok_pos _ _ Hb B' (in_around l1 [P; B] l2 B' HB')).
    cbn [total_size b_size B P] in Ho. lia. }
  destruct (bo_tagged _ _ (pre_blocks _ _ HPre2) P HP) as (_ & TP & _).
  destruct (bo_tagged _ _ (pre_blocks _ _ HPre2) B HB) as (_ & _ & _ & TB).
  cbn [b_addr b_size b_alloc B P] in TB, TP.
  destruct (h_merge_rep st2 l1 [P; B] l2 fl2 p S) as [(Fb & Fc) [HRep K9]];
    try assumption.
  - apply (h_nodes_free_drop (l1 ++ P :: l2) _ P).
    + apply (h_nodes_free_drop (l1 ++ P :: B :: l2) _ B); [apply (pre_nodes _ _ HPre)|].
      intros B'. rewrite !elem_of_app, !elem_of_cons. tauto.
    + intros B'. rewrite !elem_of_app, !elem_of_cons. tauto.
  - apply h_listed_drop; [apply h_listed_drop|].
    + intros B' HB' Hf. apply Hfl; [|exact Hf]. apply (in_around l1 [P; B] l2), HB'.
    + intros B' HB'. apply Hout, HB'.
    + intros B' HB'. apply Hout, HB'.
  - lia.
  - cbn [total_size b_size B P]. unfold S. lia.
  - replace (p + S - 8) with (b + s - 8) by (unfold S; lia). exact TB.
  - unfold S. lia.
  - unfold S. rewrite Z.add_mod, Hs8, HsP8 by lia. reflexivity.
  - split; [split; congruence|]. split; [exact HRep|].
    intros X i HX Ha Hi.
    pose proof (in_around l1 [P; B] l2 X HX) as HX'.
    rewrite (K9 X i HX Ha Hi), (K2 X i HX' Ha Hi). exact (K1 X i HX' Ha Hi).
Qed.

(** Case 4: the blocks before and after are free. *)
Lemma h_coalesce_case4 st l1 p sP b s n sN l2 fl :
  Rep (mkHeap (l1 ++ mkBlk p sP false :: mkBlk b s false :: mkBlk n sN false :: l2) fl)
      st ->
  let S := sP + (s + sN) in
  let fl' := p :: filter (fun y => y <> n)
                    (filter (fun y => y <> b) (filter (fun y => y <> p) fl)) in
  let st' := snd (coalesce b st) in
  fst (coalesce b st) = p
  /\ (prologue st' = prologue st /\ extender st' = extender st)
  /\ Rep (mkHeap (l1 ++ mkBlk p S false :: l2) fl') st'
  /\ payloads_kept (l1 ++ l2) (heap st) (heap st').
Proof.
  intros [HPre Hfl] S fl' st'. cbn [blocks flist] in *.
  set (B := mkBlk b s false) in *. set (P := mkBlk p sP false) in *.
  set (N := mkBlk n sN false) in *.
  pose proof (pre_blocks _ _ HPre) as Hb. cbn [blocks] in Hb.
  assert (HP : P ∈ l1 ++ P :: B :: N :: l2) by (apply elem_of_app; right; left).
  assert (HB : B ∈ l1 ++ P :: B :: N :: l2) by (apply elem_of_app; right; right; left).
  assert (HN : N ∈ l1 ++ P :: B :: N :: l2)
    by (apply elem_of_app; right; right; right; left).
  destruct (h_blocks_ok_at _ _ _ _ Hb)
    as (Hadr & Ht1 & Ht2 & Hsz & Htag & HP0 & Hb31 & Hb64).
  cbn [total_size b_addr b_size b_alloc B P N] in Hadr, Ht2, Hb31, Hb64.
  destruct (bo_sizes _ _ Hb B HB) as (_ & Hs8 & Hs32).
  destruct (bo_sizes _ _ Hb P HP) as (_ & HsP8 & HsP32).
  destruct (bo_sizes _ _ Hb N HN) as (_ & HsN8 & HsN32).
  specialize (Hs32 eq_refl). specialize (HsP32 eq_refl). specialize (HsN32 eq_refl).
  cbn [b_size B P N] in Hs8, Hs32, HsP8, HsP32, HsN8, HsN32.
  rewrite MIN_BLOCK_SIZE_eq in Hs32, HsP32, HsN32.
  assert (Ht2' : 0 <= total_size l2).
  { apply total_size_nonneg. intros B' HB'. apply (h_blocks_ok_pos _ _ Hb).
    apply elem_of_app. right. right. right. now right. }
  assert (Hb' : blocks_ok st ((l1 ++ [P]) ++ B :: N :: l2)).
  { rewrite <- app_assoc. exact Hb. }
  destruct (h_before_tags _ _ _ _ Hb') as [_ Hbefore].
  destruct (Hbefore _ _ eq_refl) as (Hpa & Hps & Hpadr & _).
  cbn [b_addr b_size b_alloc B P] in Hpa, Hps, Hpadr.
  destruct (h_after_tags _ _ _ _ Hb') as [_ Hafter].
  destruct (Hafter _ _ eq_refl) as (Hna & Hns & Hnadr).
  cbn [b_addr b_size b_alloc B N] in Hna, Hns, Hnadr.
  pose proof (h_pre_size _ _ _ _ HPre HB) as Hbs. cbn [b_addr b_size B] in Hbs.
  assert (Hcoal : coalesce b st = (fst (coalesce b st), st'))
    by (destruct (coalesce b st); reflexivity).
  clearbody st'. revert Hcoal. generalize (fst (coalesce b st)) as res. intros res Hcoal.
  cbv beta delta [coalesce] in Hcoal. cbv zeta in Hcoal.
  rewrite ?sizeof_header_eq, ?Hbs, ?Hpa, ?Hna, ?Hps in Hcoal.
  change (negb (flag false =? 0)) with false in Hcoal.
  cbn [andb negb] in Hcoal. cbv iota beta in Hcoal.
  replace (b - 8 - sP + 8) with p in Hcoal by lia.
  rewrite <- Hnadr in Hcoal.
  pose proof (h_pre_size _ _ _ _ HPre HP) as Hps0. cbn [b_addr b_size P] in Hps0.
  (* pop of the block before *)
  assert (Hin1 : b_addr P ∈ fl).
  { apply Hfl; [exact HP|reflexivity]. }
  pose proof (h_pop_kept st _ fl (b_addr P) HPre Hin1) as K1.
  destruct (h_pop_block st _ fl P HPre HP eq_refl Hin1) as (HPre1 & F1b & F1c).
  cbn [b_addr b_size P] in HPre1, F1b, F1c, K1.
  set (fl1 := filter (fun y => y <> p) fl) in *.
  set (st1 := list_pop p st) in *. clearbody st1.
  pose proof (h_pre_size _ _ _ _ HPre1 HB) as Hbs1. cbn [b_addr b_size B] in Hbs1.
  (* pop of the block *)
  assert (Hin2 : b_addr B ∈ fl1).
  { apply list_elem_of_filter. split; [cbn; lia|apply Hfl; [exact HB|reflexivity]]. }
  pose proof (h_pop_kept st1 _ fl1 (b_addr B) HPre1 Hin2) as K2.
  destruct (h_pop_block st1 _ fl1 B HPre1 HB eq_refl Hin2) as (HPre2 & F2b & F2c).
  cbn [b_addr b_size B] in HPre2, F2b, F2c, K2.
  set (fl2 := filter (fun y => y <> b) fl1) in *.
  set (st2 := list_pop b st1) in *. clearbody st2.
  pose proof (h_pre_size _ _ _ _ HPre2 HN) as Hns2. cbn [b_addr b_size N] in Hns2.
  (* pop of the block after *)
  assert (Hin3 : b_addr N ∈ fl2).
  { apply list_elem_of_filter. split; [cbn; lia|].
    apply list_elem_of_filter. split; [cbn; lia|]. apply Hfl; [exact HN|reflexivity]. }
  pose proof (h_pop_kept st2 _ fl2 (b_addr N) HPre2 Hin3) as K3.
  destruct (h_pop_block st2 _ fl2 N HPre2 HN eq_refl Hin3) as (HPre3 & F3b & F3c).
  cbn [b_addr b_size N] in HPre3, F3b, F3c, K3.
  set (fl3 := filter (fun y => y <> n) fl2) in *.
  set (st3 := list_pop n st2) in *. clearbody st3.
  pose proof (h_pre_size _ _ _ _ HPre3 HB) as Hbs3. cbn [b_addr b_size B] in Hbs3.
  pose proof (h_pre_size _ _ _ _ HPre3 HP) as Hps3. cbn [b_addr b_size P] in Hps3.
  pose proof (h_pre_size _ _ _ _ HPre3 HN) as Hns3. cbn [b_addr b_size N] in Hns3.
  assert (Hpf3 : block_size st3 (b - 8) = sP).
  { destruct (bo_tagged _ _ (pre_blocks _ _ HPre3) P HP) as (_ & _ & T & _).
    cbn [b_addr b_size P] in T. rewrite h_block_size_eq.
    replace (b - 8) with (p + sP - 8) by lia. exact T. }
  rewrite Hpf3 in Hcoal. replace (b - 8 - sP + 8) with p in Hcoal by lia.
  rewrite ?Hbs3, ?Hps3, ?Hns3 in Hcoal. fold S in Hcoal.
  pose proof (h_merge_tail st3 p S ltac:(unfold S; lia)) as Htail. cbv zeta in Htail.
  rewrite Htail in Hcoal. injection Hcoal as <- <-.
  split; [reflexivity|]. clear Htail.
  assert (Hout : forall B', B' ∈ l1 ++ l2 ->
                   b_addr B' <> b /\ b_addr B' <> p /\ b_addr B' <> n).
  { intros B' HB'. pose proof (h_around_outside st l1 [P; B; N] l2 B' Hb HB') as Ho.
    pose proof (h_blocks_ok_pos _ _ Hb B' (in_around l1 [P; B; N] l2 B' HB')).
    cbn [total_size b_size B P N] in Ho. lia. }
  destruct (bo_tagged _ _ (pre_blocks _ _ HPre3) P HP) as (_ & TP & _).
  destruct (bo_tagged _ _ (pre_blocks _ _ HPre3) N HN) as (_ & _ & _ & TN).
  cbn [b_addr b_size b_alloc N P] in TN, TP.
  destruct (h_merge_rep st3 l1 [P; B; N] l2 fl3 p S) as [(Fb & Fc) [HRep K9]];
    try assumption.
  - apply (h_nodes_free_drop (l1 ++ N :: l2) _ N).
    + apply (h_nodes_free_drop (l1 ++ B :: N :: l2) _ B).
      * apply (h_nodes_free_drop (l1 ++ P :: B :: N :: l2) _ P);
          [apply (pre_nodes _ _ HPre)|].
        intros B'. rewrite !elem_of_app, !elem_of_cons. tauto.
      * intros B'. rewrite !elem_of_app, !elem_of_cons. tauto.
    + intros B'. rewrite !elem_of_app, !elem_of_cons. tauto.
  - apply h_listed_drop; [apply h_listed_drop; [apply h_listed_drop|]|].
    + intros B' HB' Hf. apply Hfl; [|exact Hf]. apply (in_around l1 [P; B; N] l2), HB'.
    + intros B' HB'. apply Hout, HB'.
    + intros B' HB'. apply Hout, HB'.
    + intros B' HB'. apply Hout, HB'.
  - lia.
  - cbn [total_size b_size B P N]. unfold S. lia.
  - replace (p + S - 8) with (n + sN - 8) by (unfold S; lia). exact TN.
  - unfold S. lia.
  - unfold S. rewrite Z.add_mod, (Z.add_mod s), Hs8, HsP8, HsN8 by lia. reflexivity.
  - split; [split; congruence|]. split; [exact HRep|].
    intros X i HX Ha Hi.
    pose proof (in_around l1 [P; B; N] l2 X HX) as HX'.
    rewrite (K9 X i HX Ha Hi), (K3 X i HX' Ha Hi), (K2 X i HX' Ha Hi). exact (K1 X i HX' Ha Hi).
Qed.

End HCoalesce.

(** * The allocator with one list: [mm_free] *)

Section HFree.

Context {E : Type}.
Implicit Types (st : state E).

Lemma h_nodes_free_skip l1 B l2 (fl : list Z) :
  nodes_free (l1 ++ B :: l2) fl -> b_alloc B = true -> nodes_free (l1 ++ l2) fl.
Proof.
  intros Hn HB x Hx. destruct (Hn x Hx) as (B' & HB' & Ha & Hf).
  exists B'. repeat split; try assumption.
  apply elem_of_app in HB' as [HB'|HB']; apply elem_of_app; [now left|].
  apply elem_of_cons in HB' as [->|HB']; [congruence|now right].
Qed.

(** The start of [mm_free]: the block is marked free at both ends and
    pushed on the list. *)
Lemma h_free_mark st l1 b s l2 fl :
  Rep (mkHeap (l1 ++ mkBlk b s true :: l2) fl) st -> MIN_BLOCK_SIZE <= s ->
  let st1 := set_allocated b FREE st in
  let st2 := set_allocated (get_footer st1 b) FREE st1 in
  let st3 := list_push b st2 in
  Rep (mkHeap (l1 ++ mkBlk b s false :: l2) (b :: fl)) st3
  /\ prologue st3 = prologue st /\ extender st3 = extender st
  /\ payloads_kept (l1 ++ l2) (heap st) (heap st3).
Proof.
  intros [HPre Hfl] Hs32 st1 st2 st3. cbn [blocks flist] in *.
  rewrite MIN_BLOCK_SIZE_eq in Hs32.
  set (B := mkBlk b s true) in *.
  pose proof (pre_blocks _ _ HPre) as Hb. cbn [blocks] in Hb.
  assert (HB : B ∈ l1 ++ B :: l2) by (apply elem_of_app; right; left).
  destruct (h_blocks_ok_at _ _ _ _ Hb)
    as (Hadr & Ht1 & Ht2 & Hsz & Htag & HP0 & Hb31 & Hb64).
  cbn [b_addr b_size B] in Hadr, Hb31, Hb64.
  destruct Hsz as (_ & Hs8 & _). cbn [b_size B] in Hs8.
  pose proof Htag as (T1 & _). cbn [b_addr b_size B] in T1.
  assert (R1 : get_footer st1 b = b + s - 8).
  { rewrite h_get_footer_eq. cut (get_block_size (heap st1) b = s); [lia|].
    unfold st1. hst_unfold. mem_simpl. exact T1. }
  assert (H2 : heap st2 = put_allocated (b + s - 8) (flag false)
                            (put_allocated b (flag false) (heap st))).
  { unfold st2. rewrite R1. unfold st1. hst_unfold. reflexivity. }
  assert (F2 : head st2 = head st /\ prologue st2 = prologue st
               /\ extender st2 = extender st).
  { unfold st2, st1. hst_unfold. auto. }
  destruct F2 as (F2a & F2b & F2c).
  destruct (mark_tags (heap st) b s true false Htag ltac:(lia)) as [Tg2 Fr2].
  cbv zeta in Tg2, Fr2. rewrite <- H2 in Tg2, Fr2.
  unfold st3. clearbody st2. clear st3 H2 R1 st1.
  destruct (h_list_push_fields b st2) as (FSb & FSc).
  pose proof (h_nodes_free_skip _ _ _ _ (pre_nodes _ _ HPre) eq_refl) as Hnf.
  cbn [blocks flist] in Hnf.
  assert (Hout : forall B', B' ∈ l1 ++ l2 ->
                   0 < b_size B' /\ (b_addr B' + b_size B' <= b \/ b + s <= b_addr B')).
  { intros B' HB'. split; [apply (h_blocks_ok_pos _ _ Hb), (in_around _ [B]), HB'|].
    pose proof (h_around_outside st l1 [B] l2 B' Hb HB') as H.
    cbn [total_size b_size B] in H. lia. }
  assert (HPre2 : Pre (mkHeap (l1 ++ [mkBlk b s false] ++ l2) fl) st2).
  { apply (h_retag_pre st st2 l1 [B]); try assumption; try reflexivity.
    - intros B' HB'. apply list_elem_of_singleton in HB' as ->.
      unfold size_ok; cbn [b_size b_alloc]; rewrite ?MIN_BLOCK_SIZE_eq.
      repeat split; try lia; try assumption.
    - cbn [contig b_addr b_size]. split; [lia|exact I].
    - intros B' HB'. apply list_elem_of_singleton in HB' as ->. exact Tg2.
    - cbn [total_size b_size B]. intros i Hi. apply Fr2. lia. }
  assert (Hfb : free_block (l1 ++ [mkBlk b s false] ++ l2) b).
  { exists (mkBlk b s false). repeat split. apply elem_of_app; right; left. }
  assert (Hfresh : b ∉ fl).
  { intros Hx. destruct (Hnf _ Hx) as (B' & HB' & Had & _).
    destruct (Hout B' HB'). lia. }
  split; [|split; [congruence|split; [congruence|]]].
  - split; cbn [blocks flist].
    + apply (h_push_pre st2); assumption.
    + intros B' HB' Hf.
      apply (in_around_inv l1 [_]) in HB' as [HB'|HB'].
      * right. apply Hfl; [|exact Hf]. apply (in_around l1 [B]), HB'.
      * apply list_elem_of_singleton in HB' as ->. left.
  - pose proof (h_push_kept st2 _ fl b HPre2 Hfb Hfresh) as Hpk.
    intros X i HX Ha Hi. destruct (Hout X HX) as [Hp Hd].
    rewrite (Hpk X i (in_around l1 [_] l2 X HX) Ha Hi). apply Fr2. lia.
Qed.

(** [coalesce] on a free block whose row would have no two free
    neighbours if the block were allocated: the row that comes out has
    none, holds the same bytes, and keeps every allocated block and its
    payload. *)
Lemma h_coalesce_quiet st l1 b s l2 fl :
  Rep (mkHeap (l1 ++ mkBlk b s false :: l2) fl) st ->
  no_adjacent_free (l1 ++ mkBlk b s true :: l2) ->
  exists l1' M l2' fl',
    Rep (mkHeap (l1' ++ M :: l2') fl') (snd (coalesce b st))
    /\ fst (coalesce b st) = b_addr M /\ b_alloc M = false /\ s <= b_size M
    /\ no_adjacent_free (l1' ++ M :: l2')
    /\ total_size (l1' ++ M :: l2') = total_size (l1 ++ mkBlk b s false :: l2)
    /\ (forall X, X ∈ l1 ++ l2 -> b_alloc X = true -> X ∈ l1' ++ l2')
    /\ (forall X, X ∈ l1' ++ l2' -> X ∈ l1 ++ l2)
    /\ prologue (snd (coalesce b st)) = prologue st
    /\ extender (snd (coalesce b st)) = extender st
    /\ payloads_kept (l1 ++ l2) (heap st) (heap (snd (coalesce b st))).
Proof.
  intros HRep Hnaf.
  pose proof (pre_blocks _ _ (rep_pre _ _ HRep)) as Hb. cbn [blocks] in Hb.
  apply naf_app_cons in Hnaf as [Hn1 Hn2].
  destruct (before_cases l1) as [Hbef|(l1r & p & sP & ->)];
    destruct (after_cases l2) as [Haft|(n & sN & l2r & ->)].
  - (* case 1 *)
    pose proof (h_coalesce_case1 st l1 (mkBlk b s false) l2 Hb Hbef Haft) as Hc1.
    cbn [b_addr] in Hc1. rewrite Hc1. cbn [fst snd].
    exists l1, (mkBlk b s false), l2, fl. cbn [b_addr b_size b_alloc].
    split; [exact HRep|]. split; [reflexivity|]. split; [reflexivity|].
    split; [lia|]. split; [|split; [reflexivity|]].
    + apply naf_glue; [apply (naf_last _ _ _ Hn1); auto|apply (naf_head _ _ _ Hn2); auto].
    + split; [auto|]. split; [auto|]. split; [reflexivity|]. split; [reflexivity|].
      apply payloads_kept_refl.
  - (* case 2 *)
    destruct (h_coalesce_case2 st l1 b s n sN l2r fl HRep Hbef)
      as (Hr & (Fb & Fc) & HR & Kc).
    destruct (bo_sizes _ _ Hb (mkBlk n sN false)) as (HsN & _);
      [apply elem_of_app; right; right; left|]. cbn [b_size] in HsN.
    exists l1, (mkBlk b (s + sN) false), l2r. eexists. cbn [b_addr b_size b_alloc].
    split; [exact HR|]. split; [exact Hr|]. split; [reflexivity|].
    split; [lia|]. split; [|split; [|split; [|split; [|split; [exact Fb|split; [exact Fc|]]]]]].
    + apply naf_glue; [apply (naf_last _ _ _ Hn1); auto|].
      apply naf_tail in Hn2. apply (naf_head _ _ _ Hn2). auto.
    + rewrite !total_size_app. cbn [total_size b_size]. lia.
    + intros X HX HXa. rewrite !elem_of_app, !elem_of_cons in *.
      destruct HX as [HX|[->|HX]]; [auto|discriminate|auto].
    + intros X. rewrite !elem_of_app, !elem_of_cons. tauto.
    + apply (payloads_kept_sub _ (l1 ++ l2r)); [exact Kc|].
      intros X HX HXa. rewrite !elem_of_app, !elem_of_cons in *.
      destruct HX as [HX|[->|HX]]; [auto|discriminate|auto].
  - (* case 3 *)
    rewrite <- app_assoc in HRep, Hb, Hn1. cbn [app] in HRep, Hb, Hn1.
    destruct (h_coalesce_case3 st l1r p sP b s l2 fl HRep Haft)
      as (Hr & (Fb & Fc) & HR & Kc).
    destruct (bo_sizes _ _ Hb (mkBlk p sP false)) as (HsP & _);
      [apply elem_of_app; right; left|]. cbn [b_size] in HsP.
    exists l1r, (mkBlk p (sP + s) false), l2. eexists. cbn [b_addr b_size b_alloc].
    split; [exact HR|]. split; [exact Hr|]. split; [reflexivity|].
    split; [lia|]. split; [|split; [|split; [|split; [|split; [exact Fb|split; [exact Fc|]]]]]].
    + apply naf_glue; [|apply (naf_head _ _ _ Hn2); auto].
      change (l1r ++ [mkBlk p sP false; mkBlk b s true])
        with (l1r ++ [mkBlk p sP false] ++ [mkBlk b s true]) in Hn1.
      rewrite app_assoc in Hn1. apply naf_prefix in Hn1.
      apply (naf_last _ _ _ Hn1). auto.
    + rewrite <- !app_assoc, !total_size_app. cbn [total_size b_size app]. lia.
    + intros X HX HXa. rewrite !elem_of_app, !elem_of_cons in *.
      destruct HX as [[HX|[->|HX]]|HX]; [auto|discriminate|inversion HX|auto].
    + intros X. rewrite !elem_of_app, !elem_of_cons. tauto.
    + apply (payloads_kept_sub _ (l1r ++ l2)); [exact Kc|].
      intros X HX HXa. rewrite !elem_of_app, !elem_of_cons in *.
      destruct HX as [[HX|[->|HX]]|HX]; [auto|discriminate|inversion HX|auto].
  - (* case 4 *)
    rewrite <- app_assoc in HRep, Hb, Hn1. cbn [app] in HRep, Hb, Hn1.
    destruct (h_coalesce_case4 st l1r p sP b s n sN l2r fl HRep)
      as (Hr & (Fb & Fc) & HR & Kc).
    destruct (bo_sizes _ _ Hb (mkBlk p sP false)) as (HsP & _);
      [apply elem_of_app; right; left|]. cbn [b_size] in HsP.
    destruct (bo_sizes _ _ Hb (mkBlk n sN false)) as (HsN & _);
      [apply elem_of_app; right; right; right; left|]. cbn [b_size] in HsN.
    exists l1r, (mkBlk p (sP + (s + sN)) false), l2r. eexists.
    cbn [b_addr b_size b_alloc].
    split; [exact HR|]. split; [exact Hr|]. split; [reflexivity|].
    split; [lia|]. split; [|split; [|split; [|split; [|split; [exact Fb|split; [exact Fc|]]]]]].
    + apply naf_glue.
      * change (l1r ++ [mkBlk p sP false; mkBlk b s true])
          with (l1r ++ [mkBlk p sP false] ++ [mkBlk b s true]) in Hn1.
        rewrite app_assoc in Hn1. apply naf_prefix in Hn1.
        apply (naf_last _ _ _ Hn1). auto.
      * apply naf_tail in Hn2. apply (naf_head _ _ _ Hn2). auto.
    + rewrite <- !app_assoc, !total_size_app. cbn [total_size b_size app]. lia.
    + intros X HX HXa. rewrite !elem_of_app, !elem_of_cons in *.
      destruct HX as [[HX|[->|HX]]|[->|HX]];
        [auto|discriminate|inversion HX|discriminate|auto].
    + intros X. rewrite !elem_of_app, !elem_of_cons. tauto.
    + apply (payloads_kept_sub _ (l1r ++ l2r)); [exact Kc|].
      intros X HX HXa. rewrite !elem_of_app, !elem_of_cons in *.
      destruct HX as [[HX|[->|HX]]|[->|HX]];
        [auto|discriminate|inversion HX|discriminate|auto].
Qed.

End HFree.

(** * The allocator with one list: [mm_init] *)

Ltac hsubst_states :=
  repeat match goal with
         | s := _ : state _ |- _ => progress unfold s
         | s := _ : Z |- _ => progress unfold s
         end.

Ltac hrd :=
  hsubst_states; hst_unfold; consts;
  mem_simpl; uint_simpl; first [reflexivity | lia].

Section HInit.

Context {E : Type}.
Variable mem_sbrk : Z -> E -> Z * E.
Implicit Types (st : state E).

(** [mm_init] gives up when the extender does, and touches nothing. *)
Lemma h_mm_init_fails st (e : E) :
  mem_sbrk CHUNKSIZE (extender st) = (SBRK_FAILED, e) ->
  fst (mm_init mem_sbrk st) = -1
  /\ heap (snd (mm_init mem_sbrk st)) = heap st
  /\ head (snd (mm_init mem_sbrk st)) = head st.
Proof.
  intros H. unfold mm_init. rewrite H. cbv beta iota zeta.
  rewrite h_prologue_mkState, Z.eqb_refl. cbn [fst snd]. auto.
Qed.

(** The fields of the state after a successful [mm_init]. *)
Lemma h_mm_init_fields st (P : Z) (e : E) :
  mem_sbrk CHUNKSIZE (extender st) = (P, e) ->
  0 <= P -> P + CHUNKSIZE <= 2 ^ 64 ->
  let st' := snd (mm_init mem_sbrk st) in
  let b := P + 8 in
  fst (mm_init mem_sbrk st) = 0
  /\ (head st' = b /\ prologue st' = P /\ extender st' = e)
  /\ (allocated st' P = ALLOC /\ block_size st' P = 8)
  /\ (allocated st' b = FREE /\ block_size st' b = 65520)
  /\ (allocated st' (b + 65512) = FREE /\ block_size st' (b + 65512) = 65520)
  /\ (allocated st' (P + 65528) = ALLOC /\ block_size st' (P + 65528) = 0)
  /\ (next st' b = NULL /\ prev st' b = NULL).
Proof.
  intros H1 HP Hmax st' b0.
  pose (b := P + sizeof_header).
  pose (epilogue := b + (CHUNKSIZE - OVERHEAD)).
  assert (Hb0 : b0 = b) by reflexivity. clearbody b0. subst b0.
  destruct (mm_init mem_sbrk st) as [r st1] eqn:Hinit. subst st'. cbn [fst snd].
  cbv beta delta [mm_init] in Hinit. rewrite H1 in Hinit. cbv beta iota in Hinit.
  assert (HPmax : P + 65536 <= 2 ^ 64) by exact Hmax.
  exec_let Hinit s0. replace (prologue s0) with P in Hinit by reflexivity.
  destruct (Z.eqb_spec P SBRK_FAILED) as [Heq|_]; [unfold SBRK_FAILED in Heq; lia|].
  exec_let Hinit s1. replace (prologue s1) with P in Hinit by reflexivity.
  exec_let Hinit s2. replace (prologue s2) with P in Hinit by reflexivity.
  exec_let Hinit init_block. fold b in init_block.
  exec_let Hinit s3. exec_let Hinit s4. exec_let Hinit s5. exec_let Hinit s6.
  assert (Hsz : CHUNKSIZE - OVERHEAD = 65520) by reflexivity.
  assert (R1 : get_footer s6 init_block = b + 65512).
  { clear Hinit. rewrite h_get_footer_eq, <- h_block_size_eq.
    cut (block_size s6 init_block = 65520); [lia|]. hrd. }
  rewrite R1 in Hinit.
  exec_let Hinit init_footer. exec_let Hinit s7.
  assert (R2 : block_size s7 init_block = 65520).
  { clear Hinit. hrd. }
  rewrite R2 in Hinit.
  exec_let Hinit s8. exec_let Hinit s9.
  assert (R3 : block_size s9 init_block = 65520).
  { clear Hinit. hrd. }
  rewrite R3 in Hinit.
  exec_let Hinit epi. exec_let Hinit s10. exec_let Hinit s11.
  injection Hinit as <- <-.
  assert (Hb : b = P + 8) by reflexivity.
  assert (He : epilogue = P + 65528) by (unfold epilogue; rewrite Hsz; lia).
  clearbody b epilogue. clear R1 R2 R3.
  assert (F1 : allocated s11 P = ALLOC /\ block_size s11 P = 8) by (split; hrd).
  assert (F2 : allocated s11 b = FREE /\ block_size s11 b = 65520) by (split; hrd).
  assert (F3 : allocated s11 (b + 65512) = FREE /\ block_size s11 (b + 65512) = 65520)
    by (split; hrd).
  assert (F4 : allocated s11 epilogue = ALLOC /\ block_size s11 epilogue = 0)
    by (split; hrd).
  assert (F6 : next s11 b = NULL /\ prev s11 b = NULL) by (split; hrd).
  assert (G0 : head s11 = b) by (hsubst_states; now hst_unfold).
  assert (G2 : prologue s11 = P) by (hsubst_states; now hst_unfold).
  assert (G3 : extender s11 = e) by (hsubst_states; now hst_unfold).
  clearbody s11. clear s10 s9 s8 s7 s6 s5 s4 s3 s2 s1 s0 epi init_footer init_block.
  replace (P + 65528) with epilogue by lia. subst b.
  repeat split; try assumption; tauto.
Qed.

(** The heap after a successful [mm_init]: one free block of
    [CHUNKSIZE - OVERHEAD] bytes, alone on the list. *)
Lemma h_mm_init_rep st (P : Z) (e : E) :
  mem_sbrk CHUNKSIZE (extender st) = (P, e) ->
  0 < P -> P + CHUNKSIZE <= 2 ^ 64 ->
  let st' := snd (mm_init mem_sbrk st) in
  Rep (mkHeap [mkBlk (P + 8) 65520 false] [P + 8]) st'
  /\ prologue st' = P /\ extender st' = e.
Proof.
  intros H1 HP Hmax st'.
  destruct (h_mm_init_fields st P e H1 ltac:(lia) Hmax)
    as (_ & (G1 & G2 & G3) & (F1a & F1b) & (F2a & F2b) & (F3a & F3b) & (F4a & F4b)
        & (F6a & F6b)).
  cbv zeta in G1, G2, G3, F1a, F1b, F2a, F2b, F3a, F3b, F4a, F4b, F6a, F6b.
  fold st' in G1, G2, G3, F1a, F1b, F2a, F2b, F3a, F3b, F4a, F4b, F6a, F6b.
  clearbody st'.
  rewrite CHUNKSIZE_eq in Hmax.
  rewrite h_allocated_eq in F1a, F2a, F3a, F4a.
  rewrite h_block_size_eq in F1b, F2b, F3b, F4b.
  split; [|auto].
  split; [split|]; cbn [blocks flist].
  - split; cbn [total_size b_size b_addr]; rewrite ?G2, ?sizeof_header_eq.
    + lia.
    + auto.
    + cbn [contig b_addr]. split; [lia|exact I].
    + cbv zeta. replace (P + 8 + (65520 + 0)) with (P + 65528) by lia. auto.
    + lia.
    + intros B HB. apply list_elem_of_singleton in HB as ->.
      unfold size_ok. cbn [b_size b_alloc]. rewrite MIN_BLOCK_SIZE_eq.
      repeat split; try lia; try reflexivity.
    + intros B HB. apply list_elem_of_singleton in HB as ->.
      unfold tagged. cbn [b_addr b_size b_alloc].
      replace (P + 8 + 65520 - 8) with (P + 8 + 65512) by lia. auto.
  - split; [|apply NoDup_singleton].
    cbn [dll]. rewrite G1. rewrite get_prev_eq, <- h_prev_eq, get_next_eq, <- h_next_eq.
    rewrite F6a, F6b. repeat split; try reflexivity. rewrite NULL_eq. lia.
  - intros x Hx. apply list_elem_of_singleton in Hx as ->.
    exists (mkBlk (P + 8) 65520 false). repeat split. apply list_elem_of_singleton.
    reflexivity.
  - intros B HB Hf. apply list_elem_of_singleton in HB as ->.
    cbn [b_addr]. left.
Qed.

End HInit.

(** * The allocator with one list: growing the heap *)

Section HGrow.

Context {E : Type}.
Implicit Types (st : state E).

(** A new block in the place of the epilogue and a new epilogue after
    it. *)
Lemma h_grow_pre st st' bs (fl : list Z) N :
  Pre (mkHeap bs fl) st ->
  head st' = head st -> prologue st' = prologue st ->
  b_addr N = prologue st + 8 + total_size bs -> size_ok N ->
  tagged (heap st') N ->
  get_block_size (heap st') (b_addr N + b_size N) = 0 ->
  get_allocated (heap st') (b_addr N + b_size N) = ALLOC ->
  8 + (total_size bs + b_size N) + 8 < 2 ^ 31 ->
  prologue st + 8 + (total_size bs + b_size N) + 8 <= 2 ^ 64 ->
  (forall i, i < b_addr N -> load8 (heap st') i = load8 (heap st) i) ->
  Pre (mkHeap (bs ++ [N]) fl) st'.
Proof.
  intros [Hb Hl Hn] HS HP Ha Hsz Htag He1 He2 Hb31 Hb64 Hfr. cbn [blocks flist] in *.
  pose proof Hb as [Hh Hp Hc He Hbd Hs Ht].
  pose proof (h_blocks_ok_pos _ _ Hb) as Hpos.
  rewrite sizeof_header_eq in *.
  assert (Ht0 : 0 <= total_size bs) by (apply total_size_nonneg, Hpos).
  split; cbn [blocks flist].
  - split; rewrite ?HP, ?sizeof_header_eq, ?total_size_app; cbn [total_size];
      rewrite ?Z.add_0_r; try assumption.
    + destruct Hp as [Hp1 Hp2]. split.
      * rewrite <- Hp1. apply get_block_size_ext. intros i Hi. apply Hfr. lia.
      * rewrite <- Hp2. apply get_allocated_ext. intros i Hi. apply Hfr. lia.
    + apply contig_app. split; [exact Hc|]. cbn [contig]. split; [lia|exact I].
    + cbv zeta.
      replace (prologue st + 8 + (total_size bs + b_size N))
        with (b_addr N + b_size N) by lia. auto.
    + lia.
    + intros B HB. apply elem_of_app in HB as [HB|HB]; [now apply Hs|].
      apply list_elem_of_singleton in HB as ->. exact Hsz.
    + intros B HB. apply elem_of_app in HB as [HB|HB].
      * pose proof (h_blocks_ok_range _ _ _ Hb HB) as Hr.
        destruct (Hs B HB) as (Hs8 & _).
        apply (tagged_ext (heap st)); [exact Hs8| |now apply Ht].
        intros i Hi. apply Hfr. lia.
      * apply list_elem_of_singleton in HB as ->. exact Htag.
  - apply (h_list_ok_frame st); [exact Hl|exact HS|].
    intros y i Hy Hi. destruct (Hn y Hy) as (B & HB & <- & Hf).
    destruct (Hs B HB) as (_ & _ & Hfree). specialize (Hfree Hf).
    rewrite MIN_BLOCK_SIZE_eq in Hfree.
    pose proof (h_blocks_ok_range _ _ _ Hb HB) as Hr.
    apply Hfr. lia.
  - intros y Hy. apply (h_free_block_mono bs); [|apply Hn; assumption].
    intros B HB. apply elem_of_app. now left.
Qed.

End HGrow.

(** [extend_heap] over memlib, on a heap without two free neighbours: it
    gives up exactly when the arena has no room for the bytes, and then
    nothing changes; otherwise there is a free block [M] of at least the
    size asked for, at the returned address, that [place] can take, and no
    payload is written. *)
Lemma h_extend_heap_ok H live (st : state memlib) words size :
  heap_ok H live st -> no_adjacent_free (blocks H) ->
  to_uint32 (Z.shiftl words 3) = size -> MIN_BLOCK_SIZE <= size -> size mod 8 = 0 ->
  (mem_max_addr (extender st) < mem_brk (extender st) + size
   /\ fst (extend_heap memlib_sbrk words st) = NULL
   /\ snd (extend_heap memlib_sbrk words st) = st)
  \/ (mem_brk (extender st) + size <= mem_max_addr (extender st)
      /\ exists l1 M l2 fl',
           fst (extend_heap memlib_sbrk words st) = b_addr M
           /\ heap_ok (mkHeap (l1 ++ M :: l2) fl') live
                (snd (extend_heap memlib_sbrk words st))
           /\ b_alloc M = false /\ size <= b_size M
           /\ no_adjacent_free (l1 ++ [mkBlk (b_addr M) (b_size M) true])
           /\ no_adjacent_free (M :: l2)
           /\ (forall B, B ∈ blocks H -> b_alloc B = true -> B ∈ l1 ++ l2)
           /\ payloads_kept (blocks H) (heap st)
                (heap (snd (extend_heap memlib_sbrk words st)))
           /\ mem_brk (extender (snd (extend_heap memlib_sbrk words st)))
              = mem_brk (extender st) + size).
Proof.
  intros [HRep Hmin Hbrk Hmax Hlive] Hnaf Hsize Hs32 Hs8.
  destruct H as [bs fl]. cbn [blocks flist] in *.
  rewrite MIN_BLOCK_SIZE_eq in Hs32.
  pose proof (pre_blocks _ _ (rep_pre _ _ HRep)) as Hb. cbn [blocks] in Hb.
  pose proof Hb as [Hh Hp Hc He [Hb31 Hb64] Hs Ht].
  pose proof (h_blocks_ok_pos _ _ Hb) as Hpos.
  rewrite sizeof_header_eq in *.
  assert (Ht0 : 0 <= total_size bs) by (apply total_size_nonneg, Hpos).
  destruct (extend_heap memlib_sbrk words st) as [blk st'] eqn:Hext. cbn [fst snd].
  unfold extend_heap in Hext. rewrite Hsize in Hext.
  destruct (Z.eqb_spec size 0) as [Hz|_]; [lia|].
  unfold memlib_sbrk in Hext.
  destruct (Z.ltb_spec size 0) as [Hz|_]; [lia|]. cbn [orb] in Hext.
  destruct (Z.ltb_spec (mem_max_addr (extender st)) (mem_brk (extender st) + size))
    as [Hfull|Hroom].
  - (* no room *)
    left. change (SBRK_FAILED =? SBRK_FAILED) with true in Hext. cbv iota beta in Hext.
    rewrite h_st_eta in Hext. injection Hext as <- <-. auto.
  - right. split; [exact Hroom|]. cbv zeta iota beta in Hext.
    destruct (Z.eqb_spec (mem_brk (extender st)) SBRK_FAILED) as [Hf|_];
      [unfold SBRK_FAILED in Hf; lia|].
    set (epi := prologue st + 8 + total_size bs) in *.
    replace (mem_brk (extender st) - sizeof_header) with epi in Hext
      by (rewrite sizeof_header_eq; lia).
    set (e' := mkMemlib (mem_brk (extender st) + size) (mem_max_addr (extender st))) in *.
    set (st0 := mkState (heap st) (head st) (prologue st) e') in *.
    set (st2 := set_block_size epi size (set_allocated epi FREE st0)) in *.
    assert (R1 : get_footer st2 epi = epi + size - 8).
    { rewrite h_get_footer_eq. cut (get_block_size (heap st2) epi = size); [lia|].
      unfold st2. hst_unfold. mem_simpl. now uint_simpl. }
    rewrite R1 in Hext.
    set (st3 := set_allocated (epi + size - 8) FREE st2) in *.
    assert (R2 : block_size st3 epi = size).
    { unfold st3, st2. hst_unfold. mem_simpl. now uint_simpl. }
    rewrite R2 in Hext.
    replace (epi + size - 8 + sizeof_header) with (epi + size) in Hext
      by (rewrite sizeof_header_eq; lia).
    set (st6 := set_block_size (epi + size) 0
                  (set_allocated (epi + size) ALLOC
                     (set_block_size (epi + size - 8) size st3))) in *.
    assert (H6 : heap st6
                 = put_block_size (epi + size) 0
                     (put_allocated (epi + size) ALLOC
                        (put_block_size (epi + size - 8) size
                           (put_allocated (epi + size - 8) FREE
                              (put_block_size epi size
                                 (put_allocated epi FREE (heap st))))))).
    { unfold st6, st3, st2, st0. hst_unfold. reflexivity. }
    assert (F6 : head st6 = head st /\ prologue st6 = prologue st
                 /\ extender st6 = e').
    { unfold st6, st3, st2, st0. hst_unfold. auto. }
    destruct F6 as (F6a & F6b & F6c).
    destruct (extend_tags (heap st) epi size ltac:(lia)) as (Tg6 & E6a & E6b & Fr6).
    cbv zeta in Tg6, E6a, E6b, Fr6. rewrite <- H6 in Tg6, E6a, E6b, Fr6.
    clearbody st6. clear st3 st2 st0 R1 R2 H6.
    set (N := mkBlk epi size false) in *.
    assert (HPre6 : Pre (mkHeap (bs ++ [N]) fl) st6).
    { apply (h_grow_pre st st6 bs fl N); try assumption; try reflexivity;
        cbn [b_addr b_size N]; try lia.
      - apply (rep_pre _ _ HRep).
      - unfold size_ok. cbn [b_size b_alloc N]. rewrite MIN_BLOCK_SIZE_eq.
        repeat split; try lia; assumption. }
    assert (Hold : forall B, B ∈ bs -> b_addr B + b_size B <= epi).
    { intros B HB. pose proof (h_blocks_ok_range _ _ _ Hb HB). unfold epi. lia. }
    set (st7 := list_push epi st6) in *.
    destruct (h_list_push_fields epi st6) as (F7b & F7c).
    fold st7 in F7b, F7c.
    assert (Hfb : free_block (bs ++ [N]) epi).
    { exists N. repeat split. apply elem_of_app; right; left. }
    assert (Hfresh : epi ∉ fl).
    { intros Hx.
      destruct (pre_nodes _ _ (rep_pre _ _ HRep) _ Hx) as (B & HB & Ha & _).
      pose proof (Hold B HB). pose proof (Hpos B HB). lia. }
    assert (HRep7 : Rep (mkHeap (bs ++ [N]) (epi :: fl)) st7).
    { split; cbn [blocks flist].
      - apply (h_push_pre st6); assumption.
      - intros B HB Hfr.
        apply elem_of_app in HB as [HB|HB].
        + right. apply (rep_free _ _ HRep); assumption.
        + apply list_elem_of_singleton in HB as ->. left. }
    assert (K7 : payloads_kept bs (heap st) (heap st7)).
    { pose proof (h_push_kept st6 _ fl epi HPre6 Hfb Hfresh) as Hpk.
      intros B i HB Ha Hi. unfold st7.
      rewrite (Hpk B i ltac:(apply elem_of_app; now left) Ha Hi). apply Fr6.
      pose proof (Hold B HB). lia. }
    clearbody st7.
    assert (Hok7 : heap_ok (mkHeap (bs ++ [N]) (epi :: fl))
                     live st7).
    { split; cbn [blocks flist].
      - exact HRep7.
      - intros B HB. apply elem_of_app in HB as [HB|HB]; [now apply Hmin|].
        apply list_elem_of_singleton in HB as ->. rewrite MIN_BLOCK_SIZE_eq. cbn. lia.
      - rewrite F7c, F7b, F6c, F6b, total_size_app. cbn [mem_brk e' total_size b_size N].
        rewrite Hbrk. lia.
      - rewrite F7c, F7b, F6c, F6b. cbn [mem_max_addr e']. exact Hmax.
      - intros q Hq. destruct (Hlive q Hq) as (B & HB & Hr). exists B.
        split; [apply elem_of_app; now left|exact Hr]. }
    destruct (h_coalesce_quiet st7 bs epi size [] _ HRep7)
      as (l1' & M & l2' & fl' & HR & Hres & HMf & HMs & Hnaf' & Htot & Hkept & Hsub
          & Fb & Fc & Kc).
    { apply naf_snoc_alloc; [exact Hnaf|reflexivity]. }
    rewrite Hext in HR, Hres, Fb, Fc, Kc. cbn [fst snd] in HR, Hres, Fb, Fc, Kc.
    exists l1', M, l2', fl'.
    destruct Hok7 as [_ Hmin7 Hbrk7 Hmax7 Hlive7]. cbn [blocks flist] in *.
    apply naf_app_cons in Hnaf' as [Hn1 Hn2].
    split; [exact Hres|]. split; [split; cbn [blocks flist]|].
    * exact HR.
    * intros X HX. apply elem_of_app in HX as [HX|HX].
      -- apply Hmin7, (in_around _ [_]), Hsub, elem_of_app. now left.
      -- apply elem_of_cons in HX as [->|HX]; [rewrite MIN_BLOCK_SIZE_eq; lia|].
         apply Hmin7, (in_around _ [_]), Hsub, elem_of_app. now right.
    * rewrite Fc, Fb, Htot. exact Hbrk7.
    * rewrite Fc, Fb. exact Hmax7.
    * intros q Hq. destruct (Hlive q Hq) as (B & HB & Hpq & Haq). exists B.
      split; [|auto]. apply (in_around _ [_]), Hkept; [|exact Haq].
      rewrite app_nil_r. exact HB.
    * split; [exact HMf|]. split; [exact HMs|].
      split; [apply (naf_last _ _ _ Hn1); auto|]. split; [exact Hn2|].
      split; [|split].
      -- intros B HB Ha. apply Hkept; [|exact Ha]. rewrite app_nil_r. exact HB.
      -- intros B i HB Ha Hi.
         rewrite (Kc B i ltac:(rewrite app_nil_r; exact HB) Ha Hi).
         exact (K7 B i HB Ha Hi).
      -- rewrite Fc, F7c, F6c. reflexivity.
Qed.

(** * The allocator with one list: the search *)

Section HSearch.

Context {E : Type}.
Implicit Types (st : state E).

Lemma h_scan_list_total asize st : forall l fuel prv p,
  dll (heap st) prv p l -> (length l < fuel)%nat ->
  exists b, scan_list fuel st asize p = Some b.
Proof.
  induction l as [|x l IH]; intros fuel prv p Hl Hf.
  - simpl in Hl. subst p. destruct fuel; [simpl in Hf; lia|]. simpl. eauto.
  - destruct Hl as (-> & Hx & _ & Hl).
    destruct fuel as [|fuel]; [simpl in Hf; lia|]. cbn [scan_list].
    destruct (Z.eqb_spec x NULL); [contradiction|].
    destruct (_ && _); [eauto|].
    apply (IH fuel x). { exact Hl. } simpl in Hf. lia.
Qed.

Lemma h_scan_list_first st asize : forall fuel l prv p b,
  dll (heap st) prv p l -> (forall x, x ∈ l -> allocated st x = 0) ->
  scan_list fuel st asize p = Some b -> b <> NULL ->
  exists l1 l2, l = l1 ++ b :: l2
                /\ (forall x, x ∈ l1 -> block_size st x < asize)
                /\ asize <= block_size st b.
Proof.
  induction fuel as [|fuel IH]; intros l prv p b Hl Hfree Hs Hb; [discriminate|].
  cbn [scan_list] in Hs. destruct l as [|x l].
  - cbn [dll] in Hl. subst p. rewrite Z.eqb_refl in Hs. congruence.
  - destruct Hl as (-> & Hx & _ & Hl).
    destruct (Z.eqb_spec x NULL) as [|_]; [contradiction|].
    rewrite (Hfree x ltac:(left)) in Hs. cbn [Z.eqb andb] in Hs.
    destruct (Z.leb_spec asize (block_size st x)) as [Hfit|Hsmall].
    + injection Hs as <-. exists [], l. split; [reflexivity|].
      split; [intros y Hy; inversion Hy|exact Hfit].
    + rewrite h_next_eq, <- get_next_eq in Hs.
      destruct (IH l x _ b Hl (fun y Hy => Hfree y ltac:(now right)) Hs Hb)
        as (l1 & l2 & -> & Hbefore & Hfit).
      exists (x :: l1), l2. split; [reflexivity|]. split; [|exact Hfit].
      intros y Hy. apply elem_of_cons in Hy as [->|Hy]; [exact Hsmall|now apply Hbefore].
Qed.

Lemma h_scan_list_none st asize : forall fuel l prv p,
  dll (heap st) prv p l -> (forall x, x ∈ l -> allocated st x = 0) ->
  scan_list fuel st asize p = Some NULL ->
  forall x, x ∈ l -> block_size st x < asize.
Proof.
  induction fuel as [|fuel IH]; intros l prv p Hl Hfree Hs; [discriminate|].
  cbn [scan_list] in Hs. destruct l as [|x l]; [intros y Hy; inversion Hy|].
  destruct Hl as (-> & Hx & _ & Hl).
  destruct (Z.eqb_spec x NULL) as [|_]; [contradiction|].
  rewrite (Hfree x ltac:(left)) in Hs. cbn [Z.eqb andb] in Hs.
  destruct (Z.leb_spec asize (block_size st x)) as [Hfit|Hsmall]; [congruence|].
  rewrite h_next_eq, <- get_next_eq in Hs.
  intros y Hy. apply elem_of_cons in Hy as [->|Hy]; [exact Hsmall|].
  apply (IH l x _ Hl (fun z Hz => Hfree z ltac:(now right)) Hs y Hy).
Qed.

(** The nodes of the list are marked free. *)
Lemma h_nodes_allocated_0 st bs (fl : list Z) :
  Pre (mkHeap bs fl) st -> forall x, x ∈ fl -> allocated st x = 0.
Proof.
  intros HPre x Hx. destruct (pre_nodes _ _ HPre x Hx) as (B & HB & <- & Hf).
  cbn [blocks] in HB. rewrite h_allocated_eq.
  destruct (bo_tagged _ _ (pre_blocks _ _ HPre) B HB) as (_ & T & _).
  rewrite T, Hf. reflexivity.
Qed.

Lemma h_find_fit_total st bs (fl : list Z) fuel asize :
  Pre (mkHeap bs fl) st -> (length fl < fuel)%nat ->
  exists b, find_fit fuel asize st = Some b.
Proof.
  intros HPre Hlen. unfold find_fit. destruct (head st =? NULL); [eauto|].
  apply (h_scan_list_total asize st fl fuel NULL); [|exact Hlen].
  apply (lo_dll _ _ (pre_list _ _ HPre)).
Qed.

(** [find_fit] is first fit over the one list. *)
Lemma h_find_fit_first st bs (fl : list Z) fuel asize b :
  Pre (mkHeap bs fl) st -> find_fit fuel asize st = Some b -> b <> NULL ->
  exists l1 l2, fl = l1 ++ b :: l2
                /\ (forall x, x ∈ l1 -> block_size st x < asize)
                /\ asize <= block_size st b.
Proof.
  intros HPre Hf Hb. unfold find_fit in Hf.
  destruct (head st =? NULL); [congruence|].
  apply (h_scan_list_first st asize fuel fl NULL (head st) b); try assumption.
  - apply (lo_dll _ _ (pre_list _ _ HPre)).
  - apply (h_nodes_allocated_0 st bs fl HPre).
Qed.

Lemma h_find_fit_none st bs (fl : list Z) fuel asize :
  Pre (mkHeap bs fl) st -> find_fit fuel asize st = Some NULL ->
  forall x, x ∈ fl -> block_size st x < asize.
Proof.
  intros HPre Hf. unfold find_fit in Hf.
  pose proof (lo_dll _ _ (pre_list _ _ HPre)) as Hd. cbn [flist] in Hd.
  destruct (Z.eqb_spec (head st) NULL) as [Hz|_].
  - rewrite Hz in Hd. destruct fl as [|x fl]; [intros y Hy; inversion Hy|].
    destruct Hd as (Hx & Hnz & _). congruence.
  - apply (h_scan_list_none st asize fuel fl NULL (head st) Hd); [|exact Hf].
    apply (h_nodes_allocated_0 st bs fl HPre).
Qed.

End HSearch.

(** * The allocator with one list: [mm_malloc] at a quiescent point *)

Lemma h_place_fields {E} b asize (st : state E) :
  prologue (place b asize st) = prologue st /\ extender (place b asize st) = extender st.
Proof.
  unfold place. cbv zeta.
  destruct (_ <=? _);
    rewrite ?(proj1 (h_list_push_fields _ _)), ?(proj2 (h_list_push_fields _ _));
    hst_unfold; apply h_list_pop_fields.
Qed.

Lemma h_heap_ok_brk H live (st : state memlib) :
  heap_ok H live st -> 8 < mem_brk (extender st).
Proof.
  intros [HRep _ Hbrk _ _].
  pose proof (pre_blocks _ _ (rep_pre _ _ HRep)) as Hb.
  pose proof (bo_base _ _ Hb) as Hh.
  pose proof (total_size_nonneg _ (h_blocks_ok_pos _ _ Hb)). lia.
Qed.

Lemma h_heap_ok_addr H live (st : state memlib) B :
  heap_ok H live st -> B ∈ blocks H -> (b_addr B =? NULL) = false.
Proof.
  intros [HRep _ _ _ _] HB.
  pose proof (pre_blocks _ _ (rep_pre _ _ HRep)) as Hb.
  pose proof (h_blocks_ok_range _ _ _ Hb HB) as Hr.
  pose proof (bo_base _ _ Hb) as Hh.
  apply Z.eqb_neq. rewrite NULL_eq. lia.
Qed.

Lemma h_heap_ok_payload H live (st : state memlib) B :
  heap_ok H live st -> B ∈ blocks H -> (payload (b_addr B) =? NULL) = false.
Proof.
  intros [HRep _ _ _ _] HB.
  pose proof (pre_blocks _ _ (rep_pre _ _ HRep)) as Hb.
  pose proof (h_blocks_ok_range _ _ _ Hb HB) as Hr.
  pose proof (bo_base _ _ Hb) as Hh.
  apply Z.eqb_neq. unfold payload. rewrite NULL_eq, sizeof_header_eq. lia.
Qed.

(** [place] on a free block that has room for the request, after the
    search or the growth of the heap. *)
Lemma h_place_post H live l1 M l2 fl (st st0 : state memlib) asize :
  heap_ok (mkHeap (l1 ++ M :: l2) fl) live st -> b_alloc M = false ->
  no_adjacent_free (l1 ++ [mkBlk (b_addr M) (b_size M) true]) ->
  no_adjacent_free (M :: l2) ->
  MIN_BLOCK_SIZE <= asize <= b_size M -> asize mod 8 = 0 ->
  (forall B, B ∈ blocks H -> b_alloc B = true -> B ∈ l1 ++ l2) ->
  payloads_kept (blocks H) (heap st0) (heap st) ->
  malloc_post H live asize (payload (b_addr M)) st0 (place (b_addr M) asize st).
Proof.
  intros [HRep Hmin Hbrk Hmax Hlive] HMf Hn1 Hn2 Has Ha8 Hkept K0.
  destruct M as [b s a]. cbn [b_addr b_size b_alloc blocks flist] in *. subst a.
  rewrite MIN_BLOCK_SIZE_eq in Has.
  pose proof (pre_blocks _ _ (rep_pre _ _ HRep)) as Hb. cbn [blocks] in Hb.
  destruct (h_blocks_ok_at _ _ _ _ Hb) as (Hadr & Ht1 & _ & _ & _ & HP0 & _).
  cbn [b_addr] in Hadr.
  assert (Hout : forall B, B ∈ l1 ++ l2 -> b_addr B <> b).
  { intros B HB. pose proof (h_around_outside st l1 [mkBlk b s false] l2 B Hb HB) as Ho.
    pose proof (h_blocks_ok_pos _ _ Hb B (in_around l1 [_] l2 B HB)).
    cbn [total_size b_size] in Ho. lia. }
  assert (Hpn : (payload b =? NULL) = false).
  { apply Z.eqb_neq. unfold payload. rewrite sizeof_header_eq, NULL_eq. lia. }
  destruct (h_place_rep st l1 l2 fl b s asize HRep ltac:(lia) Ha8)
    as ((Fb & Fc & HR) & Kp).
  cbv zeta in Fb, Fc, HR, Kp.
  set (st' := place b asize st) in *. clearbody st'.
  assert (Hold : forall q, q ∈ live -> forall mid,
            exists B, B ∈ l1 ++ mid ++ l2 /\ payload (b_addr B) = q /\ b_alloc B = true).
  { intros q Hq mid. destruct (Hlive q Hq) as (B & HB & Hpq & Haq). exists B.
    split; [|auto]. apply in_around.
    apply (in_around_inv l1 [_]) in HB as [HB|HB]; [exact HB|].
    apply list_elem_of_singleton in HB as ->. discriminate. }
  assert (Hother : forall B mid, B ∈ blocks H -> b_alloc B = true ->
            B ∈ l1 ++ mid ++ l2 /\ payload (b_addr B) <> payload b).
  { intros B mid HB Ha. specialize (Hkept B HB Ha). split; [apply in_around, Hkept|].
    unfold payload. pose proof (Hout B Hkept). lia. }
  split.
  2:{ apply (payloads_kept_trans _ (l1 ++ l2) _ (heap st)); [exact K0|exact Kp|].
      exact Hkept. }
  rewrite Hpn.
  destruct (Z.leb_spec MIN_BLOCK_SIZE (s - asize)) as [Hr|Hr]; rewrite MIN_BLOCK_SIZE_eq in Hr.
  - (* split *)
    exists (mkHeap (l1 ++ mkBlk b asize true :: mkBlk (b + asize) (s - asize) false :: l2)
              ((b + asize) :: filter (fun y => y <> b) fl)).
    cbn [blocks flist]. split; [split; [split; cbn [blocks flist]|]|split].
    + exact HR.
    + intros X HX. apply (in_around_inv l1 [_; _]) in HX as [HX|HX].
      * apply Hmin, (in_around _ [_]), HX.
      * rewrite MIN_BLOCK_SIZE_eq. apply elem_of_cons in HX as [->|HX]; [cbn; lia|].
        apply list_elem_of_singleton in HX as ->. cbn. lia.
    + rewrite Fc, Fb, Hbrk, !total_size_app. cbn [total_size b_size]. lia.
    + rewrite Fc, Fb. exact Hmax.
    + intros q Hq. apply elem_of_cons in Hq as [->|Hq].
      * exists (mkBlk b asize true). split; [apply elem_of_app; right; left|auto].
      * apply (Hold q Hq [_; _]).
    + apply naf_glue; [apply (naf_last _ _ _ Hn1); auto|].
      rewrite naf_cons. split; [discriminate|]. apply (naf_head _ _ _ Hn2). auto.
    + intros _. exists (mkBlk b asize true). cbn [b_addr b_size b_alloc].
      split; [apply elem_of_app; right; left|]. repeat split. lia.
    + intros B HB Ha. apply (Hother B [_; _] HB Ha).
  - (* no split *)
    exists (mkHeap (l1 ++ mkBlk b s true :: l2) (filter (fun y => y <> b) fl)).
    cbn [blocks flist]. split; [split; [split; cbn [blocks flist]|]|split].
    + exact HR.
    + intros X HX. apply (in_around_inv l1 [_]) in HX as [HX|HX].
      * apply Hmin, (in_around _ [_]), HX.
      * rewrite MIN_BLOCK_SIZE_eq. apply list_elem_of_singleton in HX as ->. cbn. lia.
    + rewrite Fc, Fb, Hbrk, !total_size_app. cbn [total_size b_size]. lia.
    + rewrite Fc, Fb. exact Hmax.
    + intros q Hq. apply elem_of_cons in Hq as [->|Hq].
      * exists (mkBlk b s true). split; [apply elem_of_app; right; left|auto].
      * apply (Hold q Hq [_]).
    + apply naf_glue; [apply (naf_last _ _ _ Hn1); auto|].
      apply (naf_head _ _ _ Hn2). auto.
    + intros _. exists (mkBlk b s true). cbn [b_addr b_size b_alloc].
      split; [apply elem_of_app; right; left|]. repeat split. lia.
    + intros B HB Ha. apply (Hother B [_] HB Ha).
Qed.

Lemma h_null_post H live (st : state memlib) asize :
  quiescent H live st -> malloc_post H live asize NULL st st.
Proof.
  intros HQ. split; [|apply payloads_kept_refl].
  exists H. rewrite Z.eqb_refl. split; [exact HQ|]. split; [congruence|].
  intros B HB Ha. split; [exact HB|].
  destruct HQ as [Hok _]. pose proof (h_heap_ok_payload H live st B Hok HB) as Hp.
  apply Z.eqb_neq in Hp. exact Hp.
Qed.

(** [mm_malloc] at a quiescent point. *)
Lemma h_mm_malloc_post H live (st : state memlib) fuel u p st' :
  quiescent H live st ->
  mm_malloc memlib_sbrk fuel u st = Some (p, st') ->
  malloc_post H live (adjust_size u) p st st'.
Proof.
  intros HQ Hm. pose proof HQ as [Hok Hnaf]. unfold mm_malloc in Hm.
  destruct (u =? 0).
  { injection Hm as <- <-. now apply h_null_post. }
  cbv zeta in Hm.
  pose proof (h_adjust_size_range u) as Has. pose proof (h_adjust_size_mod8 u) as Ha8.
  set (asize := adjust_size u) in *. clearbody asize.
  destruct (find_fit fuel asize st) as [b|] eqn:Hfit; [|discriminate].
  destruct (Z.eqb_spec b NULL) as [Hbz|Hbnz]; cbn [negb] in Hm.
  - (* nothing fits *)
    set (es := if CHUNKSIZE <? asize then asize else CHUNKSIZE) in *.
    assert (Hes : MIN_BLOCK_SIZE <= es < 2 ^ 32 /\ es mod 8 = 0 /\ asize <= es).
    { unfold es. rewrite CHUNKSIZE_eq, MIN_BLOCK_SIZE_eq in *.
      destruct (Z.ltb_spec 65536 asize); repeat split; try lia; try assumption;
        try reflexivity. }
    destruct Hes as (Hes1 & Hes8 & Hes2).
    destruct (h_extend_heap_ok H live st (Z.shiftr es 3) es Hok Hnaf
                (shift_words es ltac:(rewrite MIN_BLOCK_SIZE_eq in Hes1; lia) Hes8)
                ltac:(lia) Hes8)
      as [(_ & Hnull & Hsame)
         |(_ & l1 & M & l2 & fl' & Hres & Hok' & HMf & HMs & Hn1 & Hn2 & Hkept & K1 & Hbrk1)];
      destruct (extend_heap memlib_sbrk (Z.shiftr es 3) st) as [blk st1];
      cbn [fst snd] in *.
    + subst blk st1. rewrite Z.eqb_refl in Hm. cbn [negb] in Hm. injection Hm as <- <-.
      now apply h_null_post.
    + subst blk. rewrite (h_heap_ok_addr _ _ _ M Hok') in Hm
        by (cbn [blocks]; apply elem_of_app; right; left).
      cbn [negb] in Hm. injection Hm as <- <-.
      apply (h_place_post H live l1 M l2 fl'); try assumption. lia.
  - (* a block fits *)
    injection Hm as <- <-.
    destruct Hok as [HRep Hmin Hbrk Hmax Hlive]. destruct H as [bs fl].
    cbn [blocks flist] in *.
    destruct (h_find_fit_first st bs fl fuel asize b (rep_pre _ _ HRep) Hfit Hbnz)
      as (f1 & f2 & Hfl & _ & Hsz).
    assert (Hin : b ∈ fl) by (rewrite Hfl; apply elem_of_app; right; left).
    destruct (pre_nodes _ _ (rep_pre _ _ HRep) b Hin) as (B & HB & Hadr & HBf).
    cbn [blocks] in HB.
    rewrite <- Hadr in Hsz.
    rewrite (h_pre_size _ _ _ _ (rep_pre _ _ HRep) HB) in Hsz.
    destruct (list_elem_of_split _ _ HB) as (l1 & l2 & ->).
    apply naf_app_cons in Hnaf as [Hn1 Hn2]. subst b.
    apply (h_place_post (mkHeap (l1 ++ B :: l2) fl) live l1 B l2 fl); try assumption.
    + split; assumption.
    + apply (naf_last _ _ _ Hn1). auto.
    + lia.
    + cbn [blocks]. intros X HX Ha.
      apply (in_around_inv l1 [_]) in HX as [HX|HX]; [exact HX|].
      apply list_elem_of_singleton in HX as ->. congruence.
    + apply payloads_kept_refl.
Qed.

(** [mm_malloc] answers null only to a request of no bytes, or when no
    block of the list fits and the arena has no room; the heap is then as
    it was. *)
Lemma h_mm_malloc_null_ok H live (st : state memlib) fuel u st' :
  quiescent H live st -> mm_malloc memlib_sbrk fuel u st = Some (NULL, st') ->
  st' = st
  /\ (u = 0
      \/ (find_fit fuel (adjust_size u) st = Some NULL
          /\ mem_max_addr (extender st)
             < mem_brk (extender st)
               + (if CHUNKSIZE <? adjust_size u then adjust_size u else CHUNKSIZE))).
Proof.
  intros HQ Hm. pose proof HQ as [Hok Hnaf]. unfold mm_malloc in Hm.
  destruct (Z.eqb_spec u 0) as [Hu|Hu].
  { injection Hm as <-. auto. }
  cbv zeta in Hm.
  pose proof (h_adjust_size_range u) as Has. pose proof (h_adjust_size_mod8 u) as Ha8.
  set (asize := adjust_size u) in *. clearbody asize.
  destruct (find_fit fuel asize st) as [b|] eqn:Hfit; [|discriminate].
  destruct (Z.eqb_spec b NULL) as [Hbz|Hbnz]; cbn [negb] in Hm.
  - subst b.
    set (es := if CHUNKSIZE <? asize then asize else CHUNKSIZE) in *.
    assert (Hes : MIN_BLOCK_SIZE <= es < 2 ^ 32 /\ es mod 8 = 0 /\ asize <= es).
    { unfold es. rewrite CHUNKSIZE_eq, MIN_BLOCK_SIZE_eq in *.
      destruct (Z.ltb_spec 65536 asize); repeat split; try lia; try assumption;
        try reflexivity. }
    destruct Hes as (Hes1 & Hes8 & Hes2).
    destruct (h_extend_heap_ok H live st (Z.shiftr es 3) es Hok Hnaf
                (shift_words es ltac:(rewrite MIN_BLOCK_SIZE_eq in Hes1; lia) Hes8)
                ltac:(lia) Hes8)
      as [(Hfull & Hnull & Hsame)
         |(_ & l1 & M & l2 & fl' & Hres & Hok' & HMf & HMs & Hn1 & Hn2 & Hkept & K1 & Hbrk1)];
      destruct (extend_heap memlib_sbrk (Z.shiftr es 3) st) as [blk st1];
      cbn [fst snd] in *.
    + subst blk st1. rewrite Z.eqb_refl in Hm. cbn [negb] in Hm. injection Hm as <-.
      auto.
    + exfalso. subst blk. rewrite (h_heap_ok_addr _ _ _ M Hok') in Hm
        by (cbn [blocks]; apply elem_of_app; right; left).
      cbn [negb] in Hm. injection Hm as Hp _.
      pose proof (h_heap_ok_payload _ _ _ M Hok'
                    ltac:(cbn [blocks]; apply elem_of_app; right; left)) as Hpn.
      rewrite Hp, Z.eqb_refl in Hpn. discriminate.
  - exfalso. injection Hm as Hp _.
    destruct Hok as [HRep Hmin Hbrk Hmax Hlive]. destruct H as [bs fl].
    cbn [blocks flist] in *.
    destruct (h_find_fit_first st bs fl fuel asize b (rep_pre _ _ HRep) Hfit Hbnz)
      as (f1 & f2 & Hfl & _ & Hsz).
    assert (Hin : b ∈ fl) by (rewrite Hfl; apply elem_of_app; right; left).
    destruct (pre_nodes _ _ (rep_pre _ _ HRep) b Hin) as (B & HB & Hadr & HBf).
    cbn [blocks] in HB. subst b.
    pose proof (h_heap_ok_payload (mkHeap bs fl) live st B
                  ltac:(split; assumption) HB) as Hpn.
    rewrite Hp, Z.eqb_refl in Hpn. discriminate.
Qed.

(** With fuel for the list and room in the arena, [mm_malloc] serves every
    request of at least one byte. *)
Lemma h_mm_malloc_serves_ok H live (st : state memlib) fuel u :
  quiescent H live st -> u <> 0 -> (length (flist H) < fuel)%nat ->
  mem_brk (extender st) + (if CHUNKSIZE <? adjust_size u then adjust_size u else CHUNKSIZE)
    <= mem_max_addr (extender st) ->
  exists p st', mm_malloc memlib_sbrk fuel u st = Some (p, st') /\ p <> NULL.
Proof.
  intros HQ Hu0 Hfuel Hroom. pose proof HQ as [Hok Hnaf].
  destruct H as [bs fl]. cbn [flist] in Hfuel.
  destruct (h_find_fit_total st bs fl fuel (adjust_size u)
              (rep_pre _ _ (ok_rep _ _ _ Hok)) Hfuel) as (b & Hfit).
  destruct (mm_malloc memlib_sbrk fuel u st) as [[p st']|] eqn:Hm.
  - exists p, st'. split; [reflexivity|]. intros ->.
    destruct (h_mm_malloc_null_ok _ live st fuel u st' HQ Hm) as (_ & [Hz|(_ & Hfull)]);
      [contradiction|lia].
  - exfalso. unfold mm_malloc in Hm. rewrite (proj2 (Z.eqb_neq u 0) Hu0) in Hm.
    cbv zeta in Hm. rewrite Hfit in Hm.
    destruct (negb (b =? NULL)); [discriminate|].
    match type of Hm with
    | context [extend_heap ?a ?w ?s] => destruct (extend_heap a w s) as [blk st1]
    end.
    destruct (negb (blk =? NULL)); discriminate.
Qed.

(** When [mm_malloc] grows the heap: only when no block of the list fits,
    and then by the larger of the adjusted size and [CHUNKSIZE]. *)
Lemma h_mm_malloc_brk H live (st : state memlib) fuel u p st' :
  quiescent H live st -> mm_malloc memlib_sbrk fuel u st = Some (p, st') -> p <> NULL ->
  exists b, find_fit fuel (adjust_size u) st = Some b
    /\ (b <> NULL -> p = payload b /\ mem_brk (extender st') = mem_brk (extender st))
    /\ (b = NULL ->
          mem_brk (extender st')
          = mem_brk (extender st)
            + (if CHUNKSIZE <? adjust_size u then adjust_size u else CHUNKSIZE)).
Proof.
  intros HQ Hm Hp. pose proof HQ as [Hok Hnaf]. unfold mm_malloc in Hm.
  destruct (u =? 0).
  { injection Hm as <- <-. contradiction. }
  cbv zeta in Hm.
  pose proof (h_adjust_size_range u) as Has. pose proof (h_adjust_size_mod8 u) as Ha8.
  set (asize := adjust_size u) in *. clearbody asize.
  destruct (find_fit fuel asize st) as [b|] eqn:Hfit; [|discriminate].
  exists b. split; [reflexivity|].
  destruct (Z.eqb_spec b NULL) as [Hbz|Hbnz]; cbn [negb] in Hm.
  - split; [contradiction|]. intros _.
    set (es := if CHUNKSIZE <? asize then asize else CHUNKSIZE) in *.
    assert (Hes : MIN_BLOCK_SIZE <= es < 2 ^ 32 /\ es mod 8 = 0 /\ asize <= es).
    { unfold es. rewrite CHUNKSIZE_eq, MIN_BLOCK_SIZE_eq in *.
      destruct (Z.ltb_spec 65536 asize); repeat split; try lia; try assumption;
        try reflexivity. }
    destruct Hes as (Hes1 & Hes8 & Hes2).
    destruct (h_extend_heap_ok H live st (Z.shiftr es 3) es Hok Hnaf
                (shift_words es ltac:(rewrite MIN_BLOCK_SIZE_eq in Hes1; lia) Hes8)
                ltac:(lia) Hes8)
      as [(_ & Hnull & Hsame)
         |(_ & l1 & M & l2 & fl' & Hres & Hok' & HMf & HMs & Hn1 & Hn2 & Hkept & K1 & Hbrk1)];
      destruct (extend_heap memlib_sbrk (Z.shiftr es 3) st) as [blk st1];
      cbn [fst snd] in *.
    + subst blk st1. rewrite Z.eqb_refl in Hm. cbn [negb] in Hm. injection Hm as <- <-.
      contradiction.
    + subst blk. rewrite (h_heap_ok_addr _ _ _ M Hok') in Hm
        by (cbn [blocks]; apply elem_of_app; right; left).
      cbn [negb] in Hm. injection Hm as <- <-.
      rewrite (proj2 (h_place_fields (b_addr M) asize st1)). exact Hbrk1.
  - split; [|contradiction]. intros _. injection Hm as <- <-.
    split; [reflexivity|]. rewrite (proj2 (h_place_fields b asize st)). reflexivity.
Qed.

(** * The allocator with one list: [mm_free] and [mm_realloc] at a
    quiescent point *)

Lemma h_mm_free_quiescent H live (st : state memlib) p :
  quiescent H live st -> p ∈ live ->
  (exists H', quiescent H' (filter (fun q => q <> p) live) (mm_free p st))
  /\ (forall B i, B ∈ blocks H -> b_alloc B = true -> payload (b_addr B) <> p ->
        b_addr B + 8 <= i < b_addr B + b_size B - 8 ->
        load8 (heap (mm_free p st)) i = load8 (heap st) i).
Proof.
  intros [[HRep Hmin Hbrk Hmax Hlive] Hnaf] Hp.
  destruct (Hlive p Hp) as (B & HB & Hpay & Hal).
  destruct H as [bs fl]. cbn [blocks flist] in *.
  destruct (list_elem_of_split _ _ HB) as (l1 & l2 & ->).
  destruct B as [b s a]. cbn [b_addr b_alloc] in Hpay, Hal. subst a.
  assert (Hs : MIN_BLOCK_SIZE <= s) by (apply (Hmin _ HB)).
  destruct (h_free_mark st l1 b s l2 fl HRep Hs) as (HRep3 & F3b & F3c & K3).
  cbv zeta in HRep3, F3b, F3c, K3.
  match type of HRep3 with Rep _ ?x => set (st3 := x) in * end.
  assert (Heq : mm_free p st = snd (coalesce b st3)).
  { subst p. unfold mm_free, payload.
    replace (b + sizeof_header - sizeof_header) with b by lia. reflexivity. }
  rewrite Heq. clearbody st3. clear Heq.
  destruct (h_coalesce_quiet st3 l1 b s l2 _ HRep3 Hnaf)
    as (l1' & M & l2' & fl' & HR & _ & HMf & HMs & Hnaf' & Htot & Hkept & Hsub
        & Fb & Fc & Kc).
  split.
  - exists (mkHeap (l1' ++ M :: l2') fl'). split; [split|]; cbn [blocks flist].
    + exact HR.
    + intros X HX. apply elem_of_app in HX as [HX|HX].
      * apply Hmin, (in_around _ [_]), Hsub, elem_of_app. now left.
      * apply elem_of_cons in HX as [->|HX]; [lia|].
        apply Hmin, (in_around _ [_]), Hsub, elem_of_app. now right.
    + rewrite Fc, Fb, F3c, F3b, Htot, Hbrk. rewrite !total_size_app. reflexivity.
    + rewrite Fc, Fb, F3c, F3b. exact Hmax.
    + intros q Hq. apply list_elem_of_filter in Hq as [Hne Hq].
      destruct (Hlive q Hq) as (Bq & HBq & Hpq & Haq).
      exists Bq. split; [|auto]. apply (in_around _ [_]), Hkept; [|exact Haq].
      apply (in_around_inv l1 [_]) in HBq as [HBq|HBq]; [exact HBq|].
      apply list_elem_of_singleton in HBq as ->. cbn [b_addr] in Hpq. congruence.
    + exact Hnaf'.
  - intros X i HX Ha Hne Hi.
    assert (HX' : X ∈ l1 ++ l2).
    { apply (in_around_inv l1 [_]) in HX as [HX|HX]; [exact HX|].
      apply list_elem_of_singleton in HX as ->. cbn [b_addr] in Hne. congruence. }
    rewrite (Kc X i HX' Ha Hi). exact (K3 X i HX' Ha Hi).
Qed.

(** Writes into the payload of an allocated block leave the heap what it
    is. *)
Lemma h_payload_write H live (st : state memlib) f B :
  quiescent H live st -> B ∈ blocks H -> b_alloc B = true ->
  (forall i, i < b_addr B + 8 \/ b_addr B + b_size B - 8 <= i ->
             load8 (f (heap st)) i = load8 (heap st) i) ->
  quiescent H live (on_heap f st).
Proof.
  intros [[HRep Hmin Hbrk Hmax Hlive] Hnaf] HB Ha Hfr.
  destruct H as [bs fl]. cbn [blocks flist] in *.
  destruct (list_elem_of_split _ _ HB) as (l1 & l2 & ->).
  pose proof (pre_blocks _ _ (rep_pre _ _ HRep)) as Hb. cbn [blocks] in Hb.
  destruct (h_blocks_ok_at _ _ _ _ Hb) as (Hadr & _ & _ & Hsz & Htag & _).
  split; [split; cbn [blocks flist]; try assumption|exact Hnaf].
  split; [|apply (rep_free _ _ HRep)].
  apply (h_retag_pre st (on_heap f st) l1 [B] [B] l2 fl); try reflexivity.
  - apply (rep_pre _ _ HRep).
  - apply (h_nodes_free_skip _ _ _ _ (pre_nodes _ _ (rep_pre _ _ HRep)) Ha).
  - intros X HX. apply list_elem_of_singleton in HX as ->. exact Hsz.
  - cbn [contig]. split; [lia|exact I].
  - intros X HX. apply list_elem_of_singleton in HX as ->.
    rewrite h_heap_on_heap. destruct Hsz as (Hs8 & _). unfold tagged in *.
    rewrite (get_block_size_ext (heap st) (f (heap st)) (b_addr B))
      by (intros; apply Hfr; lia).
    rewrite (get_allocated_ext (heap st) (f (heap st)) (b_addr B))
      by (intros; apply Hfr; lia).
    rewrite (get_block_size_ext (heap st) (f (heap st)) (b_addr B + b_size B - 8))
      by (intros; apply Hfr; lia).
    rewrite (get_allocated_ext (heap st) (f (heap st)) (b_addr B + b_size B - 8))
      by (intros; apply Hfr; lia).
    exact Htag.
  - cbn [total_size]. intros i Hi. rewrite h_heap_on_heap. apply Hfr.
    destruct Hsz as (Hs8 & _). lia.
Qed.

(** [mm_realloc] at a quiescent point: the heap that comes out is
    quiescent, the payload it answers holds what the old one held, as far
    as both reach, and the payloads of the other blocks are what they
    were. *)
Lemma h_mm_realloc_quiescent H live (st : state memlib) fuel p u q st' :
  quiescent H live st -> p ∈ live -> 0 <= u <= 2 ^ 32 - 24 ->
  mm_realloc memlib_sbrk fuel p u st = Some (Returned q st') ->
  (exists H', quiescent H' (q :: filter (fun r => r <> p) live) st')
  /\ (forall j, 0 <= j < u -> j < block_size st (p - sizeof_header) - OVERHEAD ->
        load8 (heap st') (q + j) = load8 (heap st) (p + j))
  /\ (forall B i, B ∈ blocks H -> b_alloc B = true -> payload (b_addr B) <> p ->
        b_addr B + 8 <= i < b_addr B + b_size B - 8 ->
        load8 (heap st') i = load8 (heap st) i).
Proof.
  intros HQ Hp Hu Hr. unfold mm_realloc in Hr.
  destruct (mm_malloc memlib_sbrk fuel u st) as [[newp st1]|] eqn:Hm; [|discriminate].
  destruct (Z.eqb_spec newp NULL) as [|Hnz]; [discriminate|].
  cbv zeta in Hr. injection Hr as <- <-.
  assert (Hu0 : u <> 0).
  { intros ->. unfold mm_malloc in Hm. rewrite Z.eqb_refl in Hm. congruence. }
  destruct (h_mm_malloc_post H live st fuel u newp st1 HQ Hm)
    as ((H1 & HQ1 & Hnew & Hkept) & K1).
  destruct (Hnew Hnz) as (Bn & HBn & Hpn & Han & Hsn).
  rewrite h_adjust_size_required in Hsn by lia.
  destruct (required_size_bounds u ltac:(lia)) as (_ & _ & Hreq).
  rewrite OVERHEAD_eq in Hreq.
  apply Z.eqb_neq in Hnz. rewrite Hnz in HQ1.
  pose proof HQ as [[HRep0 _ _ _ Hlive] _].
  destruct (Hlive p Hp) as (Bp & HBp & Hpp & Hap).
  destruct (Hkept Bp HBp Hap) as [HBp1 Hpne].
  pose proof HQ1 as [[HRep1 _ _ _ _] _].
  destruct H as [bs fl]. destruct H1 as [bs1 fl1]. cbn [blocks flist] in *.
  pose proof (pre_blocks _ _ (rep_pre _ _ HRep1)) as Hb1. cbn [blocks] in Hb1.
  assert (Hsp : block_size st1 (p - sizeof_header) = b_size Bp).
  { rewrite <- Hpp. unfold payload.
    replace (b_addr Bp + sizeof_header - sizeof_header) with (b_addr Bp) by lia.
    apply (h_pre_size _ _ _ _ (rep_pre _ _ HRep1) HBp1). }
  assert (Hsp0 : block_size st (p - sizeof_header) = b_size Bp).
  { rewrite <- Hpp. unfold payload.
    replace (b_addr Bp + sizeof_header - sizeof_header) with (b_addr Bp) by lia.
    apply (h_pre_size _ _ _ _ (rep_pre _ _ HRep0) HBp). }
  rewrite Hsp. rewrite Hsp0, OVERHEAD_eq.
  set (cs := if u <? b_size Bp then u else b_size Bp).
  assert (Hcs : cs <= u /\ cs <= b_size Bp)
    by (unfold cs; destruct (Z.ltb_spec u (b_size Bp)); lia).
  unfold payload in Hpn, Hpp, Hpne. rewrite sizeof_header_eq in Hpn, Hpp, Hpne.
  pose proof (h_blocks_ok_pos _ _ Hb1) as Hpos1.
  assert (HQ2 : quiescent (mkHeap bs1 fl1) (newp :: live)
                  (on_heap (memcpy newp p cs) st1)).
  { apply (h_payload_write (mkHeap bs1 fl1) _ st1 _ Bn HQ1 HBn Han).
    intros i Hi. apply load8_memcpy. lia. }
  assert (Hp2 : p ∈ newp :: live) by now right.
  destruct (h_mm_free_quiescent (mkHeap bs1 fl1) (newp :: live) _ p HQ2 Hp2)
    as [(H' & HQ') K3].
  cbn [blocks] in K3. rewrite h_heap_on_heap in K3.
  split; [|split].
  - exists H'. rewrite filter_cons_True in HQ' by congruence. exact HQ'.
  - intros j Hj Hjp.
    rewrite (K3 Bn (newp + j) HBn Han) by (unfold payload; rewrite ?sizeof_header_eq; lia).
    rewrite load8_memcpy_copied.
    + apply (K1 Bp (p + j) HBp Hap). lia.
    + destruct (contig_disjoint _ _ Bp Bn Hpos1 (bo_contig _ _ Hb1) HBp1 HBn)
        as [Heq|[Hd|Hd]]; [subst Bn; lia|lia|lia].
    + unfold cs. destruct (Z.ltb_spec u (b_size Bp)); lia.
  - intros B i HB Ha Hne Hi. destruct (Hkept B HB Ha) as [HB1 Hnn].
    rewrite (K3 B i HB1 Ha Hne Hi).
    rewrite load8_memcpy.
    + apply (K1 B i HB Ha Hi).
    + unfold payload in Hnn. rewrite sizeof_header_eq in Hnn.
      destruct (contig_disjoint _ _ B Bn Hpos1 (bo_contig _ _ Hb1) HB1 HBn)
        as [Heq|[Hd|Hd]]; [subst Bn; lia|lia|lia].
Qed.

(** * Every state that a client reaches is quiescent *)

Lemma h_after_init_quiescent cap :
  CHUNKSIZE <= cap < 2 ^ 31 ->
  quiescent (mkHeap [mkBlk 4104 65520 false] [4104]) [] (after_init cap).
Proof.
  intros Hcap. rewrite CHUNKSIZE_eq in Hcap.
  assert (H1 : memlib_sbrk CHUNKSIZE (extender (fresh cap))
               = (4096, mkMemlib 69632 (4096 + cap))).
  { unfold memlib_sbrk, fresh. cbn [extender mem_brk mem_max_addr].
    rewrite CHUNKSIZE_eq.
    destruct (Z.ltb_spec (4096 + cap) (4096 + 65536)); [lia|]. reflexivity. }
  assert (H3 : 4096 + CHUNKSIZE <= 2 ^ 64) by (vm_compute; discriminate).
  destruct (h_mm_init_rep memlib_sbrk (fresh cap) 4096 _ H1 ltac:(lia) H3)
    as (HRep & FP & FE).
  cbv zeta in HRep, FP, FE. fold (after_init cap) in HRep, FP, FE.
  split; [split; cbn [blocks flist]|apply naf_single].
  - exact HRep.
  - intros B HB. apply list_elem_of_singleton in HB as ->. rewrite MIN_BLOCK_SIZE_eq. cbn. lia.
  - rewrite FE, FP. cbn [mem_brk total_size b_size]. lia.
  - rewrite FE, FP. cbn [mem_max_addr]. lia.
  - intros p Hp. inversion Hp.
Qed.

Lemma h_reachable_quiescent st live :
  reachable st live -> exists H, quiescent H live st.
Proof.
  induction 1 as [cap Hcap|st live fuel u p st' _ [H HQ] Hu Hm
                 |st live p _ [H HQ] Hp|st live fuel p u q st' _ [H HQ] Hp Hu Hr
                 |st live p i v _ [H HQ] Hp Hi].
  - eexists. apply h_after_init_quiescent, Hcap.
  - destruct (h_mm_malloc_post H live st fuel u p st' HQ Hm) as ((H' & HQ' & _) & _).
    eauto.
  - apply (h_mm_free_quiescent H live st p HQ Hp).
  - apply (h_mm_realloc_quiescent H live st fuel p u q st' HQ Hp Hu Hr).
  - exists H. pose proof HQ as [[HRep _ _ _ Hlive] _].
    destruct (Hlive p Hp) as (B & HB & Hpay & Ha).
    unfold payload in Hpay. rewrite sizeof_header_eq in Hpay, Hi.
    replace (p - 8) with (b_addr B) in Hi by lia.
    destruct H as [bs fl]. cbn [blocks] in *.
    rewrite (h_pre_size _ _ _ _ (rep_pre _ _ HRep) HB), OVERHEAD_eq in Hi.
    apply (h_payload_write _ _ st _ B HQ HB Ha).
    intros j Hj. apply load8_store8_ne. lia.
Qed.

(** A byte of a payload that the client holds is a byte of the payload of
    an allocated block. *)
Lemma h_live_payload H live (st : state memlib) q i :
  heap_ok H live st -> q ∈ live ->
  q <= i < q + (block_size st (q - sizeof_header) - OVERHEAD) ->
  exists B, B ∈ blocks H /\ b_alloc B = true /\ payload (b_addr B) = q
            /\ block_size st (q - sizeof_header) = b_size B
            /\ b_addr B + 8 <= i < b_addr B + b_size B - 8.
Proof.
  intros [HRep _ _ _ Hlive] Hq Hi. destruct (Hlive q Hq) as (B & HB & Hpay & Ha).
  exists B. split; [exact HB|]. split; [exact Ha|]. split; [exact Hpay|].
  destruct H as [bs fl]. cbn [blocks] in *.
  unfold payload in Hpay. rewrite sizeof_header_eq in *. rewrite OVERHEAD_eq in Hi.
  replace (q - 8) with (b_addr B) in * by lia.
  rewrite (h_pre_size _ _ _ _ (rep_pre _ _ HRep) HB) in *. split; [reflexivity|lia].
Qed.

(** * The allocator with one list: the walk over the heap, and the
    prologue *)

Section HWalk.

Context {E : Type}.
Variable mem_sbrk : Z -> E -> Z * E.
Implicit Types (st : state E).

(** The walk from the first block, by [address + size] steps, visits the
    blocks of the row and stops at the epilogue. *)
Lemma h_rep_walk st bs :
  blocks_ok st bs ->
  heap_blocks (S (length bs)) (heap st) (prologue st + sizeof_header) = map b_addr bs.
Proof.
  intros Hb. apply walk_row.
  - apply (bo_contig _ _ Hb).
  - apply (h_blocks_ok_pos _ _ Hb).
  - intros B HB. apply (bo_tagged _ _ Hb B HB).
  - apply (bo_epilogue _ _ Hb).
  - lia.
Qed.


Lemma h_block_aligned st bs B :
  blocks_ok st bs -> prologue st mod 8 = 0 -> B ∈ bs -> b_addr B mod 8 = 0.
Proof.
  intros Hb H8 HB. destruct (list_elem_of_split _ _ HB) as (l1 & l2 & ->).
  destruct (h_blocks_ok_at _ _ _ _ Hb) as (-> & _).
  assert (Ht : total_size l1 mod 8 = 0).
  { apply total_size_mod8. intros B' HB'.
    destruct (bo_sizes _ _ Hb B') as (_ & ? & _); [apply elem_of_app; now left|auto]. }
  rewrite Z.add_mod, (Z.add_mod (prologue st)), H8, Ht by lia. reflexivity.
Qed.

Lemma h_prologue_list_push b st : prologue (list_push b st) = prologue st.
Proof. apply h_list_push_fields. Qed.

Lemma h_prologue_list_pop b st : prologue (list_pop b st) = prologue st.
Proof. apply h_list_pop_fields. Qed.

Lemma h_coalesce_prologue b st : prologue (snd (coalesce b st)) = prologue st.
Proof.
  unfold coalesce. cbv zeta.
  destruct (_ && _); [reflexivity|].
  destruct (_ && _); [|destruct (_ && _)]; cbn [snd];
    rewrite h_prologue_list_push; hst_unfold; rewrite ?h_prologue_list_pop; reflexivity.
Qed.

Lemma h_extend_heap_prologue words st :
  prologue (snd (extend_heap mem_sbrk words st)) = prologue st.
Proof.
  unfold extend_heap. cbv zeta. destruct (_ =? 0); [reflexivity|].
  destruct (mem_sbrk _ _) as [blk e]. destruct (_ =? _); [reflexivity|].
  rewrite h_coalesce_prologue, h_prologue_list_push. hst_unfold. reflexivity.
Qed.

Lemma h_mm_malloc_prologue fuel u st p st' :
  mm_malloc mem_sbrk fuel u st = Some (p, st') -> prologue st' = prologue st.
Proof.
  unfold mm_malloc. destruct (u =? 0); [intros [= <- <-]; reflexivity|]. cbv zeta.
  destruct (find_fit _ _ _) as [b|]; [|discriminate].
  destruct (negb (b =? NULL)).
  - intros [= <- <-]. apply h_place_fields.
  - match goal with
    | |- context [extend_heap mem_sbrk ?w st] =>
        pose proof (h_extend_heap_prologue w st) as F;
        destruct (extend_heap mem_sbrk w st) as [blk st1]
    end.
    cbn [snd] in F. destruct (negb (blk =? NULL)); intros [= <- <-]; [|exact F].
    rewrite (proj1 (h_place_fields blk _ st1)). exact F.
Qed.

Lemma h_mm_free_prologue p st : prologue (mm_free p st) = prologue st.
Proof.
  unfold mm_free. cbv zeta. rewrite h_coalesce_prologue, h_prologue_list_push.
  hst_unfold. reflexivity.
Qed.

Lemma h_mm_realloc_prologue fuel p u st q st' :
  mm_realloc mem_sbrk fuel p u st = Some (Returned q st') -> prologue st' = prologue st.
Proof.
  unfold mm_realloc.
  destruct (mm_malloc mem_sbrk fuel u st) as [[newp st1]|] eqn:Hm; [|discriminate].
  destruct (newp =? NULL); [discriminate|]. cbv zeta. intros [= <- <-].
  rewrite h_mm_free_prologue. hst_unfold. apply (h_mm_malloc_prologue _ _ _ _ _ Hm).
Qed.

End HWalk.

(** The prologue is where [mm_init] put it. *)
Lemma h_reachable_prologue st live : reachable st live -> prologue st = 4096.
Proof.
  induction 1 as [cap Hcap|st live fuel u p st' _ IH Hu Hm
                 |st live p _ IH Hp|st live fuel p u q st' _ IH Hp Hu Hr
                 |st live p i v _ IH Hp Hi].
  - destruct (h_after_init_quiescent cap Hcap) as [[_ _ Hbrk _ _] _].
    cbn [blocks total_size b_size] in Hbrk.
    assert (H1 : memlib_sbrk CHUNKSIZE (extender (fresh cap))
                 = (4096, mkMemlib 69632 (4096 + cap))).
    { unfold memlib_sbrk, fresh. cbn [extender mem_brk mem_max_addr].
      rewrite CHUNKSIZE_eq in *.
      destruct (Z.ltb_spec (4096 + cap) (4096 + 65536)); [lia|]. reflexivity. }
    assert (H3 : 4096 + CHUNKSIZE <= 2 ^ 64) by (vm_compute; discriminate).
    destruct (h_mm_init_rep memlib_sbrk (fresh cap) 4096 _ H1 ltac:(lia) H3)
      as (_ & FP & _).
    exact FP.
  - rewrite (h_mm_malloc_prologue _ _ _ _ _ _ Hm). exact IH.
  - rewrite h_mm_free_prologue. exact IH.
  - rewrite (h_mm_realloc_prologue _ _ _ _ _ _ _ Hr). exact IH.
  - exact IH.
Qed.

(** * The allocator with one list: what a client and a maintainer can rely
    on *)

(** X18: [list_push] of the allocator with one list puts the free block at
    the head of the list, with a null prev link and the old head as its
    next link: a walk of the list meets the new block first and then the
    nodes the list had, in their order. *)
Theorem handout_list_push_walk {E : Type} (st : state E) bs (fl : list Z) b :
  Pre (mkHeap bs fl) st -> free_block bs b -> b ∉ fl ->
  let st' := list_push b st in
  head st' = b /\ prev st' b = NULL /\ next st' b = head st
  /\ list_nodes (S (S (length fl))) (heap st') (head st') = b :: fl.
Proof.
  intros HPre Hx Hfresh st'.
  pose proof (h_push_pre st bs fl b HPre Hx Hfresh) as [_ [Hd _] _].
  cbn [flist] in Hd. fold st' in Hd.
  pose proof (pre_list _ _ HPre) as [Hd0 _]. cbn [flist] in Hd0.
  pose proof (dll_walk _ _ _ _ (S (S (length fl))) Hd ltac:(cbn [length]; lia)) as Hw.
  destruct Hd as (Hh & _ & Hp & Hrest).
  split; [exact Hh|]. split; [rewrite h_prev_get; exact Hp|].
  split; [|exact Hw].
  rewrite h_next_get, (dll_hd _ _ _ _ Hrest), (dll_hd _ _ _ _ Hd0). reflexivity.
Qed.

(** X19: [list_pop] of the allocator with one list takes exactly the given
    node off the list: a walk of the list meets the other nodes in the
    order they had.  The prev link of the node taken off is null
    afterwards; its next link is null too, except that a node taken from
    the head of the list keeps the next link it had. *)
Theorem handout_list_pop_walk {E : Type} (st : state E) bs (fl : list Z) b :
  Pre (mkHeap bs fl) st -> b ∈ fl ->
  let st' := list_pop b st in
  list_nodes (S (length fl)) (heap st') (head st') = filter (fun y => y <> b) fl
  /\ prev st' b = NULL
  /\ next st' b = (if head st =? b then next st b else NULL).
Proof.
  intros [Hb Hl Hn] Hin st'. cbn [blocks flist] in *.
  pose proof (h_blocks_node_space _ _ Hb) as HNS.
  pose proof (h_nodes_free_in _ _ _ Hb Hn) as HN.
  destruct (h_list_pop_ok st fl _ b HNS HN Hl Hin) as ([Hd _] & _ & Hprev & Hnext).
  fold st' in Hd, Hprev, Hnext.
  split; [|split; [exact Hprev|exact Hnext]].
  apply (dll_walk _ _ _ _ _ Hd).
  pose proof (length_filter_le b fl). lia.
Qed.

(** X20: with fuel for the list, [find_fit] of the allocator with one list
    ends, and it is a complete first fit: it answers [NULL] only when no
    free block of the heap has [asize] bytes, and a block it answers is a
    free block of the heap, the first node of the list with at least
    [asize] bytes. *)
Theorem handout_find_fit_complete {E : Type} (st : state E) bs (fl : list Z) fuel asize :
  Rep (mkHeap bs fl) st -> (length fl < fuel)%nat ->
  exists b, find_fit fuel asize st = Some b
    /\ (b = NULL -> forall B, B ∈ bs -> b_alloc B = false -> b_size B < asize)
    /\ (b <> NULL ->
          free_block bs b
          /\ exists l1 l2, fl = l1 ++ b :: l2
               /\ (forall x, x ∈ l1 -> block_size st x < asize)
               /\ asize <= block_size st b).
Proof.
  intros [HPre Hfl] Hlen. cbn [blocks flist] in *.
  destruct (h_find_fit_total st bs fl fuel asize HPre Hlen) as (b & Hfit).
  exists b. split; [exact Hfit|]. split.
  - intros -> B HB Hf.
    pose proof (h_find_fit_none st bs fl fuel asize HPre Hfit (b_addr B) (Hfl B HB Hf)) as Hs.
    rewrite (h_pre_size _ _ _ _ HPre HB) in Hs. exact Hs.
  - intros Hnz.
    destruct (h_find_fit_first st bs fl fuel asize b HPre Hfit Hnz)
      as (l1 & l2 & Heq & Hbefore & Hsz).
    split; [|exists l1, l2; auto].
    apply (pre_nodes _ _ HPre). cbn [flist]. rewrite Heq.
    apply elem_of_app. right. left.
Qed.

(** X21: [mm_init] of the allocator with one list.  When the extender
    fails, it returns -1 and leaves the heap and the head of the list as
    they were.  When the extender answers the region at [P], it returns 0
    and the heap is the prologue at [P], one free block of
    [CHUNKSIZE - OVERHEAD] bytes and the epilogue; the free block is the
    only node of the list. *)
Theorem handout_mm_init_layout {E : Type} (mem_sbrk : Z -> E -> Z * E)
    (st : state E) (P : Z) (e : E) :
  mem_sbrk CHUNKSIZE (extender st) = (P, e) ->
  let r := mm_init mem_sbrk st in
  (P = SBRK_FAILED ->
     fst r = -1 /\ heap (snd r) = heap st /\ head (snd r) = head st)
  /\ (0 < P -> P + CHUNKSIZE <= 2 ^ 64 ->
        fst r = 0 /\ prologue (snd r) = P /\ extender (snd r) = e
        /\ Rep (mkHeap [mkBlk (P + 8) (CHUNKSIZE - OVERHEAD) false] [P + 8]) (snd r)
        /\ heap_blocks 2 (heap (snd r)) (P + sizeof_header) = [P + 8]
        /\ list_nodes 2 (heap (snd r)) (head (snd r)) = [P + 8]).
Proof.
  intros Hs r. split.
  - intros ->. exact (h_mm_init_fails mem_sbrk st e Hs).
  - intros HP Hfit.
    destruct (h_mm_init_fields mem_sbrk st P e Hs ltac:(lia) Hfit) as (Hr & _).
    destruct (h_mm_init_rep mem_sbrk st P e Hs HP Hfit) as (HRep & HPr & He).
    fold r in Hr, HRep, HPr, He.
    replace (CHUNKSIZE - OVERHEAD) with 65520 by reflexivity.
    split; [exact Hr|]. split; [exact HPr|]. split; [exact He|].
    split; [exact HRep|].
    pose proof (pre_blocks _ _ (rep_pre _ _ HRep)) as Hb. cbn [blocks] in Hb.
    pose proof (h_rep_walk _ _ Hb) as Hw. rewrite HPr in Hw. cbn [length map b_addr] in Hw.
    split; [exact Hw|].
    pose proof (pre_list _ _ (rep_pre _ _ HRep)) as [Hd _]. cbn [flist] in Hd.
    apply (dll_walk _ _ _ _ _ Hd). cbn [length]. lia.
Qed.

(** X22: [coalesce] of the allocator with one list, on a free block [b]
    that is on the list, between the rows [l1] and [l2].  (1) With both
    neighbours allocated nothing changes and [b] is returned.  (2) With
    only the block [n] after it free, [b] and [n] are taken off the list,
    [b] grows by the size of [n], and is pushed and returned.  (3) With
    only the block [p] before it free, [b] and [p] are taken off the list,
    [p] grows by the size of [b], and is pushed and returned.  (4) With
    both free, the three blocks are taken off the list, [p] grows by both
    sizes, and is pushed and returned.  In every case the payloads of the
    other blocks are left as they were. *)
Theorem handout_coalesce_spec {E : Type} (st : state E) l1 b s l2 (fl : list Z) :
  Rep (mkHeap (l1 ++ mkBlk b s false :: l2) fl) st ->
  (alloc_before l1 -> alloc_after l2 -> coalesce b st = (b, st))
  /\ (forall n sN l2', alloc_before l1 -> l2 = mkBlk n sN false :: l2' ->
        fst (coalesce b st) = b
        /\ Rep (mkHeap (l1 ++ mkBlk b (s + sN) false :: l2')
                  (b :: filter (fun y => y <> n) (filter (fun y => y <> b) fl)))
               (snd (coalesce b st))
        /\ payloads_kept (l1 ++ l2') (heap st) (heap (snd (coalesce b st))))
  /\ (forall l1' p sP, l1 = l1' ++ [mkBlk p sP false] -> alloc_after l2 ->
        fst (coalesce b st) = p
        /\ Rep (mkHeap (l1' ++ mkBlk p (sP + s) false :: l2)
                  (p :: filter (fun y => y <> p) (filter (fun y => y <> b) fl)))
               (snd (coalesce b st))
        /\ payloads_kept (l1' ++ l2) (heap st) (heap (snd (coalesce b st))))
  /\ (forall l1' p sP n sN l2',
        l1 = l1' ++ [mkBlk p sP false] -> l2 = mkBlk n sN false :: l2' ->
        fst (coalesce b st) = p
        /\ Rep (mkHeap (l1' ++ mkBlk p (sP + (s + sN)) false :: l2')
                  (p :: filter (fun y => y <> n)
                          (filter (fun y => y <> b) (filter (fun y => y <> p) fl))))
               (snd (coalesce b st))
        /\ payloads_kept (l1' ++ l2') (heap st) (heap (snd (coalesce b st)))).
Proof.
  intros HRep. split; [|split; [|split]].
  - intros H1 H2.
    apply (h_coalesce_case1 st l1 (mkBlk b s false) l2); try assumption.
    apply (pre_blocks _ _ (rep_pre _ _ HRep)).
  - intros n sN l2' H1 ->.
    destruct (h_coalesce_case2 st l1 b s n sN l2' fl HRep H1) as (Hr & _ & HR & HK). auto.
  - intros l1' p sP -> H2. rewrite <- app_assoc in HRep.
    destruct (h_coalesce_case3 st l1' p sP b s l2 fl HRep H2) as (Hr & _ & HR & HK). auto.
  - intros l1' p sP n sN l2' -> ->. rewrite <- app_assoc in HRep.
    destruct (h_coalesce_case4 st l1' p sP b s n sN l2' fl HRep) as (Hr & _ & HR & HK). auto.
Qed.

(** X23: [place] of the allocator with one list, on a free block [b] of
    [s] bytes that is on the list, for a target size [asize <= s] that is
    a positive multiple of 8.  With a residual [r = s - asize] of at least
    [MIN_BLOCK_SIZE], [b] is taken off the list and becomes an allocated
    block of [asize] bytes, and the new free block of [r] bytes at
    [b + asize] is pushed on the list; otherwise [b] is taken off the list
    and marked allocated at its full size.  The payloads of the other
    blocks are left as they were. *)
Theorem handout_place_spec {E : Type} (st : state E) l1 l2 (fl : list Z) b s asize :
  Rep (mkHeap (l1 ++ mkBlk b s false :: l2) fl) st ->
  0 < asize <= s -> asize mod 8 = 0 ->
  let r := s - asize in
  let st' := place b asize st in
  let fl1 := filter (fun y => y <> b) fl in
  (prologue st' = prologue st /\ extender st' = extender st
   /\ if MIN_BLOCK_SIZE <=? r then
        Rep (mkHeap (l1 ++ mkBlk b asize true :: mkBlk (b + asize) r false :: l2)
                    ((b + asize) :: fl1)) st'
      else
        Rep (mkHeap (l1 ++ mkBlk b s true :: l2) fl1) st')
  /\ payloads_kept (l1 ++ l2) (heap st) (heap st').
Proof. apply h_place_rep. Qed.


(** X25: the ways in which [mm_malloc] of the allocator with one list
    answers.  It answers null only to a request of no bytes, or when the
    search of the list finds no block and the arena has no room for the
    larger of the adjusted size and [CHUNKSIZE]; the heap is then left
    exactly as it was.  When it answers a payload, either the search found
    a block, the payload is the one of that block and the heap has not
    grown, or the search found none and the heap has grown by the larger of
    the adjusted size and [CHUNKSIZE]. *)
Theorem handout_mm_malloc_cases (st : state memlib) live fuel u p st' :
  reachable st live -> mm_malloc memlib_sbrk fuel u st = Some (p, st') ->
  let grow := if CHUNKSIZE <? adjust_size u then adjust_size u else CHUNKSIZE in
  (p = NULL ->
     st' = st
     /\ (u = 0
         \/ (find_fit fuel (adjust_size u) st = Some NULL
             /\ mem_max_addr (extender st) < mem_brk (extender st) + grow)))
  /\ (p <> NULL ->
        exists b, find_fit fuel (adjust_size u) st = Some b
          /\ (b <> NULL ->
                p = payload b /\ mem_brk (extender st') = mem_brk (extender st))
          /\ (b = NULL -> mem_brk (extender st') = mem_brk (extender st) + grow)).
Proof.
  intros Hr Hm grow. destruct (h_reachable_quiescent st live Hr) as (H & HQ). split.
  - intros ->. exact (h_mm_malloc_null_ok H live st fuel u st' HQ Hm).
  - intros Hnz. exact (h_mm_malloc_brk H live st fuel u p st' HQ Hm Hnz).
Qed.

(** X26: a payload that [mm_malloc] of the allocator with one list answers
    to a client is 8-aligned and is the payload of a block marked
    allocated that lies between the prologue and the epilogue and has at
    least the adjusted size; for a request of [u <= 2^32 - 24] bytes the
    block has room for [u] bytes between its header and its footer. *)
Theorem handout_mm_malloc_payload (st : state memlib) live fuel u p st' :
  reachable st live ->
  mm_malloc memlib_sbrk fuel u st = Some (p, st') -> p <> NULL ->
  p mod 8 = 0
  /\ allocated st' (p - sizeof_header) = ALLOC
  /\ adjust_size u <= block_size st' (p - sizeof_header)
  /\ prologue st' + sizeof_header <= p - sizeof_header
  /\ p - sizeof_header + block_size st' (p - sizeof_header)
     <= mem_brk (extender st') - sizeof_header
  /\ (0 < u <= 2 ^ 32 - 24 -> u + OVERHEAD <= block_size st' (p - sizeof_header)).
Proof.
  intros Hr Hm Hnz. destruct (h_reachable_quiescent st live Hr) as (H & HQ).
  pose proof (h_reachable_prologue st live Hr) as HP.
  pose proof (h_mm_malloc_prologue memlib_sbrk fuel u st p st' Hm) as HP'.
  destruct (h_mm_malloc_post H live st fuel u p st' HQ Hm)
    as ((H' & [Hok _] & Hnew & _) & _).
  destruct (Hnew Hnz) as (B & HB & Hpay & Ha & Hsz).
  destruct Hok as [HRep _ Hbrk _ _]. destruct H' as [bs' fl']. cbn [blocks] in *.
  pose proof (pre_blocks _ _ (rep_pre _ _ HRep)) as Hb. cbn [blocks] in Hb.
  pose proof (h_blocks_ok_range _ _ _ Hb HB) as [Hlo Hhi].
  pose proof (h_block_aligned st' bs' B Hb ltac:(rewrite HP', HP; reflexivity) HB) as Hal.
  destruct (bo_tagged _ _ Hb B HB) as (T1 & T2 & _).
  unfold payload in Hpay. rewrite sizeof_header_eq in *.
  replace (p - 8) with (b_addr B) by lia.
  rewrite h_block_size_eq, h_allocated_eq, T1, T2, Ha, Hbrk.
  split; [rewrite <- Hpay, Z.add_mod, Hal by lia; reflexivity|].
  split; [reflexivity|]. split; [exact Hsz|]. split; [lia|]. split; [lia|].
  intros Hu. rewrite h_adjust_size_eq, adjust_size_required in Hsz by exact Hu.
  destruct (required_size_bounds u Hu) as (_ & _ & Hreq). lia.
Qed.

(** X27: [mm_malloc] of the allocator with one list never hands out and
    never writes memory that the client holds: the block of every payload
    [q] that the client holds keeps its size and its allocated mark, lies
    apart from the block of the payload that [mm_malloc] answers, and
    every byte of the payload [q] reads as before, whether [mm_malloc]
    answers a payload or null. *)
Theorem handout_mm_malloc_keeps (st : state memlib) live fuel u p st' q :
  reachable st live ->
  mm_malloc memlib_sbrk fuel u st = Some (p, st') -> q ∈ live ->
  block_size st' (q - sizeof_header) = block_size st (q - sizeof_header)
  /\ allocated st' (q - sizeof_header) = ALLOC
  /\ (p <> NULL ->
        q + block_size st (q - sizeof_header) <= p
        \/ p + block_size st' (p - sizeof_header) <= q)
  /\ forall i, q <= i < q + (block_size st (q - sizeof_header) - OVERHEAD) ->
       load8 (heap st') i = load8 (heap st) i.
Proof.
  intros Hr Hm Hq. destruct (h_reachable_quiescent st live Hr) as (H & HQ).
  destruct (h_mm_malloc_post H live st fuel u p st' HQ Hm)
    as ((H' & [Hok _] & Hnew & Hkept) & Hbytes).
  pose proof HQ as [Hok0 _]. pose proof Hok0 as [HRep0 _ _ _ Hlive].
  destruct (Hlive q Hq) as (Bq & HBq & Hpq & Haq).
  destruct (Hkept Bq HBq Haq) as [HBq' Hne].
  destruct Hok as [HRep _ _ _ _]. destruct H' as [bs' fl']. destruct H as [bs fl].
  cbn [blocks] in *.
  pose proof (pre_blocks _ _ (rep_pre _ _ HRep)) as Hb. cbn [blocks] in Hb.
  destruct (bo_tagged _ _ Hb Bq HBq') as (_ & T2 & _).
  split; [|split; [|split]].
  - unfold payload in Hpq. rewrite sizeof_header_eq in *.
    replace (q - 8) with (b_addr Bq) by lia.
    rewrite (h_pre_size _ _ _ _ (rep_pre _ _ HRep) HBq'),
      (h_pre_size _ _ _ _ (rep_pre _ _ HRep0) HBq). reflexivity.
  - unfold payload in Hpq. rewrite sizeof_header_eq in *.
    replace (q - 8) with (b_addr Bq) by lia.
    rewrite h_allocated_eq, T2, Haq. reflexivity.
  - intros Hnz. destruct (Hnew Hnz) as (B & HB & Hpay & Ha & Hsz).
    unfold payload in Hpay, Hpq, Hne. rewrite sizeof_header_eq in *.
    replace (p - 8) with (b_addr B) by lia. replace (q - 8) with (b_addr Bq) by lia.
    rewrite (h_pre_size _ _ _ _ (rep_pre _ _ HRep0) HBq),
      (h_pre_size _ _ _ _ (rep_pre _ _ HRep) HB).
    destruct (contig_disjoint _ _ Bq B (h_blocks_ok_pos _ _ Hb) (bo_contig _ _ Hb) HBq' HB)
      as [Heq|[Hd|Hd]]; [subst Bq; lia|lia|lia].
  - intros i Hi.
    destruct (h_live_payload _ live st q i Hok0 Hq Hi) as (B & HB & Ha & _ & _ & Hrange).
    exact (Hbytes B i HB Ha Hrange).
Qed.

(** X28: [mm_free] of the allocator with one list never changes a byte of
    another payload that the client holds: after [mm_free p] every byte of
    the payload [q <> p] reads as before. *)
Theorem handout_mm_free_keeps (st : state memlib) live p q i :
  reachable st live -> p ∈ live -> q ∈ live -> q <> p ->
  q <= i < q + (block_size st (q - sizeof_header) - OVERHEAD) ->
  load8 (heap (mm_free p st)) i = load8 (heap st) i.
Proof.
  intros Hr Hp Hq Hne Hi. destruct (h_reachable_quiescent st live Hr) as (H & HQ).
  pose proof HQ as [Hok _].
  destruct (h_live_payload H live st q i Hok Hq Hi) as (B & HB & Ha & Hpay & _ & Hrange).
  destruct (h_mm_free_quiescent H live st p HQ Hp) as [_ Hkeep].
  apply (Hkeep B i HB Ha); [congruence|exact Hrange].
Qed.

(** X29: [mm_realloc] of the allocator with one list moves the contents
    and nothing else: byte [j] of the payload it answers is byte [j] of the
    old payload, for every [j] below the size asked for and below the size
    of the old payload, and every byte of another payload that the client
    holds reads as before. *)
Theorem handout_mm_realloc_moves (st : state memlib) live fuel p u q st' :
  reachable st live -> p ∈ live -> 0 <= u <= 2 ^ 32 - 24 ->
  mm_realloc memlib_sbrk fuel p u st = Some (Returned q st') ->
  (forall j, 0 <= j < u -> j < block_size st (p - sizeof_header) - OVERHEAD ->
     load8 (heap st') (q + j) = load8 (heap st) (p + j))
  /\ (forall r i, r ∈ live -> r <> p ->
        r <= i < r + (block_size st (r - sizeof_header) - OVERHEAD) ->
        load8 (heap st') i = load8 (heap st) i).
Proof.
  intros Hr Hp Hu Hre. destruct (h_reachable_quiescent st live Hr) as (H & HQ).
  pose proof HQ as [Hok _].
  destruct (h_mm_realloc_quiescent H live st fuel p u q st' HQ Hp Hu Hre)
    as (_ & Hcopy & Hkeep).
  split; [exact Hcopy|].
  intros r i Hrl Hne Hi.
  destruct (h_live_payload H live st r i Hok Hrl Hi) as (B & HB & Ha & Hpay & _ & Hrange).
  apply (Hkeep B i HB Ha); [congruence|exact Hrange].
Qed.

(** X30: [mm_malloc] of the allocator with one list does not fail while
    the arena has room: for a request of at least one byte on a heap whose
    arena can grow by the larger of the adjusted size and [CHUNKSIZE], with
    fuel for the list, it ends and answers a payload that is not null. *)
Theorem handout_mm_malloc_serves (st : state memlib) live u :
  reachable st live -> u <> 0 ->
  mem_brk (extender st) + (if CHUNKSIZE <? adjust_size u then adjust_size u else CHUNKSIZE)
    <= mem_max_addr (extender st) ->
  exists n, forall fuel, (n < fuel)%nat ->
    exists p st', mm_malloc memlib_sbrk fuel u st = Some (p, st') /\ p <> NULL.
Proof.
  intros Hr Hu Hroom. destruct (h_reachable_quiescent st live Hr) as (H & HQ).
  exists (length (flist H)). intros fuel Hf.
  exact (h_mm_malloc_serves_ok H live st fuel u HQ Hu Hf Hroom).
Qed.

(** ** The statements above, on the run *)

Lemma h_after_init_rep :
  Rep (mkHeap [mkBlk 4104 65520 false] [4104]) (after_init roomy).
Proof.
  assert (Hcap : CHUNKSIZE <= roomy < 2 ^ 31)
    by (split; [vm_compute; discriminate|vm_compute; reflexivity]).
  exact (ok_rep _ _ _ (proj1 (h_after_init_quiescent roomy Hcap))).
Defined.

Lemma h_popped_pre :
  Pre (mkHeap [mkBlk 4104 65520 false] (filter (fun y => y <> 4104) [4104]))
      (list_pop 4104 (after_init roomy)).
Proof.
  assert (Hin : 4104 ∈ [4104]) by left.
  exact (h_pop_pre _ _ _ 4104 (rep_pre _ _ h_after_init_rep) Hin).
Defined.

Lemma h_popped_free : free_block [mkBlk 4104 65520 false] 4104.
Proof. exists (mkBlk 4104 65520 false). split; [left|]. split; reflexivity. Defined.

Lemma h_popped_fresh : 4104 ∉ filter (fun y => y <> 4104) [4104].
Proof.
  intros Hin. apply list_elem_of_filter in Hin as [Hne _]. apply Hne. reflexivity.
Defined.

Lemma handout_list_push_walk_witness :
  Pre (mkHeap [mkBlk 4104 65520 false] (filter (fun y => y <> 4104) [4104]))
      (list_pop 4104 (after_init roomy))
  /\ free_block [mkBlk 4104 65520 false] 4104
  /\ (4104 ∉ filter (fun y => y <> 4104) [4104])
  /\ let st' := list_push 4104 (list_pop 4104 (after_init roomy)) in
     head st' = 4104 /\ prev st' 4104 = NULL
     /\ next st' 4104 = head (list_pop 4104 (after_init roomy))
     /\ list_nodes (S (S (length (filter (fun y => y <> 4104) [4104]))))
          (heap st') (head st')
        = 4104 :: filter (fun y => y <> 4104) [4104].
Proof.
  split; [exact h_popped_pre|]. split; [exact h_popped_free|].
  split; [exact h_popped_fresh|].
  exact (handout_list_push_walk _ _ _ 4104 h_popped_pre h_popped_free h_popped_fresh).
Defined.

Lemma handout_list_pop_walk_witness :
  Pre (mkHeap [mkBlk 4104 65520 false] [4104]) (after_init roomy) /\ 4104 ∈ [4104]
  /\ let st' := list_pop 4104 (after_init roomy) in
     list_nodes 2 (heap st') (head st') = filter (fun y => y <> 4104) [4104]
     /\ prev st' 4104 = NULL
     /\ next st' 4104
        = (if head (after_init roomy) =? 4104 then next (after_init roomy) 4104 else NULL).
Proof.
  assert (Hin : 4104 ∈ [4104]) by left.
  split; [exact (rep_pre _ _ h_after_init_rep)|]. split; [exact Hin|].
  exact (handout_list_pop_walk _ _ _ 4104 (rep_pre _ _ h_after_init_rep) Hin).
Defined.

Lemma handout_find_fit_complete_witness :
  Rep (mkHeap [mkBlk 4104 65520 false] [4104]) (after_init roomy)
  /\ (length [4104] < 2)%nat
  /\ exists b, find_fit 2 120 (after_init roomy) = Some b
       /\ (b = NULL ->
             forall B, B ∈ [mkBlk 4104 65520 false] -> b_alloc B = false -> b_size B < 120)
       /\ (b <> NULL ->
             free_block [mkBlk 4104 65520 false] b
             /\ exists l1 l2, [4104] = l1 ++ b :: l2
                  /\ (forall x, x ∈ l1 -> block_size (after_init roomy) x < 120)
                  /\ 120 <= block_size (after_init roomy) b).
Proof.
  assert (Hl : (length [4104] < 2)%nat) by (cbn [length]; lia).
  split; [exact h_after_init_rep|]. split; [exact Hl|].
  exact (handout_find_fit_complete _ _ _ 2%nat 120 h_after_init_rep Hl).
Defined.

Lemma handout_mm_init_layout_witness :
  memlib_sbrk CHUNKSIZE (extender (fresh roomy)) = (4096, mkMemlib 69632 (4096 + roomy))
  /\ 0 < 4096 /\ 4096 + CHUNKSIZE <= 2 ^ 64
  /\ fst (mm_init memlib_sbrk (fresh roomy)) = 0
  /\ prologue (after_init roomy) = 4096
  /\ Rep (mkHeap [mkBlk (4096 + 8) (CHUNKSIZE - OVERHEAD) false] [4096 + 8])
         (after_init roomy)
  /\ heap_blocks 2 (heap (after_init roomy)) (4096 + sizeof_header) = [4096 + 8]
  /\ list_nodes 2 (heap (after_init roomy)) (head (after_init roomy)) = [4096 + 8].
Proof.
  assert (Hs : memlib_sbrk CHUNKSIZE (extender (fresh roomy))
               = (4096, mkMemlib 69632 (4096 + roomy))) by reflexivity.
  assert (HP : 0 < 4096) by lia.
  assert (Hfit : 4096 + CHUNKSIZE <= 2 ^ 64) by (vm_compute; discriminate).
  split; [exact Hs|]. split; [exact HP|]. split; [exact Hfit|].
  pose proof (handout_mm_init_layout memlib_sbrk (fresh roomy) 4096 _ Hs) as H.
  cbv zeta in H. destruct H as [_ H].
  destruct (H HP Hfit) as (H1 & H2 & _ & H4 & H5 & H6).
  split; [exact H1|]. split; [exact H2|]. split; [exact H4|]. split; [exact H5|exact H6].
Defined.

Lemma h_placed_rep :
  Rep (mkHeap ([] ++ mkBlk 4104 120 true :: mkBlk (4104 + 120) (65520 - 120) false :: [])
              ((4104 + 120) :: filter (fun y => y <> 4104) [4104]))
      (place 4104 120 (after_init roomy)).
Proof.
  assert (H1 : 0 < 120 <= 65520) by lia.
  assert (H2 : 120 mod 8 = 0) by reflexivity.
  pose proof (h_place_rep (after_init roomy) [] [] _ 4104 65520 120 h_after_init_rep H1 H2)
    as H.
  cbv zeta in H. destruct H as ((_ & _ & H) & _).
  replace (MIN_BLOCK_SIZE <=? 65520 - 120) with true in H by reflexivity.
  exact H.
Defined.

Lemma h_freed_unmerged_rep :
  Rep (mkHeap ([] ++ mkBlk 4104 120 false :: [mkBlk (4104 + 120) (65520 - 120) false])
              (4104 :: (4104 + 120) :: filter (fun y => y <> 4104) [4104]))
      freed_unmerged.
Proof.
  assert (H1 : MIN_BLOCK_SIZE <= 120) by (vm_compute; discriminate).
  pose proof (h_free_mark (place 4104 120 (after_init roomy)) [] 4104 120
                [mkBlk (4104 + 120) (65520 - 120) false] _ h_placed_rep H1) as H.
  cbv zeta in H. destruct H as [H _]. exact H.
Defined.

Lemma h_alloc_before_nil : alloc_before [].
Proof. intros l1' P HP. destruct l1'; discriminate HP. Defined.

Lemma handout_coalesce_spec_witness :
  Rep (mkHeap ([] ++ mkBlk 4104 120 false :: [mkBlk (4104 + 120) (65520 - 120) false])
              (4104 :: (4104 + 120) :: filter (fun y => y <> 4104) [4104]))
      freed_unmerged
  /\ fst (coalesce 4104 freed_unmerged) = 4104
  /\ Rep (mkHeap ([] ++ mkBlk 4104 (120 + (65520 - 120)) false :: [])
            (4104 :: filter (fun y => y <> 4104 + 120)
                       (filter (fun y => y <> 4104)
                          (4104 :: (4104 + 120) :: filter (fun y => y <> 4104) [4104]))))
         (snd (coalesce 4104 freed_unmerged)).
Proof.
  split; [exact h_freed_unmerged_rep|].
  pose proof (handout_coalesce_spec freed_unmerged [] 4104 120
                [mkBlk (4104 + 120) (65520 - 120) false] _ h_freed_unmerged_rep) as H.
  destruct H as (_ & H & _).
  destruct (H (4104 + 120) (65520 - 120) [] h_alloc_before_nil eq_refl) as (H1 & H2 & _).
  split; [exact H1|exact H2].
Defined.

Lemma handout_place_spec_witness :
  Rep (mkHeap ([] ++ mkBlk 4104 65520 false :: []) [4104]) (after_init roomy)
  /\ 0 < 32 <= 65520 /\ 32 mod 8 = 0
  /\ Rep (mkHeap ([] ++ mkBlk 4104 32 true :: mkBlk (4104 + 32) (65520 - 32) false :: [])
            ((4104 + 32) :: filter (fun y => y <> 4104) [4104]))
         (place 4104 32 (after_init roomy)).
Proof.
  assert (H1 : 0 < 32 <= 65520) by lia.
  assert (H2 : 32 mod 8 = 0) by reflexivity.
  split; [exact h_after_init_rep|]. split; [exact H1|]. split; [exact H2|].
  pose proof (handout_place_spec (after_init roomy) [] [] _ 4104 65520 32
                h_after_init_rep H1 H2) as H.
  cbv zeta in H. destruct H as ((_ & _ & H) & _).
  replace (MIN_BLOCK_SIZE <=? 65520 - 32) with true in H by reflexivity.
  exact H.
Defined.

Lemma h_after_init_reachable : reachable (after_init roomy) [].
Proof.
  apply reach_init. split; [vm_compute; discriminate|vm_compute; reflexivity].
Defined.

Lemma h_run_first_malloc :
  mm_malloc memlib_sbrk 4 100 (after_init roomy) = Some (4112, run_first).
Proof. vm_compute. reflexivity. Defined.

Lemma h_run_first_reachable : reachable run_first [4112].
Proof.
  refine (reach_malloc _ _ _ _ _ _ h_after_init_reachable _ h_run_first_malloc).
  split; [lia|vm_compute; reflexivity].
Defined.

Lemma h_run_second_malloc :
  mm_malloc memlib_sbrk 4 200 run_first = Some (4232, run_second).
Proof. vm_compute. reflexivity. Defined.

Lemma h_run_second_reachable : reachable run_second [4232; 4112].
Proof.
  refine (reach_malloc _ _ _ _ _ _ h_run_first_reachable _ h_run_second_malloc).
  split; [lia|vm_compute; reflexivity].
Defined.


Lemma h_run_written_reachable : reachable run_written [4232; 4112].
Proof.
  assert (Hp : 4112 ∈ [4232; 4112]) by (right; left).
  refine (reach_write run_second _ 4112 4112 65 h_run_second_reachable Hp _).
  split; [lia|vm_compute; reflexivity].
Defined.

Lemma h_run_moved_realloc :
  mm_realloc memlib_sbrk 4 4112 300 run_written = Some (Returned 4448 (snd run_moved)).
Proof. vm_compute. reflexivity. Defined.


Lemma handout_mm_malloc_cases_witness :
  reachable run_first [4112]
  /\ mm_malloc memlib_sbrk 4 200 run_first = Some (4232, run_second)
  /\ 4232 <> NULL
  /\ exists b, find_fit 4 (adjust_size 200) run_first = Some b
       /\ (b <> NULL ->
             4232 = payload b
             /\ mem_brk (extender run_second) = mem_brk (extender run_first))
       /\ (b = NULL ->
             mem_brk (extender run_second)
             = mem_brk (extender run_first)
               + (if CHUNKSIZE <? adjust_size 200 then adjust_size 200 else CHUNKSIZE)).
Proof.
  assert (Hn : 4232 <> NULL) by discriminate.
  split; [exact h_run_first_reachable|]. split; [exact h_run_second_malloc|].
  split; [exact Hn|].
  exact (proj2 (handout_mm_malloc_cases _ _ _ _ _ _ h_run_first_reachable
                  h_run_second_malloc) Hn).
Defined.

Lemma handout_mm_malloc_payload_witness :
  reachable run_first [4112]
  /\ mm_malloc memlib_sbrk 4 200 run_first = Some (4232, run_second) /\ 4232 <> NULL
  /\ 4232 mod 8 = 0
  /\ allocated run_second (4232 - sizeof_header) = ALLOC
  /\ adjust_size 200 <= block_size run_second (4232 - sizeof_header).
Proof.
  assert (Hn : 4232 <> NULL) by discriminate.
  split; [exact h_run_first_reachable|]. split; [exact h_run_second_malloc|].
  split; [exact Hn|].
  pose proof (handout_mm_malloc_payload _ _ _ _ _ _ h_run_first_reachable
                h_run_second_malloc Hn) as (H1 & H2 & H3 & _).
  split; [exact H1|]. split; [exact H2|exact H3].
Defined.

Lemma handout_mm_malloc_keeps_witness :
  reachable run_first [4112]
  /\ mm_malloc memlib_sbrk 4 200 run_first = Some (4232, run_second)
  /\ 4112 ∈ [4112]
  /\ block_size run_second (4112 - sizeof_header)
     = block_size run_first (4112 - sizeof_header)
  /\ allocated run_second (4112 - sizeof_header) = ALLOC
  /\ (4232 <> NULL ->
        4112 + block_size run_first (4112 - sizeof_header) <= 4232
        \/ 4232 + block_size run_second (4232 - sizeof_header) <= 4112)
  /\ forall i,
       4112 <= i < 4112 + (block_size run_first (4112 - sizeof_header) - OVERHEAD) ->
       load8 (heap run_second) i = load8 (heap run_first) i.
Proof.
  assert (Hq : 4112 ∈ [4112]) by left.
  split; [exact h_run_first_reachable|]. split; [exact h_run_second_malloc|].
  split; [exact Hq|].
  exact (handout_mm_malloc_keeps _ _ _ _ _ _ 4112 h_run_first_reachable
           h_run_second_malloc Hq).
Defined.

Lemma handout_mm_free_keeps_witness :
  reachable run_second [4232; 4112] /\ 4112 ∈ [4232; 4112] /\ 4232 ∈ [4232; 4112]
  /\ 4232 <> 4112
  /\ 4232 <= 4300 < 4232 + (block_size run_second (4232 - sizeof_header) - OVERHEAD)
  /\ load8 (heap (mm_free 4112 run_second)) 4300 = load8 (heap run_second) 4300.
Proof.
  assert (Hp : 4112 ∈ [4232; 4112]) by (right; left).
  assert (Hq : 4232 ∈ [4232; 4112]) by left.
  assert (Hne : 4232 <> 4112) by discriminate.
  assert (Hi : 4232 <= 4300
               < 4232 + (block_size run_second (4232 - sizeof_header) - OVERHEAD))
    by (split; [lia|vm_compute; reflexivity]).
  split; [exact h_run_second_reachable|]. split; [exact Hp|]. split; [exact Hq|].
  split; [exact Hne|]. split; [exact Hi|].
  exact (handout_mm_free_keeps _ _ 4112 4232 4300 h_run_second_reachable Hp Hq Hne Hi).
Defined.

Lemma handout_mm_realloc_moves_witness :
  reachable run_written [4232; 4112] /\ 4112 ∈ [4232; 4112] /\ 0 <= 300 <= 2 ^ 32 - 24
  /\ mm_realloc memlib_sbrk 4 4112 300 run_written = Some (Returned 4448 (snd run_moved))
  /\ (forall j, 0 <= j < 300 ->
        j < block_size run_written (4112 - sizeof_header) - OVERHEAD ->
        load8 (heap (snd run_moved)) (4448 + j) = load8 (heap run_written) (4112 + j))
  /\ (forall r i, r ∈ [4232; 4112] -> r <> 4112 ->
        r <= i < r + (block_size run_written (r - sizeof_header) - OVERHEAD) ->
        load8 (heap (snd run_moved)) i = load8 (heap run_written) i).
Proof.
  assert (Hp : 4112 ∈ [4232; 4112]) by (right; left).
  assert (Hu : 0 <= 300 <= 2 ^ 32 - 24) by lia.
  split; [exact h_run_written_reachable|]. split; [exact Hp|]. split; [exact Hu|].
  split; [exact h_run_moved_realloc|].
  exact (handout_mm_realloc_moves _ _ _ _ _ _ _ h_run_written_reachable Hp Hu
           h_run_moved_realloc).
Defined.

Lemma handout_mm_malloc_serves_witness :
  reachable (after_init roomy) [] /\ 100 <> 0
  /\ mem_brk (extender (after_init roomy))
     + (if CHUNKSIZE <? adjust_size 100 then adjust_size 100 else CHUNKSIZE)
     <= mem_max_addr (extender (after_init roomy))
  /\ exists n, forall fuel, (n < fuel)%nat ->
       exists p st', mm_malloc memlib_sbrk fuel 100 (after_init roomy) = Some (p, st')
                     /\ p <> NULL.
Proof.
  assert (Hu : 100 <> 0) by discriminate.
  assert (Hroom : mem_brk (extender (after_init roomy))
                  + (if CHUNKSIZE <? adjust_size 100 then adjust_size 100 else CHUNKSIZE)
                  <= mem_max_addr (extender (after_init roomy)))
    by (vm_compute; discriminate).
  split; [exact h_after_init_reachable|]. split; [exact Hu|]. split; [exact Hroom|].
  exact (handout_mm_malloc_serves _ _ 100 h_after_init_reachable Hu Hroom).
Defined.
